(* ===== verification/_CoqProject ===== *)
-Q . S2P
Prelude.v
Bytes.v
Golib.v
Float.v
Index.v
Checksum.v
Digest.v
Wal.v
WalFormat.v
WalInv.v
GroupCommit.v
Crash.v
WalProps.v
Segment.v
Manager.v
MgrInv.v
MgrOpen.v
MgrProps.v
MgrConc.v
MgrConcInv.v
MgrConcProps.v
MgrCrash.v
Service.v
ConsumerOffset.v
ConsumerApp.v
Protocol.v
Server.v
Concurrent.v
ConcurrentMain.v
ServerNet.v
ServerLife.v
ServerIdle.v
Client.v
Programs.v
ServerCrash.v
Bench.v
BenchProps.v
Format.v
ErrorText.v
Report.v
ReportProps.v
MgrLife.v
MgrClosed.v
Raft.v
RaftLoops.v
RaftStorage.v
RaftCluster.v
RaftLog.v
RaftInv.v
RaftNode.v
RaftSteps.v
RaftReplicate.v
RaftAppend.v
RaftRun.v
RaftSafety.v
RaftProgress.v
