(* ===== verification/Prelude.v ===== *)
(** * Verification of the WAL-based event log

    The program is a durable, append-only log of opaque records: a library that
    stores the log in segment files, a TCP server and client for it, and a Raft
    consensus layer meant to replicate it.  This library models its Go code and
    proves what makes each part correct.  Paths below are under [src/].

    ** The program and where it is modelled

    - [internal/checksum]: the pluggable [Checksum] and its algorithms.
      [Checksum.v] (interface as a class, CRC32C, the [hash.Hash] adapters, CRC-32
      IEEE, CRC-64, Adler-32, FNV-1a) and [Digest.v] (MD5, SHA-1, SHA-256).
    - [internal/inmemorystore]: the sparse offset index and its file.  [Index.v].
    - [internal/wal]: the log file.  [Wal.v] has [WALWriter] and [WALReader];
      [WalFormat.v] the record format and [WalInv.v] the writer's invariant;
      [GroupCommit.v] any number of goroutines inside [Write], one step per critical
      section; [Crash.v] crashes and reopenings of that system; [WalProps.v] the
      single-caller properties.
    - [internal/segment]: [Segment.v], [Manager.v] (segments, rolling, routing,
      retention, discovery), [MgrInv.v] and [MgrOpen.v] (invariant, opening), and
      [MgrProps.v].  [MgrConc.v] interleaves any number of [Append], [ReadAt] and
      [RunRetention] calls on one manager, down to the iterations of a read and the
      read references of a segment; [MgrConcInv.v] has its invariant (the one of
      [MgrInv.v] with commits in flight) and [MgrConcProps.v] the theorems;
      [MgrCrash.v] crashes that system and opens the directory again.
      [Service.v] states [ManagerInterface] and retention as classes with their laws,
      shows that the manager meets them, and verifies [reader.go] against the class.
      [MgrLife.v] runs the retention goroutine and [Close] beside appends, and
      [MgrClosed.v] follows the calls that come after [Close].
    - [internal/consumeroffset]: [ConsumerOffset.v].
    - [internal/protocol], [internal/network], [client]: [Protocol.v] (frames over a
      connection), [Server.v] (handlers over any log service, one connection),
      [ServerNet.v] (connections side by side), [ServerLife.v] (options, accept loop,
      wait group, shutdown), [ServerIdle.v] (one handler against the clock: bytes that
      arrive in pieces, the read deadline), [Client.v] (calls against any peer, then
      against the server), [ErrorText.v] (the texts of the log's errors, and what is
      left of them over the wire).
    - [cmd]: [ConsumerApp.v] (the consumer of [cmd/concurrent], alone and with
      crashes), [Concurrent.v] (that program with its producers), [ConcurrentMain.v]
      (its [main], with the metrics goroutine and the summary), [Programs.v]
      (the server, client and retention programs and the demonstration) and
      [ServerCrash.v] (a power loss under the server program).
    - [cmd/benchmark]: [Bench.v] (flags, percentiles, and the load as a step function
      of producers, consumers, sampler and clock), [BenchProps.v] (its invariant and
      theorems), [Report.v] (results and the whole HTML page) and [ReportProps.v] (a
      reader of HTML and the structure of the page).
    - [internal/raft]: [Raft.v] (a node and its handlers), [RaftLoops.v] (its timers,
      background loops, [Run] and [Stop]), [RaftStorage.v] (the [Storage] interface
      and both implementations), [RaftCluster.v] (nodes, network,
      crashes, as executable events), [RaftLog.v], [RaftInv.v], [RaftNode.v],
      [RaftSteps.v], [RaftReplicate.v], [RaftAppend.v], [RaftRun.v] (the invariant,
      kept by every event), [RaftSafety.v] (the guarantees) and [RaftProgress.v] (what a
      cluster can always go on to do).

    This file has the vocabulary all of them share; [Bytes.v] big-endian encodings and
    lists of bytes; [Golib.v] what the code uses of Go's library: [sort.Search] and
    files with explicit fsync; [Float.v] [float64] as IEEE 754 arithmetic with bounds on
    its rounding; [Format.v] the texts [fmt] and [time] print.

    ** How the code is read

    Go's [uint64], [uint32] and [int64] are [Z] with each wrap-around written out
    ([u64], [u32], [i64]).  Methods take and return the receiver.  A system call that
    can fail takes its outcome as an argument, so a theorem that quantifies over the
    outcomes covers every failure.  Errors are values of [error]; a message with
    formatted numbers keeps its fixed text only.  A file is its bytes and the length of
    its fsynced prefix; a crash keeps that prefix and any part of the rest.  Loops that
    are not structural take fuel and return [None] when it runs out; the fuel is one
    round per byte of the file or connection being scanned (every round consumes at
    least one), and [scans_terminate], [server_refines] and the other functional
    theorems show that it is never exhausted.  [commitLocked] for a lone caller needs
    two rounds.  Concurrency is interleaving of critical sections: code that holds a
    mutex is one step, and [file.Sync], which runs unlocked, separates two.  Where the
    scheduler's choices are simple the step is an executable function of an event
    ([mgr_step], [life_step], [loop_step], [prog_step], [load_step], [cmain_step],
    [exec]), otherwise an inductive relation
    ([gc_step], [conc_step], [net_step], [world_step]).  Blocking calls are steps that
    are not enabled; that they get enabled again is a theorem of its own
    ([writes_return], [retention_wait_ends], [accept_loop_exits], [manager_Close_clean],
    [Stop_never_hangs]).

    ** What the theorems show

    - Durability ([Crash], [WalProps], [MgrProps]): an acknowledged record survives any
      number of crashes at its offset, the index never refers to data that is not
      durable, every writer returns, recovery keeps exactly the whole records, closing
      loses nothing, and no two writes share an offset; all this also when the whole
      manager crashes during concurrent appends, rolls and retention ([MgrCrash]);
      and the server program, started again after a power loss at any moment, serves
      the very log its clients were answered from and at most the one record whose
      append was under way ([ServerCrash]).
    - Refinement of one list of records: [ReadAt] and [Write] of the log file, [Append],
      [ReadAt] and retention of the segmented log, the server, and the client end to
      end, streaming included; sequentially, and for the manager and the server in
      every interleaving: concurrent reads return the record that the history of the
      log has at their offset, a read in progress is never cut off by retention, a
      stream is a contiguous piece of the history, and every connection is answered as
      by a server that handles one request at a time.
    - Shutdown and restart: [Close] of the manager waits for the retention goroutine,
      which can always finish, and loses nothing; [Close] of the server leaves every connection answered to
      its end, the accept loop ends, the server program reopens the very log its
      clients were answered from, and the loops of a Raft node always reach their end.
      A handler returns whatever its client does once an idle timeout is set, having
      answered exactly the requests that came in time ([ServerIdle]); without one a
      silent client keeps it for ever.  An append caught between its two phases by
      [Close] of the manager is rightly acknowledged ([MgrClosed]).
    - Integrity: CRC32C equals its bit-serial definition and detects every burst of up
      to four bytes; a damaged record is reported, not returned.
    - Consumers: the cursor sees every record once, falling out of retention is an
      error that names where to resume, also over the wire, where only its text is
      left ([ErrorText]), committed consumer offsets are atomic and lag
      by a bounded amount; a consumer with crashes at any point delivers every event at
      least once and in order, repeating at most one per crash; the concurrent program
      delivers every event to every consumer exactly once, reports that, and can always finish.
    - The benchmark: no run fails, a load that returns has produced and read every
      message with latencies inside the run, it can always return, percentiles have the
      ranks of the integer computation although their indices are floating-point, and
      the report is a well-formed page whatever was measured.
    - Raft: one leader per term, one vote per term and member, log matching, leader
      completeness and state machine safety, in all runs with crashes and an unreliable
      network; indices in range; what [AppendEntries] does when it accepts and when it
      refuses; from every reachable state a cluster of at least two can elect a leader
      in a new term, repair every log and deliver a new command at every member;
      atomicity of both storages.
    - Theorems marked as defects or limits give concrete runs in which the code does
      not do what it promises (a half-failed write, a damaged length of a skipped
      record, rolling without fsync, a failed batch commit, an aborted stream, a
      truncated record while streaming, a read of a record that a crash then takes
      back, a handler started after [Close] returned, an append that a closed manager
      acknowledges, a lag below zero, a failed
      [Save], a cluster of one, repeating bar colours).

    ** Assumptions

    In [GroupCommit] and the theorems built on it a failing [write] leaves no bytes
    behind (the defect [partial_write_hides_acked] shows why it matters), and files stay
    below [2^63] bytes.  [manager_survives_crash] takes sealed segments as fsynced
    (see [roll_can_leave_hole]).  Raft runs have [Save] and [Load] succeed and terms below
    [2^64]; [encoding/gob] is a parameter with its round trip as hypothesis.  The text of
    an error ([render]) is a parameter of the server; [ErrorText] fixes it for the error
    types under [src/].  [server_survives_crash] starts from a log whose files are
    fsynced (a new log is, and a served one stays so between appends), and takes appends
    one at a time (appends that share a flush crash in [MgrCrash]).

    ** Not modelled

    The bytes of sockets below a connection ([net.Listen], [net.DialTimeout] and
    [Accept] are outcomes); wall-clock time (a timeout may fire at any time, the
    election deadline is computed from a given time and random number) except in
    [ServerIdle], where the clock decides which bytes are in time and writes do not
    wait for the client; the entry of a new file in its directory, which is durable at
    once (the code fsyncs the directory before it goes on); log output and the progress
    lines of the benchmark.  The benchmark's clock readings and memory statistics are inputs, its
    clock does not go back during a run, and the percentile theorems cover up to [2^47]
    samples.
    [Addr], [Close] of a reader handle, the injectable clock of [Config] (times are
    arguments), [State.String] and the tickers themselves have no state.  That elections
    succeed under fair timeouts, rather than under the chosen ones of [raft_can_deliver],
    is a statement about probabilities of random timeouts that the code does not bound. *)

From Stdlib Require Import ZArith Lia Strings.String.
From stdpp Require Import base list list_numbers numbers option sorting.
From coqutil Require Import Byte.

Local Open Scope Z_scope.

(** ** Go machine integers

    A Go [uintN] / [intN] value is a [Z] kept in range; each arithmetic
    operation whose result may leave the range is wrapped explicitly. *)

Definition u32 (z : Z) : Z := z mod 2 ^ 32.
Definition u64 (z : Z) : Z := z mod 2 ^ 64.
Definition i64 (z : Z) : Z := (z + 2 ^ 63) mod 2 ^ 64 - 2 ^ 63.

(** [^uint64(0)], the largest [uint64]. *)
Definition MaxUint64 : Z := 2 ^ 64 - 1.

Definition is_u32 (z : Z) : Prop := 0 <= z < 2 ^ 32.
Definition is_u64 (z : Z) : Prop := 0 <= z < 2 ^ 64.
Definition is_i64 (z : Z) : Prop := - 2 ^ 63 <= z < 2 ^ 63.

Lemma u32_small z : is_u32 z -> u32 z = z.
Proof. intros. apply Z.mod_small. done. Qed.

Lemma u64_small z : is_u64 z -> u64 z = z.
Proof. intros. apply Z.mod_small. done. Qed.

Lemma u64_range z : is_u64 (u64 z).
Proof. apply Z.mod_pos_bound. lia. Qed.

Lemma u32_range z : is_u32 (u32 z).
Proof. apply Z.mod_pos_bound. lia. Qed.

Lemma i64_small z : is_i64 z -> i64 z = z.
Proof. unfold is_i64, i64. intros. rewrite Z.mod_small; lia. Qed.

Lemma i64_range z : is_i64 (i64 z).
Proof.
  unfold is_i64, i64. pose proof (Z.mod_pos_bound (z + 2 ^ 63) (2 ^ 64)). lia.
Qed.

(** Reading a [uint64] as an [int64] and back is the identity. *)
Lemma u64_i64 z : is_i64 z -> i64 (u64 z) = z.
Proof.
  unfold is_i64, i64, u64. intros Hz.
  rewrite Zplus_mod_idemp_l, Z.mod_small; lia.
Qed.

(** ** Fallible results *)

(** The errors of the code as values. [fmt.Errorf "ctx: %w"] is [Wrap];
    a plain [fmt.Errorf] message is [Msg], or [Text] when it quotes a run-time
    text; the two exported error structs
    have their own constructors with the fields they carry. *)
Inductive error : Type :=
| EOF
| UnexpectedEOF
| Errno (code : Z)
| Msg (text : string)
| Text (prefix : string) (arg : list byte)
| Wrap (ctx : string) (cause : error)
| CorruptionError (Offset : Z) (Expected Got : list byte) (Reason : string)
| OffsetOutOfRetentionError (Requested Earliest : Z).

(** [errors.Is(err, io.EOF)]: follow the [%w] chain. *)
Fixpoint is_EOF (e : error) : bool :=
  match e with
  | EOF => true
  | Wrap _ c => is_EOF c
  | _ => false
  end.

Inductive result (A : Type) : Type :=
| Ok (a : A)
| Err (e : error).
Arguments Ok {A} a.
Arguments Err {A} e.

(** Outcome of a system call that carries no data: [None] is success. *)
Abbreviation outcome := (option error).

(** Outcome of a [Write]: complete, or failing after [k] bytes reached the file. *)
Inductive write_outcome : Type :=
| WOk
| WFail (k : nat) (e : error).

(** ** Development tactics *)

Create HintDb golog.
Create Rewrite HintDb golen.

(** Case split on the first [if]/[match] scrutinee of the goal, remembering it. *)
Ltac case_if :=
  match goal with
  | |- context [if ?b then _ else _] => destruct b eqn:?
  end.

(** Case split on an [if] in a hypothesis. *)
Ltac case_if_in H :=
  match type of H with
  | context [if ?b then _ else _] => let E := fresh "Hif" in destruct b eqn:E in H
  end.

(** Turn boolean comparisons in the hypotheses into propositions. *)
Ltac bprop :=
  repeat match goal with
  | H : (_ <=? _)%Z = true |- _ => apply Z.leb_le in H
  | H : (_ <=? _)%Z = false |- _ => apply Z.leb_gt in H
  | H : (_ <? _)%Z = true |- _ => apply Z.ltb_lt in H
  | H : (_ <? _)%Z = false |- _ => apply Z.ltb_ge in H
  | H : (_ =? _)%Z = true |- _ => apply Z.eqb_eq in H
  | H : (_ =? _)%Z = false |- _ => apply Z.eqb_neq in H
  | H : (_ && _)%bool = true |- _ => apply andb_true_iff in H as [? ?]
  | H : (_ || _)%bool = false |- _ => apply orb_false_iff in H as [? ?]
  end.
Ltac blia := bprop; lia.

(** Open the fixed-width abbreviations and call [lia]. *)
Ltac glia := unfold is_u32, is_u64, is_i64, MaxUint64 in *; lia.

#[export] Hint Resolve u64_range u32_range i64_range : golog.

(** ** Sorted lists by index *)

Lemma StronglySorted_lookup {A} (R : A -> A -> Prop) (l : list A) i j x y :
  StronglySorted R l -> (i < j)%nat -> l !! i = Some x -> l !! j = Some y -> R x y.
Proof.
  intros Hs Hij Hx Hy.
  rewrite <- (take_drop j l) in Hs.
  eapply StronglySorted_app_1_elem_of; [exact Hs| |].
  - apply list_elem_of_lookup. exists i. by rewrite lookup_take_lt.
  - apply list_elem_of_lookup. exists 0%nat. rewrite lookup_drop. by rewrite Nat.add_0_r.
Qed.

Lemma StronglySorted_fmap {A B} (R : A -> A -> Prop) (R' : B -> B -> Prop) (f : A -> B) l :
  (forall x y, R x y -> R' (f x) (f y)) ->
  StronglySorted R l -> StronglySorted R' (f <$> l).
Proof.
  intros Hf. induction 1 as [|x l Hs IH Hall]; [constructor|].
  constructor; [done|]. apply Forall_fmap. eapply Forall_impl; [done|]. intros; by apply Hf.
Qed.

(** [nth] with a default agrees with [!!] in range. *)
Lemma lookup_nth {A} (l : list A) i d : (i < length l)%nat -> l !! i = Some (nth i l d).
Proof. intros Hi. destruct (nth_lookup_or_length l i d) as [H|H]; [done|lia]. Qed.
