(* ===== verification/Bytes.v ===== *)
(** * Bytes: big-endian encodings ([encoding/binary]) and slices of byte lists *)

From Stdlib Require Import ZArith Lia.
From Stdlib Require Strings.Byte.
From stdpp Require Import base list list_numbers numbers option.
From coqutil Require Import Byte.
From S2P Require Import Prelude.

Local Open Scope Z_scope.

(** Decidable equality, for [bytes.Equal]. *)
#[export] Instance byte_eq_decision : EqDecision byte := Strings.Byte.byte_eq_dec.

(** [binary.BigEndian.PutUintN]: most significant byte first. *)
Fixpoint be_encode (n : nat) (v : Z) : list byte :=
  match n with
  | O => []
  | S n' => byte.of_Z (Z.shiftr v (8 * Z.of_nat n')) :: be_encode n' v
  end.

(** [binary.BigEndian.UintN]: [b0 << 8(n-1) | ... | b(n-1)]. *)
Definition be_decode (bs : list byte) : Z :=
  fold_left (fun acc b => Z.lor (Z.shiftl acc 8) (byte.unsigned b)) bs 0.

Definition PutUint32 (v : Z) : list byte := be_encode 4 v.
Definition PutUint64 (v : Z) : list byte := be_encode 8 v.
Definition Uint32 (bs : list byte) : Z := be_decode (take 4 bs).
Definition Uint64 (bs : list byte) : Z := be_decode (take 8 bs).

(** ** Arithmetic reading of the encodings *)

(** Concatenating a byte below a word is multiply-and-add. *)
Lemma lor_shift_byte acc b :
  Z.lor (Z.shiftl acc 8) (byte.unsigned b) = acc * 256 + byte.unsigned b.
Proof.
  pose proof (byte.unsigned_range b).
  rewrite Z.shiftl_mul_pow2 by lia.
  change 256 with (2 ^ 8). rewrite Z.add_nocarry_lxor, Z.lxor_lor; try done.
  all: apply Z.bits_inj'; intros i Hi; rewrite Z.land_spec, Z.bits_0;
    rewrite <- Z.shiftl_mul_pow2, Z.shiftl_spec by lia;
    destruct (Z.ltb_spec i 8);
    [ rewrite (Z.testbit_neg_r acc) by lia; done | ];
    rewrite <- (byte.wrap_unsigned b); unfold byte.wrap;
    rewrite (Z.mod_pow2_bits_high _ 8 i) by lia; apply andb_false_r.
Qed.

Lemma be_decode_fold bs acc :
  fold_left (fun a b => Z.lor (Z.shiftl a 8) (byte.unsigned b)) bs acc =
  acc * 2 ^ (8 * Z.of_nat (length bs)) + be_decode bs.
Proof.
  unfold be_decode. revert acc.
  induction bs as [|b bs IH]; intros acc; simpl fold_left.
  - change (2 ^ (8 * Z.of_nat (length (@nil byte)))) with 1. lia.
  - rewrite IH, (IH (Z.lor (Z.shiftl 0 8) (byte.unsigned b))), !lor_shift_byte.
    cbn [length]. rewrite Nat2Z.inj_succ.
    replace (8 * Z.succ (Z.of_nat (length bs)))
      with (8 + 8 * Z.of_nat (length bs)) by lia.
    rewrite Z.pow_add_r by lia. change (2 ^ 8) with 256. lia.
Qed.

Lemma be_decode_cons b bs :
  be_decode (b :: bs) = byte.unsigned b * 2 ^ (8 * Z.of_nat (length bs)) + be_decode bs.
Proof.
  unfold be_decode at 1. simpl fold_left.
  rewrite be_decode_fold, lor_shift_byte. lia.
Qed.

Lemma be_decode_range bs : 0 <= be_decode bs < 2 ^ (8 * Z.of_nat (length bs)).
Proof.
  induction bs as [|b bs IH]; [done|].
  rewrite be_decode_cons. cbn [length]. rewrite Nat2Z.inj_succ.
  replace (8 * Z.succ (Z.of_nat (length bs)))
    with (8 + 8 * Z.of_nat (length bs)) by lia.
  rewrite Z.pow_add_r by lia. change (2 ^ 8) with 256.
  pose proof (byte.unsigned_range b). nia.
Qed.

Lemma length_be_encode n v : length (be_encode n v) = n.
Proof. induction n; simpl; congruence. Qed.

(** Decoding what was encoded gives the value modulo the width. *)
Lemma be_decode_encode n v : be_decode (be_encode n v) = v mod 2 ^ (8 * Z.of_nat n).
Proof.
  induction n as [|n IH]; [by rewrite Z.mod_1_r|].
  cbn [be_encode].
  rewrite be_decode_cons, length_be_encode, IH, byte.unsigned_of_Z, Nat2Z.inj_succ.
  unfold byte.wrap. rewrite Z.shiftr_div_pow2 by lia.
  replace (8 * Z.succ (Z.of_nat n)) with (8 * Z.of_nat n + 8) by lia.
  rewrite Z.pow_add_r by lia.
  rewrite Z.rem_mul_r by (try apply Z.pow_nonzero; lia). lia.
Qed.

(** Encodings only see the low bits of the value. *)
Lemma be_encode_mod n k v :
  (n <= k)%nat -> be_encode n (v mod 2 ^ (8 * Z.of_nat k)) = be_encode n v.
Proof.
  intros Hk. induction n as [|n IH]; [done|]. cbn [be_encode].
  rewrite IH by lia. f_equal. apply byte.unsigned_inj.
  rewrite !byte.unsigned_of_Z. unfold byte.wrap.
  apply Z.bits_inj'. intros i Hi.
  destruct (Z.ltb_spec i 8); [|by rewrite !Z.mod_pow2_bits_high by lia].
  rewrite !Z.mod_pow2_bits_low, !Z.shiftr_spec by lia.
  rewrite Z.mod_pow2_bits_low by lia. done.
Qed.

(** Re-encoding what was decoded gives the bytes back. *)
Lemma be_encode_decode bs : be_encode (length bs) (be_decode bs) = bs.
Proof.
  induction bs as [|b bs IH]; [done|].
  cbn [length be_encode]. rewrite be_decode_cons.
  pose proof (be_decode_range bs). pose proof (byte.unsigned_range b).
  f_equal.
  - rewrite Z.shiftr_div_pow2, Z.div_add_l, Z.div_small by lia.
    rewrite Z.add_0_r. apply byte.of_Z_unsigned.
  - rewrite <- (be_encode_mod (length bs) (length bs)) by lia.
    rewrite Z.add_comm, Z.mod_add, Z.mod_small by lia. done.
Qed.

Lemma length_PutUint32 v : length (PutUint32 v) = 4%nat.
Proof. apply length_be_encode. Qed.

Lemma length_PutUint64 v : length (PutUint64 v) = 8%nat.
Proof. apply length_be_encode. Qed.

Lemma Uint32_Put v tl : is_u32 v -> Uint32 (PutUint32 v ++ tl) = v.
Proof.
  intros. unfold Uint32. rewrite take_app_length' by by rewrite length_PutUint32.
  unfold PutUint32. rewrite be_decode_encode. apply u32_small. done.
Qed.

Lemma Uint64_Put v tl : is_u64 v -> Uint64 (PutUint64 v ++ tl) = v.
Proof.
  intros. unfold Uint64. rewrite take_app_length' by by rewrite length_PutUint64.
  unfold PutUint64. rewrite be_decode_encode. apply u64_small. done.
Qed.

Lemma Uint32_range bs : is_u32 (Uint32 bs).
Proof.
  unfold is_u32, Uint32. pose proof (be_decode_range (take 4 bs)) as [? Hlt].
  rewrite length_take in Hlt. split; [done|]. eapply Z.lt_le_trans; [exact Hlt|].
  apply Z.pow_le_mono_r; lia.
Qed.

Lemma Uint64_range bs : is_u64 (Uint64 bs).
Proof.
  unfold is_u64, Uint64. pose proof (be_decode_range (take 8 bs)) as [? Hlt].
  rewrite length_take in Hlt. split; [done|]. eapply Z.lt_le_trans; [exact Hlt|].
  apply Z.pow_le_mono_r; lia.
Qed.

#[export] Hint Rewrite length_PutUint32 length_PutUint64 length_be_encode : golen.
#[export] Hint Resolve Uint32_range Uint64_range : golog.

(** ** Slices *)

(** [len(b)] as a Go [int]. *)
Definition zlen {A} (l : list A) : Z := Z.of_nat (length l).

(** [b[i:i+n]] for in-range [i], [n]. *)
Definition slice {A} (i n : nat) (l : list A) : list A := take n (drop i l).

Lemma zlen_app {A} (l k : list A) : zlen (l ++ k) = zlen l + zlen k.
Proof. unfold zlen. rewrite length_app. lia. Qed.

Lemma zlen_nonneg {A} (l : list A) : 0 <= zlen l.
Proof. unfold zlen. lia. Qed.

Lemma to_nat_zlen {A} (l : list A) : Z.to_nat (zlen l) = length l.
Proof. unfold zlen. lia. Qed.

Lemma length_slice {A} i n (l : list A) :
  (i + n <= length l)%nat -> length (slice i n l) = n.
Proof. intros. unfold slice. rewrite length_take, length_drop. lia. Qed.

(** A slice that stays inside the first of two concatenated lists. *)
Lemma slice_app_l {A} i n (l k : list A) :
  (i + n <= length l)%nat -> slice i n (l ++ k) = slice i n l.
Proof.
  intros. unfold slice. rewrite drop_app_le by lia.
  rewrite take_app_le by (rewrite length_drop; lia). done.
Qed.

(** A slice that starts exactly where the first of two lists ends. *)
Lemma slice_app_r {A} i n (l k : list A) :
  i = length l -> slice i n (l ++ k) = take n k.
Proof. intros ->. unfold slice. by rewrite drop_app_length. Qed.

(** A slice shifted past a prefix. *)
Lemma slice_app_shift {A} i n (l k : list A) :
  slice (length l + i) n (l ++ k) = slice i n k.
Proof. unfold slice. by rewrite drop_app_add. Qed.

(** ** Lists by absolute offset *)

(** The record at global offset [o] of a history that starts at [h0]. *)
Definition rec_at {A} (h0 : Z) (hist : list A) (o : Z) : option A :=
  if o <? h0 then None else hist !! Z.to_nat (o - h0).

Lemma rec_at_app {A} h0 (hist l : list A) o x : rec_at h0 hist o = Some x -> rec_at h0 (hist ++ l) o = Some x.
Proof. unfold rec_at. case_if; [done|]. intros. by apply lookup_app_l_Some. Qed.

Lemma rec_at_lt {A} h0 (hist : list A) o x : rec_at h0 hist o = Some x -> h0 <= o < h0 + zlen hist.
Proof. unfold rec_at. case_if; [done|]. intros H%lookup_lt_Some. unfold zlen. blia. Qed.

Lemma rec_at_new {A} h0 (hist : list A) x : rec_at h0 (hist ++ [x]) (h0 + zlen hist) = Some x.
Proof.
  pose proof (zlen_nonneg hist). unfold rec_at. case_if; [blia|].
  replace (h0 + zlen hist - h0) with (zlen hist) by lia. rewrite to_nat_zlen.
  by rewrite lookup_app_r, Nat.sub_diag by lia.
Qed.

Lemma rec_at_grow {A} h0 (hist l : list A) o : o < h0 + zlen hist -> rec_at h0 (hist ++ l) o = rec_at h0 hist o.
Proof.
  unfold rec_at, zlen. intros. case_if; [done|]. apply lookup_app_l. blia.
Qed.

#[export] Hint Rewrite @zlen_app : golen.
