(* ===== verification/Golib.v ===== *)
(** * Golib: what the components use of Go's standard library

    [sort.Search] (the binary search behind the sparse index and the segment
    router) and [os.File] as an append-only byte store with a durable prefix. *)

From Stdlib Require Import ZArith Lia Strings.String.
From stdpp Require Import base list list_numbers numbers option.
From coqutil Require Import Byte.
From S2P Require Import Prelude Bytes.

Local Open Scope Z_scope.

(** ** [sort.Search] *)

(** [for i < j { h := (i+j)>>1; if !f(h) { i = h+1 } else { j = h } }].  Each
    round shrinks [j - i], so [n] rounds of fuel always finish the loop. *)
Fixpoint search_loop (fuel : nat) (f : nat -> bool) (i j : nat) : nat :=
  match fuel with
  | O => i
  | S fuel' =>
      if (i <? j)%nat then
        let h := ((i + j) / 2)%nat in
        if negb (f h) then search_loop fuel' f (S h) j else search_loop fuel' f i h
      else i
  end.

Definition Search (n : nat) (f : nat -> bool) : nat := search_loop n f 0 n.

Lemma search_loop_spec fuel f i j :
  (j - i <= fuel)%nat -> (i <= j)%nat ->
  (forall a b, (a <= b < j)%nat -> f a = true -> f b = true) ->
  let r := search_loop fuel f i j in
  (i <= r <= j)%nat /\
  (forall k, (i <= k < r)%nat -> f k = false) /\
  (forall k, (r <= k < j)%nat -> f k = true).
Proof.
  revert i j. induction fuel as [|fuel IH]; intros i j Hfuel Hij Hmono; cbn [search_loop].
  { repeat split; intros; lia. }
  destruct (Nat.ltb_spec i j); [|repeat split; intros; lia].
  assert (i <= (i + j) / 2 < j)%nat as Hh by
    (split; [apply Nat.div_le_lower_bound; lia | apply Nat.Div0.div_lt_upper_bound; lia]).
  set (h := ((i + j) / 2)%nat) in *.
  destruct (f h) eqn:Hf; cbn [negb].
  - destruct (IH i h) as (Hr & Hlo & Hhi); [lia|lia|intros; eapply Hmono; eauto; lia|].
    split; [lia|]. split; [done|]. intros k Hk.
    destruct (Nat.lt_ge_cases k h); [apply Hhi; lia|]. apply (Hmono h k); [lia|done].
  - destruct (IH (S h) j) as (Hr & Hlo & Hhi); [lia|lia|done|].
    split; [lia|]. split; [|intros; apply Hhi; lia]. intros k Hk.
    destruct (Nat.lt_ge_cases h k); [apply Hlo; lia|].
    destruct (f k) eqn:Hfk; [|done]. rewrite (Hmono k h) in Hf; [done|lia|done].
Qed.

(** On a predicate that is [false] then [true], [Search] returns the boundary. *)
Lemma Search_spec n f :
  (forall a b, (a <= b < n)%nat -> f a = true -> f b = true) ->
  (Search n f <= n)%nat /\
  (forall k, (k < Search n f)%nat -> f k = false) /\
  (forall k, (Search n f <= k < n)%nat -> f k = true).
Proof.
  intros Hmono. destruct (search_loop_spec n f 0 n) as (? & Hlo & Hhi); [lia|lia|done|].
  unfold Search. repeat split; [lia|intros; apply Hlo; lia|done].
Qed.

(** ** [os.File] *)

(** A file as the program sees it: its bytes, and how many leading bytes an
    [fsync] has made stable. *)
Record file := mkFile {
  f_data : list byte;
  f_synced : nat
}.

Definition empty_file : file := mkFile [] 0.

(** [Stat().Size()] *)
Definition f_size (f : file) : Z := zlen (f_data f).

(** [Write] on an [O_APPEND] descriptor: a failing write may leave a prefix. *)
Definition f_append (wo : write_outcome) (b : list byte) (f : file) : outcome * file :=
  match wo with
  | WOk => (None, mkFile (f_data f ++ b) (f_synced f))
  | WFail k e => (Some e, mkFile (f_data f ++ take k b) (f_synced f))
  end.

(** [ReadAt(buf, pos)] with [len(buf) = n]: all [n] bytes, or an error.  A
    negative offset is refused, an empty buffer reads nothing successfully,
    and running past the end is [io.EOF]. *)
Definition f_read_at (f : file) (n : nat) (pos : Z) : result (list byte) :=
  if pos <? 0 then Err (Msg "negative offset")
  else if (n =? 0)%nat then Ok []
  else if pos + Z.of_nat n <=? f_size f then Ok (slice (Z.to_nat pos) n (f_data f))
  else Err EOF.

(** [Truncate(size)] cuts, or extends with zeros. *)
Definition f_truncate (size : Z) (f : file) : file :=
  let k := Z.to_nat size in
  mkFile (take k (f_data f) ++ replicate (k - length (f_data f)) (byte.of_Z 0))
         (Nat.min k (f_synced f)).

(** A successful [Sync] that began when the file held [n] bytes. *)
Definition f_sync_upto (n : nat) (f : file) : file :=
  mkFile (f_data f) (Nat.max n (f_synced f)).

Lemma f_read_at_ok f n pos :
  0 <= pos -> pos + Z.of_nat n <= f_size f ->
  f_read_at f n pos = Ok (slice (Z.to_nat pos) n (f_data f)).
Proof.
  intros Hpos Hend. unfold f_read_at. destruct (Z.ltb_spec pos 0); [lia|].
  destruct (Nat.eqb_spec n 0) as [->|].
  - unfold slice. by rewrite take_0.
  - destruct (Z.leb_spec (pos + Z.of_nat n) (f_size f)); [done|lia].
Qed.

Lemma f_read_at_eof f n pos :
  0 <= pos -> (0 < n)%nat -> f_size f < pos + Z.of_nat n -> f_read_at f n pos = Err EOF.
Proof.
  intros. unfold f_read_at. destruct (Z.ltb_spec pos 0); [lia|].
  destruct (Nat.eqb_spec n 0); [lia|].
  destruct (Z.leb_spec (pos + Z.of_nat n) (f_size f)); [lia|done].
Qed.

Lemma f_truncate_app d t s :
  f_truncate (zlen d) (mkFile (d ++ t) s) = mkFile d (Nat.min (length d) s).
Proof.
  unfold f_truncate, zlen. rewrite Nat2Z.id. simpl. rewrite take_app_length, length_app.
  replace (length d - (length d + length t))%nat with 0%nat by lia.
  by rewrite app_nil_r.
Qed.
