(* ===== verification/Float.v ===== *)
(** * Float: Go's [float64] where the benchmark computes with it

    A [float64] is a [spec_float], IEEE 754 with 53 bits of precision and
    exponents up to 1024; the operations round to nearest, ties to even.  The
    lemmas bound what one rounding can do, and show that the index computed
    for a percentile is the exact integer quotient. *)

From Stdlib Require Import ZArith Lia Floats.SpecFloat.
From stdpp Require Import base numbers option.
From S2P Require Import Prelude.

Local Open Scope Z_scope.

Definition float64 : Type := spec_float.

Definition f64_of_Z (n : Z) : float64 := binary_normalize 53 1024 n 0 false.
Definition f64_add : float64 -> float64 -> float64 := SFadd 53 1024.
Definition f64_mul : float64 -> float64 -> float64 := SFmul 53 1024.
Definition f64_div : float64 -> float64 -> float64 := SFdiv 53 1024.
Definition f64_lt : float64 -> float64 -> bool := SFltb.

(** The decimal constant [num/den], rounded once. *)
Definition f64_lit (num den : Z) : float64 := f64_div (f64_of_Z num) (f64_of_Z den).

(** Truncation towards zero; a NaN and an infinity have none. *)
Definition f64_trunc (f : float64) : option Z :=
  match f with
  | S754_zero _ => Some 0
  | S754_finite s m e =>
      let a := if 0 <=? e then Z.pos m * 2 ^ e else Z.pos m / 2 ^ (- e) in
      Some (if s then - a else a)
  | S754_infinity _ | S754_nan => None
  end.

(** [int(f)] and [uint64(f)]; out of range the value is not defined. *)
Definition f64_to_int (f : float64) : option Z :=
  match f64_trunc f with
  | Some v => if (- 2 ^ 63 <=? v) && (v <? 2 ^ 63) then Some v else None
  | None => None
  end.
Definition f64_to_uint (f : float64) : option Z :=
  match f64_trunc f with
  | Some v => if (0 <=? v) && (v <? 2 ^ 64) then Some v else None
  | None => None
  end.

(** ** One rounding *)

Lemma digits2_log2 p : Z.pos (digits2_pos p) = Z.log2 (Z.pos p) + 1.
Proof.
  induction p as [p IH|p IH|]; [| |done]; cbn [digits2_pos]; rewrite Pos2Z.inj_succ, IH.
  - rewrite Pos2Z.inj_xI, Z.log2_succ_double by lia. lia.
  - rewrite Pos2Z.inj_xO, Z.log2_double by lia. lia.
Qed.

Lemma iter_pos_nat {A} (f : A -> A) n x : SpecFloat.iter_pos f n x = Nat.iter (Pos.to_nat n) f x.
Proof.
  revert x. induction n as [n IH|n IH|]; intros x; cbn [SpecFloat.iter_pos]; [| |done]; rewrite !IH, <- Nat.iter_add.
  - rewrite Pos2Nat.inj_xI. rewrite <- Nat.iter_succ_r. f_equal. lia.
  - rewrite Pos2Nat.inj_xO. f_equal. lia.
Qed.

(** [r] holds [x] shifted right by [k]: the quotient, and where the remainder
    lies with respect to the middle of the interval. *)
Definition shifted (x : Z) (k : nat) (r : shr_record) : Prop :=
  shr_m r = x / 2 ^ Z.of_nat k /\
  let rem := x mod 2 ^ Z.of_nat k in
  match shr_r r, shr_s r with
  | false, false => rem = 0
  | false, true => 0 < 2 * rem < 2 ^ Z.of_nat k
  | true, false => 2 * rem = 2 ^ Z.of_nat k
  | true, true => 2 ^ Z.of_nat k < 2 * rem
  end.

Lemma shr_1_spec x k r : 0 <= x -> shifted x k r -> shifted x (S k) (shr_1 r).
Proof.
  intros Hx [Hm Hr]. destruct r as [m r s]. cbn [shr_m shr_r shr_s] in *.
  pose proof (Z.pow_pos_nonneg 2 (Z.of_nat k) ltac:(lia) ltac:(lia)) as Hp.
  set (P := 2 ^ Z.of_nat k) in *. pose proof (Z.div_mod x P ltac:(lia)) as Hdm.
  pose proof (Z.mod_pos_bound x P Hp) as Hb. pose proof (Z.div_pos x P Hx Hp) as Hq. rewrite <- Hm in *.
  assert (forall q b, m = 2 * q + Z.b2z b -> x / (2 * P) = q /\ x mod (2 * P) = Z.b2z b * P + x mod P) as Hstep.
  { intros q b ->. assert (0 <= Z.b2z b * P + x mod P < 2 * P) by (destruct b; cbn; lia).
    assert (x = 2 * P * q + (Z.b2z b * P + x mod P)) as Hx' by (destruct b; cbn [Z.b2z] in *; lia).
    split; symmetry; [by eapply Z.div_unique_pos|by eapply Z.mod_unique_pos]. }
  assert (forall q b, m = 2 * q + Z.b2z b -> shifted x (S k) (Build_shr_record q b (r || s))) as Hgoal.
  { intros q b Hqb. destruct (Hstep q b Hqb) as [H1 H2]. unfold shifted. cbn [shr_m shr_r shr_s].
    rewrite Nat2Z.inj_succ, Z.pow_succ_r by lia. fold P. rewrite H1, H2. split; [done|].
    destruct b, r, s; cbn [orb Z.b2z]; lia. }
  destruct m as [|[p|p|]|p]; cbn [shr_1]; try lia.
  - by apply (Hgoal 0 false).
  - apply (Hgoal (Z.pos p) true). cbn [Z.b2z]. lia.
  - apply (Hgoal (Z.pos p) false). cbn [Z.b2z]. lia.
  - by apply (Hgoal 0 true).
Qed.

Lemma shr_iter x k : 0 <= x -> shifted x k (Nat.iter k shr_1 (Build_shr_record x false false)).
Proof.
  intros Hx. induction k as [|k IH]; [|by apply shr_1_spec]. split; cbn; [by rewrite Z.div_1_r|apply Z.mod_1_r].
Qed.

(** Rounding to nearest is off by at most half a unit. *)
Lemma round_half x k r :
  0 <= x -> shifted x k r ->
  let q := round_nearest_even (shr_m r) (loc_of_shr_record r) in
  2 * x - 2 ^ Z.of_nat k <= 2 * q * 2 ^ Z.of_nat k <= 2 * x + 2 ^ Z.of_nat k.
Proof.
  intros Hx [Hm Hr]. destruct r as [m r s]. cbn [shr_m shr_r shr_s loc_of_shr_record] in *.
  pose proof (Z.pow_pos_nonneg 2 (Z.of_nat k) ltac:(lia) ltac:(lia)) as Hp.
  set (P := 2 ^ Z.of_nat k) in *. pose proof (Z.div_mod x P ltac:(lia)) as Hdm.
  pose proof (Z.mod_pos_bound x P Hp) as Hb. rewrite <- Hm in Hdm.
  destruct r, s; cbn [round_nearest_even]; [| |nia..]; [nia|]. destruct (Z.even m); nia.
Qed.

Lemma log2_range x d : 0 <= d -> 2 ^ d <= x < 2 ^ (d + 1) -> Z.log2 x = d.
Proof. intros Hd Hx. apply Z.log2_unique; [done|]. by rewrite <- Z.add_1_r. Qed.

(** A mantissa [x] of [53 + s] bits loses its [s] low bits: the result is [q],
    a nearest integer to [x / 2^s], at the exponent [e + s]. *)
Lemma round_drop x e s :
  0 < s -> -1074 <= e -> e + s <= 900 -> 2 ^ (52 + s) <= x < 2 ^ (53 + s) ->
  exists q m e', binary_round_aux 53 1024 false x e loc_Exact = S754_finite false m e' /\
    2 * x - 2 ^ s <= 2 * q * 2 ^ s <= 2 * x + 2 ^ s /\
    e + s <= e' <= e + s + 1 /\ Z.pos m * 2 ^ (e' - (e + s)) = q.
Proof.
  intros Hs He1 He2 Hx. assert (0 < x) as Hx0 by (pose proof (Z.pow_pos_nonneg 2 (52 + s)); lia).
  unfold binary_round_aux, shr_fexp. cbn [shr_record_of_loc].
  assert (Zdigits2 x = 53 + s) as ->.
  { destruct x as [|p|p]; [lia| |lia]. cbn [Zdigits2]. rewrite digits2_log2, (log2_range _ (52 + s)); [lia|lia|].
    by replace (52 + s + 1) with (53 + s) by lia. }
  unfold fexp, emin. replace (Z.max (53 + s + e - 53) (3 - 1024 - 53) - e) with s by lia.
  destruct s as [|s|s]; [lia| |lia]. cbn [shr]. rewrite iter_pos_nat.
  pose proof (shr_iter x (Pos.to_nat s) ltac:(lia)) as Hsh. set (r := Nat.iter _ _ _) in *.
  pose proof (round_half x _ r ltac:(lia) Hsh) as Hq. rewrite positive_nat_Z in Hq.
  set (q := round_nearest_even _ _) in *. cbn zeta in Hq. rewrite Z.pow_add_r in Hx by lia.
  replace (2 ^ (53 + Z.pos s)) with (2 ^ 53 * 2 ^ Z.pos s) in Hx by (rewrite Z.pow_add_r by lia; done).
  pose proof (Z.pow_pos_nonneg 2 (Z.pos s) ltac:(lia) ltac:(lia)) as Hp. set (P := 2 ^ Z.pos s) in *.
  assert (2 ^ 52 <= q <= 2 ^ 53) as Hqr by nia. exists q.
  destruct q as [|p|p] eqn:Eq; [lia| |lia]. cbn [Zdigits2]. rewrite digits2_log2.
  destruct (Z.eq_dec (Z.pos p) (2 ^ 53)) as [E|E].
  - assert (p = 9007199254740992%positive) as -> by lia. exists 4503599627370496%positive, (e + Z.pos s + 1).
    change (Z.log2 9007199254740992 + 1) with 54.
    replace (Z.max (54 + (e + Z.pos s) - 53) (3 - 1024 - 53) - (e + Z.pos s)) with 1 by lia.
    cbn [shr SpecFloat.iter_pos shr_1 shr_m]. destruct (Z.leb_spec (e + Z.pos s + 1) (1024 - 53)); [|lia].
    split_and!; [done|lia..|]. by replace (e + Z.pos s + 1 - (e + Z.pos s)) with 1 by lia.
  - exists p, (e + Z.pos s). rewrite (log2_range _ 52) by lia.
    replace (Z.max (52 + 1 + (e + Z.pos s) - 53) (3 - 1024 - 53) - (e + Z.pos s)) with 0 by lia.
    cbn [shr shr_m]. destruct (Z.leb_spec (e + Z.pos s) (1024 - 53)); [|lia].
    split_and!; [done|lia..|]. rewrite Z.sub_diag. lia.
Qed.

Lemma iter_xO p n : Z.pos (Pos.iter xO p n) = Z.pos p * 2 ^ Z.pos n.
Proof.
  induction n as [|n IH] using Pos.peano_ind; [cbn; lia|].
  rewrite Pos.iter_succ, Pos2Z.inj_xO, IH, Pos2Z.inj_succ, Z.pow_succ_r by lia. lia.
Qed.

(** Integers below [2^53] convert exactly, with a full mantissa. *)
Lemma f64_of_Z_exact k :
  0 < k < 2 ^ 53 -> exists m d, 0 < d <= 53 /\ 2 ^ (d - 1) <= k < 2 ^ d /\
    Z.pos m = k * 2 ^ (53 - d) /\ f64_of_Z k = S754_finite false m (d - 53).
Proof.
  intros Hk. destruct k as [|p|p]; [lia| |lia]. set (d := Z.log2 (Z.pos p) + 1).
  pose proof (Z.log2_spec (Z.pos p) ltac:(lia)) as Hlg. pose proof (Z.log2_nonneg (Z.pos p)) as Hl0.
  assert (Z.log2 (Z.pos p) < 53) as Hl by (apply Z.log2_lt_pow2; lia).
  unfold f64_of_Z, binary_normalize, binary_round. rewrite digits2_log2. fold d. unfold fexp, emin.
  replace (Z.max (d + 0 - 53) (3 - 1024 - 53)) with (d - 53) by lia. unfold shl_align. rewrite Z.sub_0_r.
  assert (exists m, (match d - 53 with Z.neg n => (Pos.iter xO p n, d - 53) | _ => (p, 0) end) = (m, d - 53) /\
    Z.pos m = Z.pos p * 2 ^ (53 - d)) as (m & -> & Hm).
  { destruct (d - 53) as [|n|n] eqn:Ed; [|lia|].
    - exists p. replace (53 - d) with 0 by lia. rewrite Z.pow_0_r, Z.mul_1_r. done.
    - eexists. split; [done|]. rewrite iter_xO. do 2 f_equal. lia. }
  assert (2 ^ (53 - d) * 2 ^ (d - 1) = 2 ^ 52) as Hpw by (rewrite <- Z.pow_add_r by lia; f_equal; lia).
  assert (2 ^ d = 2 * 2 ^ (d - 1)) as Hd by (rewrite <- Z.pow_succ_r by lia; f_equal; lia).
  replace (Z.log2 (Z.pos p)) with (d - 1) in Hlg by lia. replace (Z.succ (d - 1)) with d in Hlg by lia.
  exists m, d. split_and!; try lia. unfold binary_round_aux, shr_fexp. cbn [shr_record_of_loc Zdigits2].
  assert (2 ^ 52 <= Z.pos m < 2 ^ 53) as Hmr.
  { rewrite Hm. pose proof (Z.pow_pos_nonneg 2 (53 - d) ltac:(lia) ltac:(lia)). change (2 ^ 53) with (2 * 2 ^ 52). nia. }
  rewrite digits2_log2, (log2_range _ 52) by lia. unfold fexp, emin.
  replace (Z.max (52 + 1 + (d - 53) - 53) (3 - 1024 - 53) - (d - 53)) with 0 by lia.
  cbn [shr shr_m loc_of_shr_record round_nearest_even Zdigits2]. rewrite digits2_log2, (log2_range _ 52) by lia.
  replace (Z.max (52 + 1 + (d - 53) - 53) (3 - 1024 - 53) - (d - 53)) with 0 by lia.
  cbn [shr shr_m]. destruct (Z.leb_spec (d - 53) (1024 - 53)); [done|lia].
Qed.

(** ** A percentage of an integer *)

(** [M * 2^-53] is [a/100] rounded down by less than the product can notice. *)
Definition hundredth (a : Z) (M : positive) : Prop :=
  0 < a <= 99 /\ 2 ^ 52 <= Z.pos M < 2 ^ 53 /\ 100 * Z.pos M <= a * 2 ^ 53 /\
  (a * 2 ^ 53 - 100 * Z.pos M) * 2 ^ 54 < 100 * Z.pos M.

(** The rounded product lies between the quotient and the next integer. *)
Lemma percent_bounds a M k T s q P :
  hundredth a M -> 0 <= k -> 64 <= T -> 0 < P -> k * T < 2 ^ 53 ->
  (s = 53 \/ s = 52 /\ Z.pos M * (k * T) < 2 ^ 105) -> P * 2 ^ s = 2 ^ 53 * T ->
  2 * (Z.pos M * (k * T)) - 2 ^ s <= 2 * q * 2 ^ s <= 2 * (Z.pos M * (k * T)) + 2 ^ s ->
  a * k / 100 * P <= q < (a * k / 100 + 1) * P.
Proof.
  intros (Ha & HM & Hlo & Hhi) Hk HT HP HK Hs HPs Hq. set (N := a * k / 100).
  assert (100 * N <= a * k <= 100 * N + 99) as HN by
    (pose proof (Z.div_mod (a * k) 100 ltac:(lia)); pose proof (Z.mod_pos_bound (a * k) 100 ltac:(lia)); unfold N; lia).
  set (m := Z.pos M) in *. set (d := a * 2 ^ 53 - 100 * m) in *.
  assert (0 <= N) by (apply Z.div_pos; lia).
  assert (0 < 2 ^ s <= 2 ^ 53) as Hps by (destruct Hs as [->|[-> _]]; split; done).
  assert (100 * N * T <= a * k * T <= (100 * N + 99) * T) as HNT by (split; apply Z.mul_le_mono_nonneg_r; lia). split.
  - destruct (Z_le_gt_dec (N * P) q) as [|Hc]; [done|exfalso].
    assert (2 * q * 2 ^ s <= 2 * (N * (2 ^ 53 * T)) - 2 * 2 ^ s) as H1
      by (rewrite <- HPs; pose proof (Z.mul_le_mono_nonneg_r (q + 1) (N * P) (2 ^ s) ltac:(lia) ltac:(lia)); lia).
    assert (100 * 2 ^ s <= 2 * (k * T) * d) as H2 by (unfold d; lia).
    destruct Hs as [->|[-> Hx]].
    + pose proof (Z.mul_le_mono_nonneg_r (k * T) (2 ^ 53) d ltac:(lia) ltac:(lia)). lia.
    + pose proof (Z.mul_le_mono_nonneg_r (m * (k * T)) (2 ^ 105) d ltac:(lia) ltac:(lia)) as H4.
      pose proof (Z.mul_le_mono_nonneg_l _ _ m ltac:(lia) H2) as H3. lia.
  - destruct (Z_lt_ge_dec q ((N + 1) * P)) as [|Hc]; [done|exfalso].
    assert (2 * ((N + 1) * (2 ^ 53 * T)) <= 2 * q * 2 ^ s) as H1
      by (rewrite <- HPs; pose proof (Z.mul_le_mono_nonneg_r ((N + 1) * P) q (2 ^ s) ltac:(lia) ltac:(lia)); lia).
    pose proof (Z.mul_le_mono_nonneg_r (100 * m) (a * 2 ^ 53) (k * T) ltac:(apply Z.mul_nonneg_nonneg; lia) ltac:(lia)) as H2.
    lia.
Qed.

(** [int(p * float64(k))] for [p] a constant of hundredths is the quotient. *)
Lemma percent_exact a M k :
  hundredth a M -> 0 <= k < 2 ^ 47 ->
  f64_to_int (f64_mul (S754_finite false M (-53)) (f64_of_Z k)) = Some (a * k / 100).
Proof.
  intros Hh Hk. pose proof Hh as (Ha & HM & _). destruct (Z.eq_dec k 0) as [->|Hk0]; [by rewrite Z.mul_0_r|].
  destruct (f64_of_Z_exact k) as (m & d & Hd & Hdk & Hm & ->); [lia|].
  assert (d <= 47) as Hd47.
  { destruct (Z_lt_ge_dec d 48); [lia|]. pose proof (Z.pow_le_mono_r 2 47 (d - 1) ltac:(lia) ltac:(lia)). lia. }
  cbn [f64_mul SFmul xorb]. rewrite Pos2Z.inj_mul, Hm. set (T := 2 ^ (53 - d)).
  assert (64 <= T) as HT by (apply (Z.pow_le_mono_r 2 6); lia).
  assert (2 ^ d = 2 * 2 ^ (d - 1)) as Hd2 by (rewrite <- Z.pow_succ_r by lia; f_equal; lia).
  assert (T * 2 ^ (d - 1) = 2 ^ 52) as HTd by (unfold T; rewrite <- Z.pow_add_r by lia; f_equal; lia).
  assert (2 ^ 52 <= k * T < 2 ^ 53) as HK by nia.
  assert (exists s, (s = 53 \/ s = 52 /\ Z.pos M * (k * T) < 2 ^ 105) /\
    2 ^ (52 + s) <= Z.pos M * (k * T) < 2 ^ (53 + s)) as (s & Hs & Hx).
  { destruct (Z_lt_ge_dec (Z.pos M * (k * T)) (2 ^ 105)); [exists 52|exists 53]; split; try nia. }
  destruct (round_drop (Z.pos M * (k * T)) (-53 + (d - 53)) s) as (q & m' & e' & -> & Hq & He & Hmq); try lia.
  set (E := - (-53 + (d - 53) + s)) in *.
  assert (2 ^ E * 2 ^ s = 2 ^ 53 * T) as HE by (unfold T; rewrite <- !Z.pow_add_r by lia; f_equal; lia).
  pose proof (percent_bounds a M k T s q (2 ^ E) Hh ltac:(lia) HT
    ltac:(apply Z.pow_pos_nonneg; lia) ltac:(lia) Hs HE Hq) as Hb.
  unfold f64_to_int. cbn [f64_trunc]. destruct (Z.leb_spec 0 e'); [lia|].
  assert (Z.pos m' / 2 ^ (- e') = a * k / 100) as ->.
  { assert (2 ^ E = 2 ^ (- e') * 2 ^ (e' - (-53 + (d - 53) + s))) as Ht
      by (rewrite <- Z.pow_add_r by lia; f_equal; lia).
    pose proof (Z.pow_pos_nonneg 2 (e' - (-53 + (d - 53) + s)) ltac:(lia) ltac:(lia)) as Hp1.
    pose proof (Z.pow_pos_nonneg 2 (- e') ltac:(lia) ltac:(lia)) as Hp2. rewrite Ht, <- Hmq in Hb.
    set (t := 2 ^ (e' - _)) in *. set (U := 2 ^ (- e')) in *. clear -Hb Hp1 Hp2. symmetry.
    apply (Z.div_unique_pos _ _ _ (Z.pos m' - U * (a * k / 100))); [|lia]. nia. }
  assert (0 <= a * k / 100 < 2 ^ 63) as HN 
    by (pose proof (Z.mul_le_mono_nonneg_r a 99 k ltac:(lia) ltac:(lia)); split; [apply Z.div_pos|apply Z.div_lt_upper_bound]; lia).
  destruct (Z.leb_spec (- 2 ^ 63) (a * k / 100)), (Z.ltb_spec (a * k / 100) (2 ^ 63)); (done || lia).
Qed.

(** Integers below [2^53] survive the round trip. *)
Lemma f64_trunc_of_Z k : 0 <= k < 2 ^ 53 -> f64_trunc (f64_of_Z k) = Some k.
Proof.
  intros Hk. destruct (Z.eq_dec k 0) as [->|]; [done|].
  destruct (f64_of_Z_exact k) as (m & d & Hd & _ & Hm & ->); [lia|]. cbn [f64_trunc]. f_equal.
  destruct (Z.leb_spec 0 (d - 53)).
  - assert (d = 53) as -> by lia. rewrite Hm. change (2 ^ (53 - 53)) with 1. lia.
  - replace (- (d - 53)) with (53 - d) by lia. rewrite Hm. apply Z.div_mul, Z.pow_nonzero; lia.
Qed.
