(* ===== verification/Index.v ===== *)
(** * Index: the sparse checkpoint index ([internal/inmemorystore])

    [InMemoryStore] keeps every Nth record's [offset -> position] pair in
    memory and mirrors it to an on-disk [.index] file of 16-byte entries.  The
    file models [store.go] operation by operation; system-call outcomes are
    arguments, so that every error path is a value of the model.

    Main results: [Floor] is the greatest checkpoint at or below its target;
    [LoadCheckpoints] keeps exactly the longest strictly increasing prefix of
    the entries of ANY file content and heals the file to it; what
    [Checkpoint] wrote is what a reopened store loads. *)

From Stdlib Require Import ZArith Lia Strings.String.
From stdpp Require Import base list list_numbers numbers option gmap sorting.
From coqutil Require Import Byte.
From S2P Require Import Prelude Bytes Golib.

Local Open Scope Z_scope.

Definition indexEntryBytes : Z := 16.

Record InMemoryStore := mkStore {
  offsets : list Z;
  positions : list Z;
  index : gmap Z Z;
  indexFile : file;
  n_ : Z;
  nthIndex : Z
}.

(** Outcomes of the system calls [NewInMemoryStore] makes. *)
Record open_io := mkOpenIo { oi_open : outcome; oi_syncdir : outcome }.

(** [NewInMemoryStore]: open or create the index file; a new file's directory
    is fsynced.  [disk] is the file found under that name. *)
Definition NewInMemoryStore (io : open_io) (disk : option file) (nthIdx : Z) : result InMemoryStore :=
  let isNew := match disk with None => true | Some _ => false end in
  match oi_open io with
  | Some e => Err (Wrap "inmemorystore: open" e)
  | None =>
      let indexfile := default empty_file disk in
      match (if isNew then oi_syncdir io else None) with
      | Some e => Err (Wrap "inmemorystore: fsync dir" e)
      | None => Ok (mkStore [] [] ∅ indexfile 0 nthIdx)
      end
  end.

(** The loop of [LoadCheckpoints] over [buf[i*16:]], with [k] entries left. *)
Fixpoint load_loop (k : nat) (buf : list byte) (last : option (Z * Z))
    (offs poss : list Z) (idx : gmap Z Z) : list Z * list Z * gmap Z Z :=
  match k with
  | O => (offs, poss, idx)
  | S k' =>
      let off := Uint64 buf in
      let pos := i64 (Uint64 (drop 8 buf)) in
      let bad := match last with
                 | Some (lastOff, lastPos) => (off <=? lastOff) || (pos <=? lastPos)
                 | None => false
                 end in
      if bad then (offs, poss, idx)
      else load_loop k' (drop 16 buf) (Some (off, pos))
             (offs ++ [off]) (poss ++ [pos]) (<[off := pos]> idx)
  end.

(** Outcomes of the system calls of [LoadCheckpoints]. *)
Record load_io := mkLoadIo { li_stat : outcome; li_read : outcome; li_trunc : outcome }.
Definition load_io_ok : load_io := mkLoadIo None None None.

(** [LoadCheckpoints]: [None] is success; the store is returned on errors too. *)
Definition LoadCheckpoints (io : load_io) (s : InMemoryStore) : outcome * InMemoryStore :=
  match li_stat io with
  | Some e => (Some (Wrap "inmemorystore: stat index" e), s)
  | None =>
      let size := f_size (indexFile s) in
      let aligned := size - size mod indexEntryBytes in
      let count := Z.to_nat (aligned / indexEntryBytes) in
      let s0 := mkStore [] [] ∅ (indexFile s) (n_ s) (nthIndex s) in
      let buf := take (Z.to_nat aligned) (f_data (indexFile s)) in
      match (if (0 <? count)%nat then li_read io else None) with
      | Some e => (Some (Wrap "inmemorystore: read index" e), s0)
      | None =>
          let '(offs, poss, idx) := load_loop count buf None [] [] ∅ in
          let s1 := mkStore offs poss idx (indexFile s) (n_ s) (nthIndex s) in
          let wantSize := zlen offs * indexEntryBytes in
          if negb (wantSize =? size) then
            match li_trunc io with
            | Some e => (Some (Wrap "inmemorystore: truncate index" e), s1)
            | None =>
                (None, mkStore offs poss idx (f_truncate wantSize (indexFile s)) (n_ s) (nthIndex s))
            end
          else (None, s1)
      end
  end.

(** [Floor]: [(checkpointOffset, position, ok)]. *)
Definition Floor (offset : Z) (s : InMemoryStore) : Z * Z * bool :=
  let i := Search (length (offsets s)) (fun i => offset <? nth i (offsets s) 0) in
  if (i =? 0)%nat then (0, 0, false)
  else (nth (i - 1) (offsets s) 0, nth (i - 1) (positions s) 0, true).

(** [Get] *)
Definition Get (offset : Z) (s : InMemoryStore) : Z * bool :=
  match index s !! offset with
  | Some pos => (pos, true)
  | None => (0, false)
  end.

(** The 16 bytes of one on-disk checkpoint. *)
Definition encode_entry (e : Z * Z) : list byte := PutUint64 (fst e) ++ PutUint64 (u64 (snd e)).

(** [Checkpoint] *)
Definition Checkpoint (wo : write_outcome) (offset position : Z) (s : InMemoryStore)
    : outcome * InMemoryStore :=
  let n1 := u32 (n_ s + 1) in
  if (0 <? nthIndex s) && (n1 <? nthIndex s) then
    (None, mkStore (offsets s) (positions s) (index s) (indexFile s) n1 (nthIndex s))
  else
    let '(werr, f') := f_append wo (encode_entry (offset, position)) (indexFile s) in
    match werr with
    | Some e =>
        (Some (Wrap "inmemorystore: write checkpoint" e),
         mkStore (offsets s) (positions s) (index s) f' 0 (nthIndex s))
    | None =>
        (None, mkStore (offsets s ++ [offset]) (positions s ++ [position])
                 (<[offset := position]> (index s)) f' 0 (nthIndex s))
    end.

(** [Close]: the handle is always set by the constructor. *)
Definition Index_Close (close : outcome) (s : InMemoryStore) : outcome := close.

(** ** The store as a list of entries *)

Definition entries (s : InMemoryStore) : list (Z * Z) := zip (offsets s) (positions s).

(** A later checkpoint is later in both offset and position. *)
Definition entry_lt (a b : Z * Z) : Prop := fst a < fst b /\ snd a < snd b.

Definition entry_ok (e : Z * Z) : Prop := is_u64 (fst e) /\ is_i64 (snd e).

(** Bytes of an index file holding exactly [es]. *)
Definition encode_entries (es : list (Z * Z)) : list byte := mjoin (encode_entry <$> es).

(** The first [k] entries of a buffer. *)
Fixpoint decode_entries (k : nat) (buf : list byte) : list (Z * Z) :=
  match k with
  | O => []
  | S k' => (Uint64 buf, i64 (Uint64 (drop 8 buf))) :: decode_entries k' (drop 16 buf)
  end.

Definition entry_ltb (a b : Z * Z) : bool := (fst a <? fst b) && (snd a <? snd b).

(** Longest prefix whose entries increase strictly, after [last]. *)
Fixpoint mono_from (last : option (Z * Z)) (es : list (Z * Z)) : list (Z * Z) :=
  match es with
  | [] => []
  | e :: es' =>
      if match last with Some l => entry_ltb l e | None => true end
      then e :: mono_from (Some e) es' else []
  end.

(** What [LoadCheckpoints] keeps of a file with content [d]. *)
Definition valid_entries (d : list byte) : list (Z * Z) :=
  mono_from None (decode_entries (length d / 16) d).

(** Invariant of a store: the three in-memory views agree, entries increase
    strictly, the file is exactly their encoding, the counter is below N. *)
Record store_wf (s : InMemoryStore) : Prop := {
  wf_len : length (offsets s) = length (positions s);
  wf_sorted : StronglySorted entry_lt (entries s);
  wf_index : index s = list_to_map (entries s);
  wf_file : f_data (indexFile s) = encode_entries (entries s);
  wf_entries : Forall entry_ok (entries s);
  wf_n : 0 <= n_ s < Z.max 1 (nthIndex s);
  wf_nth : is_u32 (nthIndex s)
}.

#[export] Instance entry_lt_trans : Transitive entry_lt.
Proof. intros a b c [] []. split; lia. Qed.

Lemma entry_ltb_lt a b : entry_ltb a b = true <-> entry_lt a b.
Proof. unfold entry_ltb, entry_lt. rewrite andb_true_iff, !Z.ltb_lt. done. Qed.

Lemma length_encode_entry e : length (encode_entry e) = 16%nat.
Proof. unfold encode_entry. by rewrite length_app, !length_PutUint64. Qed.

Lemma encode_entries_app es fs :
  encode_entries (es ++ fs) = encode_entries es ++ encode_entries fs.
Proof. unfold encode_entries. by rewrite fmap_app, join_app. Qed.

Lemma encode_entries_cons e es : encode_entries (e :: es) = encode_entry e ++ encode_entries es.
Proof. done. Qed.

Lemma encode_entries_singleton e : encode_entries [e] = encode_entry e.
Proof. apply app_nil_r. Qed.

Lemma length_encode_entries es : length (encode_entries es) = (16 * length es)%nat.
Proof.
  induction es as [|e es IH]; [done|].
  rewrite encode_entries_cons, length_app, length_encode_entry, IH. simpl. lia.
Qed.

Lemma length_decode_entries k d : length (decode_entries k d) = k.
Proof. revert d. induction k; intros; simpl; auto. Qed.

(** Decoding and re-encoding 16 available bytes is the identity. *)
Lemma encode_decode_entry d :
  (16 <= length d)%nat ->
  encode_entry (Uint64 d, i64 (Uint64 (drop 8 d))) = take 16 d.
Proof.
  intros Hd. unfold encode_entry. cbn [fst snd].
  assert (u64 (i64 (Uint64 (drop 8 d))) = Uint64 (drop 8 d)) as ->.
  { pose proof (Uint64_range (drop 8 d)). unfold is_u64, u64, i64 in *.
    rewrite Zminus_mod_idemp_l. replace (Uint64 (drop 8 d) + 2 ^ 63 - 2 ^ 63)
      with (Uint64 (drop 8 d)) by lia. by apply Z.mod_small. }
  assert (forall b, (8 <= length b)%nat -> PutUint64 (Uint64 b) = take 8 b) as H8.
  { intros b Hb. unfold Uint64, PutUint64.
    rewrite <- (be_encode_decode (take 8 b)) at 2. rewrite length_take, Nat.min_l by lia. done. }
  rewrite !H8 by (rewrite ?length_drop; lia).
  rewrite <- (take_drop 8 (take 16 d)). f_equal.
  - by rewrite take_take.
  - by rewrite skipn_firstn_comm.
Qed.

Lemma decode_encode_entry e t :
  entry_ok e ->
  (Uint64 (encode_entry e ++ t), i64 (Uint64 (drop 8 (encode_entry e ++ t)))) = e.
Proof.
  destruct e as [o p]. intros [Ho Hp]. cbn [fst snd] in Ho, Hp. unfold encode_entry. cbn [fst snd].
  rewrite <- app_assoc, drop_app_length' by by rewrite length_PutUint64.
  rewrite !Uint64_Put by auto with golog. by rewrite u64_i64.
Qed.

(** ** The load loop *)

Lemma load_loop_mono k d last offs poss idx :
  load_loop k d last offs poss idx =
  let es := mono_from last (decode_entries k d) in
  (offs ++ es.*1, poss ++ es.*2, foldl (fun m e => <[fst e := snd e]> m) idx es).
Proof.
  revert d last offs poss idx. induction k as [|k IH]; intros d last offs poss idx.
  { simpl. by rewrite !app_nil_r. }
  cbn [load_loop decode_entries mono_from].
  set (e := (Uint64 d, i64 (Uint64 (drop 8 d)))).
  assert (match last with
          | Some (lo, lp) => (Uint64 d <=? lo) || (i64 (Uint64 (drop 8 d)) <=? lp)
          | None => false end =
          negb match last with Some l => entry_ltb l e | None => true end) as ->.
  { destruct last as [[lo lp]|]; [|done]. unfold entry_ltb. cbn [fst snd e].
    rewrite negb_andb, <- !Z.leb_antisym. done. }
  destruct (match last with Some l => entry_ltb l e | None => true end); cbn [negb].
  - rewrite IH. cbn. by rewrite <- !app_assoc.
  - simpl. by rewrite !app_nil_r.
Qed.

Lemma mono_from_prefix last es : mono_from last es `prefix_of` es.
Proof.
  revert last. induction es as [|e es IH]; intros last; simpl; [done|].
  case_if; [apply prefix_cons, IH | apply prefix_nil].
Qed.

Lemma mono_from_sorted last es :
  StronglySorted entry_lt (match last with Some l => [l] | None => [] end ++ mono_from last es).
Proof.
  apply Sorted_StronglySorted; [apply _|]. revert last.
  induction es as [|e es IH]; intros last; simpl.
  { destruct last; simpl; repeat constructor. }
  case_if; [|destruct last; simpl; repeat constructor].
  specialize (IH (Some e)). destruct last as [l|]; simpl in *; [|done].
  constructor; [done|]. constructor. by apply entry_ltb_lt.
Qed.

(** A strictly increasing list of entries is kept whole. *)
Lemma mono_from_id last es :
  StronglySorted entry_lt (match last with Some l => [l] | None => [] end ++ es) ->
  mono_from last es = es.
Proof.
  revert last. induction es as [|e es IH]; intros last Hs; [done|]. simpl.
  assert (match last with Some l => entry_ltb l e | None => true end = true) as ->.
  { destruct last as [l|]; [|done]. apply StronglySorted_cons in Hs as [Hf _].
    apply entry_ltb_lt. by inversion Hf. }
  f_equal. apply IH. destruct last as [l|]; simpl in *; [|done].
  by apply StronglySorted_cons in Hs as [_ ?].
Qed.

(** The kept prefix cannot be extended: it stops at the first entry that does
    not increase. *)
Lemma mono_from_maximal last es k e :
  es !! k = Some e ->
  StronglySorted entry_lt (match last with Some l => [l] | None => [] end ++ take k es ++ [e]) ->
  mono_from last es <> take k es.
Proof.
  revert k last. induction es as [|x es IH]; intros k last He Hs; [done|].
  assert (match last with Some l => entry_ltb l x | None => true end = true) as Hl.
  { destruct last as [l|]; [|done]. apply entry_ltb_lt.
    apply StronglySorted_cons in Hs as [Hf _].
    destruct k; simpl in *; simplify_eq; by inversion Hf. }
  simpl. rewrite Hl. destruct k as [|k]; [done|]. simpl in *. intros [= Heq].
  apply (IH k (Some x)) in Heq; [done|done|].
  destruct last; simpl in *; [|done]. by apply StronglySorted_cons in Hs as [_ ?].
Qed.

(** Re-encoding the decoded entries gives the file's bytes back. *)
Lemma encode_decode_entries k d :
  (16 * k <= length d)%nat -> encode_entries (decode_entries k d) = take (16 * k) d.
Proof.
  revert d. induction k as [|k IH]; intros d Hd; [done|].
  cbn [decode_entries]. rewrite encode_entries_cons, encode_decode_entry by lia.
  rewrite IH by (rewrite length_drop; lia).
  replace (16 * S k)%nat with (16 + 16 * k)%nat by lia. by rewrite take_take_drop.
Qed.

Lemma decode_encode_entries es t :
  Forall entry_ok es -> decode_entries (length es) (encode_entries es ++ t) = es.
Proof.
  induction es as [|e es IH]; intros Hok; [done|]. apply Forall_cons in Hok as [He Hes].
  cbn [length decode_entries]. rewrite encode_entries_cons, <- app_assoc.
  rewrite decode_encode_entry by done. f_equal.
  rewrite drop_app_length' by by rewrite length_encode_entry. by apply IH.
Qed.

Lemma decode_entries_ok k d : Forall entry_ok (decode_entries k d).
Proof.
  revert d. induction k as [|k IH]; intros d; simpl; constructor; [|apply IH].
  split; simpl; auto with golog.
Qed.

Lemma decode_entries_app k j d :
  decode_entries (k + j) d = decode_entries k d ++ decode_entries j (drop (16 * k) d).
Proof.
  revert d. induction k as [|k IH]; intros d; [done|].
  replace (16 * S k)%nat with (16 + 16 * k)%nat by lia.
  cbn [Nat.add decode_entries app]. by rewrite IH, drop_drop.
Qed.

(** What is kept re-encodes to a prefix of the file. *)
Lemma encode_valid_entries d :
  encode_entries (valid_entries d) = take (16 * length (valid_entries d)) d.
Proof.
  unfold valid_entries. set (k := (length d / 16)%nat).
  destruct (mono_from_prefix None (decode_entries k d)) as [rest Hrest].
  assert (16 * k <= length d)%nat as Hk by apply Nat.Div0.mul_div_le.
  pose proof (f_equal length Hrest) as Hlen.
  rewrite length_decode_entries, length_app in Hlen.
  pose proof (encode_decode_entries k d Hk) as Henc.
  rewrite Hrest, encode_entries_app in Henc.
  apply (f_equal (take (16 * length (mono_from None (decode_entries k d))))) in Henc.
  rewrite take_app_length' in Henc by by rewrite length_encode_entries.
  rewrite Henc, take_take. f_equal. lia.
Qed.

Lemma decode_entries_take k d : decode_entries k (take (16 * k) d) = decode_entries k d.
Proof.
  revert d. induction k as [|k IH]; intros d; [done|].
  cbn [decode_entries]. rewrite skipn_firstn_comm, skipn_firstn_comm.
  replace (16 * S k - 16)%nat with (16 * k)%nat by lia. rewrite IH.
  unfold Uint64. rewrite !take_take. by rewrite !Nat.min_l by lia.
Qed.

(** Keys of strictly increasing entries are distinct. *)
Lemma sorted_fresh es e :
  StronglySorted entry_lt (es ++ [e]) -> fst e ∉ es.*1.
Proof.
  intros Hs Hin. apply list_elem_of_fmap in Hin as (x & Hx & Hin).
  assert (entry_lt x e) as [? _]; [|lia].
  eapply StronglySorted_app_1_elem_of; [exact Hs|done|set_solver].
Qed.

Lemma foldl_insert_map es :
  StronglySorted entry_lt es ->
  foldl (fun m e => <[fst e := snd e]> m) (∅ : gmap Z Z) es = list_to_map es.
Proof.
  induction es as [|e es IH] using rev_ind; intros Hs; [done|].
  rewrite foldl_app, IH by by apply StronglySorted_app_1_l in Hs. simpl.
  destruct e as [o p]. rewrite list_to_map_snoc; [done|]. by apply (sorted_fresh es (o, p)).
Qed.

Lemma valid_entries_sorted d : StronglySorted entry_lt (valid_entries d).
Proof. apply (mono_from_sorted None). Qed.

Lemma valid_entries_ok d : Forall entry_ok (valid_entries d).
Proof.
  destruct (mono_from_prefix None (decode_entries (length d / 16) d)) as [rest Hrest].
  pose proof (decode_entries_ok (length d / 16) d) as Hok.
  rewrite Hrest in Hok. by apply Forall_app in Hok as [? _].
Qed.

(** The 16-byte alignment arithmetic of [LoadCheckpoints], in [nat]. *)
Lemma aligned_count l :
  Z.to_nat ((Z.of_nat l - Z.of_nat l mod indexEntryBytes) / indexEntryBytes) = (l / 16)%nat /\
  Z.to_nat (Z.of_nat l - Z.of_nat l mod indexEntryBytes) = (16 * (l / 16))%nat.
Proof.
  unfold indexEntryBytes.
  assert (Z.of_nat l - Z.of_nat l mod 16 = 16 * Z.of_nat (l / 16)) as ->.
  { rewrite Nat2Z.inj_div. pose proof (Z.div_mod (Z.of_nat l) 16). lia. }
  rewrite (Z.mul_comm 16), Z.div_mul by lia. lia.
Qed.

(** [LoadCheckpoints] in closed form, for any file content: the kept entries in
    all three views and the file cut to exactly their encoding. *)
Lemma LoadCheckpoints_run s :
  let es := valid_entries (f_data (indexFile s)) in
  exists f', f_data f' = encode_entries es /\
    LoadCheckpoints load_io_ok s =
      (None, mkStore es.*1 es.*2 (list_to_map es) f' (n_ s) (nthIndex s)).
Proof.
  intros es. unfold LoadCheckpoints. cbn [li_stat load_io_ok li_read li_trunc].
  set (d := f_data (indexFile s)) in *.
  assert (f_size (indexFile s) = Z.of_nat (length d)) as Hsize by done.
  rewrite Hsize. destruct (aligned_count (length d)) as [-> ->].
  destruct (0 <? length d / 16)%nat.
  all: rewrite load_loop_mono, decode_entries_take; fold (valid_entries d) es; cbn [app].
  all: rewrite foldl_insert_map by apply valid_entries_sorted.
  all: pose proof (encode_valid_entries d) as Henc; fold es in Henc.
  all: destruct (Z.eqb_spec (zlen es.*1 * indexEntryBytes) (Z.of_nat (length d))) as [Heq|Hne]; cbn [negb].
  all: unfold indexEntryBytes, zlen in *; rewrite length_fmap in *.
  1,3: eexists; split; [|done]; fold d; rewrite Henc, take_ge; [done|lia].
  all: eexists; split; [|done]; unfold f_truncate; cbn [f_data]; fold d;
    rewrite Henc; replace (Z.to_nat (Z.of_nat (length es) * 16)) with (16 * length es)%nat by lia.
  all: pose proof (f_equal length Henc) as Hl; rewrite length_encode_entries, length_take in Hl;
    replace (16 * length es - length d)%nat with 0%nat by lia; by rewrite app_nil_r.
Qed.

(** ** [Floor] and [Get] *)

Lemma entries_fst s : length (offsets s) = length (positions s) -> (entries s).*1 = offsets s.
Proof. intros. unfold entries. apply fst_zip. lia. Qed.

Lemma entries_lookup s i :
  length (offsets s) = length (positions s) -> (i < length (offsets s))%nat ->
  entries s !! i = Some (nth i (offsets s) 0, nth i (positions s) 0).
Proof.
  intros Hlen Hi. unfold entries. apply lookup_zip_with_Some.
  eexists _, _. split; [done|]. split; apply lookup_nth; lia.
Qed.

Lemma length_entries s :
  length (offsets s) = length (positions s) -> length (entries s) = length (offsets s).
Proof. intros. unfold entries. rewrite length_zip_with. lia. Qed.

Lemma offsets_sorted s : store_wf s -> StronglySorted Z.lt (offsets s).
Proof.
  intros Hwf. rewrite <- entries_fst by apply Hwf.
  apply (StronglySorted_fmap entry_lt); [by intros ? ? []|]. apply Hwf.
Qed.

(** Where [Floor]'s binary search stops: everything before is at or below the
    target, everything from there on is above it. *)
Lemma Floor_search s t :
  store_wf s ->
  let i := Search (length (offsets s)) (fun i => t <? nth i (offsets s) 0) in
  (i <= length (offsets s))%nat /\
  (forall k, (k < i)%nat -> nth k (offsets s) 0 <= t) /\
  (forall k, (i <= k < length (offsets s))%nat -> t < nth k (offsets s) 0).
Proof.
  intros Hwf i. pose proof (offsets_sorted s Hwf) as Hs.
  destruct (Search_spec (length (offsets s)) (fun i => t <? nth i (offsets s) 0))
    as (Hi & Hlo & Hhi).
  { intros a b Hab Ha%Z.ltb_lt. apply Z.ltb_lt.
    destruct (decide (a = b)) as [->|]; [done|].
    enough (nth a (offsets s) 0 < nth b (offsets s) 0) by lia.
    eapply (StronglySorted_lookup Z.lt); [exact Hs| |apply lookup_nth|apply lookup_nth]; lia. }
  fold i in Hi, Hlo, Hhi. split; [done|]. split; intros k Hk.
  - specialize (Hlo k Hk). lia.
  - specialize (Hhi k Hk). lia.
Qed.

(** The specification of [Floor]. *)
Definition is_floor (es : list (Z * Z)) (t : Z) (r : Z * Z * bool) : Prop :=
  match r with
  | (o, p, true) => (o, p) ∈ es /\ o <= t /\ forall e, e ∈ es -> fst e <= t -> fst e <= o
  | (_, _, false) => forall e, e ∈ es -> t < fst e
  end.

Lemma Floor_is_floor s t : store_wf s -> is_floor (entries s) t (Floor t s).
Proof.
  intros Hwf. pose proof (wf_len s Hwf) as Hlen.
  destruct (Floor_search s t Hwf) as (Hi & Hlo & Hhi). unfold Floor.
  set (i := Search _ _) in *.
  assert (forall e, e ∈ entries s -> exists k, (k < length (offsets s))%nat /\
            fst e = nth k (offsets s) 0) as Hin.
  { intros e (k & Hk)%list_elem_of_lookup. pose proof (lookup_lt_Some _ _ _ Hk) as Hlt.
    rewrite length_entries in Hlt by done. rewrite entries_lookup in Hk by done.
    exists k. by simplify_eq. }
  destruct (Nat.eqb_spec i 0) as [Hi0|Hi0]; simpl.
  - intros e (k & Hk & ->)%Hin. apply Hhi. lia.
  - split; [|split].
    + apply list_elem_of_lookup. exists (i - 1)%nat. apply entries_lookup; [done|lia].
    + apply Hlo. lia.
    + intros e (k & Hk & ->)%Hin Hle.
      destruct (Nat.lt_ge_cases k i) as [Hki|Hki]; [|specialize (Hhi k); lia].
      destruct (decide (k = i - 1)%nat) as [->|]; [lia|].
      enough (nth k (offsets s) 0 < nth (i - 1) (offsets s) 0) by lia.
      eapply (StronglySorted_lookup Z.lt); [by apply offsets_sorted| |apply lookup_nth|apply lookup_nth]; lia.
Qed.

(** ** [Checkpoint] *)

(** The counter rule: every N-th call is persisted. *)
Definition persists (s : InMemoryStore) : bool := nthIndex s <=? n_ s + 1.

Lemma Checkpoint_counts s o p wo :
  store_wf s -> persists s = false ->
  Checkpoint wo o p s =
    (None, mkStore (offsets s) (positions s) (index s) (indexFile s) (n_ s + 1) (nthIndex s)).
Proof.
  intros Hwf Hp. unfold persists in Hp. apply Z.leb_gt in Hp.
  pose proof (wf_n s Hwf). pose proof (wf_nth s Hwf) as Hnth. unfold is_u32 in Hnth.
  unfold Checkpoint. rewrite u32_small by (unfold is_u32; lia).
  destruct (Z.ltb_spec 0 (nthIndex s)); [|lia].
  destruct (Z.ltb_spec (n_ s + 1) (nthIndex s)); [done|lia].
Qed.

Lemma Checkpoint_persists s o p :
  store_wf s -> persists s = true ->
  Checkpoint WOk o p s =
    (None, mkStore (offsets s ++ [o]) (positions s ++ [p]) (<[o := p]> (index s))
             (mkFile (f_data (indexFile s) ++ encode_entry (o, p)) (f_synced (indexFile s)))
             0 (nthIndex s)).
Proof.
  intros Hwf Hp. unfold persists in Hp. apply Z.leb_le in Hp.
  pose proof (wf_n s Hwf). pose proof (wf_nth s Hwf) as Hnth. unfold is_u32 in Hnth.
  unfold Checkpoint.
  destruct (Z.ltb_spec 0 (nthIndex s)); cbn [andb]; [|done].
  assert (n_ s + 1 = nthIndex s) as Heq by lia. rewrite Heq, u32_small by done.
  by rewrite Z.ltb_irrefl.
Qed.

Lemma entries_snoc s o p :
  length (offsets s) = length (positions s) ->
  zip (offsets s ++ [o]) (positions s ++ [p]) = entries s ++ [(o, p)].
Proof. intros. unfold entries. by rewrite zip_with_app. Qed.

(** A checkpoint above all previous ones keeps the invariant, and is recorded
    exactly when the counter says so. *)
Lemma Checkpoint_wf s o p :
  store_wf s -> entry_ok (o, p) -> Forall (fun e => entry_lt e (o, p)) (entries s) ->
  let '(err, s') := Checkpoint WOk o p s in
  err = None /\ store_wf s' /\
  entries s' = (if persists s then entries s ++ [(o, p)] else entries s) /\
  nthIndex s' = nthIndex s /\ n_ s' = (if persists s then 0 else n_ s + 1).
Proof.
  intros Hwf Hok Hlt. destruct (persists s) eqn:Hp.
  - rewrite Checkpoint_persists by done. split; [done|].
    assert (entries (mkStore (offsets s ++ [o]) (positions s ++ [p]) (<[o := p]> (index s))
             (mkFile (f_data (indexFile s) ++ encode_entry (o, p)) (f_synced (indexFile s)))
             0 (nthIndex s)) = entries s ++ [(o, p)]) as He
      by (apply entries_snoc, Hwf).
    assert (StronglySorted entry_lt (entries s ++ [(o, p)])) as Hs.
    { apply StronglySorted_app_2; [|apply Hwf|repeat constructor].
      intros a b Ha Hb%list_elem_of_singleton. subst. rewrite Forall_forall in Hlt. by apply Hlt. }
    split; [|done]. destruct Hwf. split; rewrite ?He; cbn [offsets positions index indexFile n_ nthIndex f_data].
    + rewrite !length_app. simpl. lia.
    + done.
    + rewrite list_to_map_snoc; [by f_equal|]. by apply (sorted_fresh (entries s) (o, p)).
    + by rewrite encode_entries_app, wf_file0, encode_entries_singleton.
    + apply Forall_app_2; [done|]. by apply Forall_singleton.
    + unfold is_u32 in *. lia.
    + done.
  - rewrite Checkpoint_counts by done. split; [done|]. split; [|done].
    unfold persists in Hp. apply Z.leb_gt in Hp.
    destruct Hwf. split; try done. cbn. lia.
Qed.

(** The loaded store satisfies the invariant whatever the file held. *)
Lemma LoadCheckpoints_wf s :
  0 <= n_ s < Z.max 1 (nthIndex s) -> is_u32 (nthIndex s) ->
  exists s', LoadCheckpoints load_io_ok s = (None, s') /\ store_wf s' /\
    entries s' = valid_entries (f_data (indexFile s)).
Proof.
  intros Hn Hnth. destruct (LoadCheckpoints_run s) as (f' & Hf & ->).
  set (es := valid_entries _) in *.
  assert (entries (mkStore es.*1 es.*2 (list_to_map es) f' (n_ s) (nthIndex s)) = es) as He
    by apply zip_fst_snd.
  eexists. split; [done|]. rewrite He. split; [|done].
  split; rewrite ?He; cbn [offsets positions index indexFile n_ nthIndex]; try done.
  - by rewrite !length_fmap.
  - apply valid_entries_sorted.
  - apply valid_entries_ok.
Qed.

(** ** Properties *)

(** Whatever bytes a crash left in the index file, [LoadCheckpoints]
    succeeds, keeps exactly the longest prefix of 16-byte entries strictly
    increasing in offset and position, agrees on it in all in-memory views,
    and rewrites the file to exactly that prefix. *)
Theorem LoadCheckpoints_heals s
  (Hn : 0 <= n_ s < Z.max 1 (nthIndex s)) (Hnth : is_u32 (nthIndex s)) :
  exists s', LoadCheckpoints load_io_ok s = (None, s') /\ store_wf s' /\
    entries s' = valid_entries (f_data (indexFile s)) /\
    (forall k e, decode_entries (length (f_data (indexFile s)) / 16) (f_data (indexFile s)) !! k = Some e ->
       k = length (entries s') -> ~ StronglySorted entry_lt (entries s' ++ [e])).
Proof.
  destruct (LoadCheckpoints_wf s Hn Hnth) as (s' & Hrun & Hwf & He).
  exists s'. split; [done|]. split; [done|]. split; [done|].
  rewrite He. unfold valid_entries. set (all := decode_entries _ _) in *.
  intros k e Hk -> Hs.
  assert (mono_from None all = take (length (mono_from None all)) all) as Htake.
  { destruct (mono_from_prefix None all) as [rest Hrest].
    rewrite Hrest at 3. by rewrite take_app_length. }
  eapply (mono_from_maximal None); [exact Hk| |exact Htake]. simpl. by rewrite <- Htake.
Qed.

Lemma LoadCheckpoints_heals_witness :
  let s := mkStore [] [] ∅ (mkFile (encode_entries [(9, 100); (19, 200); (5, 300)] ++ [byte.of_Z 1]) 0) 0 10 in
  exists s', LoadCheckpoints load_io_ok s = (None, s') /\ store_wf s' /\
    entries s' = valid_entries (f_data (indexFile s)) /\
    (forall k e, decode_entries (length (f_data (indexFile s)) / 16) (f_data (indexFile s)) !! k = Some e ->
       k = length (entries s') -> ~ StronglySorted entry_lt (entries s' ++ [e])).
Proof.
  intros s. apply (LoadCheckpoints_heals s); [cbn; lia | unfold is_u32; cbn; lia].
Defined.

(** [Floor] returns the checkpoint with the greatest offset at or below
    the target, and reports none exactly when every checkpoint is above it. *)
Theorem Floor_greatest s t (Hwf : store_wf s) : is_floor (entries s) t (Floor t s).
Proof. by apply Floor_is_floor. Qed.

(** A store holding two checkpoints, for concrete instances. *)
Definition example_store : InMemoryStore :=
  mkStore [9; 19] [100; 200] (<[19 := 200]> (<[9 := 100]> ∅))
    (mkFile (encode_entries [(9, 100); (19, 200)]) 0) 3 10.

Lemma example_store_wf : store_wf example_store.
Proof.
  split.
  - reflexivity.
  - repeat constructor; simpl; lia.
  - by vm_compute.
  - reflexivity.
  - repeat constructor; cbn; lia.
  - cbn. lia.
  - unfold is_u32. cbn. lia.
Qed.

Lemma Floor_greatest_witness : is_floor (entries example_store) 12 (9, 100, true).
Proof.
  change (9, 100, true) with (Floor 12 example_store).
  apply (Floor_greatest example_store 12 example_store_wf).
Defined.

(** One [Checkpoint] call per record, as the WAL writer issues them. *)
Fixpoint checkpoint_all (cps : list (Z * Z)) (s : InMemoryStore) : InMemoryStore :=
  match cps with
  | [] => s
  | (o, p) :: cps' => checkpoint_all cps' (snd (Checkpoint WOk o p s))
  end.

(** The entries [Checkpoint] keeps of a run of calls that finds [c] calls
    already counted: those that bring the counter to N. *)
Fixpoint every_nth (nth c : Z) (cps : list (Z * Z)) : list (Z * Z) :=
  match cps with
  | [] => []
  | e :: cps' => if nth <=? c + 1 then e :: every_nth nth 0 cps' else every_nth nth (c + 1) cps'
  end.

Lemma checkpoint_all_spec cps s :
  store_wf s -> Forall entry_ok cps -> StronglySorted entry_lt (entries s ++ cps) ->
  store_wf (checkpoint_all cps s) /\
  entries (checkpoint_all cps s) = entries s ++ every_nth (nthIndex s) (n_ s) cps.
Proof.
  revert s. induction cps as [|[o p] cps IH]; intros s Hwf Hok Hs.
  { simpl. by rewrite app_nil_r. }
  apply Forall_cons in Hok as [He Hok].
  assert (Forall (fun e => entry_lt e (o, p)) (entries s)) as Hlt.
  { apply Forall_forall. intros e Hin.
    eapply StronglySorted_app_1_elem_of; [exact Hs|done|]. by apply elem_of_cons; left. }
  pose proof (Checkpoint_wf s o p Hwf He Hlt) as Hc. unfold persists in Hc.
  cbn [checkpoint_all every_nth]. destruct (Checkpoint WOk o p s) as [err s'].
  destruct Hc as (_ & Hwf' & Hent & Hnth & Hn). cbn [snd].
  destruct (nthIndex s <=? n_ s + 1).
  - destruct (IH s') as [? ->]; [done|done|by rewrite Hent, <- app_assoc|].
    rewrite Hent, Hnth, Hn, <- app_assoc. done.
  - destruct (IH s') as [? ->]; [done|done| |by rewrite Hent, Hnth, Hn].
    rewrite Hent. apply StronglySorted_app in Hs as (Hx & ? & Hc%StronglySorted_cons).
    apply StronglySorted_app_2; [|done|apply Hc]. intros; apply Hx; [done|].
    by apply elem_of_cons; right.
Qed.

(** The sparse index survives a restart: a run of [Checkpoint] calls keeps
    every N-th of the given pairs, and reopening the file it leaves behind
    (with any torn trailing bytes of one unfinished entry) loads exactly the
    same checkpoints. *)
Theorem checkpoints_reload cps nth torn
  (Hnth : 0 < nth < 2 ^ 32) (Hok : Forall entry_ok cps)
  (Hs : StronglySorted entry_lt cps) (Htorn : (length torn < 16)%nat) :
  let s := checkpoint_all cps (mkStore [] [] ∅ empty_file 0 nth) in
  let disk := mkFile (f_data (indexFile s) ++ torn) 0 in
  entries s = every_nth nth 0 cps /\
  exists s0 s1, NewInMemoryStore (mkOpenIo None None) (Some disk) nth = Ok s0 /\
    LoadCheckpoints load_io_ok s0 = (None, s1) /\ store_wf s1 /\ entries s1 = entries s.
Proof.
  intros s disk.
  assert (store_wf (mkStore [] [] ∅ empty_file 0 nth)) as Hwf0.
  { split; try done; try constructor; cbn; unfold is_u32; lia. }
  destruct (checkpoint_all_spec cps _ Hwf0 Hok) as [Hwf Hent]; [by simpl|].
  fold s in Hwf, Hent. split; [done|]. eexists _. 
  destruct (LoadCheckpoints_wf (mkStore [] [] ∅ disk 0 nth)) as (s1 & Hrun & Hwf1 & He1);
    [cbn; lia|unfold is_u32; cbn; lia|].
  exists s1. split; [done|]. split; [done|]. split; [done|]. rewrite He1.
  cbn [indexFile disk f_data]. rewrite (wf_file s Hwf).
  unfold valid_entries. rewrite length_app, length_encode_entries.
  replace ((16 * length (entries s) + length torn) / 16)%nat with (length (entries s))
    by (apply (Nat.div_unique _ 16 _ (length torn)); lia).
  rewrite decode_encode_entries by apply Hwf. apply (mono_from_id None), Hwf.
Qed.

Lemma checkpoints_reload_witness :
  let cps := [(0, 0); (1, 13); (2, 26); (3, 39)] in
  let s := checkpoint_all cps (mkStore [] [] ∅ empty_file 0 2) in
  let disk := mkFile (f_data (indexFile s) ++ [byte.of_Z 7]) 0 in
  entries s = every_nth 2 0 cps /\
  exists s0 s1, NewInMemoryStore (mkOpenIo None None) (Some disk) 2 = Ok s0 /\
    LoadCheckpoints load_io_ok s0 = (None, s1) /\ store_wf s1 /\ entries s1 = entries s.
Proof.
  apply (checkpoints_reload [(0, 0); (1, 13); (2, 26); (3, 39)] 2 [byte.of_Z 7]);
    [lia | repeat constructor; cbn; lia | repeat constructor; cbn; lia | cbn; lia].
Defined.
