(* ===== verification/Checksum.v ===== *)
(** * Checksum: the pluggable integrity algorithms ([internal/checksum])

    The [Checksum] interface is a record of its three methods, with the
    contract its doc comment states ("parts concatenated in order", "always
    exactly Size() bytes") as the class [ChecksumOk] that the WAL layer is
    verified against.  [CRC32C] is modelled down to the table and the
    register of Go's [hash/crc32]; [hashChecksum] is modelled over the
    [hash.Hash] interface and instantiated with the standard hashes that are
    given by a register update. *)

From Stdlib Require Import ZArith Lia Strings.String.
From stdpp Require Import base list list_numbers numbers option.
From coqutil Require Import Byte Word.LittleEndianList.
From S2P Require Import Prelude Bytes.

Local Open Scope Z_scope.

(** ** The interface *)

Record Checksum := mkChecksum {
  Compute_ : list (list byte) -> list byte;
  Size_ : Z;
  Name_ : string
}.

(** The contract of the interface's doc comment. *)
Class ChecksumOk (c : Checksum) := {
  Compute_concat : forall parts, Compute_ c parts = Compute_ c [mjoin parts];
  Compute_Size : forall parts, zlen (Compute_ c parts) = Size_ c
}.

(** ** CRC registers ([hash/crc32]) *)

Definition Castagnoli : Z := 0x82f63b78.
Definition IEEE : Z := 0xedb88320.

(** One bit of the reflected shift register. *)
Definition crc_bit (poly crc : Z) : Z :=
  if Z.odd crc then Z.lxor (Z.shiftr crc 1) poly else Z.shiftr crc 1.

Fixpoint crc_bits (n : nat) (poly crc : Z) : Z :=
  match n with
  | O => crc
  | S n' => crc_bits n' poly (crc_bit poly crc)
  end.

(** [crc32.MakeTable]: entry [i] is the register after shifting byte [i] out. *)
Definition MakeTable (poly : Z) : list Z := crc_bits 8 poly <$> seqZ 0 256.

(** [tab[byte(crc)^v] ^ (crc >> 8)] *)
Definition crc_step (tab : list Z) (crc : Z) (v : byte) : Z :=
  Z.lxor (nth (Z.to_nat (Z.lxor (Z.land crc 255) (byte.unsigned v))) tab 0) (Z.shiftr crc 8).

Definition not32 (z : Z) : Z := Z.lxor z (2 ^ 32 - 1).

(** [crc32.Update]: complement, run the table over the bytes, complement. *)
Definition crc32_Update (crc : Z) (tab : list Z) (p : list byte) : Z :=
  not32 (fold_left (crc_step tab) p (not32 crc)).

(** [CRC32C.Compute]: one [crc32.Update] per part. *)
Definition CRC32C_Compute (table : list Z) (parts : list (list byte)) : list byte :=
  PutUint32 (fold_left (fun sum p => crc32_Update sum table p) parts 0).

Definition NewCRC32C : Checksum :=
  let table := MakeTable Castagnoli in
  mkChecksum (CRC32C_Compute table) 4 "crc32c".

(** ** Hash adapters *)

(** What the source uses of [hash.Hash]: a fresh state, [Write], [Sum(nil)]. *)
Record Hash := mkHash {
  hstate : Type;
  hnew : hstate;
  hwrite : hstate -> list byte -> hstate;
  hsum : hstate -> list byte
}.

Record hashChecksum := mkHashChecksum {
  hc_name : string;
  hc_size : Z;
  newHash : Hash
}.

(** [hashChecksum.Compute]: a fresh hasher, every part written, summed. *)
Definition hashChecksum_Compute (h : hashChecksum) (parts : list (list byte)) : list byte :=
  let hh := newHash h in
  hsum hh (fold_left (hwrite hh) parts (hnew hh)).

Definition hashChecksum_Size (h : hashChecksum) : Z := hc_size h.
Definition hashChecksum_Name (h : hashChecksum) : string := hc_name h.

Definition of_hashChecksum (h : hashChecksum) : Checksum :=
  mkChecksum (hashChecksum_Compute h) (hashChecksum_Size h) (hashChecksum_Name h).

(** [hash/crc32].New(t): the digest keeps the running CRC. *)
Definition crc32_New (tab : list Z) : Hash :=
  mkHash Z 0 (fun crc p => crc32_Update crc tab p) PutUint32.

(** [hash/adler32]: two sums modulo 65521. *)
Definition adler_step (d : Z * Z) (b : byte) : Z * Z :=
  let s1 := (fst d + byte.unsigned b) mod 65521 in
  (s1, (snd d + s1) mod 65521).
Definition adler32_New : Hash :=
  mkHash (Z * Z) (1, 0) (fun d p => fold_left adler_step p d)
    (fun d => PutUint32 (Z.lor (Z.shiftl (snd d) 16) (fst d))).

(** [hash/fnv].New64a: xor the byte in, multiply by the prime. *)
Definition fnv_step (h : Z) (b : byte) : Z := u64 (Z.lxor h (byte.unsigned b) * 1099511628211).
Definition fnv_New64a : Hash :=
  mkHash Z 14695981039346656037 (fun h p => fold_left fnv_step p h) PutUint64.

(** [hash/crc64]: the same reflected register, 64 bits wide. *)
Definition ECMA : Z := 0xC96C5795D7870F42.
Definition not64 (z : Z) : Z := Z.lxor z (2 ^ 64 - 1).
Definition crc64_Update (crc : Z) (tab : list Z) (p : list byte) : Z :=
  not64 (fold_left (crc_step tab) p (not64 crc)).
Definition crc64_New (tab : list Z) : Hash :=
  mkHash Z 0 (fun crc p => crc64_Update crc tab p) PutUint64.

Definition NewCRC32IEEE : Checksum :=
  of_hashChecksum (mkHashChecksum "crc32-ieee" 4 (crc32_New (MakeTable IEEE))).
Definition NewAdler32 : Checksum :=
  of_hashChecksum (mkHashChecksum "adler32" 4 adler32_New).
Definition NewCRC64ECMA : Checksum :=
  of_hashChecksum (mkHashChecksum "crc64-ecma" 8 (crc64_New (MakeTable ECMA))).
Definition NewFNV1a64 : Checksum :=
  of_hashChecksum (mkHashChecksum "fnv1a-64" 8 fnv_New64a).

(** ** Contract of the register-based checksums *)

Lemma not32_involutive z : not32 (not32 z) = z.
Proof. unfold not32. by rewrite Z.lxor_assoc, Z.lxor_nilpotent, Z.lxor_0_r. Qed.

Lemma not64_involutive z : not64 (not64 z) = z.
Proof. unfold not64. by rewrite Z.lxor_assoc, Z.lxor_nilpotent, Z.lxor_0_r. Qed.

(** A left fold of left folds is one left fold over the concatenation. *)
Lemma fold_left_mjoin {A B} (f : A -> B -> A) (ls : list (list B)) a :
  fold_left (fun x l => fold_left f l x) ls a = fold_left f (mjoin ls) a.
Proof.
  revert a. induction ls as [|l ls IH]; intros a; [done|].
  simpl. by rewrite IH, fold_left_app.
Qed.

Lemma mjoin_singleton {A} (l : list A) : mjoin [l] = l.
Proof. apply app_nil_r. Qed.

(** Chained [crc32.Update] calls continue one register run: the closing and
    opening complements of neighbouring calls cancel. *)
Lemma crc32_Update_parts tab parts crc :
  fold_left (fun sum p => crc32_Update sum tab p) parts crc =
  not32 (fold_left (crc_step tab) (mjoin parts) (not32 crc)).
Proof.
  revert crc. induction parts as [|p ps IH]; intros crc; simpl.
  - by rewrite not32_involutive.
  - rewrite IH. unfold crc32_Update at 1.
    by rewrite not32_involutive, fold_left_app.
Qed.

Lemma crc64_Update_parts tab parts crc :
  fold_left (fun sum p => crc64_Update sum tab p) parts crc =
  not64 (fold_left (crc_step tab) (mjoin parts) (not64 crc)).
Proof.
  revert crc. induction parts as [|p ps IH]; intros crc; simpl.
  - by rewrite not64_involutive.
  - rewrite IH. unfold crc64_Update at 1.
    by rewrite not64_involutive, fold_left_app.
Qed.

#[export] Instance NewCRC32C_ok : ChecksumOk NewCRC32C.
Proof.
  split; intros parts; cbn [Compute_ Size_ NewCRC32C]; unfold CRC32C_Compute.
  - by rewrite !crc32_Update_parts, mjoin_singleton.
  - unfold zlen. by rewrite length_PutUint32.
Qed.

(** The contract a hash must meet for its adapter to be a [Checksum]. *)
Class HashOk (h : Hash) (size : Z) := {
  hwrite_app : forall s p q, hwrite h (hwrite h s p) q = hwrite h s (p ++ q);
  hwrite_nil : forall s, hsum h (hwrite h s []) = hsum h s;
  hsum_length : forall p, zlen (hsum h (hwrite h (hnew h) p)) = size
}.

Lemma hash_write_parts h size `{!HashOk h size} parts s :
  hsum h (fold_left (hwrite h) parts s) = hsum h (hwrite h s (mjoin parts)).
Proof.
  revert s. induction parts as [|p ps IH]; intros s; simpl.
  - by rewrite hwrite_nil.
  - by rewrite IH, hwrite_app.
Qed.

(** [hashChecksum] turns any well-behaved hash into a well-behaved [Checksum]. *)
#[export] Instance hashChecksum_ok name size h :
  HashOk h size -> ChecksumOk (of_hashChecksum (mkHashChecksum name size h)).
Proof.
  intros Hok. split; intros parts; simpl; unfold hashChecksum_Compute; simpl.
  - by rewrite (hash_write_parts h size).
  - rewrite (hash_write_parts h size). apply Hok.
Qed.

#[export] Instance crc32_New_ok tab : HashOk (crc32_New tab) 4.
Proof.
  split; simpl; intros.
  - pose proof (crc32_Update_parts tab [p; q] s) as Hpq. simpl in Hpq.
    rewrite Hpq, app_nil_r. done.
  - unfold crc32_Update. simpl. by rewrite not32_involutive.
  - unfold zlen. by rewrite length_PutUint32.
Qed.

#[export] Instance crc64_New_ok tab : HashOk (crc64_New tab) 8.
Proof.
  split; simpl; intros.
  - pose proof (crc64_Update_parts tab [p; q] s) as Hpq. simpl in Hpq.
    rewrite Hpq, app_nil_r. done.
  - unfold crc64_Update. simpl. by rewrite not64_involutive.
  - unfold zlen. by rewrite length_PutUint64.
Qed.

#[export] Instance adler32_New_ok : HashOk adler32_New 4.
Proof.
  split; simpl; intros; [by rewrite fold_left_app|done|].
  unfold zlen. by rewrite length_PutUint32.
Qed.

#[export] Instance fnv_New64a_ok : HashOk fnv_New64a 8.
Proof.
  split; simpl; intros; [by rewrite fold_left_app|done|].
  unfold zlen. by rewrite length_PutUint64.
Qed.

(** ** The CRC register is linear and injective *)

Lemma lxor_range n a b :
  0 <= n -> 0 <= a < 2 ^ n -> 0 <= b < 2 ^ n -> 0 <= Z.lxor a b < 2 ^ n.
Proof.
  intros Hn Ha Hb. split; [apply Z.lxor_nonneg; lia|].
  rewrite <- (Z.mod_small a (2 ^ n)), <- (Z.mod_small b (2 ^ n)) by lia.
  rewrite <- !Z.land_ones by lia.
  replace (Z.lxor (Z.land a (Z.ones n)) (Z.land b (Z.ones n)))
    with (Z.land (Z.lxor a b) (Z.ones n)).
  - rewrite Z.land_ones by lia. apply Z.mod_pos_bound. lia.
  - apply Z.bits_inj'. intros i Hi. rewrite !Z.land_spec, !Z.lxor_spec, !Z.land_spec.
    by destruct (Z.testbit a i), (Z.testbit b i), (Z.testbit (Z.ones n) i).
Qed.

Lemma odd_lxor a b : Z.odd (Z.lxor a b) = xorb (Z.odd a) (Z.odd b).
Proof. by rewrite <- !Z.bit0_odd, Z.lxor_spec. Qed.

Lemma crc_bit_lxor poly a b :
  crc_bit poly (Z.lxor a b) = Z.lxor (crc_bit poly a) (crc_bit poly b).
Proof.
  unfold crc_bit. rewrite odd_lxor, Z.shiftr_lxor.
  destruct (Z.odd a), (Z.odd b); simpl.
  - rewrite (Z.lxor_comm (Z.shiftr b 1)), Z.lxor_assoc, <- (Z.lxor_assoc poly).
    by rewrite Z.lxor_nilpotent, Z.lxor_0_l.
  - rewrite !Z.lxor_assoc. f_equal. apply Z.lxor_comm.
  - by rewrite !Z.lxor_assoc.
  - done.
Qed.

Lemma crc_bits_lxor n poly a b :
  crc_bits n poly (Z.lxor a b) = Z.lxor (crc_bits n poly a) (crc_bits n poly b).
Proof.
  revert a b. induction n as [|n IH]; intros a b; simpl; [done|].
  by rewrite crc_bit_lxor, IH.
Qed.

Lemma crc_bits_add n m poly a :
  crc_bits (n + m) poly a = crc_bits m poly (crc_bits n poly a).
Proof. revert a. induction n as [|n IH]; intros a; simpl; [done|]. apply IH. Qed.

(** Low zero bits are shifted out without touching the polynomial. *)
Lemma crc_bits_shiftl n poly a : crc_bits n poly (Z.shiftl a (Z.of_nat n)) = a.
Proof.
  revert a. induction n as [|n IH]; intros a; [apply Z.shiftl_0_r|].
  cbn [crc_bits]. unfold crc_bit.
  replace (Z.shiftl a (Z.of_nat (S n))) with (2 * Z.shiftl a (Z.of_nat n)).
  2:{ rewrite Nat2Z.inj_succ, !Z.shiftl_mul_pow2, Z.pow_succ_r by lia. lia. }
  rewrite Z.odd_mul. simpl.
  replace (Z.shiftr (2 * Z.shiftl a (Z.of_nat n)) 1) with (Z.shiftl a (Z.of_nat n)).
  - apply IH.
  - rewrite Z.shiftr_div_pow2 by lia. change (2 ^ 1) with 2.
    rewrite Z.mul_comm, Z.div_mul; lia.
Qed.

Lemma crc_bit_range poly a : is_u32 poly -> is_u32 a -> is_u32 (crc_bit poly a).
Proof.
  intros Hp Ha. unfold crc_bit. assert (is_u32 (Z.shiftr a 1)).
  { rewrite Z.shiftr_div_pow2 by lia. change (2 ^ 1) with 2.
    unfold is_u32 in *. pose proof (Z.div_lt_upper_bound a 2 (2 ^ 32)).
    pose proof (Z.div_pos a 2). lia. }
  case_if; [|done]. apply lxor_range; [lia|done|done].
Qed.

Lemma crc_bits_range n poly a : is_u32 poly -> is_u32 a -> is_u32 (crc_bits n poly a).
Proof.
  intros Hp. revert a. induction n as [|n IH]; intros a Ha; [done|].
  apply IH, crc_bit_range; done.
Qed.

Lemma crc_bit_kernel poly x :
  is_u32 x -> 2 ^ 31 <= poly -> crc_bit poly x = 0 -> x = 0.
Proof.
  unfold crc_bit. intros Hx Hpoly. unfold is_u32 in Hx.
  pose proof (Z.div2_odd x) as Hodd. rewrite Z.div2_spec in Hodd.
  assert (Z.shiftr x 1 < 2 ^ 31).
  { rewrite Z.shiftr_div_pow2 by lia. apply Z.div_lt_upper_bound; lia. }
  destruct (Z.odd x); simpl in Hodd; intros H0; [|lia].
  apply Z.lxor_eq in H0. lia.
Qed.

Lemma crc_bits_kernel n poly x :
  is_u32 x -> is_u32 poly -> 2 ^ 31 <= poly -> crc_bits n poly x = 0 -> x = 0.
Proof.
  intros Hx Hp Htop. revert x Hx. induction n as [|n IH]; intros x Hx H0; [done|].
  cbn [crc_bits] in H0. apply IH in H0; [|by apply crc_bit_range].
  by apply crc_bit_kernel in H0.
Qed.

(** Running the register is injective when the polynomial has its top bit. *)
Lemma crc_bits_inj n poly a b :
  is_u32 a -> is_u32 b -> is_u32 poly -> 2 ^ 31 <= poly ->
  crc_bits n poly a = crc_bits n poly b -> a = b.
Proof.
  intros Ha Hb Hp Htop Heq.
  assert (Z.lxor a b = 0) as H0%Z.lxor_eq; [|done].
  apply (crc_bits_kernel n poly); try done.
  - apply lxor_range; [lia|done|done].
  - by rewrite crc_bits_lxor, Heq, Z.lxor_nilpotent.
Qed.

(** ** The table-driven register against the bit-serial one *)

Lemma land_255_range z : 0 <= Z.land z 255 < 256.
Proof.
  change 255 with (Z.ones 8). rewrite Z.land_ones by lia.
  apply Z.mod_pos_bound. lia.
Qed.

(** A register value is its low byte xor its shifted-out upper part. *)
Lemma low_byte_split z : z = Z.lxor (Z.land z 255) (Z.shiftl (Z.shiftr z 8) 8).
Proof.
  apply Z.bits_inj'. intros i Hi. rewrite Z.lxor_spec, Z.land_spec.
  change 255 with (Z.ones 8). rewrite Z.testbit_ones by lia.
  destruct (Z.ltb_spec i 8).
  - rewrite Z.shiftl_spec_low, xorb_false_r by lia.
    replace (0 <=? i) with true by lia. by rewrite andb_true_r.
  - rewrite Z.shiftl_spec, Z.shiftr_spec by lia.
    replace (i - 8 + 8) with i by lia. by rewrite andb_false_r, andb_false_r, xorb_false_l.
Qed.

Lemma MakeTable_nth poly i :
  0 <= i < 256 -> nth (Z.to_nat i) (MakeTable poly) 0 = crc_bits 8 poly i.
Proof.
  intros Hi. unfold MakeTable. apply nth_lookup_Some.
  rewrite list_lookup_fmap, lookup_seqZ_lt by lia. cbn. rewrite Z2Nat.id by lia. done.
Qed.

(** One table step is eight bit steps on the register with the byte xored in. *)
Lemma crc_step_bits poly crc v :
  crc_step (MakeTable poly) crc v = crc_bits 8 poly (Z.lxor crc (byte.unsigned v)).
Proof.
  pose proof (land_255_range crc) as Hlow. pose proof (byte.unsigned_range v).
  unfold crc_step. rewrite MakeTable_nth by (apply (lxor_range 8); lia).
  replace (Z.lxor crc (byte.unsigned v)) with
    (Z.lxor (Z.lxor (Z.land crc 255) (byte.unsigned v)) (Z.shiftl (Z.shiftr crc 8) 8)).
  - rewrite (crc_bits_lxor 8 poly (Z.lxor _ _)). f_equal.
    symmetry. apply (crc_bits_shiftl 8).
  - by rewrite Z.lxor_assoc, (Z.lxor_comm (byte.unsigned v)), <- Z.lxor_assoc,
      <- low_byte_split.
Qed.

Lemma byte_land_shiftl b x : Z.land (byte.unsigned b) (Z.shiftl x 8) = 0.
Proof.
  apply Z.bits_inj'. intros i Hi. rewrite Z.land_spec, Z.bits_0.
  destruct (Z.ltb_spec i 8).
  - rewrite Z.shiftl_spec_low by lia. apply andb_false_r.
  - rewrite <- (byte.wrap_unsigned b). unfold byte.wrap.
    by rewrite Z.mod_pow2_bits_high by lia.
Qed.

(** A whole message is the bit-serial register run over the message read as
    one little-endian integer. *)
Lemma crc_fold_bits poly bs crc :
  fold_left (crc_step (MakeTable poly)) bs crc =
  crc_bits (8 * length bs) poly (Z.lxor crc (le_combine bs)).
Proof.
  revert crc. induction bs as [|b bs IH]; intros crc.
  - simpl. by rewrite Z.lxor_0_r.
  - cbn [fold_left le_combine length].
    rewrite IH, crc_step_bits. replace (8 * S (length bs))%nat with (8 + 8 * length bs)%nat by lia.
    rewrite crc_bits_add. f_equal.
    rewrite <- (crc_bits_shiftl 8 poly (le_combine bs)) at 1.
    rewrite <- crc_bits_lxor, Z.lxor_assoc. f_equal. f_equal.
    apply Z.lxor_lor, byte_land_shiftl.
Qed.

Lemma Castagnoli_range : is_u32 Castagnoli /\ 2 ^ 31 <= Castagnoli.
Proof. unfold is_u32, Castagnoli. lia. Qed.

(** The register value [CRC32C.Compute] serialises, as a function of the message. *)
Definition crc32c_value (m : list byte) : Z :=
  not32 (crc_bits (8 * length m) Castagnoli (Z.lxor (2 ^ 32 - 1) (le_combine m))).

Lemma crc32c_Compute_value parts :
  Compute_ NewCRC32C parts = PutUint32 (crc32c_value (mjoin parts)).
Proof.
  cbn [Compute_ NewCRC32C]. unfold CRC32C_Compute, crc32c_value.
  by rewrite crc32_Update_parts, crc_fold_bits.
Qed.

(** Running the register over fixed bytes is injective in its start value. *)
Lemma crc_fold_range poly bs crc :
  is_u32 poly -> is_u32 crc -> is_u32 (fold_left (crc_step (MakeTable poly)) bs crc).
Proof.
  intros Hp. revert crc. induction bs as [|b bs IH]; intros crc Hc; [done|].
  cbn [fold_left]. apply IH. rewrite crc_step_bits. apply crc_bits_range; [done|].
  pose proof (byte.unsigned_range b). apply lxor_range; [lia|done|lia].
Qed.

Lemma crc_fold_inj_start bs a b :
  is_u32 a -> is_u32 b ->
  fold_left (crc_step (MakeTable Castagnoli)) bs a =
  fold_left (crc_step (MakeTable Castagnoli)) bs b -> a = b.
Proof.
  destruct Castagnoli_range as [Hp Htop].
  revert a b. induction bs as [|v bs IH]; intros a b Ha Hb Heq; [done|].
  cbn [fold_left] in Heq. rewrite !crc_step_bits in Heq.
  pose proof (byte.unsigned_range v).
  assert (is_u32 (Z.lxor a (byte.unsigned v))) by (apply lxor_range; [lia|done|lia]).
  assert (is_u32 (Z.lxor b (byte.unsigned v))) by (apply lxor_range; [lia|done|lia]).
  apply IH in Heq; try by apply crc_bits_range.
  apply crc_bits_inj in Heq; try done.
  apply (f_equal (fun x => Z.lxor x (byte.unsigned v))) in Heq.
  by rewrite !Z.lxor_assoc, Z.lxor_nilpotent, !Z.lxor_0_r in Heq.
Qed.

(** Windows of at most four bytes are told apart by the register. *)
Lemma crc_fold_inj_window w1 w2 s :
  is_u32 s -> length w1 = length w2 -> (length w1 <= 4)%nat ->
  fold_left (crc_step (MakeTable Castagnoli)) w1 s =
  fold_left (crc_step (MakeTable Castagnoli)) w2 s -> w1 = w2.
Proof.
  destruct Castagnoli_range as [Hp Htop].
  intros Hs Hlen H4 Heq. rewrite !crc_fold_bits, Hlen in Heq.
  assert (forall w, (length w <= 4)%nat -> is_u32 (le_combine w)) as Hle.
  { intros w Hw. pose proof (le_combine_bound w).
    pose proof (Z.pow_le_mono_r 2 (8 * Z.of_nat (length w)) 32). unfold is_u32. lia. }
  apply crc_bits_inj in Heq; try done.
  2,3: apply lxor_range; [lia|done|apply Hle; lia].
  apply le_combine_inj; [done|].
  apply (f_equal (Z.lxor s)) in Heq.
  by rewrite <- !Z.lxor_assoc, Z.lxor_nilpotent, !Z.lxor_0_l in Heq.
Qed.

Lemma not32_range z : is_u32 z -> is_u32 (not32 z).
Proof. intros. apply lxor_range; [lia|done|lia]. Qed.

Lemma PutUint32_inj a b : is_u32 a -> is_u32 b -> PutUint32 a = PutUint32 b -> a = b.
Proof.
  intros Ha Hb Heq. rewrite <- (Uint32_Put a []), <- (Uint32_Put b []) by done.
  by rewrite Heq.
Qed.

(** ** Properties *)

(** C36. [CRC32C.Compute], which folds table-driven [crc32.Update] over its
    parts, equals the bit-serial CRC reference run over the concatenation of
    the parts read as one little-endian integer. *)
Theorem crc32c_reference parts :
  Compute_ NewCRC32C parts = PutUint32 (crc32c_value (mjoin parts)).
Proof. apply crc32c_Compute_value. Qed.

(** Four consecutive bytes are no longer than the register, so the checksum
    tells any two values of them apart. *)
Lemma crc32c_window_inj pre w1 w2 post :
  length w1 = length w2 -> (length w1 <= 4)%nat ->
  Compute_ NewCRC32C [pre ++ w1 ++ post] = Compute_ NewCRC32C [pre ++ w2 ++ post] -> w1 = w2.
Proof.
  intros Hlen H4. cbn [Compute_ NewCRC32C]. unfold CRC32C_Compute.
  rewrite !crc32_Update_parts, !mjoin_singleton. destruct Castagnoli_range as [Hp _].
  assert (is_u32 (not32 0)) by (apply not32_range; unfold is_u32; lia).
  intros Heq%PutUint32_inj; try (apply not32_range, crc_fold_range; done).
  apply (f_equal not32) in Heq. rewrite !not32_involutive, !fold_left_app in Heq.
  apply crc_fold_inj_start in Heq; try (by repeat apply crc_fold_range).
  apply crc_fold_inj_window in Heq; try done. by apply crc_fold_range.
Qed.

(** [CRC32C.Compute] detects every error burst confined to four
    consecutive bytes: two messages that agree outside a window of at most
    four bytes and differ inside it have different checksums. *)
Theorem crc32c_detects_burst pre w1 w2 post
  (Hlen : length w1 = length w2) (H4 : (length w1 <= 4)%nat) (Hne : w1 <> w2) :
  Compute_ NewCRC32C [pre ++ w1 ++ post] <> Compute_ NewCRC32C [pre ++ w2 ++ post].
Proof. intros Heq. by apply Hne, (crc32c_window_inj pre w1 w2 post). Qed.

Lemma crc32c_detects_burst_witness :
  Compute_ NewCRC32C [[] ++ [byte.of_Z 1] ++ [byte.of_Z 7]] <>
  Compute_ NewCRC32C [[] ++ [byte.of_Z 2] ++ [byte.of_Z 7]].
Proof.
  apply (crc32c_detects_burst [] [byte.of_Z 1] [byte.of_Z 2] [byte.of_Z 7]);
    [reflexivity | simpl; lia | vm_compute; discriminate].
Defined.

(** The default checksum and the published check values: CRC-32C,
    CRC-32, Adler-32, CRC-64/XZ and FNV-1a of their standard test inputs. *)
Theorem checksum_check_values :
  let s := String.list_byte_of_string in
  Compute_ NewCRC32C [s "123456789"%string] = PutUint32 0xE3069283 /\
  Compute_ NewCRC32IEEE [s "123456789"%string] = PutUint32 0xCBF43926 /\
  Compute_ NewAdler32 [s "Wikipedia"%string] = PutUint32 0x11E60398 /\
  Compute_ NewCRC64ECMA [s "123456789"%string] = PutUint64 0x995DC9BBDF1939FA /\
  Compute_ NewFNV1a64 [s "a"%string] = PutUint64 0xaf63dc4c8601ec8c.
Proof. vm_compute. repeat split. Qed.
