(* ===== verification/Digest.v ===== *)
(** * Digest: the cryptographic digests the checksum package takes from Go's
    standard library ([crypto/sha256], [crypto/sha1], [crypto/md5])

    Each is the published block function run over the padded message; the
    streaming [hash.Hash] state is the message written so far, which is what
    [Sum(nil)] digests.  Words are 32-bit [Z]s. *)

From Stdlib Require Import ZArith Lia Strings.String.
From stdpp Require Import base list list_numbers numbers option.
From coqutil Require Import Byte Word.LittleEndianList.
From S2P Require Import Prelude Bytes Checksum.

Local Open Scope Z_scope.

(** ** 32-bit word operations *)

Definition add32 (a b : Z) : Z := (a + b) mod 2 ^ 32.
Definition rotl32 (n x : Z) : Z :=
  Z.lor (Z.shiftl x n mod 2 ^ 32) (Z.shiftr x (32 - n)).
Definition rotr32 (n x : Z) : Z := rotl32 (32 - n) x.
Definition wnot (x : Z) : Z := Z.lxor x (2 ^ 32 - 1).
Definition word_at (ws : list Z) (i : nat) : Z := nth i ws 0.

(** Cut a list into blocks of [n]; [fuel] is the list's length, an upper bound
    on the number of blocks. *)
Fixpoint blocks_of {A} (fuel n : nat) (l : list A) : list (list A) :=
  match fuel, l with
  | S f, _ :: _ => take n l :: blocks_of f n (drop n l)
  | _, _ => []
  end.

Definition blocks {A} (n : nat) (l : list A) : list (list A) := blocks_of (length l) n l.

(** Message, [0x80], zeros up to 56 mod 64, then the 8 length bytes. *)
Definition pad (len8 : list byte) (m : list byte) : list byte :=
  m ++ byte.of_Z 128 ::
    replicate (Z.to_nat ((55 - zlen m) mod 64)) (byte.of_Z 0) ++ len8.

Definition be_words (block : list byte) : list Z := be_decode <$> blocks 4 block.
Definition le_words (block : list byte) : list Z := le_combine <$> blocks 4 block.

(** Extend a message schedule to [n] more words; each is a function of the
    words so far, newest first. *)
Fixpoint schedule (n : nat) (next : list Z -> Z) (rev_ws : list Z) : list Z :=
  match n with
  | O => rev rev_ws
  | S n' => schedule n' next (next rev_ws :: rev_ws)
  end.

(** ** SHA-256 *)

(** The round constants are the first 32 bits of the fractional parts of the cube
    roots of the first 64 primes, the initial state those of the square roots of
    the first eight. *)
Definition is_prime (p : nat) : bool :=
  (2 <=? p)%nat && forallb (fun d => negb (p mod d =? 0)%nat) (seq 2 (p - 2)).
Definition primes : list Z :=
  Eval vm_compute in Z.of_nat <$> take 64 (filter (fun p => is_prime p = true) (seq 2 320)).

(** The integer cube root, bit by bit from [2^b] down. *)
Fixpoint cube_root (b : nat) (acc n : Z) : Z :=
  match b with
  | O => acc
  | S b' =>
      let try := acc + 2 ^ Z.of_nat b' in
      cube_root b' (if try * try * try <=? n then try else acc) n
  end.

Definition sha256_K : list Z :=
  Eval vm_compute in (fun p => cube_root 36 0 (p * 2 ^ 96) mod 2 ^ 32) <$> primes.
Definition sha256_H0 : list Z :=
  Eval vm_compute in (fun p => Z.sqrt (p * 2 ^ 64) mod 2 ^ 32) <$> take 8 primes.

Definition sha256_next (r : list Z) : Z :=
  let w2 := word_at r 1 in let w7 := word_at r 6 in
  let w15 := word_at r 14 in let w16 := word_at r 15 in
  let s1 := Z.lxor (Z.lxor (rotr32 17 w2) (rotr32 19 w2)) (Z.shiftr w2 10) in
  let s0 := Z.lxor (Z.lxor (rotr32 7 w15) (rotr32 18 w15)) (Z.shiftr w15 3) in
  add32 (add32 s1 w7) (add32 s0 w16).

Definition sha256_round (h : list Z) (kw : Z * Z) : list Z :=
  match h with
  | [a; b; c; d; e; f; g; h] =>
      let S1 := Z.lxor (Z.lxor (rotr32 6 e) (rotr32 11 e)) (rotr32 25 e) in
      let ch := Z.lxor (Z.land e f) (Z.land (wnot e) g) in
      let t1 := add32 (add32 (add32 h S1) ch) (add32 (fst kw) (snd kw)) in
      let S0 := Z.lxor (Z.lxor (rotr32 2 a) (rotr32 13 a)) (rotr32 22 a) in
      let maj := Z.lxor (Z.lxor (Z.land a b) (Z.land a c)) (Z.land b c) in
      [add32 t1 (add32 S0 maj); a; b; c; add32 d t1; e; f; g]
  | _ => h
  end.

Definition sha256_block (h : list Z) (block : list byte) : list Z :=
  let ws := schedule 48 sha256_next (rev (be_words block)) in
  zip_with add32 h (fold_left sha256_round (zip sha256_K ws) h).

Definition sha256_sum (m : list byte) : list byte :=
  mjoin (PutUint32 <$>
    fold_left sha256_block (blocks 64 (pad (PutUint64 (8 * zlen m)) m)) sha256_H0).

(** ** SHA-1 *)

Definition sha1_H0 : list Z := [0x67452301; 0xefcdab89; 0x98badcfe; 0x10325476; 0xc3d2e1f0].

Definition sha1_next (r : list Z) : Z :=
  rotl32 1 (Z.lxor (Z.lxor (word_at r 2) (word_at r 7)) (Z.lxor (word_at r 13) (word_at r 15))).

Definition sha1_fk (t : Z) (b c d : Z) : Z * Z :=
  if t <? 20 then (Z.lor (Z.land b c) (Z.land (wnot b) d), 0x5a827999)
  else if t <? 40 then (Z.lxor (Z.lxor b c) d, 0x6ed9eba1)
  else if t <? 60 then (Z.lor (Z.lor (Z.land b c) (Z.land b d)) (Z.land c d), 0x8f1bbcdc)
  else (Z.lxor (Z.lxor b c) d, 0xca62c1d6).

Definition sha1_round (h : list Z) (tw : Z * Z) : list Z :=
  match h with
  | [a; b; c; d; e] =>
      let '(f, k) := sha1_fk (fst tw) b c d in
      [add32 (add32 (add32 (rotl32 5 a) f) (add32 e k)) (snd tw); a; rotl32 30 b; c; d]
  | _ => h
  end.

Definition sha1_block (h : list Z) (block : list byte) : list Z :=
  let ws := schedule 64 sha1_next (rev (be_words block)) in
  zip_with add32 h (fold_left sha1_round (zip (seqZ 0 80) ws) h).

Definition sha1_sum (m : list byte) : list byte :=
  mjoin (PutUint32 <$>
    fold_left sha1_block (blocks 64 (pad (PutUint64 (8 * zlen m)) m)) sha1_H0).

(** ** MD5 *)

Definition md5_K : list Z :=
  [0xd76aa478; 0xe8c7b756; 0x242070db; 0xc1bdceee; 0xf57c0faf; 0x4787c62a;
    0xa8304613; 0xfd469501; 0x698098d8; 0x8b44f7af; 0xffff5bb1; 0x895cd7be;
    0x6b901122; 0xfd987193; 0xa679438e; 0x49b40821; 0xf61e2562; 0xc040b340;
    0x265e5a51; 0xe9b6c7aa; 0xd62f105d; 0x2441453; 0xd8a1e681; 0xe7d3fbc8;
    0x21e1cde6; 0xc33707d6; 0xf4d50d87; 0x455a14ed; 0xa9e3e905; 0xfcefa3f8;
    0x676f02d9; 0x8d2a4c8a; 0xfffa3942; 0x8771f681; 0x6d9d6122; 0xfde5380c;
    0xa4beea44; 0x4bdecfa9; 0xf6bb4b60; 0xbebfbc70; 0x289b7ec6; 0xeaa127fa;
    0xd4ef3085; 0x4881d05; 0xd9d4d039; 0xe6db99e5; 0x1fa27cf8; 0xc4ac5665;
    0xf4292244; 0x432aff97; 0xab9423a7; 0xfc93a039; 0x655b59c3; 0x8f0ccc92;
    0xffeff47d; 0x85845dd1; 0x6fa87e4f; 0xfe2ce6e0; 0xa3014314; 0x4e0811a1;
    0xf7537e82; 0xbd3af235; 0x2ad7d2bb; 0xeb86d391].

Definition md5_S : list (list Z) :=
  [[7; 12; 17; 22]; [5; 9; 14; 20]; [4; 11; 16; 23]; [6; 10; 15; 21]].

Definition md5_H0 : list Z := [0x67452301; 0xefcdab89; 0x98badcfe; 0x10325476].

(** Round function and message-word index of step [i]. *)
Definition md5_fg (i : Z) (b c d : Z) : Z * Z :=
  if i <? 16 then (Z.lor (Z.land b c) (Z.land (wnot b) d), i)
  else if i <? 32 then (Z.lor (Z.land d b) (Z.land (wnot d) c), (5 * i + 1) mod 16)
  else if i <? 48 then (Z.lxor (Z.lxor b c) d, (3 * i + 5) mod 16)
  else (Z.lxor c (Z.lor b (wnot d)), (7 * i) mod 16).

Definition md5_round (ws : list Z) (h : list Z) (ik : Z * Z) : list Z :=
  match h with
  | [a; b; c; d] =>
      let '(f, g) := md5_fg (fst ik) b c d in
      let s := nth (Z.to_nat (fst ik mod 4)) (nth (Z.to_nat (fst ik / 16)) md5_S []) 0 in
      let x := add32 (add32 f a) (add32 (snd ik) (word_at ws (Z.to_nat g))) in
      [d; add32 b (rotl32 s x); b; c]
  | _ => h
  end.

Definition md5_block (h : list Z) (block : list byte) : list Z :=
  zip_with add32 h (fold_left (md5_round (le_words block)) (zip (seqZ 0 64) md5_K) h).

Definition md5_sum (m : list byte) : list byte :=
  mjoin (le_split 4 <$>
    fold_left md5_block (blocks 64 (pad (le_split 8 (8 * zlen m)) m)) md5_H0).

(** ** The digests as [hash.Hash] values and the remaining checksums *)

(** A digest whose state is the message written so far. *)
Definition digest_New (sum : list byte -> list byte) : Hash :=
  mkHash (list byte) [] (fun m p => m ++ p) sum.

Definition sha256_New : Hash := digest_New sha256_sum.
Definition sha1_New : Hash := digest_New sha1_sum.
Definition md5_New : Hash := digest_New md5_sum.

(** [SHA256.Compute] *)
Definition SHA256_Compute (parts : list (list byte)) : list byte :=
  hsum sha256_New (fold_left (hwrite sha256_New) parts (hnew sha256_New)).

Definition NewSHA256 : Checksum := mkChecksum SHA256_Compute 32 "sha256".
Definition NewMD5 : Checksum := of_hashChecksum (mkHashChecksum "md5" 16 md5_New).
Definition NewSHA1 : Checksum := of_hashChecksum (mkHashChecksum "sha1" 20 sha1_New).

(** ** Contract of the digest-based checksums *)

(** A block fold that keeps the chaining state at [n] words. *)
Lemma fold_left_length_inv {A} (f : list Z -> A -> list Z) n :
  (forall h x, length h = n -> length (f h x) = n) ->
  forall xs h, length h = n -> length (fold_left f xs h) = n.
Proof. intros Hf xs. induction xs as [|x xs IH]; intros h Hh; simpl; auto. Qed.

Lemma length_mjoin_words (enc : Z -> list byte) k (ws : list Z) :
  (forall w, length (enc w) = k) -> length (mjoin (enc <$> ws)) = (k * length ws)%nat.
Proof.
  intros Hk. induction ws as [|w ws IH]; [simpl; lia|].
  change (mjoin (enc <$> w :: ws)) with (enc w ++ mjoin (enc <$> ws)).
  rewrite length_app, Hk, IH. simpl. lia.
Qed.

Ltac round_length h :=
  repeat (destruct h as [|? h]; try discriminate); simpl; try done.

Lemma sha256_round_length h kw : length h = 8%nat -> length (sha256_round h kw) = 8%nat.
Proof. intros. round_length h. Qed.

Lemma sha1_round_length h tw : length h = 5%nat -> length (sha1_round h tw) = 5%nat.
Proof. intros. round_length h. by destruct (sha1_fk _ _ _ _). Qed.

Lemma md5_round_length ws h ik : length h = 4%nat -> length (md5_round ws h ik) = 4%nat.
Proof. intros. round_length h. by destruct (md5_fg _ _ _ _). Qed.

Lemma sha256_block_length h b : length h = 8%nat -> length (sha256_block h b) = 8%nat.
Proof.
  intros Hh. unfold sha256_block. rewrite length_zip_with.
  rewrite (fold_left_length_inv sha256_round 8); auto using sha256_round_length. lia.
Qed.

Lemma sha1_block_length h b : length h = 5%nat -> length (sha1_block h b) = 5%nat.
Proof.
  intros Hh. unfold sha1_block. rewrite length_zip_with.
  rewrite (fold_left_length_inv sha1_round 5); auto using sha1_round_length. lia.
Qed.

Lemma md5_block_length h b : length h = 4%nat -> length (md5_block h b) = 4%nat.
Proof.
  intros Hh. unfold md5_block. rewrite length_zip_with.
  rewrite (fold_left_length_inv (md5_round _) 4); auto using md5_round_length. lia.
Qed.

Lemma length_sha256_sum m : length (sha256_sum m) = 32%nat.
Proof.
  unfold sha256_sum. rewrite (length_mjoin_words _ 4) by apply length_PutUint32.
  rewrite (fold_left_length_inv sha256_block 8); auto using sha256_block_length.
Qed.

Lemma length_sha1_sum m : length (sha1_sum m) = 20%nat.
Proof.
  unfold sha1_sum. rewrite (length_mjoin_words _ 4) by apply length_PutUint32.
  rewrite (fold_left_length_inv sha1_block 5); auto using sha1_block_length.
Qed.

Lemma length_md5_sum m : length (md5_sum m) = 16%nat.
Proof.
  unfold md5_sum. rewrite (length_mjoin_words _ 4) by (intros; apply length_le_split).
  rewrite (fold_left_length_inv md5_block 4); auto using md5_block_length.
Qed.

Lemma digest_New_ok sum n :
  (forall m, length (sum m) = n) -> HashOk (digest_New sum) (Z.of_nat n).
Proof.
  intros Hn. split; simpl; intros.
  - by rewrite app_assoc.
  - by rewrite app_nil_r.
  - unfold zlen. by rewrite Hn.
Qed.

#[export] Instance sha256_New_ok : HashOk sha256_New 32 := digest_New_ok _ 32 length_sha256_sum.
#[export] Instance sha1_New_ok : HashOk sha1_New 20 := digest_New_ok _ 20 length_sha1_sum.
#[export] Instance md5_New_ok : HashOk md5_New 16 := digest_New_ok _ 16 length_md5_sum.

#[export] Instance NewSHA256_ok : ChecksumOk NewSHA256.
Proof.
  split; intros parts; cbn [Compute_ Size_ NewSHA256]; unfold SHA256_Compute.
  - rewrite !(hash_write_parts sha256_New 32). by rewrite mjoin_singleton.
  - rewrite (hash_write_parts sha256_New 32). apply sha256_New_ok.
Qed.

(** The eight algorithms the package offers. *)
Definition algorithms : list Checksum :=
  [NewCRC32C; NewCRC32IEEE; NewAdler32; NewCRC64ECMA; NewFNV1a64; NewMD5; NewSHA1; NewSHA256].

(** C37. Every algorithm of the package meets the [Checksum] contract: a
    checksum of several parts is the checksum of their concatenation, and it
    is exactly [Size()] bytes long. *)
Theorem algorithms_ok c parts (Hc : c ∈ algorithms) :
  Compute_ c parts = Compute_ c [mjoin parts] /\ zlen (Compute_ c parts) = Size_ c.
Proof.
  assert (ChecksumOk c); [|split; [apply Compute_concat | apply Compute_Size]].
  unfold algorithms in Hc. repeat (apply elem_of_cons in Hc as [->|Hc]; [apply _|]).
  by apply elem_of_nil in Hc.
Qed.

Lemma algorithms_ok_witness :
  Compute_ NewMD5 [[byte.of_Z 1]; []] = Compute_ NewMD5 [mjoin [[byte.of_Z 1]; []]] /\
  zlen (Compute_ NewMD5 [[byte.of_Z 1]; []]) = Size_ NewMD5.
Proof.
  apply (algorithms_ok NewMD5 [[byte.of_Z 1]; []]).
  do 5 (apply elem_of_cons; right). apply elem_of_cons. left. reflexivity.
Defined.

(** The digests against their published test vectors (FIPS 180, RFC 1321). *)
Theorem digest_check_values :
  let s := String.list_byte_of_string in
  be_decode (Compute_ NewSHA256 [s "ab"%string; s "c"%string]) =
    0xba7816bf8f01cfea414140de5dae2223b00361a396177a9cb410ff61f20015ad /\
  be_decode (Compute_ NewSHA1 [s "abc"%string]) = 0xa9993e364706816aba3e25717850c26c9cd0d89d /\
  be_decode (Compute_ NewMD5 [s "abc"%string]) = 0x900150983cd24fb0d6963f7d28e17f72.
Proof. vm_compute. repeat split. Qed.
