(* ===== verification/Wal.v ===== *)
(** * Wal: the write-ahead log file ([internal/wal])

    [WALWriter] (reserve, group-committed commit, recovery, close) and
    [WALReader] (positional reads through the sparse index).  The writer, the
    reader and the segment share one [InMemoryStore] and one file in the code;
    here the writer owns both and the reader takes them as arguments, so a
    read always sees the writer's current store and bytes.

    The body of [commitLocked] is split at the points where the mutex is
    released: [commit_check] (one loop iteration up to the decision),
    [begin_sync] and [end_sync] (before and after the unlocked [file.Sync]).
    [commitLocked] chains them for a caller that runs alone; [GroupCommit.v]
    interleaves them for concurrent callers. *)

From Stdlib Require Import ZArith Lia Strings.String.
From stdpp Require Import base list list_numbers numbers option gmap sorting.
From coqutil Require Import Byte.
From S2P Require Import Prelude Bytes Golib Index Checksum.

Local Open Scope Z_scope.

Definition LengthSize : Z := 4.
Definition MaxRecordSize : Z := 64 * 1024 * 1024.
Definition NthIndex : Z := 10.

Record pendingCheckpoint := mkPending {
  cp_seq : Z;
  cp_offset : Z;
  cp_pos : Z
}.

Record WALWriter := mkWriter {
  w_file : file;
  w_csum : Checksum;
  w_headerSize : Z;
  w_size : Z;
  w_nextOffset : Z;
  writeSeq : Z;
  syncedSeq : Z;
  syncing : bool;
  syncErr : outcome;
  pending : list pendingCheckpoint;
  w_store : InMemoryStore
}.

Definition set_file (f : file) (w : WALWriter) : WALWriter :=
  mkWriter f (w_csum w) (w_headerSize w) (w_size w) (w_nextOffset w) (writeSeq w)
    (syncedSeq w) (syncing w) (syncErr w) (pending w) (w_store w).
Definition set_store (st : InMemoryStore) (w : WALWriter) : WALWriter :=
  mkWriter (w_file w) (w_csum w) (w_headerSize w) (w_size w) (w_nextOffset w) (writeSeq w)
    (syncedSeq w) (syncing w) (syncErr w) (pending w) st.
Definition set_syncing (b : bool) (w : WALWriter) : WALWriter :=
  mkWriter (w_file w) (w_csum w) (w_headerSize w) (w_size w) (w_nextOffset w) (writeSeq w)
    (syncedSeq w) b (syncErr w) (pending w) (w_store w).
Definition set_syncErr (e : outcome) (w : WALWriter) : WALWriter :=
  mkWriter (w_file w) (w_csum w) (w_headerSize w) (w_size w) (w_nextOffset w) (writeSeq w)
    (syncedSeq w) (syncing w) e (pending w) (w_store w).
Definition set_syncedSeq (q : Z) (w : WALWriter) : WALWriter :=
  mkWriter (w_file w) (w_csum w) (w_headerSize w) (w_size w) (w_nextOffset w) (writeSeq w)
    q (syncing w) (syncErr w) (pending w) (w_store w).
Definition set_pending (ps : list pendingCheckpoint) (w : WALWriter) : WALWriter :=
  mkWriter (w_file w) (w_csum w) (w_headerSize w) (w_size w) (w_nextOffset w) (writeSeq w)
    (syncedSeq w) (syncing w) (syncErr w) ps (w_store w).
Definition set_head (off size : Z) (w : WALWriter) : WALWriter :=
  mkWriter (w_file w) (w_csum w) (w_headerSize w) size off (writeSeq w)
    (syncedSeq w) (syncing w) (syncErr w) (pending w) (w_store w).

(** ** Append path *)

(** The bytes of one record: [length ‖ checksum(length ‖ payload) ‖ payload]. *)
Definition encode_record (c : Checksum) (data : list byte) : list byte :=
  let lenBuf := PutUint32 (u32 (zlen data)) in
  let sum := Compute_ c [lenBuf; data] in
  lenBuf ++ sum ++ data.

(** [Reserve]: [(offset, seq)], or an error. *)
Definition Reserve (wo : write_outcome) (data : list byte) (w : WALWriter)
    : result (Z * Z) * WALWriter :=
  if MaxRecordSize <? zlen data then (Err (Msg "wal: payload too large"), w)
  else
    let pos := w_size w in
    let buf := encode_record (w_csum w) data in
    let '(werr, f') := f_append wo buf (w_file w) in
    match werr with
    | Some e => (Err (Wrap "wal: write record" e), set_file f' w)
    | None =>
        let offset := w_nextOffset w in
        let seq := u64 (writeSeq w + 1) in
        (Ok (offset, seq),
         mkWriter f' (w_csum w) (w_headerSize w) (i64 (w_size w + zlen buf))
           (u64 (w_nextOffset w + 1)) seq (syncedSeq w) (syncing w) (syncErr w)
           (pending w ++ [mkPending seq offset pos]) (w_store w))
    end.

(** ** Group commit *)

Inductive commit_next :=
| CReturn (err : outcome)
| CWait
| CLead (target : Z).

(** One iteration of the [commitLocked] loop, up to its decision. *)
Definition commit_check (seq : Z) (w : WALWriter) : commit_next :=
  match syncErr w with
  | Some e => CReturn (Some e)
  | None =>
      if seq <=? syncedSeq w then CReturn None
      else if syncing w then CWait
      else CLead (writeSeq w)
  end.

(** The leader announces its flush before releasing the mutex. *)
Definition begin_sync (w : WALWriter) : WALWriter := set_syncing true w.

(** The drain loop: checkpoint the pending records with [seq <= target].  The
    [i]-th index write has outcome [cpo i]; its error is ignored. *)
Fixpoint drain_loop (cpo : nat -> write_outcome) (i : nat) (target : Z)
    (ps : list pendingCheckpoint) (st : InMemoryStore)
    : list pendingCheckpoint * InMemoryStore :=
  match ps with
  | [] => ([], st)
  | p :: ps' =>
      if cp_seq p <=? target then
        drain_loop cpo (S i) target ps' (snd (Checkpoint (cpo i) (cp_offset p) (cp_pos p) st))
      else (ps, st)
  end.

(** After [file.Sync] returned [serr], with the mutex held again.  [n] is the
    file length when the sync began. *)
Definition end_sync (serr : outcome) (cpo : nat -> write_outcome) (target : Z) (n : nat)
    (w : WALWriter) : outcome * WALWriter :=
  let w1 := set_syncing false w in
  match serr with
  | Some e =>
      let err := Some (Wrap "wal: fsync" e) in
      (err, set_syncErr err w1)
  | None =>
      let w2 := set_file (f_sync_upto n (w_file w1)) w1 in
      let w3 := if syncedSeq w2 <? target then set_syncedSeq target w2 else w2 in
      let '(ps, st) := drain_loop cpo 0 target (pending w3) (w_store w3) in
      (None, set_store st (set_pending ps w3))
  end.

(** Outcomes of one leader round. *)
Record sync_io := mkSyncIo { sy_sync : outcome; sy_cp : nat -> write_outcome }.
Definition sync_io_ok : sync_io := mkSyncIo None (fun _ => WOk).

(** [commitLocked] for a caller with no concurrent flush: [None] when the fuel
    runs out or the caller would block in [cond.Wait].  A reserved [seq] needs
    at most two iterations ([commitLocked_total]). *)
Fixpoint commitLocked (fuel : nat) (io : sync_io) (seq : Z) (w : WALWriter)
    : option (outcome * WALWriter) :=
  match fuel with
  | O => None
  | S fuel' =>
      match commit_check seq w with
      | CReturn err => Some (err, w)
      | CWait => None
      | CLead target =>
          let w1 := begin_sync w in
          match end_sync (sy_sync io) (sy_cp io) target (length (f_data (w_file w1))) w1 with
          | (Some e, w2) => Some (Some e, w2)
          | (None, w2) => commitLocked fuel' io seq w2
          end
      end
  end.

Definition commit_fuel : nat := 2.

Definition Commit (io : sync_io) (seq : Z) (w : WALWriter) : option (outcome * WALWriter) :=
  commitLocked commit_fuel io seq w.

(** [Write] is [Reserve] then [Commit]. *)
Definition Write_ (wo : write_outcome) (io : sync_io) (data : list byte) (w : WALWriter)
    : option (result Z * WALWriter) :=
  match Reserve wo data w with
  | (Err e, w1) => Some (Err e, w1)
  | (Ok (offset, seq), w1) =>
      match Commit io seq w1 with
      | None => None
      | Some (Some e, w2) => Some (Err e, w2)
      | Some (None, w2) => Some (Ok offset, w2)
      end
  end.

(** [Size], [NextOffset] *)
Definition Size (w : WALWriter) : Z := w_size w.
Definition NextOffset (w : WALWriter) : Z := w_nextOffset w.

(** The loop of [Close] over the remaining checkpoints. *)
Fixpoint checkpoint_pending (cpo : nat -> write_outcome) (i : nat)
    (ps : list pendingCheckpoint) (st : InMemoryStore) : InMemoryStore :=
  match ps with
  | [] => st
  | p :: ps' =>
      checkpoint_pending cpo (S i) ps' (snd (Checkpoint (cpo i) (cp_offset p) (cp_pos p) st))
  end.

(** [Close]: flush what is still buffered, record its checkpoints, close. *)
Definition Wal_Close (io : sync_io) (close : outcome) (w : WALWriter) : outcome * WALWriter :=
  if (syncedSeq w <? writeSeq w) && match syncErr w with None => true | Some _ => false end then
    match sy_sync io with
    | Some e => (Some (Wrap "wal: fsync on close" e), w)
    | None =>
        let w1 := set_file (f_sync_upto (length (f_data (w_file w))) (w_file w)) w in
        let st := checkpoint_pending (sy_cp io) 0 (pending w1) (w_store w1) in
        (close, set_syncedSeq (writeSeq w1) (set_pending [] (set_store st w1)))
    end
  else (close, w).

(** ** Recovery *)

(** Outcomes of the system calls of [recover]. *)
Record recover_io := mkRecoverIo {
  ri_load : load_io;
  ri_stat : outcome;
  ri_read : Z -> outcome;
  ri_trunc : outcome
}.
Definition recover_io_ok : recover_io := mkRecoverIo load_io_ok None (fun _ => None) None.

(** The scan of [recover] over a file of [fileSize] bytes: the head [(off, pos)]
    and the file, cut at a torn tail.  [None]: out of fuel. *)
Fixpoint recover_loop (fuel : nat) (io : recover_io) (hs fileSize : Z) (f : file)
    (off pos : Z) : option (result (Z * Z) * file) :=
  match fuel with
  | O => None
  | S fuel' =>
      if pos =? fileSize then Some (Ok (off, pos), f)
      else if fileSize <? i64 (pos + hs) then
        match ri_trunc io with
        | Some e => Some (Err (Wrap "wal: truncate torn header" e), f)
        | None => Some (Ok (off, pos), f_truncate pos f)
        end
      else
        match (match ri_read io pos with
               | Some e => Err e
               | None => f_read_at f (Z.to_nat LengthSize) pos
               end) with
        | Err e => Some (Err (Wrap "wal: read length" e), f)
        | Ok lenBuf =>
            let len := Uint32 lenBuf in
            if MaxRecordSize <? len then
              Some (Err (CorruptionError pos [] [] "length out of bounds"), f)
            else
              let recEnd := i64 (pos + hs + len) in
              if fileSize <? recEnd then
                match ri_trunc io with
                | Some e => Some (Err (Wrap "wal: truncate torn payload" e), f)
                | None => Some (Ok (off, pos), f_truncate pos f)
                end
              else recover_loop fuel' io hs fileSize f (u64 (off + 1)) recEnd
        end
  end.

(** A record occupies at least its length field, so one round per byte is enough. *)
Definition recover_fuel (f : file) : nat := S (length (f_data f)).

(** Where the scan starts: the last checkpoint if a header fits behind it. *)
Definition recover_start (st : InMemoryStore) (hs fileSize : Z) : Z * Z :=
  match Floor MaxUint64 st with
  | (cpOff, cpPos, ok) =>
      if ok && (i64 (cpPos + hs) <=? fileSize) then (cpOff, cpPos) else (0, 0)
  end.

(** [recover] *)
Definition recover (io : recover_io) (w : WALWriter) : option (outcome * WALWriter) :=
  match LoadCheckpoints (ri_load io) (w_store w) with
  | (Some e, st) => Some (Some e, set_store st w)
  | (None, st) =>
      let w1 := set_store st w in
      match ri_stat io with
      | Some e => Some (Some (Wrap "wal: stat during recovery" e), w1)
      | None =>
          let fileSize := f_size (w_file w1) in
          let '(off, pos) := recover_start st (w_headerSize w1) fileSize in
          match recover_loop (recover_fuel (w_file w1)) io (w_headerSize w1) fileSize
                  (w_file w1) off pos with
          | None => None
          | Some (Err e, f') => Some (Some e, set_file f' w1)
          | Some (Ok (off', pos'), f') => Some (None, set_head off' pos' (set_file f' w1))
          end
      end
  end.

(** [NewWalWriter]: open or create the file (a new file's directory is fsynced),
    then recover.  [disk] is the file found under that name. *)
Definition NewWalWriter (oio : open_io) (rio : recover_io) (disk : option file)
    (st : InMemoryStore) (c : Checksum) : option (result WALWriter) :=
  let isNew := match disk with None => true | Some _ => false end in
  match oi_open oio with
  | Some e => Some (Err (Wrap "wal: open" e))
  | None =>
      let f := default empty_file disk in
      match (if isNew then oi_syncdir oio else None) with
      | Some e => Some (Err (Wrap "wal: fsync dir" e))
      | None =>
          let w := mkWriter f c (LengthSize + Size_ c) 0 0 0 0 false None [] st in
          match recover rio w with
          | None => None
          | Some (Some e, _) => Some (Err e)
          | Some (None, w') => Some (Ok w')
          end
      end
  end.

(** ** Reader *)

Record WALReader := mkReader {
  r_offset : Z;
  r_csum : Checksum;
  r_headerSize : Z
}.

(** [NewWALReader] *)
Definition NewWALReader (open : outcome) (c : Checksum) : result WALReader :=
  match open with
  | Some e => Err (Wrap "wal: open for read" e)
  | None => Ok (mkReader 0 c (LengthSize + Size_ c))
  end.

(** One iteration of the scan of [ReadAt], at record [cur] at [pos]: a result,
    or the next record and its position.  [rd p] is the outcome of reading at
    [p]. *)
Definition read_iter (rd : Z -> outcome) (r : WALReader) (f : file) (offset cur pos : Z)
    : result (list byte) + Z * Z :=
  match (match rd pos with
         | Some e => Err e
         | None => f_read_at f (Z.to_nat (r_headerSize r)) pos
         end) with
  | Err e =>
      match e with
      | EOF | UnexpectedEOF => inl (Err EOF)
      | _ => inl (Err (Wrap "wal: read header" e))
      end
  | Ok header =>
      let len := Uint32 header in
      if MaxRecordSize <? len then
        inl (Err (CorruptionError pos [] [] "length out of bounds"))
      else if cur =? offset then
        let storedSum := drop (Z.to_nat LengthSize) header in
        let ppos := i64 (pos + r_headerSize r) in
        match (match rd ppos with
               | Some e => Err e
               | None => f_read_at f (Z.to_nat len) ppos
               end) with
        | Err e => inl (Err (Wrap "wal: read payload" e))
        | Ok payload =>
            let computedSum :=
              Compute_ (r_csum r) [take (Z.to_nat LengthSize) header; payload] in
            if decide (computedSum = storedSum) then inl (Ok payload)
            else inl (Err (CorruptionError pos storedSum computedSum "checksum mismatch"))
        end
      else inr (u64 (cur + 1), i64 (pos + (r_headerSize r + len)))
  end.

(** The scan of [ReadAt] from record [cur] at [pos] to record [offset], on a
    file that does not change under it.  [None]: out of fuel. *)
Fixpoint read_loop (fuel : nat) (rd : Z -> outcome) (r : WALReader) (f : file)
    (offset cur pos : Z) : option (result (list byte)) :=
  match fuel with
  | O => None
  | S fuel' =>
      match read_iter rd r f offset cur pos with
      | inl res => Some res
      | inr (cur', pos') => read_loop fuel' rd r f offset cur' pos'
      end
  end.

Definition read_fuel (f : file) : nat := S (length (f_data f)).

(** Where the scan of [ReadAt] starts: the floor checkpoint, or the beginning. *)
Definition read_start (offset : Z) (st : InMemoryStore) : Z * Z :=
  match Floor offset st with
  | (o, p, ok) => if ok then (o, p) else (0, 0)
  end.

(** [WALReader.ReadAt] *)
Definition Wal_ReadAt (rd : Z -> outcome) (r : WALReader) (st : InMemoryStore) (f : file)
    (offset : Z) : option (result (list byte)) :=
  let '(cur, pos) := read_start offset st in
  read_loop (read_fuel f) rd r f offset cur pos.

(** [WALReader.Read]: the record at the cursor; the cursor advances on success. *)
Definition Wal_Read (rd : Z -> outcome) (r : WALReader) (st : InMemoryStore) (f : file)
    : option (result (list byte) * Z * WALReader) :=
  match Wal_ReadAt rd r st f (r_offset r) with
  | None => None
  | Some (Err e) => Some (Err e, r_offset r, r)
  | Some (Ok data) =>
      Some (Ok data, r_offset r, mkReader (u64 (r_offset r + 1)) (r_csum r) (r_headerSize r))
  end.

(** [WALReader.Seek] *)
Definition Wal_Seek (offset : Z) (r : WALReader) : WALReader :=
  mkReader offset (r_csum r) (r_headerSize r).
