(* ===== verification/WalFormat.v ===== *)
(** * WalFormat: the on-disk record format, recovery and reads

    The abstract state of one log file is the list of its payloads.
    [encode_log] is the file holding exactly those records; [is_torn] is what
    a crash in the middle of an append leaves behind it.  The file proves
    that the recovery scan and the read scan, from any record boundary, find
    exactly the abstract records, for every checksum that meets the
    [ChecksumOk] contract. *)

From Stdlib Require Import ZArith Lia Strings.String.
From stdpp Require Import base list list_numbers numbers option gmap sorting.
From coqutil Require Import Byte.
From S2P Require Import Prelude Bytes Golib Index Checksum Wal.

Local Open Scope Z_scope.

Section Format.
Context (c : Checksum) {Hc : ChecksumOk c}.

(** Header width in bytes, [LengthSize + csum.Size()]. *)
Definition hdr : nat := 4 + Z.to_nat (Size_ c).

Definition encode_log (log : list (list byte)) : list byte := mjoin (encode_record c <$> log).

(** Byte position of record [i]. *)
Definition rec_pos (log : list (list byte)) (i : nat) : nat := length (encode_log (take i log)).

(** A payload [Reserve] accepts. *)
Definition payload_ok (r : list byte) : Prop := zlen r <= MaxRecordSize.

(** A strict prefix of some record: a torn tail. *)
Definition is_torn (t : list byte) : Prop :=
  exists r k, payload_ok r /\ (k < length (encode_record c r))%nat /\ t = take k (encode_record c r).

(** Sizes stay clear of the [int64] limit by one maximal record. *)
Definition fits (d : list byte) : Prop := zlen d + Z.of_nat hdr + MaxRecordSize < 2 ^ 63.

Lemma Size_nonneg : 0 <= Size_ c.
Proof. rewrite <- (Compute_Size []). apply zlen_nonneg. Qed.

Lemma hdr_Z : LengthSize + Size_ c = Z.of_nat hdr.
Proof. pose proof Size_nonneg. unfold hdr, LengthSize. lia. Qed.

Lemma length_sum parts : length (Compute_ c parts) = Z.to_nat (Size_ c).
Proof. pose proof (Compute_Size (c := c) parts) as H. unfold zlen in H. lia. Qed.

Lemma length_encode_record r : length (encode_record c r) = (hdr + length r)%nat.
Proof.
  unfold encode_record, hdr. rewrite !length_app, length_PutUint32, length_sum. lia.
Qed.

Lemma encode_log_app l1 l2 : encode_log (l1 ++ l2) = encode_log l1 ++ encode_log l2.
Proof. unfold encode_log. by rewrite fmap_app, join_app. Qed.

Lemma encode_log_cons r l : encode_log (r :: l) = encode_record c r ++ encode_log l.
Proof. done. Qed.

Lemma encode_log_singleton r : encode_log [r] = encode_record c r.
Proof. apply app_nil_r. Qed.

(** The record at index [i] splits the log and the file around it. *)
Lemma encode_log_split log i r :
  log !! i = Some r ->
  encode_log log = encode_log (take i log) ++ encode_record c r ++ encode_log (drop (S i) log).
Proof.
  intros Hi. rewrite <- (take_drop_middle log i r Hi) at 1.
  by rewrite encode_log_app, encode_log_cons.
Qed.

Lemma rec_pos_S log i r :
  log !! i = Some r -> rec_pos log (S i) = (rec_pos log i + hdr + length r)%nat.
Proof.
  intros Hi. unfold rec_pos. rewrite (take_S_r _ _ r) by done.
  rewrite encode_log_app, encode_log_singleton, length_app, length_encode_record. lia.
Qed.

Lemma rec_pos_all log : rec_pos log (length log) = length (encode_log log).
Proof. unfold rec_pos. by rewrite take_ge. Qed.

Lemma rec_pos_app log l i : (i <= length log)%nat -> rec_pos (log ++ l) i = rec_pos log i.
Proof. intros. unfold rec_pos. by rewrite take_app_le. Qed.

Lemma rec_pos_mono log i j : (i <= j)%nat -> (rec_pos log i <= rec_pos log j)%nat.
Proof.
  intros Hij. unfold rec_pos. replace j with (i + (j - i))%nat by lia.
  rewrite <- take_take_drop, encode_log_app, length_app. lia.
Qed.

Lemma rec_pos_lt log i j :
  (i < j)%nat -> (i < length log)%nat -> (rec_pos log i < rec_pos log j)%nat.
Proof.
  intros Hij Hi. destruct (lookup_lt_is_Some_2 log i Hi) as [r Hr].
  pose proof (rec_pos_mono log (S i) j). rewrite (rec_pos_S _ _ _ Hr) in H. unfold hdr in H. lia.
Qed.

Lemma rec_pos_bound log i : (rec_pos log i <= length (encode_log log))%nat.
Proof.
  destruct (Nat.le_ge_cases i (length log)).
  - rewrite <- rec_pos_all. by apply rec_pos_mono.
  - unfold rec_pos. by rewrite take_ge.
Qed.

(** ** Reading one record at its boundary *)

(** Header bytes of a record. *)
Definition header_of (r : list byte) : list byte :=
  PutUint32 (u32 (zlen r)) ++ Compute_ c [PutUint32 (u32 (zlen r)); r].

Lemma encode_record_header r : encode_record c r = header_of r ++ r.
Proof. unfold encode_record, header_of. by rewrite app_assoc. Qed.

Lemma length_header_of r : length (header_of r) = hdr.
Proof. unfold header_of, hdr. by rewrite length_app, length_PutUint32, length_sum. Qed.

Lemma payload_u32 r : payload_ok r -> u32 (zlen r) = zlen r.
Proof.
  unfold payload_ok, MaxRecordSize. intros. apply u32_small. unfold is_u32.
  pose proof (zlen_nonneg r). lia.
Qed.

Lemma Uint32_header r t : payload_ok r -> Uint32 (header_of r ++ t) = zlen r.
Proof.
  intros Hr. unfold header_of. rewrite <- app_assoc, payload_u32 by done.
  apply Uint32_Put. unfold payload_ok, MaxRecordSize, is_u32 in *.
  pose proof (zlen_nonneg r). lia.
Qed.

Lemma Uint32_header_take r k : payload_ok r -> (4 <= k)%nat -> Uint32 (take k (header_of r)) = zlen r.
Proof.
  intros Hr Hk. rewrite <- (Uint32_header r [] Hr). unfold Uint32.
  rewrite take_take, Nat.min_l by lia. rewrite take_app_le; [done|].
  rewrite length_header_of. unfold hdr. lia.
Qed.

(** Records are at least [LengthSize] bytes long. *)
Lemma length_encode_log_ge log : (4 * length log <= length (encode_log log))%nat.
Proof.
  induction log as [|r log IH]; [done|].
  rewrite encode_log_cons, length_app, length_encode_record. unfold hdr. simpl. lia.
Qed.

(** The bytes at a record boundary. *)
Lemma slice_record log torn i r k :
  log !! i = Some r -> (k <= hdr + length r)%nat ->
  slice (rec_pos log i) k (encode_log log ++ torn) = take k (encode_record c r).
Proof.
  intros Hi Hk. rewrite (encode_log_split log i r Hi), <- !app_assoc.
  unfold rec_pos. rewrite slice_app_r by done.
  rewrite take_app_le; [done|]. rewrite length_encode_record. lia.
Qed.

Lemma slice_payload log torn i r :
  log !! i = Some r ->
  slice (rec_pos log i + hdr) (length r) (encode_log log ++ torn) = r.
Proof.
  intros Hi. rewrite (encode_log_split log i r Hi), <- !app_assoc.
  unfold rec_pos. rewrite slice_app_shift, encode_record_header, <- app_assoc.
  rewrite slice_app_r by by rewrite length_header_of. apply take_app_length.
Qed.

Lemma rec_pos_fits log torn i r :
  log !! i = Some r ->
  (rec_pos log i + hdr + length r <= length (encode_log log ++ torn))%nat.
Proof.
  intros Hi. rewrite <- (rec_pos_S _ _ _ Hi), length_app.
  pose proof (rec_pos_bound log (S i)). lia.
Qed.

(** ** Reading a record of a file that holds a log *)

(** A file whose content starts with the records of [log]. *)
Definition holds_log (f : file) (log : list (list byte)) : Prop :=
  Forall payload_ok log /\ fits (f_data f) /\ exists torn, f_data f = encode_log log ++ torn.

Lemma read_header_at f log i r :
  holds_log f log -> log !! i = Some r ->
  f_read_at f hdr (Z.of_nat (rec_pos log i)) = Ok (header_of r).
Proof.
  intros (_ & _ & torn & Hd) Hr. pose proof (rec_pos_fits log torn i r Hr) as Hend.
  rewrite <- Hd in Hend. rewrite f_read_at_ok by (unfold f_size, zlen; lia).
  rewrite Nat2Z.id, Hd, (slice_record log torn i r) by (done || lia).
  by rewrite encode_record_header, take_app_length' by by rewrite length_header_of.
Qed.

Lemma read_payload_at f log i r :
  holds_log f log -> log !! i = Some r ->
  f_read_at f (length r) (Z.of_nat (rec_pos log i + hdr)) = Ok r.
Proof.
  intros (_ & _ & torn & Hd) Hr. pose proof (rec_pos_fits log torn i r Hr) as Hend.
  rewrite <- Hd in Hend. rewrite f_read_at_ok by (unfold f_size, zlen; lia).
  by rewrite Nat2Z.id, Hd, slice_payload.
Qed.

(** The scan's cursor arithmetic does not wrap on a file that fits. *)
Lemma scan_arith f log i r :
  holds_log f log -> log !! i = Some r ->
  u64 (Z.of_nat i + 1) = Z.of_nat (S i) /\
  i64 (Z.of_nat (rec_pos log i) + Z.of_nat hdr) = Z.of_nat (rec_pos log i + hdr) /\
  i64 (Z.of_nat (rec_pos log i) + (Z.of_nat hdr + zlen r)) = Z.of_nat (rec_pos log (S i)) /\
  (rec_pos log (S i) <= length (f_data f))%nat.
Proof.
  intros (Hok & Hfits & torn & Hd) Hr. pose proof (rec_pos_fits log torn i r Hr) as Hend.
  rewrite <- Hd in Hend. unfold fits, zlen, MaxRecordSize in Hfits.
  pose proof (length_encode_log_ge log). pose proof (lookup_lt_Some _ _ _ Hr).
  assert (length (encode_log log) <= length (f_data f))%nat by (rewrite Hd, length_app; lia).
  rewrite (rec_pos_S _ _ _ Hr). unfold zlen.
  rewrite u64_small by (unfold is_u64; lia). rewrite !i64_small by (unfold is_i64; lia). lia.
Qed.

(** ** The recovery scan *)

(** At a torn tail the scan stops and cuts the file there. *)
Lemma recover_loop_torn fuel f log torn :
  f_data f = encode_log log ++ torn -> is_torn torn -> fits (f_data f) ->
  (f_synced f <= length (encode_log log))%nat -> (0 < fuel)%nat ->
  recover_loop fuel recover_io_ok (Z.of_nat hdr) (f_size f) f (zlen log) (zlen (encode_log log)) =
  Some (Ok (zlen log, zlen (encode_log log)), mkFile (encode_log log) (f_synced f)).
Proof.
  intros Hd (r & k & Hr & Hk & ->) Hfits Hsync Hfuel.
  destruct fuel as [|fuel]; [lia|]. cbn [recover_loop ri_trunc ri_read recover_io_ok].
  rewrite length_encode_record in Hk.
  set (t := take k (encode_record c r)) in *.
  assert (length t = k) as Hlt by (unfold t; rewrite length_take, length_encode_record; lia).
  assert (f_size f = zlen (encode_log log) + Z.of_nat k) as Hsize.
  { unfold f_size. rewrite Hd, zlen_app. unfold zlen at 2. lia. }
  assert (f_truncate (zlen (encode_log log)) f = mkFile (encode_log log) (f_synced f)) as Htr.
  { destruct f as [d sy]. cbn in Hd, Hsync |- *. subst d. rewrite f_truncate_app.
    f_equal. lia. }
  unfold fits in Hfits. change (zlen (f_data f)) with (f_size f) in Hfits.
  unfold MaxRecordSize in *.
  pose proof (zlen_nonneg (encode_log log)).
  destruct (Z.eqb_spec (zlen (encode_log log)) (f_size f)) as [Heq|Hne].
  { rewrite Hsize in Heq. assert (k = 0%nat) as -> by lia.
    destruct f as [d sy]. cbn [f_data f_synced] in *. rewrite Hd.
    unfold t. by rewrite take_0, app_nil_r. }
  rewrite i64_small by (unfold is_i64; lia). rewrite Htr.
  destruct (Z.ltb_spec (f_size f) (zlen (encode_log log) + Z.of_nat hdr)) as [|Hge]; [done|].
  change (Z.to_nat LengthSize) with 4%nat.
  rewrite f_read_at_ok by (unfold hdr in *; lia).
  rewrite !to_nat_zlen, Hd, slice_app_r by done.
  assert (Uint32 (take 4 t) = zlen r) as ->.
  { unfold t. rewrite take_take, Nat.min_l by (unfold hdr in *; lia).
    rewrite encode_record_header, take_app_le by (rewrite length_header_of; unfold hdr; lia).
    by apply Uint32_header_take. }
  destruct (Z.ltb_spec (64 * 1024 * 1024) (zlen r)); [unfold payload_ok, MaxRecordSize in Hr; lia|].
  rewrite i64_small by (unfold is_i64; pose proof (zlen_nonneg r); lia).
  destruct (Z.ltb_spec (f_size f) (zlen (encode_log log) + Z.of_nat hdr + zlen r)); [done|].
  rewrite Hsize in *. unfold zlen in *. lia.
Qed.

(** One round over a whole record steps to the next boundary. *)
Lemma recover_loop_step fuel f log i r :
  holds_log f log -> log !! i = Some r ->
  recover_loop (S fuel) recover_io_ok (Z.of_nat hdr) (f_size f) f
    (Z.of_nat i) (Z.of_nat (rec_pos log i)) =
  recover_loop fuel recover_io_ok (Z.of_nat hdr) (f_size f) f
    (Z.of_nat (S i)) (Z.of_nat (rec_pos log (S i))).
Proof.
  intros Hf Hr. destruct (scan_arith f log i r Hf Hr) as (Hu & Hp & Hn & Hend).
  assert (payload_ok r) as Hrok by (eapply Forall_lookup_1; [apply Hf|done]).
  rewrite Z.add_assoc in Hn. rewrite (rec_pos_S _ _ _ Hr) in Hend.
  cbn [recover_loop ri_trunc ri_read recover_io_ok].
  assert (f_size f = Z.of_nat (length (f_data f))) as Hsize by done.
  destruct (Z.eqb_spec (Z.of_nat (rec_pos log i)) (f_size f)); [unfold hdr in *; lia|].
  rewrite Hp. destruct (Z.ltb_spec (f_size f) (Z.of_nat (rec_pos log i + hdr))); [lia|].
  change (Z.to_nat LengthSize) with 4%nat. rewrite f_read_at_ok by (unfold hdr in *; lia).
  destruct Hf as (_ & _ & torn & Hd).
  rewrite Nat2Z.id, Hd, (slice_record log torn i r) by (done || (unfold hdr; lia)).
  rewrite encode_record_header, take_app_le by (rewrite length_header_of; unfold hdr; lia).
  rewrite Uint32_header_take by (done || lia).
  destruct (Z.ltb_spec MaxRecordSize (zlen r)); [unfold payload_ok in Hrok; lia|].
  rewrite Hn, Hu.
  destruct (Z.ltb_spec (f_size f) (Z.of_nat (rec_pos log (S i)))); [|done].
  rewrite (rec_pos_S _ _ _ Hr) in *. lia.
Qed.

(** From the boundary of record [i], the scan walks the remaining whole records
    and cuts the torn tail. *)
Lemma recover_loop_spec fuel f log torn i :
  f_data f = encode_log log ++ torn -> Forall payload_ok log -> is_torn torn ->
  fits (f_data f) -> (f_synced f <= length (encode_log log))%nat ->
  (i <= length log)%nat -> (length (f_data f) - rec_pos log i < fuel)%nat ->
  recover_loop fuel recover_io_ok (Z.of_nat hdr) (f_size f) f (Z.of_nat i) (Z.of_nat (rec_pos log i)) =
  Some (Ok (zlen log, zlen (encode_log log)), mkFile (encode_log log) (f_synced f)).
Proof.
  intros Hd Hok Htorn Hfits Hsync. remember (length log - i)%nat as m eqn:Hm.
  revert fuel i Hm. induction m as [|m IH]; intros fuel i Hm Hi Hfuel.
  { assert (i = length log) as -> by lia. rewrite rec_pos_all.
    apply (recover_loop_torn _ _ _ torn); auto. lia. }
  destruct fuel as [|fuel]; [lia|].
  destruct (lookup_lt_is_Some_2 log i) as [r Hr]; [lia|].
  assert (holds_log f log) as Hf by (split; [done|split; [done|by exists torn]]).
  rewrite (recover_loop_step fuel f log i r) by done.
  pose proof (scan_arith f log i r Hf Hr) as (_ & _ & _ & ?).
  apply IH; [lia|lia|]. rewrite (rec_pos_S _ _ _ Hr) in *. unfold hdr in *. lia.
Qed.

(** ** Cutting a log file at an arbitrary byte *)

Lemma is_torn_nil : is_torn [].
Proof.
  exists [], 0%nat. split; [unfold payload_ok, MaxRecordSize, zlen; simpl; lia|].
  split; [rewrite length_encode_record; unfold hdr; lia|]. by rewrite take_0.
Qed.

Lemma rec_pos_cons_S r log j :
  rec_pos (r :: log) (S j) = (hdr + length r + rec_pos log j)%nat.
Proof.
  unfold rec_pos. cbn [take]. rewrite encode_log_cons, length_app, length_encode_record. done.
Qed.

(** Any prefix of a log file is a whole number of records and a torn tail, and
    the whole records are all that end within the prefix. *)
Lemma cut_log log k :
  Forall payload_ok log ->
  exists i torn, (i <= length log)%nat /\
    take k (encode_log log) = encode_log (take i log) ++ torn /\ is_torn torn /\
    (forall j, (j <= length log)%nat -> (rec_pos log j <= k)%nat -> (j <= i)%nat).
Proof.
  intros Hok. revert k. induction Hok as [|r log Hr Hok IH]; intros k.
  { exists 0%nat, []. split; [done|]. change (encode_log []) with (@nil byte).
    rewrite take_nil. split; [done|]. split; [apply is_torn_nil|]. simpl. lia. }
  destruct (Nat.lt_ge_cases k (hdr + length r)) as [Hk|Hk].
  - exists 0%nat, (take k (encode_record c r)). split; [lia|]. split; [|split].
    + rewrite encode_log_cons, take_app_le; [done|]. rewrite length_encode_record. lia.
    + exists r, k. rewrite length_encode_record. done.
    + intros [|j] _ Hj; [done|]. rewrite rec_pos_cons_S in Hj. lia.
  - destruct (IH (k - (hdr + length r))%nat) as (i & torn & Hi & Hcut & Ht & Hmax).
    exists (S i), torn. split; [simpl; lia|]. split; [|split; [done|]].
    + cbn [take]. rewrite !encode_log_cons, take_app, length_encode_record, Hcut, <- app_assoc.
      rewrite take_ge by (rewrite length_encode_record; lia). done.
    + intros [|j] Hj Hpos; [lia|]. rewrite rec_pos_cons_S in Hpos. simpl in Hj.
      assert (j <= i)%nat; [apply Hmax|]; lia.
Qed.

(** ** The read scan *)

Definition no_fault : Z -> outcome := fun _ => None.

Definition reader_at (o : Z) : WALReader := mkReader o c (Z.of_nat hdr).

(** One round of the scan over record [i]: return it, or step to the next. *)
Lemma read_iter_record f log o i r (t : Z) :
  holds_log f log -> log !! i = Some r ->
  read_iter no_fault (reader_at o) f t (Z.of_nat i) (Z.of_nat (rec_pos log i)) =
  if Z.of_nat i =? t then inl (Ok r) else inr (Z.of_nat (S i), Z.of_nat (rec_pos log (S i))).
Proof.
  intros Hf Hr. destruct (scan_arith f log i r Hf Hr) as (Hu & Hp & Hn & _).
  assert (payload_ok r) as Hrok by (eapply Forall_lookup_1; [apply Hf|done]).
  unfold read_iter. cbn [no_fault reader_at r_headerSize r_csum].
  rewrite Nat2Z.id, (read_header_at f log i r Hf Hr).
  rewrite <- (app_nil_r (header_of r)), (Uint32_header r []), app_nil_r by done.
  destruct (Z.ltb_spec MaxRecordSize (zlen r)); [unfold payload_ok in Hrok; lia|].
  rewrite Hu, Hp, Hn, to_nat_zlen, (read_payload_at f log i r Hf Hr).
  change (Z.to_nat LengthSize) with 4%nat. unfold header_of.
  rewrite take_app_length', drop_app_length' by by rewrite length_PutUint32.
  by rewrite decide_True.
Qed.

Lemma read_loop_step fuel f log o i r (t : Z) :
  holds_log f log -> log !! i = Some r ->
  read_loop (S fuel) no_fault (reader_at o) f t (Z.of_nat i) (Z.of_nat (rec_pos log i)) =
  if Z.of_nat i =? t then Some (Ok r)
  else read_loop fuel no_fault (reader_at o) f t (Z.of_nat (S i)) (Z.of_nat (rec_pos log (S i))).
Proof.
  intros Hf Hr. cbn [read_loop]. rewrite (read_iter_record f log o i r t Hf Hr). by case_if.
Qed.

(** From the boundary of record [i], the scan returns record [j >= i]. *)
Lemma read_loop_hit fuel f log o i j x :
  holds_log f log -> (i <= j)%nat -> log !! j = Some x ->
  (length (f_data f) - rec_pos log i < fuel)%nat ->
  read_loop fuel no_fault (reader_at o) f (Z.of_nat j) (Z.of_nat i) (Z.of_nat (rec_pos log i)) =
  Some (Ok x).
Proof.
  intros Hf. remember (j - i)%nat as m eqn:Hm.
  revert fuel i Hm. induction m as [|m IH]; intros fuel i Hm Hij Hx Hfuel.
  all: destruct fuel as [|fuel]; [lia|].
  all: destruct (lookup_lt_is_Some_2 log i) as [r Hr];
    [pose proof (lookup_lt_Some _ _ _ Hx); lia|].
  all: rewrite (read_loop_step fuel f log o i r) by done.
  - assert (i = j) as -> by lia. rewrite Hx in Hr. simplify_eq. by rewrite Z.eqb_refl.
  - destruct (Z.eqb_spec (Z.of_nat i) (Z.of_nat j)); [lia|].
    pose proof (scan_arith f log i r Hf Hr) as (_ & _ & _ & ?).
    apply IH; [lia|lia|done|]. rewrite (rec_pos_S _ _ _ Hr) in *. unfold hdr in *. lia.
Qed.

(** Past the head the scan runs off the file: [io.EOF]. *)
Lemma read_loop_eof fuel f log o i (t : Z) :
  holds_log f log -> f_data f = encode_log log -> (i <= length log)%nat -> zlen log <= t ->
  (length (f_data f) - rec_pos log i < fuel)%nat ->
  read_loop fuel no_fault (reader_at o) f t (Z.of_nat i) (Z.of_nat (rec_pos log i)) = Some (Err EOF).
Proof.
  intros Hf Hd. remember (length log - i)%nat as m eqn:Hm.
  revert fuel i Hm. induction m as [|m IH]; intros fuel i Hm Hi Ht Hfuel.
  all: destruct fuel as [|fuel]; [lia|].
  - assert (i = length log) as -> by lia. rewrite rec_pos_all, <- Hd.
    cbn [read_loop]. unfold read_iter. cbn [no_fault reader_at r_headerSize r_csum].
    rewrite Nat2Z.id, f_read_at_eof; [done|lia|unfold hdr; lia|unfold f_size, zlen, hdr; lia].
  - destruct (lookup_lt_is_Some_2 log i) as [r Hr]; [lia|].
    rewrite (read_loop_step fuel f log o i r) by done.
    destruct (Z.eqb_spec (Z.of_nat i) t); [unfold zlen in *; lia|].
    pose proof (scan_arith f log i r Hf Hr) as (_ & _ & _ & ?).
    apply IH; [lia|lia|done|]. rewrite (rec_pos_S _ _ _ Hr) in *. unfold hdr in *. lia.
Qed.
End Format.
