(* ===== verification/WalInv.v ===== *)
(** * WalInv: the writer's invariant and what each of its operations does to it

    [wal_inv c b s w log] says that writer [w] holds exactly the payloads
    [log], of which the first [b] were recovered when it was opened and the
    first [b + s] are committed: they lie in the fsynced prefix of the file and
    only they may be in the index.  The rest is pending. *)

From Stdlib Require Import ZArith Lia Strings.String.
From stdpp Require Import base list list_numbers numbers option gmap sorting.
From coqutil Require Import Byte.
From S2P Require Import Prelude Bytes Golib Index Checksum Wal WalFormat.

Local Open Scope Z_scope.

(** A write that leaves no partial bytes behind when it fails. *)
Definition clean_write (wo : write_outcome) : Prop :=
  match wo with WOk => True | WFail k _ => k = 0%nat end.

Section Invariant.
Context (c : Checksum) {Hc : ChecksumOk c}.
Implicit Types (w : WALWriter) (log : list (list byte)) (st : InMemoryStore).

(** Every checkpoint is the true position of one of the first [b] records. *)
Record store_inv (log : list (list byte)) (b : nat) (st : InMemoryStore) : Prop := {
  si_wf : store_wf st;
  si_pos : forall e, e ∈ entries st ->
    exists i, (i < b)%nat /\ (i < length log)%nat /\ e = (Z.of_nat i, Z.of_nat (rec_pos c log i))
}.

(** The pending checkpoint of record [i] of a writer that recovered [b] records. *)
Definition pend_of (log : list (list byte)) (b i : nat) : pendingCheckpoint :=
  mkPending (Z.of_nat (S i - b)) (Z.of_nat i) (Z.of_nat (rec_pos c log i)).

Record wal_inv (b s : nat) (w : WALWriter) (log : list (list byte)) : Prop := {
  wi_csum : w_csum w = c;
  wi_hs : w_headerSize w = Z.of_nat (hdr c);
  wi_data : f_data (w_file w) = encode_log c log;
  wi_ok : Forall payload_ok log;
  wi_fits : fits c (encode_log c log);
  wi_size : w_size w = zlen (encode_log c log);
  wi_next : w_nextOffset w = zlen log;
  wi_bs : (b + s <= length log)%nat;
  wi_write : writeSeq w = Z.of_nat (length log - b);
  wi_synced : syncedSeq w = Z.of_nat s;
  wi_durable : s <> 0%nat -> (rec_pos c log (b + s) <= f_synced (w_file w))%nat;
  wi_sync : exists j, (j <= length log)%nat /\ f_synced (w_file w) = rec_pos c log j;
  wi_pending : pending w = pend_of log b <$> seq (b + s) (length log - (b + s));
  wi_store : store_inv log (b + s) (w_store w);
  wi_index_durable : forall e i, e ∈ entries (w_store w) -> e.1 = Z.of_nat i ->
    (rec_pos c log (S i) <= f_synced (w_file w))%nat
}.

Lemma wal_inv_holds b s w log : wal_inv b s w log -> holds_log c (w_file w) log.
Proof.
  intros Hw. split; [apply Hw|]. rewrite (wi_data _ _ _ _ Hw). split; [apply Hw|].
  exists []. by rewrite app_nil_r.
Qed.

(** Fields of the writer the invariant does not constrain. *)
Lemma wal_inv_set_syncing b s w log x : wal_inv b s w log -> wal_inv b s (set_syncing x w) log.
Proof. by intros []. Qed.

Lemma wal_inv_set_syncErr b s w log x : wal_inv b s w log -> wal_inv b s (set_syncErr x w) log.
Proof. by intros []. Qed.

(** Lengths and positions are far from the integer limits. *)
Lemma log_bounds log i :
  fits c (encode_log c log) -> (i <= length log)%nat ->
  is_u64 (Z.of_nat i + 1) /\ is_i64 (Z.of_nat (rec_pos c log i)).
Proof.
  intros Hf Hi. pose proof (length_encode_log_ge c log). pose proof (rec_pos_bound c log i).
  unfold fits, zlen, MaxRecordSize in Hf. unfold is_u64, is_i64. lia.
Qed.

(** ** [Reserve] *)

Lemma Reserve_run b s w log data :
  wal_inv b s w log -> payload_ok data -> fits c (encode_log c (log ++ [data])) ->
  Reserve WOk data w =
    (Ok (zlen log, Z.of_nat (S (length log) - b)),
     mkWriter (mkFile (encode_log c (log ++ [data])) (f_synced (w_file w))) c (Z.of_nat (hdr c))
       (zlen (encode_log c (log ++ [data]))) (zlen (log ++ [data]))
       (Z.of_nat (S (length log) - b)) (syncedSeq w) (syncing w) (syncErr w)
       (pend_of (log ++ [data]) b <$> seq (b + s) (length (log ++ [data]) - (b + s))) (w_store w)).
Proof.
  intros Hw Hp Hf. unfold Reserve. unfold payload_ok in Hp.
  destruct (Z.ltb_spec MaxRecordSize (zlen data)); [lia|]. cbn [f_append].
  pose proof (log_bounds log (length log) (wi_fits _ _ _ _ Hw)) as [? _]; [done|].
  pose proof (wi_bs _ _ _ _ Hw).
  rewrite (wi_csum _ _ _ _ Hw), (wi_hs _ _ _ _ Hw), (wi_data _ _ _ _ Hw), (wi_size _ _ _ _ Hw),
    (wi_next _ _ _ _ Hw), (wi_write _ _ _ _ Hw), (wi_pending _ _ _ _ Hw).
  assert (encode_log c (log ++ [data]) = encode_log c log ++ encode_record c data) as Henc
    by by rewrite encode_log_app, encode_log_singleton.
  assert (u64 (Z.of_nat (length log - b) + 1) = Z.of_nat (S (length log) - b)) as ->
    by (rewrite u64_small; unfold is_u64 in *; lia).
  rewrite <- Henc. rewrite <- zlen_app, <- Henc.
  rewrite i64_small by (unfold fits, is_i64, MaxRecordSize in *;
    pose proof (zlen_nonneg (encode_log c (log ++ [data]))); lia).
  rewrite (u64_small (zlen log + 1)) by (unfold zlen; done).
  do 2 f_equal.
  - rewrite zlen_app. done.
  - rewrite length_app. cbn [length].
    replace (length log + 1 - (b + s))%nat with (length log - (b + s) + 1)%nat by lia.
    rewrite seq_app, fmap_app. f_equal.
    + apply list_fmap_ext. intros k i Hk. unfold pend_of.
      apply lookup_seq in Hk as [-> Hk]. by rewrite rec_pos_app by lia.
    + replace (b + s + (length log - (b + s)))%nat with (length log) by lia.
      cbn. unfold pend_of, zlen. rewrite rec_pos_app, rec_pos_all by lia. done.
Qed.

Lemma store_inv_app log l b st : store_inv log b st -> store_inv (log ++ l) b st.
Proof.
  intros [Hwf Hpos]. split; [done|]. intros e (i & Hi & Hl & ->)%Hpos.
  exists i. rewrite length_app, rec_pos_app by lia. repeat split; lia.
Qed.

Lemma Reserve_inv b s w log data :
  wal_inv b s w log -> payload_ok data -> fits c (encode_log c (log ++ [data])) ->
  exists w', Reserve WOk data w = (Ok (zlen log, Z.of_nat (S (length log) - b)), w') /\
    wal_inv b s w' (log ++ [data]) /\
    syncing w' = syncing w /\ syncErr w' = syncErr w.
Proof.
  intros Hw Hp Hf. eexists. split; [by apply Reserve_run|]. split; [|done].
  pose proof (wi_bs _ _ _ _ Hw). destruct (wi_sync _ _ _ _ Hw) as (j & Hj & Hsync).
  split; cbn; try done.
  - apply Forall_app_2; [apply Hw|]. by apply Forall_singleton.
  - rewrite length_app. simpl. lia.
  - rewrite length_app. simpl. f_equal. lia.
  - apply Hw.
  - intros Hs. rewrite rec_pos_app by lia. by apply (wi_durable _ _ _ _ Hw).
  - exists j. rewrite length_app, rec_pos_app by lia. split; [lia|done].
  - apply store_inv_app, Hw.
  - intros e i He Hei. destruct (si_pos _ _ _ (wi_store _ _ _ _ Hw) e He) as (x & ? & ? & ->).
    simpl in Hei. rewrite rec_pos_app by lia. by eapply (wi_index_durable _ _ _ _ Hw).
Qed.

(** ** Checkpoints and the drain loop *)

(** Failing cleanly, [Checkpoint] leaves the entries alone. *)
Lemma Checkpoint_fail_wf o p e st :
  store_wf st ->
  store_wf (snd (Checkpoint (WFail 0 e) o p st)) /\
  entries (snd (Checkpoint (WFail 0 e) o p st)) = entries st.
Proof.
  intros Hwf. destruct (persists st) eqn:Hp.
  - unfold persists in Hp. apply Z.leb_le in Hp. pose proof (wf_n st Hwf).
    unfold Checkpoint, persists in *.
    assert ((0 <? nthIndex st) && (u32 (n_ st + 1) <? nthIndex st) = false) as ->.
    { pose proof (wf_nth st Hwf) as Hn. unfold is_u32 in Hn.
      destruct (Z.ltb_spec 0 (nthIndex st)); [|done]. rewrite u32_small by (unfold is_u32; lia).
      destruct (Z.ltb_spec (n_ st + 1) (nthIndex st)); [lia|done]. }
    cbn. split; [|done]. destruct Hwf. split; cbn; try done; [by rewrite app_nil_r|lia].
  - rewrite Checkpoint_counts by done. cbn. split; [|done].
    unfold persists in Hp. apply Z.leb_gt in Hp. destruct Hwf. split; try done. cbn. lia.
Qed.

(** Checkpointing record [b], the next one, keeps the store's invariant. *)
Lemma Checkpoint_inv log b st wo :
  store_inv log b st -> fits c (encode_log c log) -> (b < length log)%nat -> clean_write wo ->
  let st' := snd (Checkpoint wo (Z.of_nat b) (Z.of_nat (rec_pos c log b)) st) in
  store_inv log (S b) st' /\
  forall e, e ∈ entries st' -> e ∈ entries st \/ e = (Z.of_nat b, Z.of_nat (rec_pos c log b)).
Proof.
  intros [Hwf Hpos] Hf Hb Hwo. cbn zeta.
  destruct wo as [|k e]; simpl in Hwo.
  2:{ subst k. destruct (Checkpoint_fail_wf (Z.of_nat b) (Z.of_nat (rec_pos c log b)) e st Hwf)
        as [Hwf' He']. rewrite He'. split; [|by left]. split; [done|]. rewrite He'.
      intros x (i & ? & ? & ->)%Hpos. exists i. repeat split; lia. }
  destruct (log_bounds log b Hf) as [Hu Hi]; [lia|].
  pose proof (Checkpoint_wf st (Z.of_nat b) (Z.of_nat (rec_pos c log b)) Hwf) as Hcp.
  destruct (Checkpoint WOk _ _ st) as [err st']. cbn [snd].
  destruct Hcp as (_ & Hwf' & He' & _).
  { split; [unfold is_u64 in *; cbn; lia|done]. }
  { apply Forall_forall. intros x (i & ? & ? & ->)%Hpos. split; simpl; [lia|].
    pose proof (rec_pos_lt c log i b). lia. }
  assert (forall e, e ∈ entries st' -> e ∈ entries st \/ e = (Z.of_nat b, Z.of_nat (rec_pos c log b)))
    as Hin.
  { rewrite He'. intros e. destruct (persists st); [|by left].
    rewrite elem_of_app, list_elem_of_singleton. done. }
  split; [|done]. split; [done|].
  intros x [(i & ? & ? & ->)%Hpos| ->]%Hin; [exists i|exists b]; repeat split; lia.
Qed.

(** Draining up to [target] checkpoints exactly the pending records up to it. *)
Lemma drain_loop_spec log b cpo k i j m st (target : Z) :
  store_inv log i st -> fits c (encode_log c log) -> (b <= i)%nat ->
  (i + k <= length log)%nat -> (forall x, clean_write (cpo x)) ->
  target = Z.of_nat (i + j - b) -> (j <= k)%nat ->
  exists st', drain_loop cpo m target (pend_of log b <$> seq i k) st =
      (pend_of log b <$> seq (i + j) (k - j), st') /\
    store_inv log (i + j) st' /\
    (forall e, e ∈ entries st' -> e ∈ entries st \/
       exists x, (i <= x < i + j)%nat /\ e = (Z.of_nat x, Z.of_nat (rec_pos c log x))).
Proof.
  intros Hst Hf Hbi Hik Hcpo -> Hjk. revert i k m st Hst Hbi Hik Hjk.
  induction j as [|j IH]; intros i k m st Hst Hbi Hik Hjk.
  - exists st. rewrite Nat.add_0_r, Nat.sub_0_r. split; [|split; [done|by left]].
    destruct k as [|k]; [done|]. cbn [seq fmap list_fmap drain_loop].
    destruct (Z.leb_spec (cp_seq (pend_of log b i)) (Z.of_nat (i - b))); [|done].
    cbn in *. lia.
  - destruct k as [|k]; [lia|]. cbn [seq fmap list_fmap drain_loop].
    destruct (Z.leb_spec (cp_seq (pend_of log b i)) (Z.of_nat (i + S j - b))); [|cbn in *; lia].
    destruct (Checkpoint_inv log i st (cpo m)) as [Hst' Hin']; [done..|lia|done|].
    cbn [cp_offset cp_pos pend_of]. set (st1 := snd (Checkpoint _ _ _ st)) in *.
    destruct (IH (S i) k (S m) st1) as (st' & Hrun & Hinv & Hin); [done|lia..|].
    exists st'. replace (i + S j)%nat with (S i + j)%nat by lia.
    split; [exact Hrun|]. split; [done|].
    intros e [[|]%Hin'|(x & Hx & ->)]%Hin; [by left|right; exists i; split; [lia|done]|].
    right. exists x. split; [lia|done].
Qed.

(** ** A leader round *)

(** A successful [file.Sync] of a file that held the records up to [b + t]
    commits exactly those. *)
Lemma end_sync_inv b s t j w log cpo :
  wal_inv b s w log -> (s <= t)%nat -> (b + t <= j)%nat -> (j <= length log)%nat ->
  (forall x, clean_write (cpo x)) ->
  exists w', end_sync None cpo (Z.of_nat t) (rec_pos c log j) w = (None, w') /\
    wal_inv b t w' log /\ syncing w' = false /\ syncErr w' = syncErr w.
Proof.
  intros Hw Hst Hbt Hj Hcpo. unfold end_sync. set (n := rec_pos c log j).
  destruct (drain_loop_spec log b cpo (length log - (b + s)) (b + s) (t - s) 0
              (w_store w) (Z.of_nat t)) as (st' & Hrun & Hinv & Hin);
    [apply Hw|apply Hw|pose proof (wi_bs _ _ _ _ Hw); lia..| |lia|lia|]; [done|].
  assert (exists w3, (if syncedSeq (set_file (f_sync_upto n (w_file w)) (set_syncing false w)) <? Z.of_nat t
      then set_syncedSeq (Z.of_nat t) (set_file (f_sync_upto n (w_file w)) (set_syncing false w))
      else set_file (f_sync_upto n (w_file w)) (set_syncing false w)) = w3 /\
      w3 = set_syncedSeq (Z.of_nat t) (set_file (f_sync_upto n (w_file w)) (set_syncing false w)))
    as (w3 & Hw3 & Hw3').
  { eexists. split; [done|]. cbn. destruct (Z.ltb_spec (syncedSeq w) (Z.of_nat t)); [done|].
    rewrite (wi_synced _ _ _ _ Hw) in *. assert (s = t) as -> by lia.
    unfold set_syncedSeq, set_file. cbn. by rewrite (wi_synced _ _ _ _ Hw). }
  cbn [set_syncing w_file] in Hw3 |- *. rewrite Hw3, Hw3'.
  cbn [set_syncedSeq set_file set_syncing pending w_store].
  rewrite (wi_pending _ _ _ _ Hw), Hrun.
  replace (b + s + (t - s))%nat with (b + t)%nat in * by lia.
  replace (length log - (b + s) - (t - s))%nat with (length log - (b + t))%nat by lia.
  eexists. split; [done|]. split; [|done].
  pose proof (rec_pos_mono c log (b + t) j Hbt) as Hmono. fold n in Hmono.
  destruct Hw. split; cbn; try done; try lia.
  - destruct wi_sync0 as (j0 & Hj0 & ->). exists (Nat.max j j0). split; [lia|].
    unfold n. destruct (Nat.max_spec j j0) as [[? ->]|[? ->]];
      pose proof (rec_pos_mono c log j j0); pose proof (rec_pos_mono c log j0 j); lia.
  - intros e i [He|(x & Hx & ->)]%Hin Hei.
    + pose proof (wi_index_durable0 e i He Hei). lia.
    + simpl in Hei. assert (x = i) as -> by lia. pose proof (rec_pos_mono c log (S i) (b + t)). lia.
Qed.

(** ** Sequential commit *)

(** [Commit] of a reserved record, with nothing else running and a working
    disk, returns success within two iterations and commits everything
    reserved so far (or nothing new, if the record was already durable). *)
Lemma Commit_run b s w log q io :
  wal_inv b s w log -> syncing w = false -> syncErr w = None ->
  (1 <= q <= length log - b)%nat -> sy_sync io = None -> (forall x, clean_write (sy_cp io x)) ->
  exists w' s', Commit io (Z.of_nat q) w = Some (None, w') /\ wal_inv b s' w' log /\
    (q <= s')%nat /\ (s <= s')%nat /\ syncing w' = false /\ syncErr w' = None.
Proof.
  intros Hw Hsy Herr Hq Hio Hcp. unfold Commit, commit_fuel. cbn [commitLocked].
  unfold commit_check at 1. rewrite Herr, Hsy, (wi_synced _ _ _ _ Hw).
  destruct (Z.leb_spec (Z.of_nat q) (Z.of_nat s)).
  { exists w, s. split_and!; try done; lia. }
  rewrite Hio, (wi_write _ _ _ _ Hw).
  pose proof (wi_bs _ _ _ _ Hw). cbn [begin_sync set_syncing w_file].
  rewrite (wi_data _ _ _ _ Hw), <- (rec_pos_all c log).
  destruct (end_sync_inv b s (length log - b) (length log) (begin_sync w) log (sy_cp io))
    as (w' & Hrun & Hw' & Hsy' & Herr').
  { by apply wal_inv_set_syncing. }
  1-4: lia || done.
  cbn [begin_sync set_syncing] in Hrun. rewrite Hrun.
  cbn in Herr'. rewrite Herr in Herr'.
  unfold commit_check. rewrite Herr', (wi_synced _ _ _ _ Hw').
  destruct (Z.leb_spec (Z.of_nat q) (Z.of_nat (length log - b))); [|lia].
  exists w', (length log - b)%nat.
  split_and!; try done; lia.
Qed.

(** A failing [file.Sync] is reported, is sticky, and commits nothing. *)
Lemma Commit_fail b s w log q io e :
  wal_inv b s w log -> syncing w = false -> syncErr w = None ->
  (s < q)%nat -> sy_sync io = Some e ->
  exists w', Commit io (Z.of_nat q) w = Some (Some (Wrap "wal: fsync" e), w') /\
    wal_inv b s w' log /\ syncErr w' = Some (Wrap "wal: fsync" e) /\ syncing w' = false.
Proof.
  intros Hw Hsy Herr Hq Hio. unfold Commit, commit_fuel. cbn [commitLocked].
  unfold commit_check at 1. rewrite Herr, Hsy, (wi_synced _ _ _ _ Hw).
  destruct (Z.leb_spec (Z.of_nat q) (Z.of_nat s)); [lia|].
  rewrite Hio. cbn [end_sync]. eexists. split; [done|].
  split; [|done]. by apply wal_inv_set_syncErr, wal_inv_set_syncing, wal_inv_set_syncing.
Qed.

(** ** Reads *)

(** The scan starts at the boundary of a record at or before the wanted one. *)
Lemma read_start_boundary log b st t :
  store_inv log b st -> 0 <= t ->
  exists i, (i <= length log)%nat /\ Z.of_nat i <= t /\ read_start t st = (Z.of_nat i, Z.of_nat (rec_pos c log i)).
Proof.
  intros [Hwf Hpos] Ht. unfold read_start. pose proof (Floor_is_floor _ t Hwf) as Hfl.
  destruct (Floor t st) as [[fo fp] [|]]; simpl in Hfl.
  - destruct Hfl as (Hin & Hle & _). apply Hpos in Hin as (i & ? & ? & [= -> ->]).
    exists i. split_and!; lia || done.
  - exists 0%nat. split_and!; lia || done.
Qed.

(** [WALReader.ReadAt] on a writer's live file and store is exact. *)
Lemma ReadAt_run b s w log o t :
  wal_inv b s w log -> 0 <= t ->
  Wal_ReadAt no_fault (reader_at c o) (w_store w) (w_file w) t =
  Some (match log !! Z.to_nat t with Some x => Ok x | None => Err EOF end).
Proof.
  intros Hw Ht. pose proof (wal_inv_holds _ _ _ _ Hw) as Hf.
  pose proof (wi_data _ _ _ _ Hw) as Hd.
  assert (forall i, (i <= length log)%nat -> Z.of_nat i <= t ->
    read_loop (read_fuel (w_file w)) no_fault (reader_at c o) (w_file w) t
      (Z.of_nat i) (Z.of_nat (rec_pos c log i)) =
    Some (match log !! Z.to_nat t with Some x => Ok x | None => Err EOF end)) as Hscan.
  { intros i Hi Hit. unfold read_fuel. destruct (log !! Z.to_nat t) as [x|] eqn:Hx.
    - rewrite <- (Z2Nat.id t) at 1 by done.
      apply (read_loop_hit c); [done|lia|done|lia].
    - apply (read_loop_eof c); [done|done|done| |lia].
      apply lookup_ge_None in Hx. unfold zlen. lia. }
  unfold Wal_ReadAt.
  destruct (read_start_boundary log _ _ t (wi_store _ _ _ _ Hw) Ht) as (i & ? & ? & ->).
  by apply Hscan.
Qed.

(** ** Recovery *)

(** What recovery may find on disk: the records [log] behind a possibly torn
    tail, and an index whose valid entries are true positions of durable
    records. *)
Record disk_ok (disk idx : file) (log : list (list byte)) : Prop := {
  dk_torn : exists torn, is_torn c torn /\ f_data disk = encode_log c log ++ torn;
  dk_ok : Forall payload_ok log;
  dk_fits : fits c (f_data disk);
  dk_sync : exists j, (j <= length log)%nat /\ f_synced disk = rec_pos c log j;
  dk_index : forall e, e ∈ valid_entries (f_data idx) ->
    exists i, (i < length log)%nat /\ e = (Z.of_nat i, Z.of_nat (rec_pos c log i)) /\
      (rec_pos c log (S i) <= f_synced disk)%nat
}.

Lemma recover_start_boundary log st fileSize :
  store_inv log (length log) st -> fits c (encode_log c log) ->
  zlen (encode_log c log) <= fileSize ->
  exists i, (i <= length log)%nat /\
    recover_start st (Z.of_nat (hdr c)) fileSize = (Z.of_nat i, Z.of_nat (rec_pos c log i)).
Proof.
  intros [Hwf Hpos] Hf Hsz. unfold recover_start.
  pose proof (Floor_is_floor _ MaxUint64 Hwf) as Hfl.
  destruct (Floor MaxUint64 st) as [[fo fp] ok]. destruct ok; cbn [andb].
  - simpl in Hfl. destruct Hfl as (Hin & _ & _). apply Hpos in Hin as (i & ? & ? & [= -> ->]).
    case_if; [exists i; split; [lia|done]|]. by exists 0%nat; split; [lia|].
  - by exists 0%nat; split; [lia|].
Qed.

(** The store [LoadCheckpoints] leaves satisfies the writer's store invariant. *)
Lemma load_store_inv disk idx log st :
  disk_ok disk idx log -> indexFile st = idx ->
  0 <= n_ st < Z.max 1 (nthIndex st) -> is_u32 (nthIndex st) ->
  exists st', LoadCheckpoints load_io_ok st = (None, st') /\ store_inv log (length log) st' /\
    forall e i, e ∈ entries st' -> e.1 = Z.of_nat i -> (rec_pos c log (S i) <= f_synced disk)%nat.
Proof.
  intros Hdk <- Hn Hnth. destruct (LoadCheckpoints_wf st Hn Hnth) as (st' & Hrun & Hwf & Hent).
  exists st'. split; [done|]. split.
  - split; [done|]. rewrite Hent. intros e (i & ? & -> & ?)%(dk_index _ _ _ Hdk).
    exists i. done.
  - rewrite Hent. intros e j (i & ? & -> & ?)%(dk_index _ _ _ Hdk) Hj. simpl in Hj.
    by assert (j = i) as -> by lia.
Qed.

(** [NewWalWriter] on a crashed or cleanly closed log: the head is found, the
    torn tail cut, and the writer's invariant holds of the surviving records. *)
Lemma NewWalWriter_run oio disk idx st log :
  oi_open oio = None -> disk_ok disk idx log -> indexFile st = idx ->
  0 <= n_ st < Z.max 1 (nthIndex st) -> is_u32 (nthIndex st) ->
  exists w, NewWalWriter oio recover_io_ok (Some disk) st c = Some (Ok w) /\
    wal_inv (length log) 0 w log /\ syncing w = false /\ syncErr w = None /\
    f_synced (w_file w) = f_synced disk.
Proof.
  intros Hopen Hdk Hidx Hn Hnth.
  destruct (load_store_inv disk idx log st Hdk Hidx Hn Hnth) as (st' & Hload & Hst & Hdur).
  destruct (dk_torn _ _ _ Hdk) as (torn & Htorn & Hd).
  pose proof (dk_fits _ _ _ Hdk) as Hfit.
  assert (zlen (encode_log c log) <= f_size disk) as Hsz
    by (unfold f_size; rewrite Hd, zlen_app; pose proof (zlen_nonneg torn); lia).
  assert (fits c (encode_log c log)) as Hfit' by (unfold fits, f_size in *; lia).
  unfold NewWalWriter. rewrite Hopen. cbn [default]. unfold recover.
  cbn [set_store w_store w_file w_headerSize ri_load ri_stat recover_io_ok id].
  rewrite Hload. rewrite (hdr_Z c).
  destruct (recover_start_boundary log st' (f_size disk) Hst Hfit' Hsz) as (i & Hi & ->).
  rewrite (recover_loop_spec c _ disk log torn i); [|done|apply Hdk|done|done| |done|].
  2:{ destruct (dk_sync _ _ _ Hdk) as (j & _ & ->). apply rec_pos_bound. }
  2:{ unfold recover_fuel. lia. }
  eexists. split; [done|]. split; [|done].
  split; cbn; try done.
  - apply Hdk.
  - lia.
  - by rewrite Nat.sub_diag.
  - apply Hdk.
  - by rewrite Nat.add_0_r, Nat.sub_diag.
  - by rewrite Nat.add_0_r.
Qed.
End Invariant.
