(* ===== verification/GroupCommit.v ===== *)
(** * GroupCommit: concurrent writers of one log file, and crashes

    Any number of goroutines call [WALWriter.Write].  The state is the shared
    writer and each goroutine's place in [Write]; a step is one critical
    section of the code (the mutex is held within a step and free between
    steps), with [file.Sync] running unlocked between [gs_lead] and
    [gs_synced].  The results: no acknowledged record is lost by a crash,
    the index never refers to data that is not durable, and no writer is left
    waiting for a flush nobody runs. *)

From Stdlib Require Import ZArith Lia Strings.String.
From stdpp Require Import base list list_numbers numbers option gmap sorting.
From coqutil Require Import Byte.
From S2P Require Import Prelude Bytes Golib Index Checksum Wal WalFormat WalInv.

Local Open Scope Z_scope.

(** Where a goroutine is in [Write(data)], after its [Reserve] returned
    [off] and [seq]. *)
Inductive pc :=
| PCommit (data : list byte) (off seq : Z)
| PWaiting (data : list byte) (off seq : Z)
| PSyncing (data : list byte) (off seq target : Z) (n : nat)
| PDone (data : list byte) (off : Z) (err : outcome).

(** [cond.Broadcast] *)
Definition wake (p : pc) : pc :=
  match p with
  | PWaiting d o q => PCommit d o q
  | p => p
  end.

Record gc_state := mkGc {
  gc_w : WALWriter;
  gc_pcs : gmap nat pc
}.

(** The steps of goroutines inside [Commit]. *)
Inductive gc_commit : gc_state -> gc_state -> Prop :=
| gs_return w pcs t data off seq err :
    pcs !! t = Some (PCommit data off seq) -> commit_check seq w = CReturn err ->
    gc_commit (mkGc w pcs) (mkGc w (<[t := PDone data off err]> pcs))
| gs_wait w pcs t data off seq :
    pcs !! t = Some (PCommit data off seq) -> commit_check seq w = CWait ->
    gc_commit (mkGc w pcs) (mkGc w (<[t := PWaiting data off seq]> pcs))
| gs_lead w pcs t data off seq target :
    pcs !! t = Some (PCommit data off seq) -> commit_check seq w = CLead target ->
    gc_commit (mkGc w pcs)
      (mkGc (begin_sync w)
         (<[t := PSyncing data off seq target (length (f_data (w_file w)))]> pcs))
| gs_synced w pcs t data off seq target n serr cpo err w' :
    pcs !! t = Some (PSyncing data off seq target n) ->
    (forall x, clean_write (cpo x)) ->
    end_sync serr cpo target n w = (err, w') ->
    gc_commit (mkGc w pcs)
      (mkGc w' (wake <$> <[t := match err with
                                | None => PCommit data off seq
                                | Some _ => PDone data off err
                                end]> pcs)).

(** A new goroutine enters [Write] and its [Reserve] succeeds or fails, or a
    goroutine takes a step of its [Commit].  The file stays below 2^63 bytes,
    and a failing [write] leaves no bytes behind. *)
Inductive gc_step : gc_state -> gc_state -> Prop :=
| gs_reserve w pcs t data off seq w' :
    pcs !! t = None ->
    zlen (f_data (w_file w)) + zlen (encode_record (w_csum w) data) + w_headerSize w
      + MaxRecordSize < 2 ^ 63 ->
    Reserve WOk data w = (Ok (off, seq), w') ->
    gc_step (mkGc w pcs) (mkGc w' (<[t := PCommit data off seq]> pcs))
| gs_reserve_err w pcs data wo e w' :
    clean_write wo -> Reserve wo data w = (Err e, w') ->
    gc_step (mkGc w pcs) (mkGc w' pcs)
| gs_commit x y : gc_commit x y -> gc_step x y.

Inductive gc_steps : gc_state -> gc_state -> Prop :=
| gc_refl x : gc_steps x x
| gc_trans x y z : gc_steps x y -> gc_step y z -> gc_steps x z.

Section Concurrent.
Context (c : Checksum) {Hc : ChecksumOk c}.
Implicit Types (log : list (list byte)) (w : WALWriter).

(** What holds of a goroutine whose record is number [i] of the log. *)
Definition pc_ok (b s : nat) (w : WALWriter) (log : list (list byte)) (p : pc) : Prop :=
  match p with
  | PCommit d o q =>
      exists i, o = Z.of_nat i /\ log !! i = Some d /\ (b <= i)%nat /\ q = Z.of_nat (S i - b)
  | PWaiting d o q =>
      syncing w = true /\
      exists i, o = Z.of_nat i /\ log !! i = Some d /\ (b <= i)%nat /\ q = Z.of_nat (S i - b)
  | PSyncing d o q target n =>
      syncing w = true /\ syncErr w = None /\
      exists i t j, o = Z.of_nat i /\ log !! i = Some d /\ (b <= i)%nat /\ q = Z.of_nat (S i - b) /\
        target = Z.of_nat t /\ n = rec_pos c log j /\ (s < S i - b <= t)%nat /\ (s <= t)%nat /\
        (b + t <= j)%nat /\ (j <= length log)%nat
  | PDone d o err =>
      exists i, o = Z.of_nat i /\ log !! i = Some d /\ (b <= i)%nat /\ (err = None -> (i < b + s)%nat)
  end.

Definition is_syncing (p : pc) : Prop :=
  match p with PSyncing _ _ _ _ _ => True | _ => False end.

Definition pc_off (p : pc) : Z :=
  match p with PCommit _ o _ | PWaiting _ o _ | PSyncing _ o _ _ _ | PDone _ o _ => o end.

(** The payload of the goroutine's record. *)
Definition pc_data (p : pc) : list byte :=
  match p with PCommit d _ _ | PWaiting d _ _ | PSyncing d _ _ _ _ | PDone d _ _ => d end.

Record gc_inv (b s : nat) (log : list (list byte)) (x : gc_state) : Prop := {
  gi_wal : wal_inv c b s (gc_w x) log;
  gi_pcs : forall t p, gc_pcs x !! t = Some p -> pc_ok b s (gc_w x) log p;
  gi_one : forall t1 t2 p1 p2, gc_pcs x !! t1 = Some p1 -> gc_pcs x !! t2 = Some p2 ->
    is_syncing p1 -> is_syncing p2 -> t1 = t2;
  gi_leader : syncing (gc_w x) = true -> exists t p, gc_pcs x !! t = Some p /\ is_syncing p;
  gi_off : forall t1 t2 p1 p2, gc_pcs x !! t1 = Some p1 -> gc_pcs x !! t2 = Some p2 ->
    pc_off p1 = pc_off p2 -> t1 = t2
}.

(** Growing the log or the durable part keeps a goroutine's facts. *)
Lemma pc_ok_app b s w w' log l p :
  syncing w' = syncing w -> syncErr w' = syncErr w ->
  pc_ok b s w log p -> pc_ok b s w' (log ++ l) p.
Proof.
  intros Hs He. destruct p; simpl; rewrite ?Hs, ?He.
  - intros (i & -> & Hi & ? & ->). exists i. by rewrite (lookup_app_l_Some _ _ _ _ Hi).
  - intros (? & i & -> & Hi & ? & ->). split; [done|]. exists i.
    by rewrite (lookup_app_l_Some _ _ _ _ Hi).
  - intros (? & ? & i & t & j & -> & Hi & ? & -> & -> & -> & ? & ? & ? & ?).
    split; [done|]. split; [done|]. exists i, t, j.
    rewrite (lookup_app_l_Some _ _ _ _ Hi), rec_pos_app, length_app by lia.
    split_and!; done || lia.
  - intros (i & -> & Hi & ? & ?). exists i. by rewrite (lookup_app_l_Some _ _ _ _ Hi).
Qed.

(** Initially, right after opening, no goroutine is inside [Write]. *)
Lemma gc_inv_init b s w log :
  wal_inv c b s w log -> syncing w = false -> gc_inv b s log (mkGc w ∅).
Proof.
  intros Hw Hs. split; cbn.
  - done.
  - by intros t p Hp%lookup_empty_Some.
  - by intros t1 t2 p1 p2 Hp%lookup_empty_Some.
  - by rewrite Hs.
  - by intros t1 t2 p1 p2 Hp%lookup_empty_Some.
Qed.

(** Every goroutine's offset is a record of the log. *)
Lemma pc_off_lt b s w log p : pc_ok b s w log p -> pc_off p < zlen log.
Proof.
  destruct p; simpl; unfold zlen.
  - intros (i & -> & ?%lookup_lt_Some & _). lia.
  - intros (_ & i & -> & ?%lookup_lt_Some & _). lia.
  - intros (_ & _ & i & t & j & -> & ?%lookup_lt_Some & _). lia.
  - intros (i & -> & ?%lookup_lt_Some & _). lia.
Qed.

(** Moving one goroutine keeps offsets distinct. *)
Lemma off_inj_move (pcs : gmap nat pc) t p p' :
  (forall t1 t2 p1 p2, pcs !! t1 = Some p1 -> pcs !! t2 = Some p2 ->
     pc_off p1 = pc_off p2 -> t1 = t2) ->
  pcs !! t = Some p -> pc_off p' = pc_off p ->
  forall t1 t2 p1 p2, <[t := p']> pcs !! t1 = Some p1 -> <[t := p']> pcs !! t2 = Some p2 ->
     pc_off p1 = pc_off p2 -> t1 = t2.
Proof.
  intros Hinj Ht Heq t1 t2 p1 p2 [[<- <-]|[? H1]]%lookup_insert_Some
    [[<- <-]|[? H2]]%lookup_insert_Some; [done|..]; rewrite ?Heq; eauto.
Qed.

Lemma gc_inv_reserve b s log w pcs t data off seq w' :
  gc_inv b s log (mkGc w pcs) -> pcs !! t = None ->
  zlen (f_data (w_file w)) + zlen (encode_record (w_csum w) data) + w_headerSize w
    + MaxRecordSize < 2 ^ 63 ->
  Reserve WOk data w = (Ok (off, seq), w') ->
  gc_inv b s (log ++ [data]) (mkGc w' (<[t := PCommit data off seq]> pcs)).
Proof.
  intros [Hw Hpcs Hone Hlead Hinj] Ht Hfit Hres. cbn [gc_w gc_pcs] in *.
  assert (payload_ok data) as Hp.
  { unfold Reserve in Hres. unfold payload_ok. case_if_in Hres; [done|blia]. }
  assert (fits c (encode_log c (log ++ [data]))) as Hf.
  { rewrite (wi_csum _ _ _ _ _ Hw), (wi_data _ _ _ _ _ Hw), (wi_hs _ _ _ _ _ Hw) in Hfit.
    unfold fits. rewrite encode_log_app, encode_log_singleton, zlen_app. lia. }
  destruct (Reserve_inv c b s w log data Hw Hp Hf) as (w1 & Hr & Hw1 & Hs1 & He1).
  rewrite Hr in Hres. injection Hres as <- <- <-.
  split; cbn.
  - done.
  - intros t' p [[<- <-]|[Hne Hp']]%lookup_insert_Some.
    + cbn. exists (length log). rewrite lookup_app_r, Nat.sub_diag by lia.
      pose proof (wi_bs _ _ _ _ _ Hw). split_and!; done || lia.
    + eapply pc_ok_app; eauto.
  - intros t1 t2 p1 p2 [[<- <-]|[? Hp1]]%lookup_insert_Some [[<- <-]|[? Hp2]]%lookup_insert_Some;
      simpl; try done. by apply (Hone t1 t2 p1 p2).
  - rewrite Hs1. intros (t' & p & Hp' & Hsy)%Hlead. exists t', p. split; [|done].
    rewrite lookup_insert_ne; [done|]. intros ->. congruence.
  - assert (forall t' q, pcs !! t' = Some q -> pc_off q <> zlen log) as Hfresh.
    { intros t' q Hq%Hpcs%pc_off_lt. lia. }
    intros t1 t2 p1 p2 [[<- <-]|[? H1]]%lookup_insert_Some [[<- <-]|[? H2]]%lookup_insert_Some;
      cbn; [done|..|by eauto]; intros Heq; exfalso; by eapply Hfresh.
Qed.

Lemma gc_inv_reserve_err b s log w pcs data wo e w' :
  gc_inv b s log (mkGc w pcs) -> clean_write wo -> Reserve wo data w = (Err e, w') ->
  w' = w.
Proof.
  intros [Hw _ _ _ _] Hwo Hres. unfold Reserve in Hres. cbn in Hw.
  case_if_in Hres; [congruence|]. destruct wo as [|k e']; simpl in Hres; [done|].
  simpl in Hwo. subst k. injection Hres as <- <-. unfold set_file.
  destruct w as [[d sy] ? ? ? ? ? ? ? ? ? ?]. cbn. by rewrite app_nil_r.
Qed.

(** A goroutine moves without touching the writer. *)
Lemma gc_inv_pc b s log w pcs t p p' :
  gc_inv b s log (mkGc w pcs) -> pcs !! t = Some p -> ~ is_syncing p -> ~ is_syncing p' ->
  pc_off p' = pc_off p -> pc_ok b s w log p' -> gc_inv b s log (mkGc w (<[t := p']> pcs)).
Proof.
  intros [Hw Hpcs Hone Hlead Hinj] Ht Hns Hns' Hoff Hok. cbn in *. split; cbn.
  - done.
  - intros t' q [[<- <-]|[? Hq]]%lookup_insert_Some; [done|by apply (Hpcs t')].
  - intros t1 t2 p1 p2 [[<- <-]|[? Hp1]]%lookup_insert_Some [[<- <-]|[? Hp2]]%lookup_insert_Some;
      try done. by apply (Hone t1 t2 p1 p2).
  - intros (t' & q & Hq & Hsy)%Hlead. exists t', q. split; [|done].
    rewrite lookup_insert_ne; [done|]. intros ->. congruence.
  - by eapply off_inj_move.
Qed.

Lemma gc_inv_return b s log w pcs t data off seq err :
  gc_inv b s log (mkGc w pcs) -> pcs !! t = Some (PCommit data off seq) ->
  commit_check seq w = CReturn err -> gc_inv b s log (mkGc w (<[t := PDone data off err]> pcs)).
Proof.
  intros Hinv Ht Hck. apply (gc_inv_pc _ _ _ _ _ _ _ _ Hinv Ht); [by intros ?|by intros ?|done|].
  destruct (gi_pcs _ _ _ _ Hinv _ _ Ht) as (i & -> & Hi & ? & ->).
  exists i. split_and!; [done..|]. intros ->.
  pose proof (wi_synced _ _ _ _ _ (gi_wal _ _ _ _ Hinv)) as Hsy. cbn in Hsy.
  unfold commit_check in Hck. destruct (syncErr w); [congruence|].
  case_if_in Hck; [blia|]. by destruct (syncing w).
Qed.

Lemma gc_inv_wait b s log w pcs t data off seq :
  gc_inv b s log (mkGc w pcs) -> pcs !! t = Some (PCommit data off seq) ->
  commit_check seq w = CWait -> gc_inv b s log (mkGc w (<[t := PWaiting data off seq]> pcs)).
Proof.
  intros Hinv Ht Hck. apply (gc_inv_pc _ _ _ _ _ _ _ _ Hinv Ht); [by intros ?|by intros ?|done|].
  split; [|by apply (gi_pcs _ _ _ _ Hinv _ _ Ht)].
  unfold commit_check in Hck. destruct (syncErr w); [congruence|].
  case_if_in Hck; [congruence|]. by destruct (syncing w).
Qed.

(** Taking the lead: allowed only when nobody else is flushing. *)
Lemma gc_inv_lead b s log w pcs t data off seq target :
  gc_inv b s log (mkGc w pcs) -> pcs !! t = Some (PCommit data off seq) ->
  commit_check seq w = CLead target ->
  gc_inv b s log (mkGc (begin_sync w)
    (<[t := PSyncing data off seq target (length (f_data (w_file w)))]> pcs)).
Proof.
  intros [Hw Hpcs Hone Hlead Hinj] Ht Hck. cbn in *.
  unfold commit_check in Hck. destruct (syncErr w) eqn:Herr; [done|].
  case_if_in Hck; [done|]. destruct (syncing w) eqn:Hsy; [done|]. injection Hck as <-.
  rewrite (wi_synced _ _ _ _ _ Hw) in *.
  assert (forall t' q, pcs !! t' = Some q -> is_syncing q -> False) as Hnone.
  { intros t' q Hq Hq'. pose proof (Hpcs _ _ Hq) as Hok. destruct q; try done.
    destruct Hok as [? _]. congruence. }
  split; cbn.
  - by apply wal_inv_set_syncing.
  - intros t' q [[<- <-]|[? Hq]]%lookup_insert_Some.
    + destruct (Hpcs _ _ Ht) as (i & -> & Hi & ? & ->). cbn. split; [done|]. split; [done|].
      exists i, (length log - b)%nat, (length log).
      rewrite (wi_data _ _ _ _ _ Hw), (wi_write _ _ _ _ _ Hw), rec_pos_all.
      pose proof (wi_bs _ _ _ _ _ Hw). pose proof (lookup_lt_Some _ _ _ Hi).
      split_and!; done || blia.
    + pose proof (Hpcs _ _ Hq) as Hok. destruct q; try done; by destruct Hok as [? _]; congruence.
  - intros t1 t2 p1 p2 [[<- <-]|[? Hp1]]%lookup_insert_Some [[<- <-]|[? Hp2]]%lookup_insert_Some
      Hs1 Hs2; try done; exfalso; eauto.
  - intros _. eexists t, _. rewrite lookup_insert_eq. by split.
  - by eapply off_inj_move.
Qed.

(** A goroutine's facts survive the end of the flush: waiters are woken, and
    the committed part only grows. *)
Lemma pc_ok_wake b s t w w' log p :
  ~ is_syncing p -> (s <= t)%nat -> pc_ok b s w log p -> pc_ok b t w' log (wake p).
Proof.
  intros Hns Hst. destruct p as [d o q|d o q|d o q tg n|d o err]; simpl; intros Hok.
  - done.
  - by destruct Hok.
  - by destruct Hns.
  - destruct Hok as (i & -> & Hi & ? & Hlt). exists i. split_and!; try done.
    intros He. specialize (Hlt He). lia.
Qed.

Lemma wake_not_syncing p : is_syncing (wake p) -> is_syncing p.
Proof. by destruct p. Qed.

(** After the only flusher [t] has left, nobody is flushing. *)
Lemma gc_inv_unlead b s u log w w' pcs t p p' :
  gc_inv b s log (mkGc w pcs) -> pcs !! t = Some p -> is_syncing p -> ~ is_syncing p' ->
  pc_off p' = pc_off p ->
  (s <= u)%nat -> wal_inv c b u w' log -> syncing w' = false -> pc_ok b u w' log (wake p') ->
  gc_inv b u log (mkGc w' (wake <$> <[t := p']> pcs)).
Proof.
  intros [_ Hpcs Hone _ Hinj] Ht Hsy Hns Hpo Hsu Hw' Hoff Hok. cbn in *.
  assert (forall t' q, (wake <$> <[t := p']> pcs) !! t' = Some q ->
    ~ is_syncing q /\ pc_ok b u w' log q) as Hall.
  { intros t' q. rewrite lookup_fmap. intros (q0 & Hq & ->)%fmap_Some.
    apply lookup_insert_Some in Hq as [[<- <-]|[Hne Hq]].
    - split; [|done]. by intros ?%wake_not_syncing.
    - assert (~ is_syncing q0) as Hq0 by (intros Hq'; by apply Hne, (Hone _ _ _ _ Ht Hq)).
      split; [by intros ?%wake_not_syncing|]. eapply pc_ok_wake; eauto. }
  split; cbn [gc_w gc_pcs].
  - done.
  - intros t' q Hq. by apply (Hall t' q).
  - intros t1 t2 p1 p2 H1 _ Hs1. by destruct (proj1 (Hall _ _ H1)).
  - by rewrite Hoff.
  - assert (forall q, pc_off (wake q) = pc_off q) as Hwake by by intros [].
    intros t1 t2 p1 p2. rewrite !lookup_fmap.
    intros (q1 & H1 & ->)%fmap_Some (q2 & H2 & ->)%fmap_Some. rewrite !Hwake.
    by eapply off_inj_move.
Qed.

Lemma gc_inv_synced b s log w pcs t data off seq target n serr cpo err w' :
  gc_inv b s log (mkGc w pcs) -> pcs !! t = Some (PSyncing data off seq target n) ->
  (forall x, clean_write (cpo x)) -> end_sync serr cpo target n w = (err, w') ->
  exists u, (s <= u)%nat /\ gc_inv b u log (mkGc w' (wake <$> <[t := match err with
                                | None => PCommit data off seq
                                | Some _ => PDone data off err
                                end]> pcs)).
Proof.
  intros Hinv Ht Hcpo Hend. pose proof (gi_pcs _ _ _ _ Hinv _ _ Ht) as Hp. cbn in Hp.
  destruct Hp as (_ & _ & i & u & j & -> & Hi & Hbi & -> & -> & -> & [Hsi Hiu] & Hsu & Huj & Hj).
  pose proof (gi_wal _ _ _ _ Hinv) as Hw. cbn in Hw.
  destruct serr as [e|].
  - injection Hend as <- <-. exists s. split; [done|].
    eapply gc_inv_unlead; try done; [by intros ?| |].
    + by apply wal_inv_set_syncErr, wal_inv_set_syncing.
    + simpl. by exists i.
  - destruct (end_sync_inv c b s u j w log cpo) as (w1 & Hrun & Hw1 & Hsy1 & He1); [done..|].
    rewrite Hrun in Hend. injection Hend as <- <-. exists u. split; [done|].
    eapply gc_inv_unlead; try done; [by intros ?|]. simpl. by exists i.
Qed.

Lemma gc_commit_inv b s log x y :
  gc_inv b s log x -> gc_commit x y -> exists u, (s <= u)%nat /\ gc_inv b u log y.
Proof.
  intros Hinv Hstep. destruct Hstep as [w pcs t data off seq err H H0|w pcs t data off seq H H0|w pcs t data off seq target H H0|
    w pcs t data off seq target n serr cpo err w' H H0 H1].
  - exists s. split; [done|]. by eapply gc_inv_return.
  - exists s. split; [done|]. by eapply gc_inv_wait.
  - exists s. split; [done|]. by eapply gc_inv_lead.
  - by eapply gc_inv_synced.
Qed.

(** Every step keeps the invariant; the log only grows at its end, by the
    record of a [Reserve], and the committed part never shrinks. *)
Lemma gc_step_inv b s log x y :
  gc_inv b s log x -> gc_step x y ->
  exists u l, (s <= u)%nat /\ gc_inv b u (log ++ l) y.
Proof.
  intros Hinv Hstep. destruct Hstep as [w pcs t data off seq w' H H0 H1|w pcs data wo e w' H H0|x y H].
  - exists s, [data]. split; [done|]. by eapply gc_inv_reserve.
  - exists s, []. rewrite app_nil_r. split; [done|].
    by rewrite (gc_inv_reserve_err _ _ _ _ _ _ _ _ _ Hinv H H0).
  - destruct (gc_commit_inv _ _ _ _ _ Hinv H) as (u & ? & ?). exists u, [].
    by rewrite app_nil_r.
Qed.

Lemma gc_steps_inv b s log x y :
  gc_steps x y -> gc_inv b s log x ->
  exists u l, (s <= u)%nat /\ gc_inv b u (log ++ l) y.
Proof.
  induction 1 as [x|x y z Hxy IH Hyz]; intros Hinv.
  - exists s, []. rewrite app_nil_r. done.
  - destruct (IH Hinv) as (u & l & Hu & Hy).
    destruct (gc_step_inv _ _ _ _ _ Hy Hyz) as (u' & l' & Hu' & Hz).
    exists u', (l ++ l'). rewrite app_assoc. split; [lia|done].
Qed.

(** A step of [Commit] keeps each goroutine's record and offset. *)
Lemma gc_commit_keeps x y t p' :
  gc_commit x y -> gc_pcs y !! t = Some p' ->
  exists p, gc_pcs x !! t = Some p /\ pc_off p' = pc_off p /\ pc_data p' = pc_data p.
Proof.
  assert (forall q, pc_off (wake q) = pc_off q /\ pc_data (wake q) = pc_data q) as Hwake
    by by intros [].
  destruct 1 as [w pcs u d o q e Hu|w pcs u d o q Hu|w pcs u d o q tg Hu|w pcs u d o q tg n se cpo e w' Hu _ _];
    cbn [gc_pcs]; rewrite ?lookup_fmap.
  1-3: intros [[<- <-]|[_ Hx]]%lookup_insert_Some; eauto.
  intros (p & [[<- <-]|[_ Hx]]%lookup_insert_Some & ->)%fmap_Some.
  - exists (PSyncing d o q tg n). by destruct e.
  - exists p. split; [done|apply Hwake].
Qed.

(** ** Every [Write] returns *)

Definition is_done (p : pc) : Prop := match p with PDone _ _ _ => True | _ => False end.

(** While some goroutine is inside [Write], some goroutine can move. *)
Lemma gc_progress b s log x t p :
  gc_inv b s log x -> gc_pcs x !! t = Some p -> ~ is_done p -> exists y, gc_commit x y.
Proof.
  destruct x as [w pcs]. intros Hinv Ht Hnd. cbn in Ht.
  assert (forall t' q, pcs !! t' = Some q -> is_syncing q -> exists y, gc_commit (mkGc w pcs) y)
    as Hlead.
  { intros t' [| |d o q tg n|] Hq Hsy; try done.
    destruct (end_sync None (fun _ => WOk) tg n w) as [err w'] eqn:He.
    eexists. by eapply (gs_synced _ _ _ _ _ _ _ _ None (fun _ => WOk)). }
  destruct p as [d o q|d o q|d o q tg n|d o err].
  - destruct (commit_check q w) eqn:Hck; eexists.
    + by eapply gs_return.
    + by eapply gs_wait.
    + by eapply gs_lead.
  - destruct (gi_pcs _ _ _ _ Hinv _ _ Ht) as [Hsy _].
    destruct (gi_leader _ _ _ _ Hinv Hsy) as (t' & q' & ? & ?). eauto.
  - by eapply Hlead.
  - by destruct Hnd.
Qed.

(** Weight of a goroutine: the steps it may take before the next flush ends. *)
Definition weight (p : pc) : nat :=
  match p with PCommit _ _ _ => 2 | PWaiting _ _ _ => 1 | PSyncing _ _ _ _ _ => 1 | PDone _ _ _ => 0 end.

(** Is the goroutine still in need of a flush? *)
Definition unsynced (w : WALWriter) (p : pc) : nat :=
  match p with
  | PCommit _ _ q | PWaiting _ _ q | PSyncing _ _ q _ _ =>
      match syncErr w with
      | Some _ => 0
      | None => if syncedSeq w <? q then 1 else 0
      end
  | PDone _ _ _ => 0
  end.

Definition total (f : pc -> nat) (m : gmap nat pc) : nat :=
  sum_list_with (fun x => f x.2) (map_to_list m).

Definition measure (x : gc_state) : nat :=
  (2 * size (gc_pcs x) + 1) * total (unsynced (gc_w x)) (gc_pcs x) + total weight (gc_pcs x).

Lemma total_insert f m t p p' :
  m !! t = Some p -> (total f (<[t := p']> m) + f p = total f m + f p')%nat.
Proof.
  intros Ht. unfold total.
  rewrite <- (insert_delete_id m t p Ht) at 2. rewrite <- insert_delete_eq.
  rewrite !map_to_list_insert by apply lookup_delete_eq. simpl. lia.
Qed.

Lemma total_fmap f g m : total f (g <$> m) = total (f ∘ g) m.
Proof.
  unfold total. rewrite map_to_list_fmap.
  induction (map_to_list m) as [|[k p] l IH]; [done|]. simpl. f_equal. exact IH.
Qed.

Lemma total_le f g m :
  (forall t p, m !! t = Some p -> f p <= g p)%nat -> (total f m <= total g m)%nat.
Proof.
  intros Hle. unfold total.
  assert (forall k p, (k, p) ∈ map_to_list m -> (f p <= g p)%nat) as H
    by (intros k p ?%elem_of_map_to_list; eauto).
  revert H. induction (map_to_list m) as [|[k p] l IH]; intros H; simpl; [lia|].
  specialize (H k p) as H0. rewrite elem_of_cons in H0. specialize (H0 (or_introl eq_refl)).
  enough (sum_list_with (fun x => f x.2) l <= sum_list_with (fun x => g x.2) l)%nat by lia.
  apply IH. intros k' p' ?. apply (H k' p'). by apply elem_of_cons; right.
Qed.

Lemma total_weight_size m : (total weight m <= 2 * size m)%nat.
Proof.
  unfold total. rewrite <- length_map_to_list.
  induction (map_to_list m) as [|[k p] l IH]; simpl; [lia|].
  assert (weight p <= 2)%nat by by destruct p; simpl; lia. lia.
Qed.

Lemma total_lookup f m t p : m !! t = Some p -> (f p <= total f m)%nat.
Proof.
  intros Ht. unfold total.
  rewrite <- (insert_delete_id m t p Ht), map_to_list_insert by apply lookup_delete_eq.
  simpl. lia.
Qed.

(** A step that does not end a flush only moves one goroutine forward. *)
Lemma measure_move w w' pcs t p p' :
  pcs !! t = Some p -> (forall q, unsynced w' q = unsynced w q) ->
  (unsynced w p' <= unsynced w p)%nat -> (weight p' < weight p)%nat ->
  (measure (mkGc w' (<[t := p']> pcs)) < measure (mkGc w pcs))%nat.
Proof.
  intros Ht Hw Hu Hwt. unfold measure. cbn [gc_w gc_pcs].
  rewrite map_size_insert_Some by eauto.
  pose proof (total_insert weight pcs t p p' Ht).
  pose proof (total_insert (unsynced w) pcs t p p' Ht).
  assert (total (unsynced w') (<[t := p']> pcs) = total (unsynced w) (<[t := p']> pcs)) as ->
    by (apply Nat.le_antisymm; apply total_le; intros; by rewrite Hw).
  nia.
Qed.

(** The end of a flush leaves strictly fewer goroutines in need of one. *)
Lemma measure_synced w w' pcs t p p' :
  pcs !! t = Some p -> unsynced w p = 1%nat -> unsynced w' p' = 0%nat ->
  (forall q, unsynced w' q <= unsynced w q)%nat ->
  (measure (mkGc w' (wake <$> <[t := p']> pcs)) < measure (mkGc w pcs))%nat.
Proof.
  intros Ht Hp Hp' Hle. unfold measure. cbn [gc_w gc_pcs].
  rewrite map_size_fmap. rewrite !total_fmap, map_size_insert_Some by eauto.
  pose proof (total_weight_size (wake <$> <[t := p']> pcs)) as Hws.
  rewrite total_fmap, map_size_fmap, map_size_insert_Some in Hws by eauto.
  pose proof (total_insert (unsynced w') pcs t p p' Ht).
  assert (unsynced w' p <= total (unsynced w') pcs)%nat by by eapply total_lookup.
  assert (total (unsynced w' ∘ wake) (<[t := p']> pcs) <= total (unsynced w') (<[t := p']> pcs))%nat
    by (apply total_le; intros ? [] _; done).
  assert (total (unsynced w') (<[t := p']> pcs) < total (unsynced w) pcs)%nat; [|nia].
  pose proof (total_insert (unsynced w) pcs t p p' Ht).
  assert (total (unsynced w') (<[t := p']> pcs) <= total (unsynced w) (<[t := PDone [] 0 None]> pcs))%nat.
  { pose proof (total_insert (unsynced w') pcs t p (PDone [] 0 None) Ht).
    assert (total (unsynced w') (<[t := PDone [] 0 None]> pcs) <= total (unsynced w) (<[t := PDone [] 0 None]> pcs))%nat
      by (apply total_le; eauto). simpl in *. lia. }
  pose proof (total_insert (unsynced w) pcs t p (PDone [] 0 None) Ht). simpl in *. lia.
Qed.

Lemma end_sync_seq serr cpo target n w err w' :
  end_sync serr cpo target n w = (err, w') ->
  syncedSeq w <= syncedSeq w' /\
  match err with
  | Some _ => syncErr w' = err
  | None => syncErr w' = syncErr w /\ target <= syncedSeq w'
  end.
Proof.
  unfold end_sync. destruct serr as [e|].
  - intros H. inversion H; subst. split; cbn; [lia|done].
  - cbn. set (w1 := if _ <? _ then _ else _).
    destruct (drain_loop cpo 0 target (pending w1) (w_store w1)) as [ps st].
    intros H. inversion H; subst. cbn. unfold w1. case_if; cbn; split_and!; done || blia.
Qed.

(** Each step of a goroutine inside [Commit] decreases the measure. *)
Lemma gc_commit_measure b s log x y :
  gc_inv b s log x -> gc_commit x y -> (measure y < measure x)%nat.
Proof.
  intros Hinv Hstep. destruct Hstep as [w pcs t data off seq err H H0|w pcs t data off seq H H0|
    w pcs t data off seq target H H0|w pcs t data off seq target n serr cpo err w' H H0 H1].
  - eapply measure_move; try done; simpl; lia.
  - eapply measure_move; try done; simpl; lia.
  - eapply measure_move; try done; simpl; lia.
  - destruct (end_sync_seq _ _ _ _ _ _ _ H1) as [Hq Herr].
    destruct (gi_pcs _ _ _ _ Hinv _ _ H) as (_ & Hn & i & u & j & _ & _ & _ & Hseq & Htgt & _ & Hlt & _).
    pose proof (wi_synced _ _ _ _ _ (gi_wal _ _ _ _ Hinv)) as Hsy. cbn in Hn, Hsy.
    eapply measure_synced; try done.
    + simpl. rewrite Hn. case_if; [done|blia].
    + destruct err as [e|]; simpl; [done|]. destruct Herr as [-> ?]. rewrite Hn.
      case_if; [blia|done].
    + intros q. destruct err as [e|]; destruct q; simpl; rewrite ?Herr, ?(proj1 Herr), ?Hn; try lia;
        repeat case_if; blia.
Qed.
End Concurrent.
