(* ===== verification/Crash.v ===== *)
(** * Crash: what survives a crash of a process with concurrent writers

    A crash keeps, of each file, its fsynced prefix and any part of what was
    appended after it (so possibly half a record, and half an index entry);
    goroutines are gone.  [reach] closes the concurrent steps of
    [GroupCommit.v] under crashes followed by a reopening of what is left, for
    any number of lifetimes, and remembers every acknowledged [Write]. *)

From Stdlib Require Import ZArith Lia Strings.String.
From stdpp Require Import base list list_numbers numbers option gmap sorting.
From coqutil Require Import Byte.
From S2P Require Import Prelude Bytes Golib Index Checksum Wal WalFormat WalInv GroupCommit.

Local Open Scope Z_scope.

(** [f'] is what a crash may leave of [f]. *)
Definition crash_file (f f' : file) : Prop :=
  exists k, (f_synced f <= k)%nat /\ f' = mkFile (take k (f_data f)) (f_synced f).

Definition open_ok : open_io := mkOpenIo None None.

(** What the segment does to open its log: the index store, then the writer. *)
Definition open_log (c : Checksum) (nth : Z) (disk idx : option file) : option (result WALWriter) :=
  match NewInMemoryStore open_ok idx nth with
  | Err e => Some (Err e)
  | Ok st => NewWalWriter open_ok recover_io_ok disk st c
  end.

(** The running process, and the [(offset, payload)] pairs acknowledged in
    earlier lifetimes. *)
Record sys := mkSys { sys_gc : gc_state; sys_past : list (Z * list byte) }.

Definition acks (m : gmap nat pc) : list (Z * list byte) :=
  omap (fun x => match x.2 with PDone d o None => Some (o, d) | _ => None end) (map_to_list m).

(** [Write(d)] returned [o] without error, in this lifetime or before. *)
Definition acked (x : sys) (o : Z) (d : list byte) : Prop :=
  (o, d) ∈ sys_past x ++ acks (gc_pcs (sys_gc x)).

Inductive reach (c : Checksum) (nth : Z) : sys -> Prop :=
| reach_new w :
    open_log c nth None None = Some (Ok w) -> reach c nth (mkSys (mkGc w ∅) [])
| reach_step g g' past :
    reach c nth (mkSys g past) -> gc_step g g' -> reach c nth (mkSys g' past)
| reach_crash g past disk idx w' :
    reach c nth (mkSys g past) ->
    crash_file (w_file (gc_w g)) disk -> crash_file (indexFile (w_store (gc_w g))) idx ->
    open_log c nth (Some disk) (Some idx) = Some (Ok w') ->
    reach c nth (mkSys (mkGc w' ∅) (past ++ acks (gc_pcs g))).

Lemma elem_of_acks m o d :
  (o, d) ∈ acks m <-> exists t, m !! t = Some (PDone d o None).
Proof.
  unfold acks. rewrite list_elem_of_omap. split.
  - intros ([t p] & Hin%elem_of_map_to_list & Hp). exists t.
    destruct p as [| | |d' o' [e|]]; simpl in Hp; congruence.
  - intros (t & Ht). exists (t, PDone d o None). by rewrite elem_of_map_to_list.
Qed.

(** ** A torn index *)

(** A prefix of an index file holds a prefix of its entries. *)
Lemma valid_entries_cut es k :
  Forall entry_ok es -> valid_entries (take k (encode_entries es)) `prefix_of` es.
Proof.
  intros Hok. unfold valid_entries. set (m := (length _ / 16)%nat).
  assert (16 * m <= k /\ m <= length es)%nat as [Hmk Hml].
  { subst m. rewrite length_take, length_encode_entries.
    pose proof (Nat.Div0.mul_div_le (Nat.min k (16 * length es)) 16). lia. }
  assert (decode_entries m (take k (encode_entries es)) = take m es) as ->.
  { rewrite <- (take_drop m es) at 1. rewrite encode_entries_app, take_app.
    assert (length (encode_entries (take m es)) = 16 * m)%nat as Hl
      by (rewrite length_encode_entries, length_take; lia).
    rewrite (take_ge (encode_entries (take m es))) by lia.
    rewrite <- (length_take_le es m) at 1 by done. apply decode_encode_entries.
    by apply Forall_take. }
  etrans; [apply mono_from_prefix|]. exists (drop m es). by rewrite take_drop.
Qed.

Section Crash.
Context (c : Checksum) {Hc : ChecksumOk c}.
Implicit Types (log : list (list byte)) (w : WALWriter).

Lemma rec_pos_take log i j : (j <= i)%nat -> rec_pos c (take i log) j = rec_pos c log j.
Proof. intros. unfold rec_pos. by rewrite take_take, Nat.min_l. Qed.

(** What a crash leaves of a writer's files is recoverable, and holds every
    record of the fsynced prefix. *)
Lemma crash_disk_ok b s w log disk idx :
  wal_inv c b s w log -> crash_file (w_file w) disk -> crash_file (indexFile (w_store w)) idx ->
  exists i, (i <= length log)%nat /\ disk_ok c disk idx (take i log) /\
    (forall j, (j <= length log)%nat -> (rec_pos c log j <= f_synced (w_file w))%nat -> (j <= i)%nat).
Proof.
  intros Hw (k & Hk & ->) (k2 & _ & ->).
  destruct (cut_log c log k (wi_ok _ _ _ _ _ Hw)) as (i & torn & Hi & Hcut & Htorn & Hmax).
  exists i. split; [done|]. split; [|intros j ? ?; apply Hmax; lia].
  destruct (wi_sync _ _ _ _ _ Hw) as (j & Hj & Hsync).
  assert (j <= i)%nat by (apply Hmax; lia).
  split; cbn [f_data f_synced].
  - exists torn. by rewrite (wi_data _ _ _ _ _ Hw).
  - apply Forall_take, Hw.
  - pose proof (wi_fits _ _ _ _ _ Hw) as Hf. unfold fits, zlen in *.
    rewrite (wi_data _ _ _ _ _ Hw), length_take. lia.
  - exists j. rewrite length_take, rec_pos_take by lia. split; [lia|done].
  - destruct (wi_store _ _ _ _ _ Hw) as [Hwf Hpos]. rewrite (wf_file _ Hwf).
    intros e He. assert (e ∈ entries (w_store w)) as Hin.
    { destruct (valid_entries_cut (entries (w_store w)) k2 (wf_entries _ Hwf)) as [l Hl].
      rewrite Hl. apply elem_of_app. by left. }
    destruct (Hpos _ Hin) as (x & _ & Hx & ->).
    pose proof (wi_index_durable _ _ _ _ _ Hw _ x Hin eq_refl).
    assert (S x <= i)%nat by (apply Hmax; lia).
    exists x. rewrite length_take, !rec_pos_take by lia. split_and!; try done; lia.
Qed.

Lemma open_log_run nth disk idx log :
  is_u32 nth -> disk_ok c disk idx log ->
  exists w, open_log c nth (Some disk) (Some idx) = Some (Ok w) /\
    wal_inv c (length log) 0 w log /\ syncing w = false /\ f_synced (w_file w) = f_synced disk /\
    syncErr w = None.
Proof.
  intros Hn Hdk. unfold open_log. cbn [NewInMemoryStore open_ok oi_open default].
  destruct (NewWalWriter_run c open_ok disk idx (mkStore [] [] ∅ idx 0 nth) log)
    as (w & Hrun & Hw & Hs & He & Hsy); try done; [cbn; lia|].
  by exists w.
Qed.

Lemma open_log_new nth :
  is_u32 nth -> Size_ c < 2 ^ 32 ->
  exists w, open_log c nth None None = Some (Ok w) /\ wal_inv c 0 0 w [] /\ syncing w = false /\
    syncErr w = None.
Proof.
  intros Hn Hh. destruct (open_log_run nth empty_file empty_file []) as (w & Hrun & Hw & Hs & _ & He).
  - done.
  - split; cbn.
    + exists []. split; [by apply is_torn_nil|done].
    + done.
    + unfold fits. rewrite <- (hdr_Z c). unfold MaxRecordSize, LengthSize, zlen. simpl. lia.
    + by exists 0%nat.
    + intros e. unfold valid_entries. simpl. by intros ?%not_elem_of_nil.
  - exists w. by split.
Qed.

(** The state of a running process: the invariant of its writer and
    goroutines, and every acknowledged record in the fsynced prefix. *)
Record sys_inv (log : list (list byte)) (x : sys) : Prop := {
  yi_gc : exists b s, gc_inv c b s log (sys_gc x);
  yi_acked : forall o d, acked x o d ->
    exists i, o = Z.of_nat i /\ log !! i = Some d /\
      (rec_pos c log (S i) <= f_synced (w_file (gc_w (sys_gc x))))%nat
}.

(** The fsynced prefix only grows while the process runs. *)
Lemma end_sync_synced serr cpo target n w err w' :
  end_sync serr cpo target n w = (err, w') -> (f_synced (w_file w) <= f_synced (w_file w'))%nat.
Proof.
  unfold end_sync. destruct serr as [e|]; [by intros [= _ <-]|].
  cbn. set (w1 := if _ <? _ then _ else _).
  destruct (drain_loop cpo 0 target (pending w1) (w_store w1)) as [ps st].
  intros [= _ <-]. cbn. unfold w1. case_if; cbn; lia.
Qed.

Lemma gc_step_synced g g' :
  gc_step g g' -> (f_synced (w_file (gc_w g)) <= f_synced (w_file (gc_w g')))%nat.
Proof.
  assert (forall wo data w r w', Reserve wo data w = (r, w') -> f_synced (w_file w') = f_synced (w_file w))
    as Hres.
  { intros wo data w r w'. unfold Reserve, f_append. case_if; [by intros [= _ <-]|].
    destruct wo; intros [= _ <-]; done. }
  intros [w pcs t data off seq w' _ _ H|w pcs data wo e w' _ H|x y H].
  - cbn. by rewrite (Hres _ _ _ _ _ H).
  - cbn. by rewrite (Hres _ _ _ _ _ H).
  - destruct H as [| | |w pcs t data off seq target n serr cpo err w' _ _ He]; try done.
    cbn. by eapply end_sync_synced.
Qed.

(** A goroutine that was told success has its record in the fsynced prefix. *)
Lemma done_durable b s log g t d o :
  gc_inv c b s log g -> gc_pcs g !! t = Some (PDone d o None) ->
  exists i, o = Z.of_nat i /\ log !! i = Some d /\
    (rec_pos c log (S i) <= f_synced (w_file (gc_w g)))%nat.
Proof.
  intros Hg Ht. destruct (gi_pcs _ _ _ _ _ Hg _ _ Ht) as (i & -> & Hi & Hb & Hlt).
  exists i. split_and!; [done..|]. specialize (Hlt eq_refl).
  pose proof (wi_durable _ _ _ _ _ (gi_wal _ _ _ _ _ Hg)).
  pose proof (rec_pos_mono c log (S i) (b + s)). lia.
Qed.

Lemma sys_inv_step g g' past log :
  sys_inv log (mkSys g past) -> gc_step g g' -> exists l, sys_inv (log ++ l) (mkSys g' past).
Proof.
  intros [(b & s & Hg) Hack] Hstep. destruct (gc_step_inv c _ _ _ _ _ Hg Hstep) as (u & l & _ & Hg').
  exists l. split; [by exists b, u|]. cbn in *. unfold acked in *. cbn in *.
  intros o d [Hp|(t & Ht)%elem_of_acks]%elem_of_app; [|by eapply done_durable].
  destruct (Hack o d) as (i & -> & Hi & Hdur); [apply elem_of_app; by left|].
  exists i. rewrite (lookup_app_l_Some _ _ _ _ Hi). split_and!; [done..|].
  pose proof (lookup_lt_Some _ _ _ Hi). pose proof (gc_step_synced _ _ Hstep).
  rewrite rec_pos_app by lia. lia.
Qed.

(** Reopening after a crash: it succeeds, and the surviving records are a
    prefix of the log that includes every acknowledged one. *)
Lemma sys_inv_crash nth log g past disk idx :
  is_u32 nth -> sys_inv log (mkSys g past) ->
  crash_file (w_file (gc_w g)) disk -> crash_file (indexFile (w_store (gc_w g))) idx ->
  exists w' i, open_log c nth (Some disk) (Some idx) = Some (Ok w') /\ (i <= length log)%nat /\
    sys_inv (take i log) (mkSys (mkGc w' ∅) (past ++ acks (gc_pcs g))).
Proof.
  intros Hn [(b & s & Hg) Hack] Hd Hi.
  pose proof (gi_wal _ _ _ _ _ Hg) as Hw. cbn in Hw.
  destruct (crash_disk_ok _ _ _ _ _ _ Hw Hd Hi) as (i & Hil & Hdk & Hmax).
  destruct (open_log_run nth _ _ _ Hn Hdk) as (w' & Hrun & Hw' & Hs & Hsy & _).
  exists w', i. split; [done|]. split; [done|]. split.
  - eexists _, 0%nat. by apply gc_inv_init.
  - unfold acked. cbn. intros o d. rewrite app_nil_r. intros Hin.
    destruct (Hack o d Hin) as (x & -> & Hx & Hdur). cbn in Hdur.
    pose proof (lookup_lt_Some _ _ _ Hx). assert (S x <= i)%nat by (apply Hmax; lia).
    exists x. rewrite rec_pos_take by lia. rewrite lookup_take_lt by lia.
    split_and!; [done..|]. rewrite Hsy. by destruct Hd as (k & _ & ->).
Qed.

Lemma reach_inv nth x :
  is_u32 nth -> Size_ c < 2 ^ 32 -> reach c nth x -> exists log, sys_inv log x.
Proof.
  intros Hn Hsz. induction 1 as [w Hopen|g g' past Hr [log IH] Hstep|g past disk idx w' Hr [log IH] Hd Hi Hopen].
  - destruct (open_log_new nth Hn Hsz) as (w' & Hrun & Hw & Hs & _).
    rewrite Hrun in Hopen. injection Hopen as <-. exists []. split.
    + exists 0%nat, 0%nat. by apply gc_inv_init.
    + intros o d. unfold acked. cbn. by intros ?%not_elem_of_nil.
  - destruct (sys_inv_step _ _ _ _ IH Hstep) as [l Hl]. by exists (log ++ l).
  - destruct (sys_inv_crash nth _ _ _ _ _ Hn IH Hd Hi) as (w1 & i & Hrun & _ & Hinv).
    rewrite Hrun in Hopen. injection Hopen as <-. by exists (take i log).
Qed.

(** An acknowledged record is what a read of its offset returns. *)
Lemma sys_inv_read log x o d r :
  sys_inv log x -> acked x o d ->
  Wal_ReadAt no_fault (reader_at c r) (w_store (gc_w (sys_gc x))) (w_file (gc_w (sys_gc x))) o =
  Some (Ok d).
Proof.
  intros [(b & s & Hg) Hack] (i & -> & Hi & _)%Hack.
  rewrite (ReadAt_run c b s _ log) by (apply Hg || lia). by rewrite Nat2Z.id, Hi.
Qed.
End Crash.

(** ** Results *)

(** C1. Durability.  Whatever concurrent [Write]s, failed fsyncs, crashes and
    reopenings happened before, when the process crashes again the log
    reopens without error and a read of every offset that any [Write] ever
    acknowledged returns exactly the acknowledged payload. *)
Theorem acked_survives_crash c (Hc : ChecksumOk c) nth g past o d disk idx r
  (Hn : is_u32 nth) (Hsz : Size_ c < 2 ^ 32)
  (Hr : reach c nth (mkSys g past)) (Ha : acked (mkSys g past) o d)
  (Hd : crash_file (w_file (gc_w g)) disk)
  (Hi : crash_file (indexFile (w_store (gc_w g))) idx) :
  exists w, open_log c nth (Some disk) (Some idx) = Some (Ok w) /\
    Wal_ReadAt no_fault (reader_at c r) (w_store w) (w_file w) o = Some (Ok d) /\
    o < NextOffset w.
Proof.
  destruct (reach_inv c nth _ Hn Hsz Hr) as [log Hinv].
  destruct (sys_inv_crash c nth _ _ _ _ _ Hn Hinv Hd Hi) as (w & i & Hrun & _ & Hinv').
  exists w. split; [done|].
  assert (acked (mkSys (mkGc w ∅) (past ++ acks (gc_pcs g))) o d) as Ha'
    by (unfold acked in *; cbn; by rewrite app_nil_r).
  split; [by apply (sys_inv_read c _ _ _ _ r Hinv' Ha')|].
  destruct (yi_acked _ _ _ Hinv' _ _ Ha') as (x & -> & Hx%lookup_lt_Some & _).
  destruct (yi_gc _ _ _ Hinv') as (b & s & Hg). unfold NextOffset.
  pose proof (wi_next _ _ _ _ _ (gi_wal _ _ _ _ _ Hg)) as Hnx. cbn in Hnx. rewrite Hnx.
  unfold zlen. lia.
Qed.

(** One process writing [data] alone: the states it goes through. *)
Definition ex_writer : WALWriter :=
  match open_log NewCRC32C 10 None None with
  | Some (Ok w) => w
  | _ => mkWriter empty_file NewCRC32C 0 0 0 0 0 false None [] (mkStore [] [] ∅ empty_file 0 10)
  end.
Definition ex_data : list byte := [byte.of_Z 7; byte.of_Z 8].
Definition ex_reserved : WALWriter := (Reserve WOk ex_data ex_writer).2.
Definition ex_synced : WALWriter :=
  (end_sync None (fun _ => WOk) 1 (length (f_data (w_file ex_reserved))) (begin_sync ex_reserved)).2.
Definition ex_acked : gc_state := mkGc ex_synced (<[0%nat := PDone ex_data 0 None]> ∅).

Definition ex_committing : gc_state := mkGc ex_reserved (<[0%nat := PCommit ex_data 0 1]> ∅).

Lemma ex_reach_committing : reach NewCRC32C 10 (mkSys ex_committing []).
Proof.
  apply (reach_step _ _ (mkGc ex_writer ∅)); [apply reach_new; reflexivity|].
  apply gs_reserve; [done|vm_compute; done|reflexivity].
Qed.

Lemma ex_reach : reach NewCRC32C 10 (mkSys ex_acked []).
Proof.
  assert (reach NewCRC32C 10 (mkSys (mkGc (begin_sync ex_reserved)
      (<[0%nat := PSyncing ex_data 0 1 1 (length (f_data (w_file ex_reserved)))]> ∅)) [])) as H2.
  { eapply reach_step; [exact ex_reach_committing|]. unfold ex_committing.
    rewrite <- (insert_insert_eq ∅ 0%nat
      (PSyncing ex_data 0 1 1 (length (f_data (w_file ex_reserved)))) (PCommit ex_data 0 1)).
    apply gs_commit, gs_lead; [by rewrite lookup_insert_eq|reflexivity]. }
  assert (reach NewCRC32C 10 (mkSys (mkGc ex_synced (<[0%nat := PCommit ex_data 0 1]> ∅)) [])) as H3.
  { eapply reach_step; [exact H2|]. apply gs_commit.
    replace (<[0%nat := PCommit ex_data 0 1]> ∅) with (wake <$> <[0%nat := PCommit ex_data 0 1]>
      (<[0%nat := PSyncing ex_data 0 1 1 (length (f_data (w_file ex_reserved)))]> (∅ : gmap nat pc)))
      by by rewrite insert_insert_eq, fmap_insert, fmap_empty.
    eapply (gs_synced _ _ _ _ _ _ _ _ None (fun _ => WOk) None); [by rewrite lookup_insert_eq|done|].
    reflexivity. }
  eapply reach_step; [exact H3|]. unfold ex_acked.
  rewrite <- (insert_insert_eq ∅ 0%nat (PDone ex_data 0 None) (PCommit ex_data 0 1)).
  apply gs_commit. eapply gs_return; [by rewrite lookup_insert_eq|reflexivity].
Qed.

Lemma acked_survives_crash_witness :
  exists w, open_log NewCRC32C 10 (Some (w_file ex_synced)) (Some empty_file) = Some (Ok w) /\
    Wal_ReadAt no_fault (reader_at NewCRC32C 0) (w_store w) (w_file w) 0 = Some (Ok ex_data) /\
    0 < NextOffset w.
Proof.
  apply (acked_survives_crash NewCRC32C _ 10 ex_acked [] 0 ex_data (w_file ex_synced) empty_file 0).
  - unfold is_u32. lia.
  - reflexivity.
  - exact ex_reach.
  - by vm_compute; constructor.
  - exists 100%nat. split; [vm_compute; lia|]. reflexivity.
  - exists 0%nat. split; reflexivity.
Defined.

(** Write-ahead ordering.  In every reachable state the file holds whole
    records only, and every checkpoint, in memory and in the index file, is
    the exact position of a record that lies entirely in the fsynced prefix:
    the index never refers to data a crash could lose. *)
Theorem index_never_leads_log c (Hc : ChecksumOk c) nth g past
  (Hn : is_u32 nth) (Hsz : Size_ c < 2 ^ 32) (Hr : reach c nth (mkSys g past)) :
  exists log, f_data (w_file (gc_w g)) = encode_log c log /\
    f_data (indexFile (w_store (gc_w g))) = encode_entries (entries (w_store (gc_w g))) /\
    forall e, e ∈ entries (w_store (gc_w g)) ->
      exists i, (i < length log)%nat /\ e = (Z.of_nat i, Z.of_nat (rec_pos c log i)) /\
        (rec_pos c log (S i) <= f_synced (w_file (gc_w g)))%nat.
Proof.
  destruct (reach_inv c nth _ Hn Hsz Hr) as [log [(b & s & Hg) _]].
  pose proof (gi_wal _ _ _ _ _ Hg) as Hw. cbn in Hw.
  exists log. split; [apply Hw|]. destruct (wi_store _ _ _ _ _ Hw) as [Hwf Hpos].
  split; [apply Hwf|]. intros e He. destruct (Hpos e He) as (i & _ & Hi & ->).
  exists i. split_and!; [done..|]. by eapply (wi_index_durable _ _ _ _ _ Hw).
Qed.

Lemma index_never_leads_log_witness :
  exists log, f_data (w_file ex_synced) = encode_log NewCRC32C log /\
    f_data (indexFile (w_store ex_synced)) = encode_entries (entries (w_store ex_synced)) /\
    forall e, e ∈ entries (w_store ex_synced) ->
      exists i, (i < length log)%nat /\ e = (Z.of_nat i, Z.of_nat (rec_pos NewCRC32C log i)) /\
        (rec_pos NewCRC32C log (S i) <= f_synced (w_file ex_synced))%nat.
Proof.
  apply (index_never_leads_log NewCRC32C _ 10 ex_acked []);
    [unfold is_u32; lia | reflexivity | exact ex_reach].
Defined.

(** C27. Every [Write] returns.  From any reachable state the goroutines inside
    [Commit] take at most [measure] steps, whatever the scheduler and the disk
    do, and when none of them can move, all of them have returned: no writer
    is left waiting for a flush that nobody runs. *)
Theorem writes_return c (Hc : ChecksumOk c) nth g past
  (Hn : is_u32 nth) (Hsz : Size_ c < 2 ^ 32) (Hr : reach c nth (mkSys g past)) :
  (forall n g', nsteps gc_commit n g g' -> (n <= measure g)%nat) /\
  (forall g', rtc gc_commit g g' -> (forall y, ~ gc_commit g' y) ->
     forall t p, gc_pcs g' !! t = Some p -> is_done p).
Proof.
  destruct (reach_inv c nth _ Hn Hsz Hr) as [log [(b & s & Hg) _]]. cbn in Hg. clear Hr. split.
  - intros n g' Hrun. revert s Hg. induction Hrun as [x|n x y z Hxy _ IH]; intros s Hg; [lia|].
    pose proof (gc_commit_measure c _ _ _ _ _ Hg Hxy).
    destruct (gc_commit_inv c _ _ _ _ _ Hg Hxy) as (u & _ & Hy). specialize (IH u Hy). lia.
  - intros g' Hrun Hstuck t p Ht.
    assert (exists u, gc_inv c b u log g') as (u & Hg').
    { revert s Hg. induction Hrun as [x|x y z Hxy _ IH]; intros s Hg; [by exists s|].
      destruct (gc_commit_inv c _ _ _ _ _ Hg Hxy) as (u & _ & Hy). by eapply IH. }
    destruct p; try done; exfalso;
      (edestruct (gc_progress c _ _ _ _ _ _ Hg' Ht) as [y Hy]; [by intros ?|by eapply Hstuck]).
Qed.

Lemma writes_return_witness :
  (forall n g', nsteps gc_commit n ex_committing g' -> (n <= measure ex_committing)%nat) /\
  (forall g', rtc gc_commit ex_committing g' -> (forall y, ~ gc_commit g' y) ->
     forall t p, gc_pcs g' !! t = Some p -> is_done p).
Proof.
  apply (writes_return NewCRC32C _ 10 ex_committing []);
    [unfold is_u32; lia | reflexivity | exact ex_reach_committing].
Defined.

(** One offset, one record, for ever.  Two acknowledged [Write]s of the
    same lifetime never share an offset; and what a read of an offset returns
    once, it returns in every later state of the running process, whatever
    is appended or checkpointed meanwhile. *)
Theorem offsets_unique_and_stable c (Hc : ChecksumOk c) nth g past r
  (Hn : is_u32 nth) (Hsz : Size_ c < 2 ^ 32) (Hr : reach c nth (mkSys g past)) :
  (forall t1 t2 o d1 d2 e1 e2, gc_pcs g !! t1 = Some (PDone d1 o e1) ->
     gc_pcs g !! t2 = Some (PDone d2 o e2) -> t1 = t2) /\
  (forall g' o d, gc_steps g g' -> 0 <= o ->
     Wal_ReadAt no_fault (reader_at c r) (w_store (gc_w g)) (w_file (gc_w g)) o = Some (Ok d) ->
     Wal_ReadAt no_fault (reader_at c r) (w_store (gc_w g')) (w_file (gc_w g')) o = Some (Ok d)).
Proof.
  destruct (reach_inv c nth _ Hn Hsz Hr) as [log [(b & s & Hg) _]]. cbn in Hg. split.
  - intros t1 t2 o d1 d2 e1 e2 H1 H2. by eapply (gi_off _ _ _ _ _ Hg).
  - intros g' o d Hsteps Ho. destruct (gc_steps_inv c _ _ _ _ _ Hsteps Hg) as (u & l & _ & Hg').
    rewrite (ReadAt_run c b s _ log) by (apply Hg || done).
    rewrite (ReadAt_run c b u _ (log ++ l)) by (apply Hg' || done).
    destruct (log !! Z.to_nat o) as [x|] eqn:Hx; [|done].
    by rewrite (lookup_app_l_Some _ _ _ _ Hx).
Qed.

Lemma offsets_unique_and_stable_witness :
  Wal_ReadAt no_fault (reader_at NewCRC32C 0) (w_store ex_synced) (w_file ex_synced) 0 = Some (Ok ex_data).
Proof.
  apply (offsets_unique_and_stable NewCRC32C _ 10 ex_acked [] 0) with (g' := ex_acked);
    [unfold is_u32; lia | reflexivity | exact ex_reach | apply gc_refl | lia | vm_compute; reflexivity].
Defined.
