(* ===== verification/WalProps.v ===== *)
(** * WalProps: what the write-ahead log promises its callers

    The sequential contract of [WALWriter] and [WALReader], stated against the
    abstract state of [WalInv.v] (the list of payloads): every branch of
    [Write], exact reads, the reader's cursor, recovery, close, termination
    of both scans on arbitrary bytes, and what a damaged record does. *)

From Stdlib Require Import ZArith Lia Strings.String.
From stdpp Require Import base list list_numbers numbers option gmap sorting.
From coqutil Require Import Byte.
From S2P Require Import Prelude Bytes Golib Index Checksum Wal WalFormat WalInv GroupCommit Crash.

Local Open Scope Z_scope.

(** ** [Write] *)

Section Write.
Context (c : Checksum) {Hc : ChecksumOk c}.

Lemma Reserve_too_large wo data w :
  MaxRecordSize < zlen data -> Reserve wo data w = (Err (Msg "wal: payload too large"), w).
Proof. intros H. unfold Reserve. apply Z.ltb_lt in H. by rewrite H. Qed.

Lemma Reserve_write_fails e data w :
  payload_ok data -> Reserve (WFail 0 e) data w = (Err (Wrap "wal: write record" e), w).
Proof.
  unfold payload_ok. intros H. unfold Reserve. destruct (Z.ltb_spec MaxRecordSize (zlen data)); [lia|].
  cbn. destruct w as [[d sy] ? ? ? ? ? ? ? ? ? ?]. unfold set_file. cbn. by rewrite app_nil_r.
Qed.

(** After a failed fsync every commit reports the same error. *)
Lemma Commit_sticky io q w e : syncErr w = Some e -> Commit io q w = Some (Some e, w).
Proof. intros H. unfold Commit, commit_fuel. cbn [commitLocked]. unfold commit_check. by rewrite H. Qed.

(** A committed writer has its whole file fsynced. *)
Lemma wal_inv_all_synced b w log :
  wal_inv c b (length log - b) w log -> (b < length log)%nat ->
  f_synced (w_file w) = length (f_data (w_file w)).
Proof.
  intros Hw Hb. destruct (wi_sync _ _ _ _ _ Hw) as (j & Hj & Hsy).
  pose proof (wi_durable _ _ _ _ _ Hw) as Hd.
  replace (b + (length log - b))%nat with (length log) in Hd by lia.
  rewrite (wi_data _ _ _ _ _ Hw), Hsy in *. pose proof (rec_pos_bound c log j).
  rewrite rec_pos_all in Hd. lia.
Qed.
End Write.


Lemma ex_writer_inv : wal_inv NewCRC32C 0 0 ex_writer [].
Proof.
  destruct (open_log_new NewCRC32C 10) as (w & Hrun & Hw & _); [unfold is_u32; lia|reflexivity|].
  assert (Some (Ok ex_writer) = Some (Ok w)) as [= ->] by (rewrite <- Hrun; reflexivity). done.
Qed.

Lemma ex_data_fits : fits NewCRC32C (encode_log NewCRC32C [ex_data]).
Proof. vm_compute. reflexivity. Qed.


(** ** Reads *)

(** C15. [ReadAt] refines the abstract log: on the live file and index of a
    writer holding [log], whatever is committed or pending, it returns record
    [t] exactly when there is one and [io.EOF] otherwise, from whichever
    checkpoint the scan starts. *)
Theorem ReadAt_refines c (Hc : ChecksumOk c) b s w log o t
  (Hw : wal_inv c b s w log) (Ht : 0 <= t) :
  Wal_ReadAt no_fault (reader_at c o) (w_store w) (w_file w) t =
  Some (match log !! Z.to_nat t with Some x => Ok x | None => Err EOF end).
Proof. by apply (ReadAt_run c b s). Qed.

Lemma ReadAt_refines_witness :
  Wal_ReadAt no_fault (reader_at NewCRC32C 0) (w_store ex_writer) (w_file ex_writer) 0 = Some (Err EOF).
Proof.
  apply (ReadAt_refines NewCRC32C _ 0 0 ex_writer [] 0 0 ex_writer_inv). lia.
Defined.

(** Up to [n] calls of [Read]: the records returned, the first error if any,
    and the reader left behind. *)
Fixpoint read_n (n : nat) (r : WALReader) (st : InMemoryStore) (f : file)
    : option (list (list byte) * outcome * WALReader) :=
  match n with
  | O => Some ([], None, r)
  | S n' =>
      match Wal_Read no_fault r st f with
      | None => None
      | Some (Err e, _, r') => Some ([], Some e, r')
      | Some (Ok x, _, r') =>
          match read_n n' r' st f with
          | None => None
          | Some (xs, e, r'') => Some (x :: xs, e, r'')
          end
      end
  end.

Lemma read_n_run c {Hc : ChecksumOk c} b s w log n i :
  wal_inv c b s w log -> (i + n <= length log)%nat ->
  read_n n (reader_at c (Z.of_nat i)) (w_store w) (w_file w) =
  Some (take n (drop i log), None, reader_at c (Z.of_nat (i + n))).
Proof.
  intros Hw. revert i. induction n as [|n IH]; intros i Hi.
  { simpl. by rewrite Nat.add_0_r. }
  destruct (lookup_lt_is_Some_2 log i) as [x Hx]; [lia|].
  destruct (log_bounds c log i (wi_fits _ _ _ _ _ Hw)) as [Hu _]; [lia|].
  cbn [read_n]. unfold Wal_Read. cbn [r_offset reader_at].
  rewrite (ReadAt_run c b s w log) by (done || lia). rewrite Nat2Z.id, Hx.
  rewrite u64_small by done. cbn [r_csum r_headerSize].
  replace (Z.of_nat i + 1) with (Z.of_nat (S i)) by lia.
  unfold reader_at in IH |- *.
  rewrite IH by lia. rewrite (drop_S _ _ _ Hx). cbn [take].
  by replace (i + S n)%nat with (S i + n)%nat by lia.
Qed.

(** The cursor.  After [Seek(i)], repeated [Read]s return the records from
    [i] in order, without gaps or repetitions; at the head they report
    [io.EOF] and leave the cursor there, so the reader can go on when more
    records arrive. *)
Theorem cursor_reads_in_order c (Hc : ChecksumOk c) b s w log r i
  (Hw : wal_inv c b s w log) (Hi : (i <= length log)%nat) :
  read_n (length log - i) (Wal_Seek (Z.of_nat i) (reader_at c r)) (w_store w) (w_file w) =
    Some (drop i log, None, reader_at c (zlen log)) /\
  Wal_Read no_fault (reader_at c (zlen log)) (w_store w) (w_file w) =
    Some (Err EOF, zlen log, reader_at c (zlen log)).
Proof.
  split.
  - change (Wal_Seek (Z.of_nat i) (reader_at c r)) with (reader_at c (Z.of_nat i)).
    rewrite (read_n_run c b s w log) by (done || lia).
    rewrite take_ge by (rewrite length_drop; lia). unfold zlen.
    by replace (i + (length log - i))%nat with (length log) by lia.
  - unfold Wal_Read. cbn [r_offset reader_at]. pose proof (zlen_nonneg log).
    rewrite (ReadAt_run c b s w log) by done. rewrite to_nat_zlen.
    by rewrite lookup_ge_None_2.
Qed.

Lemma cursor_reads_in_order_witness :
  exists w, read_n 1 (Wal_Seek 0 (reader_at NewCRC32C 5)) (w_store w) (w_file w) =
    Some ([ex_data], None, reader_at NewCRC32C 1).
Proof.
  destruct (Reserve_inv NewCRC32C 0 0 ex_writer [] ex_data ex_writer_inv) as (w & _ & Hw & _);
    [vm_compute; discriminate | exact ex_data_fits |].
  exists w. apply (cursor_reads_in_order NewCRC32C _ 0 0 w [ex_data] 5 0 Hw). simpl. lia.
Defined.

(** ** Recovery and close *)

(** C14. Recovery.  A log file holding the records [log] and then any strict
    prefix of a further record, with any index file whose valid entries are
    positions of fsynced records, reopens without error: the torn tail is cut
    off, the head is the number of whole records, the invariant of the writer
    holds of exactly those records, and all of them can be read. *)
Theorem recovery_exact c (Hc : ChecksumOk c) nth disk idx log r
  (Hn : is_u32 nth) (Hdk : disk_ok c disk idx log) :
  exists w, open_log c nth (Some disk) (Some idx) = Some (Ok w) /\
    wal_inv c (length log) 0 w log /\
    f_data (w_file w) = encode_log c log /\ NextOffset w = zlen log /\
    forall i, (i <= length log)%nat ->
      Wal_ReadAt no_fault (reader_at c r) (w_store w) (w_file w) (Z.of_nat i) =
      Some (match log !! i with Some x => Ok x | None => Err EOF end).
Proof.
  destruct (open_log_run c nth disk idx log Hn Hdk) as (w & Hrun & Hw & _).
  exists w. split_and!; [done|done|apply Hw|apply Hw|].
  intros i Hi. rewrite (ReadAt_run c _ _ _ _ r _ Hw) by lia. by rewrite Nat2Z.id.
Qed.

(** A file with one whole record, three bytes of a second one, and an index
    torn after five bytes. *)
Lemma ex_disk_ok :
  disk_ok NewCRC32C (mkFile (encode_log NewCRC32C [ex_data] ++ take 3 (encode_record NewCRC32C ex_data)) 0)
    (mkFile (repeat (byte.of_Z 0) 5) 0) [ex_data].
Proof.
  split; cbn [f_data f_synced].
  - exists (take 3 (encode_record NewCRC32C ex_data)). split; [|done].
    exists ex_data, 3%nat. split_and!; [vm_compute; discriminate|vm_compute; lia|done].
  - by repeat constructor.
  - vm_compute. reflexivity.
  - exists 0%nat. split; [lia|done].
  - intros e. change (valid_entries (repeat (byte.of_Z 0) 5)) with (@nil (Z * Z)).
    by intros ?%not_elem_of_nil.
Qed.

Lemma recovery_exact_witness :
  exists w, open_log NewCRC32C 10
      (Some (mkFile (encode_log NewCRC32C [ex_data] ++ take 3 (encode_record NewCRC32C ex_data)) 0))
      (Some (mkFile (repeat (byte.of_Z 0) 5) 0)) = Some (Ok w) /\
    NextOffset w = 1 /\
    Wal_ReadAt no_fault (reader_at NewCRC32C 0) (w_store w) (w_file w) 0 = Some (Ok ex_data).
Proof.
  destruct (recovery_exact NewCRC32C _ 10 _ _ [ex_data] 0 ltac:(unfold is_u32; lia) ex_disk_ok)
    as (w & Hrun & _ & _ & Hn & Hrd).
  exists w. split; [exact Hrun|]. split; [exact Hn|]. apply (Hrd 0%nat). simpl. lia.
Defined.

(** The loop of [Close] is the drain loop with nothing left behind. *)
Lemma checkpoint_pending_drain cpo m target ps st :
  Forall (fun p => cp_seq p <= target) ps ->
  drain_loop cpo m target ps st = ([], checkpoint_pending cpo m ps st).
Proof.
  intros H. revert m st. induction H as [|p ps Hp _ IH]; intros m st; [done|].
  cbn [drain_loop checkpoint_pending]. apply Z.leb_le in Hp. rewrite Hp. apply IH.
Qed.

Lemma Close_run c {Hc : ChecksumOk c} b s w log io :
  wal_inv c b s w log -> syncing w = false -> syncErr w = None -> sy_sync io = None ->
  (forall x, clean_write (sy_cp io x)) -> (b < length log)%nat ->
  exists w', Wal_Close io None w = (None, w') /\ wal_inv c b (length log - b) w' log.
Proof.
  intros Hw Hs He Hio Hcp Hb. unfold Wal_Close. rewrite He, Hio, andb_true_r.
  pose proof (wi_bs _ _ _ _ _ Hw).
  rewrite (wi_synced _ _ _ _ _ Hw), (wi_write _ _ _ _ _ Hw).
  destruct (Z.ltb_spec (Z.of_nat s) (Z.of_nat (length log - b))).
  2:{ exists w. split; [done|]. by replace (length log - b)%nat with s by lia. }
  destruct (end_sync_inv c b s (length log - b) (length log) w log (sy_cp io))
    as (w' & Hrun & Hw' & _); [done|lia..|done|].
  unfold end_sync in Hrun. cbn [set_syncing set_file w_file syncedSeq] in Hrun.
  rewrite (wi_synced _ _ _ _ _ Hw) in Hrun.
  destruct (Z.ltb_spec (Z.of_nat s) (Z.of_nat (length log - b))) in Hrun; [|lia].
  cbn [set_syncedSeq set_file set_syncing pending w_store] in Hrun.
  rewrite checkpoint_pending_drain in Hrun.
  2:{ rewrite (wi_pending _ _ _ _ _ Hw). apply Forall_fmap, Forall_forall.
      intros i Hi%elem_of_seq. cbn. lia. }
  injection Hrun as <-. eexists. split; [done|].
  rewrite (wi_data _ _ _ _ _ Hw), <- (rec_pos_all c log).
  destruct Hw'. split; cbn in *; try done.
Qed.

(** Clean shutdown loses nothing, acknowledged or not: after [Close] of a
    writer with reserved but uncommitted records, even if the machine then
    crashes, reopening finds every record. *)
Theorem close_loses_nothing c (Hc : ChecksumOk c) nth b s w log io disk idx
  (Hn : is_u32 nth) (Hw : wal_inv c b s w log) (Hs : syncing w = false) (He : syncErr w = None)
  (Hio : sy_sync io = None) (Hcp : forall x, clean_write (sy_cp io x)) (Hb : (b < length log)%nat) :
  exists w', Wal_Close io None w = (None, w') /\
    (crash_file (w_file w') disk -> crash_file (indexFile (w_store w')) idx ->
     exists w2, open_log c nth (Some disk) (Some idx) = Some (Ok w2) /\
       NextOffset w2 = zlen log /\ f_data (w_file w2) = encode_log c log).
Proof.
  destruct (Close_run c b s w log io) as (w' & Hrun & Hw'); [done..|].
  exists w'. split; [done|]. intros Hd Hi.
  destruct (crash_disk_ok c _ _ _ _ _ _ Hw' Hd Hi) as (i & Hil & Hdk & Hmax).
  assert (length log <= i)%nat.
  { apply Hmax; [done|]. rewrite (wal_inv_all_synced c b w' log) by done.
    by rewrite (wi_data _ _ _ _ _ Hw'), rec_pos_all. }
  rewrite take_ge in Hdk by lia.
  destruct (open_log_run c nth _ _ _ Hn Hdk) as (w2 & Hrun2 & Hw2 & _).
  exists w2. split_and!; [done|apply Hw2|apply Hw2].
Qed.

Lemma close_loses_nothing_witness :
  exists w', Wal_Close sync_io_ok None ex_reserved = (None, w').
Proof.
  destruct (Reserve_inv NewCRC32C 0 0 ex_writer [] ex_data ex_writer_inv) as (w & Hr & Hw & Hs & He);
    [vm_compute; discriminate | exact ex_data_fits |].
  assert (ex_reserved = w) as -> by (unfold ex_reserved; rewrite Hr; reflexivity).
  destruct (close_loses_nothing NewCRC32C _ 10 0 0 w [ex_data] sync_io_ok empty_file empty_file)
    as (w' & Hrun & _);
    [unfold is_u32; lia | exact Hw | rewrite Hs; reflexivity | rewrite He; reflexivity | reflexivity
    | intros; exact I | simpl; lia | exists w'; exact Hrun].
Defined.

(** ** Termination on arbitrary bytes *)

(** A successful read lies within the file. *)
Lemma f_read_at_inside f n pos bs :
  f_read_at f n pos = Ok bs -> (0 < n)%nat -> 0 <= pos /\ pos + Z.of_nat n <= f_size f.
Proof.
  unfold f_read_at. intros H Hn. destruct (Z.ltb_spec pos 0); [done|].
  destruct (Nat.eqb_spec n 0); [lia|].
  destruct (Z.leb_spec (pos + Z.of_nat n) (f_size f)); [lia|done].
Qed.

Lemma recover_loop_total fuel io hs f off pos :
  4 <= hs -> f_size f + hs + MaxRecordSize < 2 ^ 63 -> (0 < fuel)%nat ->
  (0 <= pos -> f_size f - pos < Z.of_nat fuel) ->
  recover_loop fuel io hs (f_size f) f off pos <> None.
Proof.
  intros Hhs Hsz. revert off pos. induction fuel as [|fuel IH]; intros off pos Hf Hm; [lia|].
  cbn [recover_loop]. case_if; [done|]. case_if; [by destruct (ri_trunc io)|].
  destruct (ri_read io pos); [done|].
  destruct (f_read_at f (Z.to_nat LengthSize) pos) as [bs|e] eqn:Hrd; [|done].
  apply f_read_at_inside in Hrd as [Hp0 Hp1]; [|unfold LengthSize; lia].
  case_if; [done|]. pose proof (Uint32_range bs) as Hu. unfold is_u32 in Hu.
  unfold LengthSize, MaxRecordSize in *. bprop.
  rewrite i64_small by (unfold is_i64; lia).
  case_if; [by destruct (ri_trunc io)|]. bprop. apply IH; lia.
Qed.

Lemma read_loop_total fuel rd r f t cur pos :
  4 <= r_headerSize r -> f_size f + r_headerSize r + MaxRecordSize < 2 ^ 63 -> (0 < fuel)%nat ->
  (0 <= pos -> f_size f - pos < Z.of_nat fuel) ->
  read_loop fuel rd r f t cur pos <> None.
Proof.
  intros Hhs Hsz. revert cur pos. induction fuel as [|fuel IH]; intros cur pos Hf Hm; [lia|].
  cbn [read_loop]. unfold read_iter. destruct (rd pos) as [e|]; [by destruct e|].
  destruct (f_read_at f (Z.to_nat (r_headerSize r)) pos) as [bs|e] eqn:Hrd; [|by destruct e].
  apply f_read_at_inside in Hrd as [Hp0 Hp1]; [|lia].
  case_if; [done|]. case_if.
  - destruct (rd _); [done|]. destruct (f_read_at f (Z.to_nat (Uint32 bs)) _); [|done].
    by destruct (decide _).
  - pose proof (Uint32_range bs) as Hu. unfold is_u32 in Hu. unfold MaxRecordSize in *. bprop.
    rewrite i64_small by (unfold is_i64; lia). apply IH; lia.
Qed.

(** C35. Both scans terminate on every input: opening a log and reading an
    offset return a value or an error for any bytes in the log file and any
    index, whatever the outcomes of the system calls (one round per byte of
    the file, the fuel of the definitions, is enough). *)
Theorem scans_terminate c (Hc : ChecksumOk c) f st
  (Hf : fits c (f_data f)) :
  (forall oio rio, NewWalWriter oio rio (Some f) st c <> None) /\
  (forall rd r t, Wal_ReadAt rd (reader_at c r) st f t <> None).
Proof.
  unfold fits in Hf. change (zlen (f_data f)) with (f_size f) in Hf.
  assert (4 <= Z.of_nat (hdr c)) by (unfold hdr; lia).
  assert (forall pos, 0 <= pos -> f_size f - pos < Z.of_nat (S (length (f_data f)))) as Hfuel
    by (intros; unfold f_size, zlen; lia).
  split.
  - intros oio rio. unfold NewWalWriter. destruct (oi_open oio); [done|].
    cbn [default]. unfold recover. cbn [w_store w_file w_headerSize set_store].
    destruct (LoadCheckpoints (ri_load rio) st) as [[e|] st']; [done|].
    destruct (ri_stat rio); [done|].
    destruct (recover_start st' _ _) as [off pos].
    pose proof (recover_loop_total (recover_fuel f) rio (LengthSize + Size_ c) f off pos) as Ht.
    unfold recover_fuel, id in *. rewrite (hdr_Z c) in *.
    destruct (recover_loop _ rio _ _ f off pos) as [[[[o p]|e] f']|]; [done|done|].
    exfalso. apply Ht; try done; try lia. apply Hfuel.
  - intros rd r t. unfold Wal_ReadAt. destruct (read_start t st) as [o p].
    apply read_loop_total; cbn [reader_at r_headerSize];
      [done|done|unfold read_fuel; lia|apply Hfuel].
Qed.

Lemma scans_terminate_witness :
  let f := mkFile (repeat (byte.of_Z 0) 20) 0 in
  (forall oio rio, NewWalWriter oio rio (Some f) example_store NewCRC32C <> None) /\
  (forall rd r t, Wal_ReadAt rd (reader_at NewCRC32C r) example_store f t <> None).
Proof.
  apply (scans_terminate NewCRC32C _ (mkFile (repeat (byte.of_Z 0) 20) 0) example_store).
  vm_compute. reflexivity.
Defined.

(** ** Damaged records *)

Section Damage.
Context (c : Checksum) {Hc : ChecksumOk c}.

(** The scan reaches the boundary behind the records it walks over. *)
Lemma read_loop_skip fuel f log o i :
  holds_log c f log -> (i <= length log)%nat ->
  (length (f_data f) - rec_pos c log i < fuel)%nat ->
  exists fuel', read_loop fuel no_fault (reader_at c o) f (zlen log) (Z.of_nat i)
      (Z.of_nat (rec_pos c log i)) =
    read_loop (S fuel') no_fault (reader_at c o) f (zlen log) (zlen log) (zlen (encode_log c log)).
Proof.
  intros Hf. remember (length log - i)%nat as m eqn:Hm.
  revert fuel i Hm. induction m as [|m IH]; intros fuel i Hm Hi Hfuel.
  all: destruct fuel as [|fuel]; [lia|].
  - assert (i = length log) as -> by lia. exists fuel. by rewrite rec_pos_all.
  - destruct (lookup_lt_is_Some_2 log i) as [x Hx]; [lia|].
    rewrite (read_loop_step c fuel f log o i x) by done.
    destruct (Z.eqb_spec (Z.of_nat i) (zlen log)); [unfold zlen in *; lia|].
    pose proof (scan_arith c f log i x Hf Hx) as (_ & _ & _ & ?).
    apply IH; [lia|lia|]. rewrite (rec_pos_S _ _ _ _ Hx) in *. unfold hdr in *. lia.
Qed.

(** One round at a frame [length ‖ sum ‖ x] whose sum need not match. *)
Lemma read_loop_frame fuel f pre sum x post o t :
  f_data f = pre ++ PutUint32 (zlen x) ++ sum ++ x ++ post -> fits c (f_data f) ->
  payload_ok x -> zlen sum = Size_ c ->
  read_loop (S fuel) no_fault (reader_at c o) f t t (zlen pre) =
  Some (if decide (Compute_ c [PutUint32 (zlen x); x] = sum) then Ok x
        else Err (CorruptionError (zlen pre) sum (Compute_ c [PutUint32 (zlen x); x])
                    "checksum mismatch")).
Proof.
  intros Hd Hf Hx Hsum. set (h := PutUint32 (zlen x) ++ sum).
  assert (length h = hdr c) as Hh.
  { unfold h, hdr. rewrite length_app, length_PutUint32. unfold zlen in Hsum. lia. }
  assert (f_data f = pre ++ h ++ x ++ post) as Hd' by (unfold h; by rewrite Hd, <- !app_assoc).
  assert (f_size f = zlen pre + Z.of_nat (hdr c) + zlen x + zlen post) as Hsz.
  { unfold f_size. rewrite Hd', !zlen_app. unfold zlen in *. lia. }
  unfold fits, payload_ok, MaxRecordSize in *. change (zlen (f_data f)) with (f_size f) in Hf.
  pose proof (zlen_nonneg pre). pose proof (zlen_nonneg x). pose proof (zlen_nonneg post).
  assert (is_u32 (zlen x)) as Hu by (unfold is_u32; lia).
  cbn [read_loop]. unfold read_iter. cbn [no_fault reader_at r_headerSize r_csum]. rewrite Nat2Z.id.
  rewrite f_read_at_ok by lia. rewrite to_nat_zlen, Hd', slice_app_r, take_app_length' by done.
  assert (Uint32 h = zlen x) as -> by (unfold h; by rewrite Uint32_Put).
  unfold MaxRecordSize. destruct (Z.ltb_spec (64 * 1024 * 1024) (zlen x)); [lia|].
  rewrite Z.eqb_refl, i64_small, to_nat_zlen by (unfold is_i64; lia).
  rewrite f_read_at_ok by (unfold zlen in *; lia).
  assert (slice (Z.to_nat (zlen pre + Z.of_nat (hdr c))) (length x) (f_data f) = x) as ->.
  { rewrite Hd', app_assoc. rewrite slice_app_r, take_app_length; [done|].
    rewrite length_app, Hh. unfold zlen. lia. }
  change (Z.to_nat LengthSize) with 4%nat. unfold h.
  rewrite take_app_length', drop_app_length' by by rewrite length_PutUint32.
  by destruct (decide _).
Qed.

(** Reading the record behind [log] in a file whose index refers to [log] only. *)
Lemma ReadAt_frame f st log sum x post o :
  Forall payload_ok log -> store_inv c log (length log) st ->
  f_data f = encode_log c log ++ PutUint32 (zlen x) ++ sum ++ x ++ post -> fits c (f_data f) ->
  payload_ok x -> zlen sum = Size_ c ->
  Wal_ReadAt no_fault (reader_at c o) st f (zlen log) =
  Some (if decide (Compute_ c [PutUint32 (zlen x); x] = sum) then Ok x
        else Err (CorruptionError (zlen (encode_log c log)) sum (Compute_ c [PutUint32 (zlen x); x])
                    "checksum mismatch")).
Proof.
  intros Hok [Hwf Hpos] Hd Hf Hx Hsum.
  assert (holds_log c f log) as Hl by (split; [done|split; [done|by eexists]]).
  unfold Wal_ReadAt.
  destruct (read_start_boundary c log (length log) st (zlen log)) as (i & Hi & _ & ->);
    [by split|apply zlen_nonneg|].
  destruct (read_loop_skip (read_fuel f) f log o i Hl Hi) as [fuel' ->]; [unfold read_fuel; lia|].
  by apply (read_loop_frame _ _ _ _ _ post).
Qed.
End Damage.



(** ** Two defects *)

(** A [Write] that fails after three bytes reached the file leaves those bytes
    in front of the next record while [size] and [nextOffset] do not move. *)
Definition ex_torn_writer : option WALWriter :=
  match Write_ (WFail 3 (Errno 28)) sync_io_ok ex_data ex_writer with
  | Some (_, w) => Some w
  | None => None
  end.

(** Defect: a write that fails half way loses later acknowledged records.
    Its bytes stay in the file, the next [Write] succeeds and is acknowledged
    with offset 0 and an fsync, and yet reading offset 0 does not return its
    payload. *)
Theorem partial_write_hides_acked :
  match ex_torn_writer with
  | Some w =>
      match Write_ WOk sync_io_ok ex_data w with
      | Some (Ok off, w') =>
          off = 0 /\ f_synced (w_file w') = length (f_data (w_file w')) /\
          Wal_ReadAt no_fault (reader_at NewCRC32C 0) (w_store w') (w_file w') 0 <> Some (Ok ex_data)
      | _ => False
      end
  | None => False
  end.
Proof. vm_compute. split; [reflexivity|]. split; [reflexivity|discriminate]. Qed.

(** Three records, and the file after the length field of the first was
    changed from 1 to 10, so that the frame covers the second record too. *)
Definition ex_rec (n : Z) : list byte := [byte.of_Z n].
Definition ex_bad_length : file :=
  mkFile (PutUint32 10 ++ drop 4 (encode_log NewCRC32C [ex_rec 1; ex_rec 2; ex_rec 3])) 0.

(** Defect: damage to the length field of a record that a read only skips
    is not noticed.  Reading offset 1 of this file returns the payload of
    record 2, with a valid checksum and no error. *)
Theorem skipped_damage_returns_wrong_record :
  Wal_ReadAt no_fault (reader_at NewCRC32C 0) (w_store ex_writer) ex_bad_length 1 = Some (Ok (ex_rec 3)) /\
  f_data ex_bad_length <> encode_log NewCRC32C [ex_rec 1; ex_rec 2; ex_rec 3] /\
  drop 4 (f_data ex_bad_length) = drop 4 (encode_log NewCRC32C [ex_rec 1; ex_rec 2; ex_rec 3]).
Proof. vm_compute. split; [reflexivity|]. split; [discriminate|reflexivity]. Qed.
