(* ===== verification/Segment.v ===== *)
(** * Segment: one segment file of the log ([internal/segment/segment.go])

    A [Segment] is a WAL writer, a reader on the same file and index, and the
    global offset of its first record.  Global offset [o] is local record
    [o - baseOffset].  The files of the log directory are a [dir]: opening a
    segment takes its two files out of it (they live in the segment from then
    on), closing puts them back. *)

From Stdlib Require Import ZArith Lia Strings.String Strings.Ascii.
From stdpp Require Import base list list_numbers numbers option gmap sorting strings.
From coqutil Require Import Byte.
From S2P Require Import Prelude Bytes Golib Index Checksum Wal WalFormat WalInv.

Local Open Scope Z_scope.

(** ** File names *)

Definition segmentSuffix : list ascii := list_ascii_of_string ".log".
Definition indexSuffix : list ascii := list_ascii_of_string ".index".
Definition baseOffsetDigits : nat := 20.

Definition digit_ascii (d : Z) : ascii := ascii_of_nat (48 + Z.to_nat d).

(** [%0*d] with width [n]: exactly [n] digits for every value below [10^n]. *)
Fixpoint format_digits (n : nat) (v : Z) : list ascii :=
  match n with
  | O => []
  | S n' => format_digits n' (v / 10) ++ [digit_ascii (v mod 10)]
  end.

(** [SegmentFileName]; names are lists of characters. *)
Definition SegmentFileName (baseOffset : Z) : list ascii :=
  format_digits baseOffsetDigits baseOffset ++ segmentSuffix.

(** [strings.HasSuffix], [strings.TrimSuffix] *)
Definition HasSuffix (s suffix : list ascii) : bool :=
  bool_decide (suffix `suffix_of` s).
Definition TrimSuffix (s suffix : list ascii) : list ascii :=
  if HasSuffix s suffix then take (length s - length suffix) s else s.

(** [indexFileName] *)
Definition indexFileName (logPath : list ascii) : list ascii :=
  TrimSuffix logPath segmentSuffix ++ indexSuffix.

(** ** The directory *)

Record dir := mkDir {
  d_files : gmap (list ascii) file;
  d_dirs : list (list ascii)
}.

Definition take_file (n : list ascii) (d : dir) : dir := mkDir (delete n (d_files d)) (d_dirs d).
Definition put_file (n : list ascii) (f : file) (d : dir) : dir :=
  mkDir (<[n := f]> (d_files d)) (d_dirs d).

(** ** Segments *)

Record Segment := mkSegment {
  baseOffset : Z;
  s_writer : WALWriter;
  s_reader : WALReader;
  s_path : list ascii;
  lastAppend : Z
}.

(** Outcomes of the system calls of [NewSegment]; [sg_stat] is the modification
    time if [os.Stat] succeeds. *)
Record segment_io := mkSegIo {
  sg_store : open_io;
  sg_wal : open_io;
  sg_recover : recover_io;
  sg_reader : outcome;
  sg_now : Z;
  sg_stat : option Z
}.

(** [NewSegment]: the segment and the directory without its files.  After an
    error the directory is as before: what a failed attempt may leave there (an
    empty file it created, an index without its invalid tail) opens later to
    the same result.  [None] is out of fuel in recovery. *)
Definition NewSegment (io : segment_io) (base : Z) (csum : Checksum) (d : dir)
    : option (result Segment * dir) :=
  let path := SegmentFileName base in
  let idxPath := indexFileName path in
  match NewInMemoryStore (sg_store io) (d_files d !! idxPath) NthIndex with
  | Err e => Some (Err e, d)
  | Ok store =>
      match NewWalWriter (sg_wal io) (sg_recover io) (d_files d !! path) store csum with
      | None => None
      | Some (Err e) => Some (Err e, d)
      | Some (Ok writer) =>
          match NewWALReader (sg_reader io) csum with
          | Err e => Some (Err e, d)
          | Ok reader =>
              let now := default (sg_now io) (sg_stat io) in
              Some (Ok (mkSegment base writer reader path now), take_file path (take_file idxPath d))
          end
      end
  end.

(** [BaseOffset], [NextOffset], [Count], [Size], [Contains] *)
Definition BaseOffset (s : Segment) : Z := baseOffset s.
Definition Seg_NextOffset (s : Segment) : Z := u64 (baseOffset s + NextOffset (s_writer s)).
Definition Count (s : Segment) : Z := NextOffset (s_writer s).
Definition Seg_Size (s : Segment) : Z := Size (s_writer s).
Definition Contains (s : Segment) (globalOffset : Z) : bool :=
  (baseOffset s <=? globalOffset) && (globalOffset <? Seg_NextOffset s).

Definition set_writer (w : WALWriter) (s : Segment) : Segment :=
  mkSegment (baseOffset s) w (s_reader s) (s_path s) (lastAppend s).

(** [reserve] *)
Definition reserve (wo : write_outcome) (data : list byte) (now : Z) (s : Segment)
    : result (Z * Z) * Segment :=
  match Reserve wo data (s_writer s) with
  | (Err e, w) => (Err e, set_writer w s)
  | (Ok (localOffset, seq), w) =>
      (Ok (localOffset, seq), mkSegment (baseOffset s) w (s_reader s) (s_path s) now)
  end.

(** [commit] *)
Definition commit (io : sync_io) (seq : Z) (s : Segment) : option (outcome * Segment) :=
  match Commit io seq (s_writer s) with
  | None => None
  | Some (err, w) => Some (err, set_writer w s)
  end.

(** [Append] *)
Definition Seg_Append (wo : write_outcome) (io : sync_io) (data : list byte) (now : Z) (s : Segment)
    : option (result Z * Segment) :=
  match reserve wo data now s with
  | (Err e, s1) => Some (Err e, s1)
  | (Ok (localSlot, seq), s1) =>
      match commit io seq s1 with
      | None => None
      | Some (Some e, s2) => Some (Err e, s2)
      | Some (None, s2) => Some (Ok (u64 (baseOffset s + localSlot)), s2)
      end
  end.

(** [LastAppend], [Path], [IndexPath] *)
Definition LastAppend (s : Segment) : Z := lastAppend s.
Definition Path (s : Segment) : list ascii := s_path s.
Definition IndexPath (s : Segment) : list ascii := indexFileName (s_path s).

(** [ReadAt] *)
Definition Seg_ReadAt (rd : Z -> outcome) (globalOffset : Z) (s : Segment)
    : option (result (list byte)) :=
  if globalOffset <? baseOffset s then Some (Err (Msg "segment: offset below base"))
  else
    let localSlot := u64 (globalOffset - baseOffset s) in
    Wal_ReadAt rd (s_reader s) (w_store (s_writer s)) (w_file (s_writer s)) localSlot.

(** Outcomes of [Close]: reader, writer (with its flush), store. *)
Record close_io := mkCloseIo {
  cl_reader : outcome;
  cl_sync : sync_io;
  cl_writer : outcome;
  cl_store : outcome
}.

(** [Close]: everything is closed; the writer's error comes first. *)
Definition Seg_Close (io : close_io) (s : Segment) : outcome * Segment :=
  let rerr := cl_reader io in
  let '(werr, w) := Wal_Close (cl_sync io) (cl_writer io) (s_writer s) in
  let serr := Index_Close (cl_store io) (w_store w) in
  let s' := set_writer w s in
  (match werr with
   | Some _ => werr
   | None => match rerr with Some _ => rerr | None => serr end
   end, s').
