(* ===== verification/Manager.v ===== *)
(** * Manager: the segmented log ([internal/segment/manager.go], [reader.go])

    [Manager] keeps the open segments in base-offset order and the rest of the
    log directory.  [Append] is split, as in the code, into the part under the
    manager's lock ([append_reserve]: roll if the active segment is full, then
    reserve) and the commit outside it.  The results refine an abstract log:
    a list of payloads and the global offset of the first. *)

From Stdlib Require Import ZArith Lia Strings.String Strings.Ascii.
From stdpp Require Import base list list_numbers numbers option gmap sorting strings.
From coqutil Require Import Byte.
From S2P Require Import Prelude Bytes Golib Index Checksum Wal WalFormat WalInv Segment.

Local Open Scope Z_scope.

(** ** Configuration *)

Definition DefaultMaxSegmentBytes : Z := 2 ^ 30.
Definition Hour : Z := 3600 * 1000000000.
Definition DefaultRetention : Z := 7 * 24 * Hour.
Definition DefaultCheckInterval : Z := 60 * 1000000000.

(** Times and durations are nanoseconds.  A [None] checksum is the nil one. *)
Record Config := mkConfig {
  MaxSegmentBytes : Z;
  Retention : Z;
  CheckInterval : Z;
  MaxDeletesPerRun : Z;
  DisableRetention : bool;
  cfg_Checksum : option Checksum
}.

Record RetentionMetrics := mkMetrics {
  SegmentsDeleted : Z;
  BytesReclaimed : Z;
  DeleteErrors : Z;
  Runs : Z;
  LastRunUnixNano : Z
}.

Record Manager := mkManager {
  m_cfg : Config;
  m_csum : Checksum;
  segments : list Segment;
  Metrics : RetentionMetrics;
  m_dir : dir
}.

Definition set_segments (ss : list Segment) (m : Manager) : Manager :=
  mkManager (m_cfg m) (m_csum m) ss (Metrics m) (m_dir m).
Definition set_dir (d : dir) (m : Manager) : Manager :=
  mkManager (m_cfg m) (m_csum m) (segments m) (Metrics m) d.
Definition set_metrics (x : RetentionMetrics) (m : Manager) : Manager :=
  mkManager (m_cfg m) (m_csum m) (segments m) x (m_dir m).

(** ** Discovery *)

(** The value of a decimal digit. *)
Definition digit_value (a : ascii) : option Z :=
  let n := Z.of_nat (nat_of_ascii a) in
  if (48 <=? n) && (n <=? 57) then Some (n - 48) else None.

(** [strconv.ParseUint(s, 10, 64)]: [None] for a syntax or a range error. *)
Fixpoint parse_digits (s : list ascii) (n : Z) : option Z :=
  match s with
  | [] => Some n
  | a :: s' =>
      match digit_value a with
      | None => None
      | Some d =>
          if MaxUint64 / 10 + 1 <=? n then None
          else if MaxUint64 <? n * 10 + d then None
          else parse_digits s' (n * 10 + d)
      end
  end.
Definition ParseUint (s : list ascii) : option Z :=
  match s with [] => None | _ => parse_digits s 0 end.

(** One directory entry: the base offset it contributes, if any. *)
Definition entry_base (e : list ascii * bool) : option Z :=
  let '(name, isDir) := e in
  if isDir || negb (HasSuffix name segmentSuffix) then None
  else ParseUint (TrimSuffix name segmentSuffix).

(** [discoverBaseOffsets] on the entries [os.ReadDir] lists. *)
Definition discoverBaseOffsets (readdir : outcome) (entries : list (list ascii * bool))
    : result (list Z) :=
  match readdir with
  | Some e => Err (Wrap "segment: read dir" e)
  | None => Ok (merge_sort Z.le (omap entry_base entries))
  end.

Definition dir_entries (d : dir) : list (list ascii * bool) :=
  ((fun n => (n, false)) <$> (map_to_list (d_files d)).*1) ++ ((fun n => (n, true)) <$> d_dirs d).

(** ** Open *)

(** The effective configuration. *)
Definition default_cfg (cfg : Config) : Config :=
  mkConfig (if MaxSegmentBytes cfg <=? 0 then DefaultMaxSegmentBytes else MaxSegmentBytes cfg)
    (if Retention cfg <=? 0 then DefaultRetention else Retention cfg)
    (if CheckInterval cfg <=? 0 then DefaultCheckInterval else CheckInterval cfg)
    (MaxDeletesPerRun cfg) (DisableRetention cfg) (cfg_Checksum cfg).

(** The loop of [Open] over the bases found; [io base] are the outcomes of
    opening that segment. *)
Fixpoint open_segments (io : Z -> segment_io) (csum : Checksum) (bases : list Z)
    (acc : list Segment) (d : dir) : option (result (list Segment) * dir) :=
  match bases with
  | [] => Some (Ok acc, d)
  | base :: bases' =>
      match NewSegment (io base) base csum d with
      | None => None
      | Some (Err e, d') => Some (Err e, d')
      | Some (Ok seg, d') => open_segments io csum bases' (acc ++ [seg]) d'
      end
  end.

(** [Open] of a log in directory [d] (the retention goroutine it starts is a
    caller of [RunRetention]). *)
Definition Open (mkdir readdir : outcome) (io : Z -> segment_io) (cfg : Config) (d : dir)
    : option (result Manager) :=
  let cfg := default_cfg cfg in
  let csum := default NewCRC32C (cfg_Checksum cfg) in
  match mkdir with
  | Some e => Some (Err (Wrap "segment: mkdir" e))
  | None =>
      match discoverBaseOffsets readdir (dir_entries d) with
      | Err e => Some (Err e)
      | Ok bases =>
          let bases := match bases with [] => [0] | _ => bases end in
          match open_segments io csum bases [] d with
          | None => None
          | Some (Err e, _) => Some (Err e)
          | Some (Ok segs, d') => Some (Ok (mkManager cfg csum segs (mkMetrics 0 0 0 0 0) d'))
          end
      end
  end.

(** ** Append *)

(** [active]: the last segment; the slice is never empty. *)
Definition active (m : Manager) : option Segment := last (segments m).

Definition update_last (s : Segment) (ss : list Segment) : list Segment :=
  take (length ss - 1) ss ++ [s].

(** [roll] *)
Definition roll (io : segment_io) (m : Manager) : option (outcome * Manager) :=
  match active m with
  | None => None
  | Some a =>
      let nextBase := Seg_NextOffset a in
      match NewSegment io nextBase (m_csum m) (m_dir m) with
      | None => None
      | Some (Err e, d) => Some (Some (Wrap "segment: roll to base" e), set_dir d m)
      | Some (Ok seg, d) => Some (None, set_dir d (set_segments (segments m ++ [seg]) m))
      end
  end.

(** Phase 1 of [Append], under the manager's lock: [(base, localOffset, seq)]. *)
Definition append_reserve (io : segment_io) (wo : write_outcome) (data : list byte) (now : Z)
    (m : Manager) : option (result (Z * Z * Z) * Manager) :=
  match active m with
  | None => None
  | Some a =>
      match (if MaxSegmentBytes (m_cfg m) <=? Seg_Size a then roll io m else Some (None, m)) with
      | None => None
      | Some (Some e, m1) => Some (Err e, m1)
      | Some (None, m1) =>
          match active m1 with
          | None => None
          | Some seg =>
              match reserve wo data now seg with
              | (Err e, seg') => Some (Err e, set_segments (update_last seg' (segments m1)) m1)
              | (Ok (localOffset, seq), seg') =>
                  Some (Ok (BaseOffset seg, localOffset, seq),
                        set_segments (update_last seg' (segments m1)) m1)
              end
          end
      end
  end.

(** Phase 2: commit in the segment reserved in, the [i]-th. *)
Definition append_commit (io : sync_io) (i : nat) (seq : Z) (m : Manager)
    : option (outcome * Manager) :=
  match segments m !! i with
  | None => None
  | Some seg =>
      match commit io seq seg with
      | None => None
      | Some (err, seg') => Some (err, set_segments (<[i := seg']> (segments m)) m)
      end
  end.

(** [Append] with nothing running between its phases. *)
Definition Mgr_Append (io : segment_io) (wo : write_outcome) (sio : sync_io) (data : list byte)
    (now : Z) (m : Manager) : option (result Z * Manager) :=
  match append_reserve io wo data now m with
  | None => None
  | Some (Err e, m1) => Some (Err e, m1)
  | Some (Ok (base, localOffset, seq), m1) =>
      match append_commit sio (length (segments m1) - 1) seq m1 with
      | None => None
      | Some (Some e, m2) => Some (Err e, m2)
      | Some (None, m2) => Some (Ok (u64 (base + localOffset)), m2)
      end
  end.

(** ** Reads *)

(** [segmentFor]: the position of the owning segment. *)
Definition segmentFor (offset : Z) (m : Manager) : option Segment :=
  let ss := segments m in
  let i := Search (length ss)
             (fun i => match ss !! i with Some s => offset <? BaseOffset s | None => true end) in
  match i with
  | O => None
  | S i' =>
      match ss !! i' with
      | None => None
      | Some seg => if Contains seg offset then Some seg else None
      end
  end.

(** [EarliestOffset], [NextOffset], [SegmentCount]; a manager always has a
    segment, so the defaults are never used. *)
Definition EarliestOffset (m : Manager) : Z :=
  match segments m with s :: _ => BaseOffset s | [] => 0 end.
Definition Mgr_NextOffset (m : Manager) : Z :=
  match active m with Some s => Seg_NextOffset s | None => 0 end.
Definition SegmentCount (m : Manager) : nat := length (segments m).

(** The part of [ReadAt] under the read lock and the test behind it: the owning
    segment, with a read reference, or the error that is returned. *)
Definition read_pick (offset : Z) (m : Manager) : result Segment :=
  match segmentFor offset m with
  | None =>
      if offset <? EarliestOffset m then
        Err (OffsetOutOfRetentionError offset (EarliestOffset m))
      else Err EOF
  | Some seg => Ok seg
  end.

(** [ReadAt] *)
Definition Mgr_ReadAt (rd : Z -> outcome) (offset : Z) (m : Manager) : option (result (list byte)) :=
  match read_pick offset m with
  | Err e => Some (Err e)
  | Ok seg => Seg_ReadAt rd offset seg
  end.

(** ** Retention *)

(** Phase A of [RunRetention]: how many leading segments are detached.  [k]
    segments may still be looked at (all but the active one), [n] are chosen. *)
Fixpoint victims (k : nat) (cutoff limit : Z) (n : nat) (ss : list Segment) : nat :=
  match k, ss with
  | S k', seg :: ss' =>
      if cutoff <? LastAppend seg then n
      else if (0 <? limit) && (limit <=? Z.of_nat n) then n
      else victims k' cutoff limit (S n) ss'
  | _, _ => n
  end.

(** Outcomes of deleting one segment; [del_index] is [None] also when the index
    file did not exist. *)
Record delete_io := mkDelIo { del_close : close_io; del_log : outcome; del_index : outcome }.

(** Phase B: close and remove one detached segment. *)
Definition delete_segment (io : delete_io) (seg : Segment) (x : RetentionMetrics) (d : dir)
    : RetentionMetrics * dir :=
  let failed := mkMetrics (SegmentsDeleted x) (BytesReclaimed x) (DeleteErrors x + 1) (Runs x)
                  (LastRunUnixNano x) in
  let size := Seg_Size seg in
  let '(cerr, seg') := Seg_Close (del_close io) seg in
  let dlog := put_file (Path seg) (w_file (s_writer seg')) d in
  let didx := put_file (IndexPath seg) (indexFile (w_store (s_writer seg'))) in
  match cerr with
  | Some _ => (failed, didx dlog)
  | None =>
      match del_log io with
      | Some _ => (failed, didx dlog)
      | None =>
          match del_index io with
          | Some _ => (mkMetrics (SegmentsDeleted x + 1) (BytesReclaimed x + size)
                         (DeleteErrors x + 1) (Runs x) (LastRunUnixNano x), didx d)
          | None => (mkMetrics (SegmentsDeleted x + 1) (BytesReclaimed x + size)
                       (DeleteErrors x) (Runs x) (LastRunUnixNano x), d)
          end
      end
  end.

Fixpoint delete_segments (io : nat -> delete_io) (i : nat) (ss : list Segment)
    (x : RetentionMetrics) (d : dir) : RetentionMetrics * dir :=
  match ss with
  | [] => (x, d)
  | seg :: ss' =>
      let '(x', d') := delete_segment (io i) seg x d in
      delete_segments io (S i) ss' x' d'
  end.

(** Phase A of [RunRetention]: count the run, then detach the victims under the
    lock.  The clock reads [now1] and then [now2]. *)
Definition retention_detach (now1 now2 : Z) (m : Manager) : list Segment * Manager :=
  let x := mkMetrics (SegmentsDeleted (Metrics m)) (BytesReclaimed (Metrics m))
             (DeleteErrors (Metrics m)) (Runs (Metrics m) + 1) now1 in
  let cutoff := now2 - Retention (m_cfg m) in
  let n := victims (length (segments m) - 1) cutoff (MaxDeletesPerRun (m_cfg m)) 0 (segments m) in
  (take n (segments m), set_metrics x (set_segments (drop n (segments m)) m)).

(** [RunRetention] with no reader in the victims: detach, then delete each. *)
Definition RunRetention (now1 now2 : Z) (io : nat -> delete_io) (m : Manager) : Manager :=
  let '(vs, m1) := retention_detach now1 now2 m in
  let '(x', d') := delete_segments io 0 vs (Metrics m1) (m_dir m1) in
  set_metrics x' (set_dir d' m1).

(** ** Close *)

(** [closeAll]: every segment is closed, the first error is returned. *)
Fixpoint closeAll (io : nat -> close_io) (i : nat) (ss : list Segment) (firstErr : outcome) (d : dir)
    : outcome * dir :=
  match ss with
  | [] => (firstErr, d)
  | seg :: ss' =>
      let '(err, seg') := Seg_Close (io i) seg in
      let d' := put_file (IndexPath seg) (indexFile (w_store (s_writer seg')))
                  (put_file (Path seg) (w_file (s_writer seg')) d) in
      closeAll io (S i) ss' (match firstErr with None => err | Some _ => firstErr end) d'
  end.

(** [Close] *)
Definition Mgr_Close (io : nat -> close_io) (m : Manager) : outcome * dir :=
  closeAll io 0 (segments m) None (m_dir m).
