(* ===== verification/MgrInv.v ===== *)
(** * MgrInv: the segmented log refines one list of records

    [mgr_ok m logs]: segment [k] of the manager holds the payloads
    [logs !! k], each segment starts where the previous one ends, and no name
    a later roll will use is taken in the directory. *)

From Stdlib Require Import ZArith Lia Strings.String Strings.Ascii.
From stdpp Require Import base list list_numbers numbers option gmap sorting strings.
From coqutil Require Import Byte.
From S2P Require Import Prelude Bytes Golib Index Checksum Wal WalFormat WalInv Crash WalProps Segment Manager.

Local Open Scope Z_scope.

(** ** File names *)

Lemma digit_value_ascii d : 0 <= d < 10 -> digit_value (digit_ascii d) = Some d.
Proof.
  intros Hd. assert (d = 0 \/ d = 1 \/ d = 2 \/ d = 3 \/ d = 4 \/ d = 5 \/ d = 6 \/ d = 7 \/ d = 8 \/ d = 9)
    as H by lia. by repeat destruct H as [->|H]; [..|subst d].
Qed.

(** Parsing the digits of [v] continues with the value they denote. *)
Lemma parse_format n v acc tl :
  0 <= v < 10 ^ Z.of_nat n -> 0 <= acc -> acc * 10 ^ Z.of_nat n + v <= MaxUint64 ->
  parse_digits (format_digits n v ++ tl) acc = parse_digits tl (acc * 10 ^ Z.of_nat n + v).
Proof.
  revert v tl. induction n as [|n IH]; intros v tl Hv Hacc Hmax.
  { simpl in *. f_equal. lia. }
  rewrite Nat2Z.inj_succ, Z.pow_succ_r in * by lia.
  pose proof (Z.div_mod v 10 ltac:(lia)). pose proof (Z.mod_pos_bound v 10 ltac:(lia)).
  cbn [format_digits]. rewrite <- app_assoc. cbn [app].
  rewrite IH by (try apply Z.div_lt_upper_bound; nia || (split; [apply Z.div_pos|apply Z.div_lt_upper_bound]; lia)).
  cbn [parse_digits]. rewrite digit_value_ascii by lia.
  set (N := acc * 10 ^ Z.of_nat n + v / 10).
  assert (acc * (10 * 10 ^ Z.of_nat n) + v = N * 10 + v mod 10) as Hn by (unfold N; lia).
  rewrite Hn in *. unfold MaxUint64 in *.
  destruct (Z.leb_spec ((2 ^ 64 - 1) / 10 + 1) N).
  { assert ((2 ^ 64 - 1) / 10 = 1844674407370955161) as E by reflexivity. lia. }
  destruct (Z.ltb_spec (2 ^ 64 - 1) (N * 10 + v mod 10)); [lia|done].
Qed.

Lemma length_format_digits n v : length (format_digits n v) = n.
Proof. revert v. induction n as [|n IH]; intros v; [done|]. simpl. rewrite length_app, IH. simpl. lia. Qed.

Lemma TrimSuffix_app s suf : TrimSuffix (s ++ suf) suf = s.
Proof.
  unfold TrimSuffix, HasSuffix. rewrite bool_decide_true by by exists s.
  rewrite length_app. replace (length s + length suf - length suf)%nat with (length s) by lia.
  apply take_app_length.
Qed.

Lemma ParseUint_format b : is_u64 b -> ParseUint (format_digits baseOffsetDigits b) = Some b.
Proof.
  intros Hb. unfold ParseUint.
  destruct (format_digits baseOffsetDigits b) as [|a l] eqn:Hf.
  { apply (f_equal length) in Hf. rewrite length_format_digits in Hf. done. }
  rewrite <- Hf. rewrite <- (app_nil_r (format_digits _ _)).
  unfold is_u64, baseOffsetDigits in *. rewrite parse_format; [|lia|lia|unfold MaxUint64; lia].
  done.
Qed.

(** The name of a segment gives back its base offset; the index name does not
    look like a segment. *)
Lemma entry_base_segment b : is_u64 b -> entry_base (SegmentFileName b, false) = Some b.
Proof.
  intros Hb. unfold entry_base, SegmentFileName, HasSuffix.
  rewrite bool_decide_true by by eexists. cbn [orb negb]. rewrite TrimSuffix_app. by apply ParseUint_format.
Qed.

Lemma indexFileName_segment b :
  indexFileName (SegmentFileName b) = format_digits baseOffsetDigits b ++ indexSuffix.
Proof. unfold indexFileName, SegmentFileName. by rewrite TrimSuffix_app. Qed.

Lemma index_no_suffix b : HasSuffix (indexFileName (SegmentFileName b)) segmentSuffix = false.
Proof.
  apply bool_decide_false. rewrite indexFileName_segment. intros [k Hk].
  change indexSuffix with (list_ascii_of_string ".inde" ++ ["x"%char]) in Hk.
  change segmentSuffix with (list_ascii_of_string ".lo" ++ ["g"%char]) in Hk.
  rewrite !app_assoc in Hk. by apply app_inj_2 in Hk as [_ [=]].
Qed.

Lemma entry_base_index b : entry_base (indexFileName (SegmentFileName b), false) = None.
Proof. unfold entry_base. by rewrite index_no_suffix. Qed.

Lemma SegmentFileName_inj a b : is_u64 a -> is_u64 b -> SegmentFileName a = SegmentFileName b -> a = b.
Proof.
  intros Ha%entry_base_segment Hb%entry_base_segment Heq. rewrite Heq in Ha. congruence.
Qed.

Lemma indexFileName_inj a b :
  is_u64 a -> is_u64 b -> indexFileName (SegmentFileName a) = indexFileName (SegmentFileName b) -> a = b.
Proof.
  intros Ha Hb Heq. apply SegmentFileName_inj; try done.
  rewrite !indexFileName_segment in Heq. apply app_inv_tail in Heq.
  unfold SegmentFileName. by rewrite Heq.
Qed.

Lemma segment_ne_index a b : SegmentFileName a <> indexFileName (SegmentFileName b).
Proof.
  intros Heq. pose proof (index_no_suffix b) as H. rewrite <- Heq in H.
  apply bool_decide_eq_false in H. apply H. by eexists.
Qed.

(** ** Segments *)

(** Every invariant comes in two strengths.  With [quiet = true] no flush is
    running in any segment, which is the state between the operations of a
    single caller; with [quiet = false] goroutines may be anywhere inside
    their commits ([MgrConc.v]). *)
Section Mgr.
Context (c : Checksum) {Hc : ChecksumOk c} {quiet : bool}.

(** A segment holding the payloads [log]. *)
Record seg_ok (seg : Segment) (log : list (list byte)) : Prop := {
  sv_wal : exists b s, wal_inv c b s (s_writer seg) log;
  sv_idle : quiet = true -> syncing (s_writer seg) = false;
  sv_reader : exists o, s_reader seg = reader_at c o;
  sv_path : s_path seg = SegmentFileName (baseOffset seg);
  sv_range : 0 <= baseOffset seg /\ baseOffset seg + zlen log < 2 ^ 64
}.

Lemma seg_next seg log : seg_ok seg log -> Seg_NextOffset seg = baseOffset seg + zlen log.
Proof.
  intros Hs. destruct (sv_wal _ _ Hs) as (b & s & Hw). destruct (sv_range _ _ Hs).
  unfold Seg_NextOffset, NextOffset. rewrite (wi_next _ _ _ _ _ Hw).
  apply u64_small. unfold is_u64. pose proof (zlen_nonneg log). lia.
Qed.

Lemma seg_contains seg log o :
  seg_ok seg log -> Contains seg o = bool_decide (baseOffset seg <= o < baseOffset seg + zlen log).
Proof.
  intros Hs. unfold Contains. rewrite (seg_next _ _ Hs).
  destruct (Z.leb_spec (baseOffset seg) o), (Z.ltb_spec o (baseOffset seg + zlen log)); simpl;
    symmetry; (apply bool_decide_eq_true_2 || apply bool_decide_eq_false_2); lia.
Qed.

Lemma seg_read seg log o :
  seg_ok seg log -> baseOffset seg <= o < 2 ^ 64 ->
  Seg_ReadAt no_fault o seg =
  Some (match log !! Z.to_nat (o - baseOffset seg) with Some x => Ok x | None => Err EOF end).
Proof.
  intros Hs Ho. destruct (sv_wal _ _ Hs) as (b & s & Hw). destruct (sv_reader _ _ Hs) as [r Hr].
  destruct (sv_range _ _ Hs). unfold Seg_ReadAt. destruct (Z.ltb_spec o (baseOffset seg)); [lia|].
  rewrite Hr, u64_small by (unfold is_u64; lia). apply (ReadAt_run c b s); [done|lia].
Qed.

(** Reserving in a segment. *)
Lemma seg_reserve seg log data now :
  seg_ok seg log -> payload_ok data -> fits c (encode_log c (log ++ [data])) ->
  baseOffset seg + zlen log + 1 < 2 ^ 64 ->
  exists seg' q, reserve WOk data now seg = (Ok (zlen log, q), seg') /\
    seg_ok seg' (log ++ [data]) /\ baseOffset seg' = baseOffset seg /\ lastAppend seg' = now /\
    syncErr (s_writer seg') = syncErr (s_writer seg) /\
    (forall io, syncErr (s_writer seg) = None -> sy_sync io = None ->
       (forall x, clean_write (sy_cp io x)) -> syncing (s_writer seg) = false ->
       exists seg'', commit io q seg' = Some (None, seg'') /\ seg_ok seg'' (log ++ [data]) /\
         baseOffset seg'' = baseOffset seg /\ lastAppend seg'' = now /\
         syncErr (s_writer seg'') = None /\
         f_synced (w_file (s_writer seg'')) = length (f_data (w_file (s_writer seg'')))).
Proof.
  intros Hs Hp Hf Hr. destruct (sv_wal _ _ Hs) as (b & s & Hw).
  pose proof (sv_idle _ _ Hs) as Hidle. pose proof (sv_path _ _ Hs). pose proof (sv_range _ _ Hs).
  assert (zlen (log ++ [data]) = zlen log + 1) as Hz by by rewrite zlen_app.
  destruct (Reserve_inv c b s _ log data Hw Hp Hf) as (w1 & Hrun & Hw1 & Hs1 & He1).
  unfold reserve. rewrite Hrun.
  eexists _, _. split; [done|].
  assert (forall w b' s', wal_inv c b' s' w (log ++ [data]) -> (quiet = true -> syncing w = false) ->
    seg_ok (mkSegment (baseOffset seg) w (s_reader seg) (s_path seg) now) (log ++ [data])) as Hseg.
  { intros w b' s' Hw' Hi'. split; cbn; [by eexists _, _|done|apply Hs|done|]. rewrite Hz. lia. }
  split; [apply (Hseg w1 b s); [done|by rewrite Hs1]|]. split_and!; [done..|].
  intros io He Hio Hcp Hsy.
  pose proof (wi_bs _ _ _ _ _ Hw).
  destruct (Commit_run c b s w1 (log ++ [data]) (S (length log) - b) io)
    as (w2 & s' & Hrun2 & Hw2 & Hq & _ & Hs2 & He2); try done; try congruence.
  { rewrite length_app. simpl. lia. }
  unfold commit. cbn [s_writer]. rewrite Hrun2. eexists. split; [done|].
  unfold set_writer. cbn [baseOffset s_reader s_path lastAppend].
  split; [by apply (Hseg w2 b s')|]. split_and!; try done.
  pose proof (wi_bs _ _ _ _ _ Hw2) as Hb2. rewrite length_app in Hb2. simpl in Hb2.
  apply (wal_inv_all_synced c b w2 (log ++ [data])); [|rewrite length_app; simpl; lia].
  by replace (length (log ++ [data]) - b)%nat with s' by (rewrite length_app; simpl; lia).
Qed.

(** Opening a segment whose files are on disk, or absent. *)
Definition sg_ok (io : segment_io) : Prop :=
  sg_store io = open_ok /\ sg_wal io = open_ok /\ sg_recover io = recover_io_ok /\ sg_reader io = None.

Lemma open_log_eq nth disk idx :
  open_log c nth disk idx =
  NewWalWriter open_ok recover_io_ok disk (mkStore [] [] ∅ (default empty_file idx) 0 nth) c.
Proof. by destruct idx. Qed.

(** The directory without the files of one segment. *)
Definition take_segment (base : Z) (d : dir) : dir :=
  take_file (SegmentFileName base) (take_file (indexFileName (SegmentFileName base)) d).

Lemma NewSegment_open io base d log w b s :
  sg_ok io -> 0 <= base /\ base + zlen log < 2 ^ 64 ->
  open_log c NthIndex (d_files d !! SegmentFileName base)
    (d_files d !! indexFileName (SegmentFileName base)) = Some (Ok w) ->
  wal_inv c b s w log -> syncing w = false ->
  exists seg, NewSegment io base c d = Some (Ok seg, take_segment base d) /\
    seg_ok seg log /\ baseOffset seg = base /\ s_writer seg = w /\
    lastAppend seg = default (sg_now io) (sg_stat io).
Proof.
  intros (Hst & Hwal & Hrec & Hrd) Hr Hrun Hw Hsy. rewrite open_log_eq in Hrun.
  unfold NewSegment. rewrite Hst, Hwal, Hrec, Hrd.
  assert (NewInMemoryStore open_ok (d_files d !! indexFileName (SegmentFileName base)) NthIndex =
    Ok (mkStore [] [] ∅ (default empty_file (d_files d !! indexFileName (SegmentFileName base))) 0 NthIndex))
    as -> by by destruct (d_files d !! indexFileName _).
  rewrite Hrun. cbn [NewWALReader]. eexists. split; [done|]. split_and!; try done.
  split; cbn; [by eexists _, _|done| |done|done].
  exists 0. unfold reader_at. by rewrite <- hdr_Z.
Qed.

(** A new segment is empty. *)
Lemma NewSegment_new io base d :
  sg_ok io -> Size_ c < 2 ^ 32 -> 0 <= base < 2 ^ 64 ->
  d_files d !! SegmentFileName base = None -> d_files d !! indexFileName (SegmentFileName base) = None ->
  exists seg, NewSegment io base c d = Some (Ok seg, take_segment base d) /\
    seg_ok seg [] /\ baseOffset seg = base /\ syncErr (s_writer seg) = None /\
    syncing (s_writer seg) = false.
Proof.
  intros Hio Hsz Hb Hl Hi.
  destruct (open_log_new c NthIndex) as (w & Hrun & Hw & Hsy & He); [unfold is_u32, NthIndex; lia|done|].
  destruct (NewSegment_open io base d [] w 0 0) as (seg & Hn & Hs & Hbase & Hwr & _); try done.
  { unfold zlen. simpl. lia. }
  { by rewrite Hl, Hi. }
  exists seg. rewrite Hwr. by split_and!.
Qed.

(** ** The chain of segments *)

(** Segments from global offset [b] on, each starting where the previous one
    ends; only the last may be empty. *)
Fixpoint chain_ok (b : Z) (ss : list Segment) (logs : list (list (list byte))) : Prop :=
  match ss, logs with
  | [], [] => True
  | s :: ss', l :: logs' =>
      baseOffset s = b /\ seg_ok s l /\ (ss' <> [] -> l <> []) /\ chain_ok (b + zlen l) ss' logs'
  | _, _ => False
  end.

Lemma chain_length b ss logs : chain_ok b ss logs -> length ss = length logs.
Proof.
  revert b logs. induction ss as [|s ss IH]; intros b [|l logs]; simpl; try done.
  intros (_ & _ & _ & H). f_equal. by eapply IH.
Qed.

(** Segment [k] starts behind the records of the segments before it. *)
Lemma chain_lookup b ss logs k s :
  chain_ok b ss logs -> ss !! k = Some s ->
  exists l, logs !! k = Some l /\ seg_ok s l /\ baseOffset s = b + zlen (mjoin (take k logs)) /\
    (S k < length ss -> l <> [])%nat.
Proof.
  revert b logs k. induction ss as [|s' ss IH]; intros b [|l logs] k; simpl; try done.
  intros (Hb & Hs & Hne & Hch) Hk. destruct k as [|k]; simpl in *.
  - injection Hk as ->. exists l. split_and!; [done..| |].
    + unfold zlen. simpl. lia.
    + intros. apply Hne. by destruct ss; simpl in *; [lia|].
  - destruct (IH _ _ _ Hch Hk) as (x & Hx & Hsx & Hbx & Hn). exists x.
    split_and!; [done..| |].
    + rewrite Hbx. rewrite zlen_app. lia.
    + intros. apply Hn. lia.
Qed.

Lemma mjoin_take_le {A} (logs : list (list A)) i j :
  (i <= j)%nat -> zlen (mjoin (take i logs)) <= zlen (mjoin (take j logs)).
Proof.
  intros Hij. replace (take j logs) with (take i logs ++ drop i (take j logs)).
  - rewrite join_app, zlen_app. pose proof (zlen_nonneg (mjoin (drop i (take j logs)))). lia.
  - rewrite <- (take_drop i (take j logs)) at 2. by rewrite take_take, Nat.min_l.
Qed.

Lemma mjoin_take_S {A} (logs : list (list A)) k l :
  logs !! k = Some l -> zlen (mjoin (take (S k) logs)) = zlen (mjoin (take k logs)) + zlen l.
Proof.
  intros Hk. rewrite (take_S_r _ _ _ Hk), join_app, zlen_app.
  f_equal. simpl. by rewrite app_nil_r.
Qed.

(** Looking up a record of the whole log in the segment that holds it. *)
Lemma mjoin_lookup {A} (logs : list (list A)) k l i :
  logs !! k = Some l -> zlen (mjoin (take k logs)) <= i < zlen (mjoin (take k logs)) + zlen l ->
  mjoin logs !! Z.to_nat i = l !! Z.to_nat (i - zlen (mjoin (take k logs))).
Proof.
  intros Hk Hi. rewrite <- (take_drop_middle logs k l Hk) at 1.
  rewrite join_app. rewrite lookup_app_r by (unfold zlen in *; lia).
  cbn [mjoin list_join]. fold (mjoin (M:=list) (drop (S k) logs)). rewrite lookup_app_l by (unfold zlen in *; lia). f_equal. unfold zlen. lia.
Qed.

(** [segmentFor] finds the owner of every offset of the log, and nothing for
    offsets outside it. *)
Lemma segmentFor_spec m b logs o :
  chain_ok b (segments m) logs ->
  match segmentFor o m with
  | Some s => exists k l, segments m !! k = Some s /\ logs !! k = Some l /\
      baseOffset s = b + zlen (mjoin (take k logs)) /\
      baseOffset s <= o < baseOffset s + zlen l /\ seg_ok s l
  | None => ~ (b <= o < b + zlen (mjoin logs))
  end.
Proof.
  intros Hch. unfold segmentFor. set (ss := segments m) in *.
  set (f := fun i => match ss !! i with Some s => o <? BaseOffset s | None => true end).
  assert (forall i s, ss !! i = Some s -> baseOffset s = b + zlen (mjoin (take i logs))) as Hbase.
  { intros i s Hs. by destruct (chain_lookup _ _ _ _ _ Hch Hs) as (l & _ & _ & ? & _). }
  destruct (Search_spec (length ss) f) as (Hle & Hlo & Hhi).
  { intros i j Hij. unfold f. destruct (ss !! i) as [si|] eqn:Hi;
      destruct (ss !! j) as [sj|] eqn:Hj; try done.
    - unfold BaseOffset. rewrite (Hbase _ _ Hi), (Hbase _ _ Hj).
      pose proof (mjoin_take_le logs i j). rewrite !Z.ltb_lt. lia.
    - apply lookup_ge_None in Hi. pose proof (lookup_lt_Some _ _ _ Hj). lia. }
  destruct (Search (length ss) f) as [|k] eqn:Hk.
  - intros [Hb Ho]. destruct ss as [|s ss']; destruct logs as [|l logs']; try done.
    { unfold zlen in Ho. simpl in Ho. lia. }
    specialize (Hhi 0%nat). unfold f in Hhi. simpl in Hhi.
    specialize (Hhi ltac:(lia)). destruct Hch as [Hb' _]. unfold BaseOffset in Hhi. blia.
  - destruct (lookup_lt_is_Some_2 ss k) as [s Hs]; [lia|]. rewrite Hs.
    destruct (chain_lookup _ _ _ _ _ Hch Hs) as (l & Hl & Hsl & Hbs & _).
    rewrite (seg_contains _ _ _ Hsl).
    specialize (Hlo k ltac:(lia)). unfold f in Hlo. rewrite Hs in Hlo. unfold BaseOffset in Hlo.
    case_bool_decide as Hin; [by exists k, l|]. intros [Hb Ho].
    pose proof (mjoin_take_S _ _ _ Hl) as HS.
    destruct (Nat.lt_ge_cases (S k) (length ss)) as [Hlt|Hge].
    + destruct (lookup_lt_is_Some_2 ss (S k)) as [s' Hs']; [lia|].
      specialize (Hhi (S k) ltac:(lia)). unfold f, BaseOffset in Hhi. rewrite Hs' in Hhi.
      rewrite (Hbase _ _ Hs') in Hhi. blia.
    + rewrite take_ge in HS by (rewrite <- (chain_length _ _ _ Hch); lia). blia.
Qed.

(** Replacing the last segment by a later state of it. *)
Lemma chain_update_last b ss s logs l s' l' :
  chain_ok b (ss ++ [s]) (logs ++ [l]) -> baseOffset s' = baseOffset s -> seg_ok s' l' ->
  chain_ok b (ss ++ [s']) (logs ++ [l']).
Proof.
  revert b logs. induction ss as [|x ss IH]; intros b [|y logs] Hch Hb Hs; simpl in *.
  - destruct Hch as (? & _). split_and!; [congruence|done|done|done].
  - destruct Hch as (_ & _ & _ & Hch). destruct logs; done.
  - destruct Hch as (_ & _ & _ & Hch). destruct ss; done.
  - destruct Hch as (? & ? & Hne & Hch). split_and!; try done.
    + intros _. apply Hne. by destruct ss.
    + by apply IH.
Qed.

(** Rolling: a fresh segment behind a nonempty last one. *)
Lemma chain_roll b ss s logs l s' :
  chain_ok b (ss ++ [s]) (logs ++ [l]) -> l <> [] -> seg_ok s' [] ->
  baseOffset s' = b + zlen (mjoin (logs ++ [l])) ->
  chain_ok b ((ss ++ [s]) ++ [s']) ((logs ++ [l]) ++ [[]]).
Proof.
  revert b logs. induction ss as [|x ss IH]; intros b [|y logs] Hch Hl Hs Hb; simpl in *.
  - destruct Hch as (? & ? & _). rewrite app_nil_r in Hb. split_and!; done.
  - destruct Hch as (_ & _ & _ & Hch). destruct logs; done.
  - destruct Hch as (_ & _ & _ & Hch). destruct ss; done.
  - destruct Hch as (? & ? & Hne & Hch). split_and!; try done.
    + intros _. apply Hne. by destruct ss.
    + apply IH; try done. rewrite Hb, zlen_app. lia.
Qed.

(** Detaching leading segments. *)
Lemma chain_drop b ss logs n :
  chain_ok b ss logs -> (n <= length ss)%nat ->
  chain_ok (b + zlen (mjoin (take n logs))) (drop n ss) (drop n logs).
Proof.
  revert b ss logs. induction n as [|n IH]; intros b [|s ss] [|l logs] Hch Hn; simpl in *;
    try done; try lia; unfold zlen at 1; simpl; rewrite ?Z.add_0_r; try done.
  destruct Hch as (_ & _ & _ & Hch). rewrite length_app, Nat2Z.inj_add, Z.add_assoc.
  apply IH; [done|lia].
Qed.

(** ** The manager's invariant *)

Record mgr_ok (m : Manager) (logs : list (list (list byte))) : Prop := {
  mi_csum : m_csum m = c;
  mi_size : Size_ c < 2 ^ 32;
  mi_chain : chain_ok (EarliestOffset m) (segments m) logs;
  mi_ne : segments m <> [];
  mi_max : 0 < MaxSegmentBytes (m_cfg m) <= 2 ^ 61;
  mi_dir : forall b, EarliestOffset m <= b -> is_u64 b ->
    d_files (m_dir m) !! SegmentFileName b = None /\
    d_files (m_dir m) !! indexFileName (SegmentFileName b) = None
}.

Lemma mgr_split m logs :
  mgr_ok m logs ->
  exists ss s ls l, segments m = ss ++ [s] /\ logs = ls ++ [l] /\ active m = Some s /\ seg_ok s l /\
    baseOffset s = EarliestOffset m + zlen (mjoin ls) /\
    Mgr_NextOffset m = EarliestOffset m + zlen (mjoin logs).
Proof.
  intros Hm. destruct (exists_last (mi_ne _ _ Hm)) as (ss & s & Hss).
  pose proof (mi_chain _ _ Hm) as Hch. rewrite Hss in Hch.
  pose proof (chain_length _ _ _ Hch) as Hlen. rewrite length_app in Hlen. simpl in Hlen.
  destruct (chain_lookup _ _ _ (length ss) s Hch) as (l & Hl & Hsl & Hb & _).
  { by rewrite lookup_app_r, Nat.sub_diag by lia. }
  assert (logs = take (length ss) logs ++ [l]) as Hlogs.
  { rewrite <- (take_drop (length ss) logs) at 1. f_equal.
    rewrite (drop_S _ _ _ Hl), drop_ge by lia. done. }
  assert (active m = Some s) as Ha by (unfold active; by rewrite Hss, last_snoc).
  exists ss, s, (take (length ss) logs), l. split_and!; try done.
  unfold Mgr_NextOffset. rewrite Ha, (seg_next _ _ Hsl), Hb.
  rewrite Hlogs at 2. rewrite join_app, zlen_app. simpl. rewrite app_nil_r. lia.
Qed.

Lemma update_last_snoc s' ss s : update_last s' (ss ++ [s]) = ss ++ [s'].
Proof.
  unfold update_last. rewrite length_app. simpl.
  replace (length ss + 1 - 1)%nat with (length ss) by lia. by rewrite take_app_length.
Qed.

Lemma earliest_snoc ss s s' d d' m :
  segments m = ss ++ [s] -> baseOffset s' = baseOffset s ->
  EarliestOffset (mkManager (m_cfg m) (m_csum m) (ss ++ [s']) d d') = EarliestOffset m.
Proof. intros Hss Hb. unfold EarliestOffset. rewrite Hss. cbn. by destruct ss. Qed.

(** Putting a later state of the active segment back. *)
Lemma mgr_inv_update m ss s ls l s' l' :
  mgr_ok m (ls ++ [l]) -> segments m = ss ++ [s] -> baseOffset s' = baseOffset s ->
  seg_ok s' l' ->
  mgr_ok (set_segments (ss ++ [s']) m) (ls ++ [l']) /\
  EarliestOffset (set_segments (ss ++ [s']) m) = EarliestOffset m.
Proof.
  intros Hm Hss Hb Hs'.
  assert (EarliestOffset (set_segments (ss ++ [s']) m) = EarliestOffset m) as He
    by by eapply earliest_snoc.
  split; [|done]. pose proof (mi_chain _ _ Hm) as Hch. rewrite Hss in Hch.
  split; cbn; try apply Hm.
  - rewrite He. by eapply chain_update_last.
  - by destruct ss.
  - rewrite He. apply Hm.
Qed.

(** Putting a later state of any segment back, with the same records. *)
Lemma chain_insert b ss logs i s s' l :
  chain_ok b ss logs -> ss !! i = Some s -> logs !! i = Some l ->
  baseOffset s' = baseOffset s -> seg_ok s' l -> chain_ok b (<[i := s']> ss) logs.
Proof.
  revert b logs i. induction ss as [|x ss IH]; intros b [|y logs] [|i] Hch Hs Hl Hb Hok; try done; simpl in *.
  - destruct Hch as (? & _ & ? & ?). simplify_eq. by split_and!.
  - destruct Hch as (? & ? & Hne & Hch). split_and!; try done; [|by eapply IH].
    intros _. apply Hne. by destruct ss.
Qed.

Lemma mgr_ok_insert m logs i s s' l :
  mgr_ok m logs -> segments m !! i = Some s -> logs !! i = Some l ->
  baseOffset s' = baseOffset s -> seg_ok s' l ->
  let m' := set_segments (<[i := s']> (segments m)) m in
  mgr_ok m' logs /\ EarliestOffset m' = EarliestOffset m /\ Mgr_NextOffset m' = Mgr_NextOffset m.
Proof.
  intros Hm Hi Hl Hb Hs' m'.
  assert (EarliestOffset m' = EarliestOffset m) as He.
  { unfold EarliestOffset, m'. cbn. destruct (segments m), i; simplify_eq/=; done. }
  assert (mgr_ok m' logs) as Hm'.
  { split; try apply Hm.
    - rewrite He. cbn. eapply chain_insert; eauto. apply Hm.
    - cbn. pose proof (mi_ne _ _ Hm). by destruct (segments m), i.
    - rewrite He. apply Hm. }
  split_and!; try done.
  destruct (mgr_split _ _ Hm) as (_ & _ & _ & _ & _ & _ & _ & _ & _ & ->).
  destruct (mgr_split _ _ Hm') as (_ & _ & _ & _ & _ & _ & _ & _ & _ & ->). by rewrite He.
Qed.

(** [roll] appends an empty segment at the next offset. *)
Lemma roll_inv io m logs s l ls :
  mgr_ok m logs -> logs = ls ++ [l] -> active m = Some s -> l <> [] -> sg_ok io ->
  Mgr_NextOffset m < 2 ^ 64 ->
  exists m1 s1, roll io m = Some (None, m1) /\ mgr_ok m1 (logs ++ [[]]) /\
    segments m1 = segments m ++ [s1] /\ baseOffset s1 = Mgr_NextOffset m /\
    EarliestOffset m1 = EarliestOffset m /\ syncErr (s_writer s1) = None /\ m_cfg m1 = m_cfg m /\
    Mgr_NextOffset m1 = Mgr_NextOffset m /\ syncing (s_writer s1) = false.
Proof.
  intros Hm -> Ha Hne Hio Hn.
  destruct (mgr_split _ _ Hm) as (ss & s0 & ls0 & l0 & Hss & Hl & Ha0 & Hs & Hb & Hnext).
  apply app_inj_2 in Hl as [<- [= <-]]; [|done]. rewrite Ha in Ha0. injection Ha0 as <-.
  pose proof (sv_range _ _ Hs) as Hr. pose proof (zlen_nonneg l).
  assert (Mgr_NextOffset m = Seg_NextOffset s) as Hns by (unfold Mgr_NextOffset; by rewrite Ha).
  assert (0 <= Mgr_NextOffset m) by (rewrite Hns, (seg_next _ _ Hs); lia).
  destruct (mi_dir _ _ Hm (Mgr_NextOffset m)) as [Hd1 Hd2];
    [rewrite Hnext; pose proof (zlen_nonneg (mjoin (ls ++ [l]))); lia|unfold is_u64; lia|].
  destruct (NewSegment_new io (Mgr_NextOffset m) (m_dir m)) as (s1 & Hnew & Hs1 & Hb1 & He1 & Hsy1);
    [done|apply Hm|lia|done|done|].
  unfold roll. rewrite Ha, <- Hns, (mi_csum _ _ Hm), Hnew.
  eexists _, s1. split; [done|].
  assert (Mgr_NextOffset (set_dir (take_segment (Mgr_NextOffset m) (m_dir m))
            (set_segments (segments m ++ [s1]) m)) = Mgr_NextOffset m) as Hnext1.
  { unfold Mgr_NextOffset at 1, active. cbn. rewrite last_snoc, (seg_next _ _ Hs1), Hb1.
    unfold zlen. simpl. lia. }
  assert (EarliestOffset (set_dir (take_segment (Mgr_NextOffset m) (m_dir m))
            (set_segments (segments m ++ [s1]) m)) = EarliestOffset m) as Hearl.
  { unfold EarliestOffset. cbn. rewrite Hss. by destruct ss. }
  split; [|by split_and!].
  split; try apply Hm.
  - rewrite Hearl. cbn [segments set_dir set_segments]. rewrite Hss. apply chain_roll; try done.
    + rewrite <- Hss. apply Hm.
    + by rewrite Hb1, Hnext.
  - cbn. rewrite Hss. by destruct ss.
  - rewrite Hearl. intros b Hb' Hu. destruct (mi_dir _ _ Hm b Hb' Hu) as [H1 H2].
    cbn. rewrite !lookup_delete_None. tauto.
Qed.

Lemma fits_small l data :
  Size_ c < 2 ^ 32 -> payload_ok data -> zlen (encode_log c l) <= 2 ^ 61 ->
  fits c (encode_log c (l ++ [data])).
Proof.
  intros Hsz Hp Hl. unfold fits. rewrite encode_log_app, encode_log_singleton, zlen_app.
  unfold zlen at 2. rewrite (length_encode_record c). unfold payload_ok, zlen, MaxRecordSize in *.
  pose proof (hdr_Z c). unfold LengthSize in *. lia.
Qed.

Lemma seg_size seg log : seg_ok seg log -> Seg_Size seg = zlen (encode_log c log).
Proof. intros Hs. destruct (sv_wal _ _ Hs) as (b & s & Hw). apply Hw. Qed.

(** Rolling when the active segment is full leaves an active segment with room. *)
Lemma maybe_roll_inv io m logs s :
  mgr_ok m logs -> active m = Some s -> sg_ok io -> Mgr_NextOffset m + 1 < 2 ^ 64 ->
  exists m1 ss1 s1 ls1 l1,
    (if MaxSegmentBytes (m_cfg m) <=? Seg_Size s then roll io m else Some (None, m)) = Some (None, m1) /\
    mgr_ok m1 (ls1 ++ [l1]) /\ segments m1 = ss1 ++ [s1] /\ seg_ok s1 l1 /\
    mjoin (ls1 ++ [l1]) = mjoin logs /\ zlen (encode_log c l1) < MaxSegmentBytes (m_cfg m) /\
    EarliestOffset m1 = EarliestOffset m /\ m_cfg m1 = m_cfg m /\
    baseOffset s1 + zlen l1 = Mgr_NextOffset m /\
    (syncErr (s_writer s) = None -> syncErr (s_writer s1) = None).
Proof.
  intros Hm Ha0 Hio Hn.
  destruct (mgr_split _ _ Hm) as (ss & s0 & ls & l & Hss & Hl & Ha & Hs & Hb & Hnext).
  rewrite Ha0 in Ha. injection Ha as <-.
  pose proof (mi_max _ _ Hm). rewrite (seg_size _ _ Hs).
  destruct (Z.leb_spec (MaxSegmentBytes (m_cfg m)) (zlen (encode_log c l))) as [Hfull|Hroom].
  - destruct (roll_inv io m logs s l ls) as (m1 & s1 & Hr & Hm1 & Hss1 & Hb1 & He1 & Herr & Hc1 & Hn1 & _);
      try done; [intros ->; unfold zlen in Hfull; simpl in Hfull; lia|lia|].
    assert (seg_ok s1 []) as Hs1.
    { destruct (mgr_split _ _ Hm1) as (ss2 & s2 & ls2 & l2 & Hss2 & Hl2 & _ & Hs2 & _ & _).
      rewrite Hss1 in Hss2. apply app_inj_2 in Hss2 as [_ [= ->]]; [|done].
      by apply app_inj_2 in Hl2 as [_ [= ->]]. }
    exists m1, (segments m), s1, logs, []. split_and!; try done.
    + rewrite join_app. simpl. by rewrite app_nil_r.
    + unfold zlen. simpl. lia.
    + unfold zlen. simpl. rewrite Hb1. lia.
  - exists m, ss, s, ls, l. rewrite <- Hl. split_and!; try done; try lia.
    rewrite Hnext, Hb, Hl, join_app, zlen_app. simpl. rewrite app_nil_r. lia.
Qed.

(** Phase 1 of [Append] as a whole: the active segment afterwards is [s']. *)
Lemma append_reserve_inv io data now m logs :
  mgr_ok m logs -> payload_ok data -> sg_ok io -> Mgr_NextOffset m + 1 < 2 ^ 64 ->
  exists m1 ss s' ls l base lo q,
    append_reserve io WOk data now m = Some (Ok (base, lo, q), m1) /\
    base + lo = Mgr_NextOffset m /\ is_u64 (base + lo) /\
    mgr_ok m1 (ls ++ [l ++ [data]]) /\ mjoin (ls ++ [l ++ [data]]) = mjoin logs ++ [data] /\
    EarliestOffset m1 = EarliestOffset m /\ m_cfg m1 = m_cfg m /\
    segments m1 = ss ++ [s'] /\ zlen (encode_log c l) < MaxSegmentBytes (m_cfg m) /\
    (forall sio, quiet = true -> sy_sync sio = None -> (forall x, clean_write (sy_cp sio x)) ->
       (forall a, active m = Some a -> syncErr (s_writer a) = None) ->
       exists s'', commit sio q s' = Some (None, s'') /\ seg_ok s'' (l ++ [data]) /\
         baseOffset s'' = baseOffset s' /\ syncErr (s_writer s'') = None /\
         f_synced (w_file (s_writer s'')) = length (f_data (w_file (s_writer s'')))).
Proof.
  intros Hm Hp Hio Hn.
  destruct (mgr_split _ _ Hm) as (_ & s & _ & _ & _ & _ & Ha & _).
  destruct (maybe_roll_inv io m logs s Hm Ha Hio Hn)
    as (m1 & ss1 & s1 & ls1 & l1 & Hroll & Hm1 & Hss1 & Hs1 & Hj1 & Hz1 & He1 & Hc1 & Hb1 & Herr1).
  pose proof (mi_max _ _ Hm).
  destruct (seg_reserve s1 l1 data now Hs1 Hp) as (s' & q & Hres & Hs' & Hb' & _ & _ & Hcommit).
  { apply fits_small; [apply Hm|done|lia]. } { lia. }
  destruct (mgr_inv_update m1 ss1 s1 ls1 l1 s' (l1 ++ [data])) as [Hm2 He2]; try done.
  exists (set_segments (ss1 ++ [s']) m1), ss1, s', ls1, l1, (baseOffset s1), (zlen l1), q.
  unfold append_reserve. rewrite Ha, Hroll.
  assert (active m1 = Some s1) as -> by (unfold active; by rewrite Hss1, last_snoc).
  rewrite Hres, Hss1, update_last_snoc. split_and!; try done.
  - pose proof (sv_range _ _ Hs1). unfold is_u64. pose proof (zlen_nonneg l1). lia.
  - rewrite join_app, <- Hj1, join_app, <- app_assoc. simpl. by rewrite !app_nil_r.
  - by rewrite He2.
  - intros sio Hq Hsy Hcp Herr. destruct (Hcommit sio) as (s'' & ? & ? & Hbb & _ & ? & ?); try done.
    { by apply Herr1, Herr. } { by apply Hs1. }
    exists s''. split_and!; try done. congruence.
Qed.

(** [Append] as a whole, with a working disk. *)
Lemma Append_run io sio data now m logs :
  quiet = true -> mgr_ok m logs -> payload_ok data -> sg_ok io -> Mgr_NextOffset m + 1 < 2 ^ 64 ->
  sy_sync sio = None -> (forall x, clean_write (sy_cp sio x)) ->
  (forall a, active m = Some a -> syncErr (s_writer a) = None) ->
  exists m' logs' a, Mgr_Append io WOk sio data now m = Some (Ok (Mgr_NextOffset m), m') /\
    mgr_ok m' logs' /\ mjoin logs' = mjoin logs ++ [data] /\
    EarliestOffset m' = EarliestOffset m /\ m_cfg m' = m_cfg m /\
    active m' = Some a /\ syncErr (s_writer a) = None /\
    f_synced (w_file (s_writer a)) = length (f_data (w_file (s_writer a))) /\
    Seg_Size a < MaxSegmentBytes (m_cfg m) + Z.of_nat (hdr c) + zlen data.
Proof.
  intros Hq Hm Hp Hio Hn Hsy Hcp Herr.
  destruct (append_reserve_inv io data now m logs Hm Hp Hio Hn)
    as (m1 & ss & s' & ls & l & base & lo & q & Hrun & Hoff & Hu & Hm1 & Hj & He & Hcfg & Hss & Hz & Hc1).
  destruct (Hc1 sio Hq Hsy Hcp Herr) as (s'' & Hcom & Hs'' & Hb'' & Herr'' & Hsync).
  destruct (mgr_inv_update m1 ss s' ls (l ++ [data]) s'' (l ++ [data])) as [Hm2 He2]; try done.
  exists (set_segments (ss ++ [s'']) m1), (ls ++ [l ++ [data]]), s''.
  assert ((ss ++ [s']) !! length ss = Some s') as Hlast by by rewrite lookup_app_r, Nat.sub_diag by lia.
  unfold Mgr_Append. rewrite Hrun. unfold append_commit. rewrite Hss, length_app. simpl.
  replace (length ss + 1 - 1)%nat with (length ss) by lia.
  rewrite Hlast, Hcom, u64_small, Hoff by done.
  rewrite insert_app_r_alt, Nat.sub_diag by lia. cbn [list_insert insert].
  split_and!; try done.
  - by rewrite He2.
  - unfold active. cbn. by rewrite last_snoc.
  - rewrite (seg_size _ _ Hs''), encode_log_app, encode_log_singleton, zlen_app.
    unfold zlen at 2. rewrite (length_encode_record c). unfold zlen in *. lia.
Qed.

(** [ReadAt] is lookup in the whole log. *)
Lemma Mgr_ReadAt_run m logs o :
  mgr_ok m logs -> is_u64 o ->
  Mgr_ReadAt no_fault o m =
  Some (if o <? EarliestOffset m then Err (OffsetOutOfRetentionError o (EarliestOffset m))
        else match mjoin logs !! Z.to_nat (o - EarliestOffset m) with
             | Some x => Ok x | None => Err EOF end).
Proof.
  intros Hm Hu. pose proof (segmentFor_spec m _ _ o (mi_chain _ _ Hm)) as Hfor.
  unfold Mgr_ReadAt, read_pick. destruct (segmentFor o m) as [s|].
  - destruct Hfor as (k & l & _ & Hl & Hb & Ho & Hs). pose proof (zlen_nonneg (mjoin (take k logs))).
    unfold is_u64 in Hu. rewrite (seg_read s l o Hs) by lia.
    destruct (Z.ltb_spec o (EarliestOffset m)); [lia|].
    rewrite (mjoin_lookup logs k l) by (done || lia). 
    by replace (o - EarliestOffset m - zlen (mjoin (take k logs))) with (o - baseOffset s) by lia.
  - destruct (Z.ltb_spec o (EarliestOffset m)); [done|].
    rewrite lookup_ge_None_2; [done|]. unfold zlen in Hfor. lia.
Qed.

(** ** Retention *)

(** The detached prefix: all expired, within the cap, never the active
    segment, and as long as these allow. *)
Lemma victims_spec k cutoff limit n0 ss :
  let n := victims k cutoff limit n0 ss in
  exists j, n = (n0 + j)%nat /\ (j <= k)%nat /\ (j <= length ss)%nat /\
    (forall i s, (i < j)%nat -> ss !! i = Some s -> LastAppend s <= cutoff) /\
    (0 < limit -> Z.of_nat n0 <= limit -> Z.of_nat n <= limit) /\
    (j = k \/ j = length ss \/ (exists s, ss !! j = Some s /\ cutoff < LastAppend s) \/
     (0 < limit /\ limit <= Z.of_nat n)).
Proof.
  revert n0 ss. induction k as [|k IH]; intros n0 ss.
  { exists 0%nat. split_and!; simpl; try lia; try tauto. }
  destruct ss as [|s ss].
  { exists 0%nat. split_and!; simpl; try lia; try tauto. }
  cbn [victims].
  destruct (Z.ltb_spec cutoff (LastAppend s)).
  { exists 0%nat. split_and!; try lia. do 2 right. left. by exists s. }
  destruct (Z.ltb_spec 0 limit); cbn [andb].
  - destruct (Z.leb_spec limit (Z.of_nat n0)).
    { exists 0%nat. split_and!; try lia. }
    destruct (IH (S n0) ss) as (j & Hn & Hk & Hl & Hall & Hlim & Hmax).
    exists (S j). rewrite Hn in *. split_and!; try (simpl; lia).
    + intros [|i] x Hi Hx; simpl in *; [congruence|]. apply (Hall i x); [lia|done].
    + destruct Hmax as [->|[->|[?|?]]]; simpl; tauto.
  - destruct (IH (S n0) ss) as (j & Hn & Hk & Hl & Hall & Hlim & Hmax).
    exists (S j). rewrite Hn in *. split_and!; try (simpl; lia).
    + intros [|i] x Hi Hx; simpl in *; [congruence|]. apply (Hall i x); [lia|done].
    + destruct Hmax as [->|[->|[?|?]]]; simpl; tauto.
Qed.

(** Deleting touches no name but those of the deleted segments. *)
Lemma delete_segment_dir io seg x d name :
  name <> Path seg -> name <> IndexPath seg ->
  d_files (delete_segment io seg x d).2 !! name = d_files d !! name.
Proof.
  intros H1 H2. unfold delete_segment. destruct (Seg_Close (del_close io) seg) as [cerr seg'].
  destruct cerr; [|destruct (del_log io); [|destruct (del_index io)]]; cbn;
    by rewrite ?lookup_insert_ne by congruence.
Qed.

(** How many segments one pass detaches. *)
Definition retention_count (now2 : Z) (m : Manager) : nat :=
  victims (length (segments m) - 1) (now2 - Retention (m_cfg m)) (MaxDeletesPerRun (m_cfg m)) 0
    (segments m).

Lemma retention_lt now2 m logs : mgr_ok m logs -> (retention_count now2 m < length (segments m))%nat.
Proof.
  intros Hm. unfold retention_count.
  destruct (victims_spec (length (segments m) - 1) (now2 - Retention (m_cfg m))
    (MaxDeletesPerRun (m_cfg m)) 0 (segments m)) as (j & -> & ? & _).
  pose proof (mi_ne _ _ Hm). destruct (segments m); [done|]. simpl in *. lia.
Qed.

Lemma RunRetention_segments now1 now2 io m :
  segments (RunRetention now1 now2 io m) = drop (retention_count now2 m) (segments m) /\
  m_cfg (RunRetention now1 now2 io m) = m_cfg m /\ m_csum (RunRetention now1 now2 io m) = m_csum m.
Proof.
  unfold RunRetention, retention_detach, retention_count. cbn zeta.
  by destruct (delete_segments _ _ _ _ _) as [x d].
Qed.

(** The active segment stays. *)
Lemma RunRetention_active now1 now2 io m logs :
  mgr_ok m logs -> active (RunRetention now1 now2 io m) = active m.
Proof.
  intros Hm. pose proof (retention_lt now2 m logs Hm) as Hn.
  destruct (mgr_split _ _ Hm) as (ss & s & _ & _ & Hss & _).
  unfold active. rewrite (proj1 (RunRetention_segments now1 now2 io m)), Hss.
  rewrite Hss, length_app in Hn. simpl in Hn. by rewrite drop_app_le, !last_snoc by lia.
Qed.

(** Base offsets of the first [n] segments. *)
Lemma chain_base_lt b ss logs k s n :
  chain_ok b ss logs -> ss !! k = Some s -> (k < n)%nat -> (n < length ss)%nat ->
  0 <= baseOffset s /\ baseOffset s < b + zlen (mjoin (take n logs)) /\
  s_path s = SegmentFileName (baseOffset s).
Proof.
  intros Hch Hk Hkn Hlt. destruct (chain_lookup _ _ _ _ _ Hch Hk) as (l & Hl & Hs & Hb & Hne).
  specialize (Hne ltac:(lia)). destruct (sv_range _ _ Hs). split_and!; [done| |apply Hs].
  pose proof (mjoin_take_S _ _ _ Hl). pose proof (mjoin_take_le logs (S k) n).
  assert (0 < zlen l) by (destruct l; [done|]; unfold zlen; simpl; lia). lia.
Qed.

(** Phase A: the live segments are the suffix behind the victims. *)
Lemma detach_inv now1 now2 m logs :
  mgr_ok m logs ->
  let m1 := (retention_detach now1 now2 m).2 in
  let n := retention_count now2 m in
  mgr_ok m1 (drop n logs) /\
  EarliestOffset m1 = EarliestOffset m + zlen (mjoin (take n logs)) /\
  Mgr_NextOffset m1 = Mgr_NextOffset m.
Proof.
  intros Hm m1 n. pose proof (retention_lt now2 m logs Hm) as Hn. fold n in Hn.
  assert (segments m1 = drop n (segments m)) as Hseg by done.
  destruct (mgr_split _ _ Hm) as (ss & s & ls & l & Hss & Hl & Ha & Hs & Hb & Hnext).
  assert (active m1 = active m) as Hact.
  { unfold active. rewrite Hseg, Hss. rewrite Hss, length_app in Hn. simpl in Hn.
    by rewrite drop_app_le, !last_snoc by lia. }
  pose proof (chain_drop _ _ _ n (mi_chain _ _ Hm) ltac:(lia)) as Hch.
  assert (EarliestOffset m1 = EarliestOffset m + zlen (mjoin (take n logs))) as Hearl.
  { unfold EarliestOffset at 1. rewrite Hseg. destruct (drop n (segments m)) as [|s0 ss0] eqn:Hd.
    - apply (f_equal length) in Hd. rewrite length_drop in Hd. simpl in Hd. lia.
    - destruct (drop n logs); [done|]. apply Hch. }
  split; [|split; [done|unfold Mgr_NextOffset; by rewrite Hact]].
  split; try apply Hm.
  - by rewrite Hearl, Hseg.
  - rewrite Hseg. intros Hd%(f_equal length). rewrite length_drop in Hd. simpl in Hd. lia.
  - rewrite Hearl. intros b Hbn Hu. pose proof (zlen_nonneg (mjoin (take n logs))).
    apply (mi_dir _ _ Hm); [lia|done].
Qed.

(** Phase B: deleting a segment below the live ones touches no name a roll or
    a live segment uses. *)
Lemma delete_inv io seg m logs :
  mgr_ok m logs -> s_path seg = SegmentFileName (baseOffset seg) ->
  0 <= baseOffset seg < EarliestOffset m ->
  let '(x, d) := delete_segment io seg (Metrics m) (m_dir m) in
  mgr_ok (set_metrics x (set_dir d m)) logs.
Proof.
  intros Hm Hp Hb.
  pose proof (delete_segment_dir io seg (Metrics m) (m_dir m)) as Hdir.
  destruct (delete_segment io seg (Metrics m) (m_dir m)) as [x d]. cbn [snd] in Hdir.
  split; try apply Hm. intros b Hbn Hu. cbn in Hbn |- *. change (EarliestOffset m <= b) in Hbn.
  assert (is_u64 (baseOffset seg)) by (unfold is_u64 in *; lia).
  rewrite !Hdir; [by apply (mi_dir _ _ Hm)|..]; unfold Path, IndexPath; rewrite Hp.
  - intros Heq. by apply (segment_ne_index (baseOffset seg) b).
  - intros ?%indexFileName_inj; [lia|done..].
  - intros ?%SegmentFileName_inj; [lia|done..].
  - apply segment_ne_index.
Qed.

Lemma delete_all_inv io i vs m logs :
  mgr_ok m logs ->
  (forall s, s ∈ vs -> s_path s = SegmentFileName (baseOffset s) /\ 0 <= baseOffset s < EarliestOffset m) ->
  let '(x, d) := delete_segments io i vs (Metrics m) (m_dir m) in
  mgr_ok (set_metrics x (set_dir d m)) logs.
Proof.
  revert i m. induction vs as [|s vs IH]; intros i m Hm Hvs; cbn [delete_segments].
  { by destruct m. }
  destruct (Hvs s) as [Hp Hb]; [by left|].
  pose proof (delete_inv (io i) s m logs Hm Hp Hb) as Hm1.
  destruct (delete_segment (io i) s (Metrics m) (m_dir m)) as [x d].
  apply (IH (S i) (set_metrics x (set_dir d m))); [done|].
  intros t Ht. apply Hvs. by right.
Qed.

Lemma RunRetention_inv now1 now2 io m logs :
  mgr_ok m logs ->
  let m' := RunRetention now1 now2 io m in
  let n := retention_count now2 m in
  mgr_ok m' (drop n logs) /\
  EarliestOffset m' = EarliestOffset m + zlen (mjoin (take n logs)) /\
  Mgr_NextOffset m' = Mgr_NextOffset m.
Proof.
  intros Hm m' n. destruct (detach_inv now1 now2 m logs Hm) as (Hm1 & He & Hn). fold n in Hm1, He.
  unfold m', RunRetention.
  assert ((retention_detach now1 now2 m).1 = take n (segments m)) as Hvs by done.
  destruct (retention_detach now1 now2 m) as [vs m1]. cbn in Hm1, He, Hn, Hvs. subst vs.
  pose proof (delete_all_inv io 0 (take n (segments m)) m1 _ Hm1) as Hd.
  destruct (delete_segments _ _ _ _ _) as [x d]. split; [|done]. apply Hd.
  pose proof (retention_lt now2 m logs Hm) as Hlt. fold n in Hlt.
  intros t (k & Hk)%list_elem_of_lookup. pose proof (lookup_lt_Some _ _ _ Hk) as Hkn.
  rewrite length_take in Hkn. rewrite lookup_take_lt in Hk by lia.
  destruct (chain_base_lt _ _ _ _ _ n (mi_chain _ _ Hm) Hk ltac:(lia) Hlt) as (? & ? & ?).
  split; [done|lia].
Qed.
End Mgr.

Arguments seg_ok c quiet seg log : clear implicits.
Arguments chain_ok c quiet b ss logs : clear implicits.
Arguments mgr_ok c quiet m logs : clear implicits.

(** A quiet manager satisfies the weaker invariant. *)
Lemma seg_ok_weaken c seg log : seg_ok c true seg log -> seg_ok c false seg log.
Proof. intros []. by split. Qed.

Lemma chain_ok_weaken c b ss logs : chain_ok c true b ss logs -> chain_ok c false b ss logs.
Proof.
  revert b logs. induction ss as [|s ss IH]; intros b [|l logs]; try done.
  intros (? & ? & ? & ?). cbn. split_and!; try done; [by apply seg_ok_weaken|by apply IH].
Qed.

Lemma mgr_ok_weaken c m logs : mgr_ok c true m logs -> mgr_ok c false m logs.
Proof. intros []. split; try done. by apply chain_ok_weaken. Qed.

(** The invariants of a manager with a single caller. *)
Notation seg_inv c := (seg_ok c true).
Notation chain c := (chain_ok c true).
Notation mgr_inv c := (mgr_ok c true).

(** What phase 1 of an append does to the segments: the others are untouched;
    the last one got the record, and is either the active one or a new one. *)
Lemma append_reserve_shape io wo data now m b lo q m1 :
  append_reserve io wo data now m = Some (Ok (b, lo, q), m1) ->
  exists ss s s', segments m1 = ss ++ [s'] /\ reserve wo data now s = (Ok (lo, q), s') /\
    (forall x, x ∈ ss -> x ∈ segments m) /\
    (active m = Some s \/ exists d, NewSegment io (Mgr_NextOffset m) (m_csum m) (m_dir m) = Some (Ok s, d)).
Proof.
  unfold append_reserve. destruct (active m) as [a|] eqn:Ha; [|done].
  destruct (proj1 (last_Some _ _) Ha) as [ss0 Hss0].
  assert (forall m2, (if MaxSegmentBytes (m_cfg m) <=? Seg_Size a then roll io m else Some (None, m)) = Some (None, m2) ->
    exists ss s, segments m2 = ss ++ [s] /\ (forall x, x ∈ ss -> x ∈ segments m) /\
      (active m = Some s \/ exists d, NewSegment io (Mgr_NextOffset m) (m_csum m) (m_dir m) = Some (Ok s, d))) as Hroll.
  { intros m2. destruct (_ <=? _).
    - unfold roll, Mgr_NextOffset. rewrite Ha. destruct (NewSegment _ _ _ _) as [[[s|e] d]|]; try done.
      intros [= <-]. exists (segments m), s. split_and!; [done..|]. right. by exists d.
    - intros [= <-]. exists ss0, a. split_and!; [done|rewrite Hss0; set_solver|by left]. }
  destruct (if _ <=? _ then _ else _) as [[[e|] m2]|]; [done| |done].
  destruct (Hroll m2 eq_refl) as (ss & s & Hss & Hin & Hs).
  assert (active m2 = Some s) as -> by (unfold active; by rewrite Hss, last_snoc).
  destruct (reserve wo data now s) as [[[lo' q']|e] s'] eqn:Hres; [|done]. intros [= _ -> -> <-].
  rewrite Ha in Hs. exists ss, s, s'. cbn [segments set_segments]. by rewrite Hss, update_last_snoc.
Qed.

(** No file is in the way of the next segment. *)
Lemma next_free c {Hc : ChecksumOk c} m logs :
  mgr_inv c m logs -> Mgr_NextOffset m + 1 < 2 ^ 64 ->
  0 <= Mgr_NextOffset m /\ d_files (m_dir m) !! SegmentFileName (Mgr_NextOffset m) = None /\
  d_files (m_dir m) !! indexFileName (SegmentFileName (Mgr_NextOffset m)) = None.
Proof.
  intros Hm Hn. destruct (mgr_split c _ _ Hm) as (_ & a & _ & l & _ & _ & Ha & Hs & _ & Hnext).
  pose proof (sv_range _ _ _ Hs). pose proof (zlen_nonneg l).
  assert (0 <= Mgr_NextOffset m) by (unfold Mgr_NextOffset; rewrite Ha, (seg_next c _ _ Hs); lia).
  split; [done|]. apply (mi_dir _ _ _ Hm); [rewrite Hnext; pose proof (zlen_nonneg (mjoin logs)); lia|unfold is_u64; lia].
Qed.
