(* ===== verification/MgrOpen.v ===== *)
(** * MgrOpen: reopening a segmented log

    [files_ok d b logs] describes a log directory as a clean shutdown or a
    crash leaves it: a file and an index per segment, each segment starting
    where the previous one ends.  [Open] on such a directory finds exactly
    these segments and satisfies the manager's invariant. *)

From Stdlib Require Import ZArith Lia Strings.String Strings.Ascii.
From stdpp Require Import base list list_numbers numbers option gmap sorting strings.
From coqutil Require Import Byte.
From S2P Require Import Prelude Bytes Golib Index Checksum Wal WalFormat WalInv Crash WalProps Segment Manager MgrInv.

Local Open Scope Z_scope.

(** Base offsets of consecutive segments holding [logs], from [b]. *)
Fixpoint bases (b : Z) (logs : list (list (list byte))) : list Z :=
  match logs with
  | [] => []
  | l :: logs' => b :: bases (b + zlen l) logs'
  end.

(** Only the last segment may be empty, and offsets stay below [2^64]. *)
Fixpoint bases_ok (b : Z) (logs : list (list (list byte))) : Prop :=
  match logs with
  | [] => True
  | l :: logs' =>
      0 <= b /\ b + zlen l < 2 ^ 64 /\ (logs' <> [] -> l <> []) /\ bases_ok (b + zlen l) logs'
  end.

Lemma bases_ge b logs x : x ∈ bases b logs -> b <= x.
Proof.
  revert b. induction logs as [|l logs IH]; intros b; simpl; [by intros ?%not_elem_of_nil|].
  intros [->|Hx]%elem_of_cons; [done|]. pose proof (zlen_nonneg l). specialize (IH _ Hx). lia.
Qed.

Lemma bases_gt b l logs x : bases_ok b (l :: logs) -> x ∈ bases (b + zlen l) logs -> b < x.
Proof.
  intros (_ & _ & Hne & _) Hx. pose proof (bases_ge _ _ _ Hx).
  destruct logs as [|l' logs]; [by apply not_elem_of_nil in Hx|].
  assert (l <> []) by by apply Hne. destruct l; [done|]. unfold zlen in *. simpl in *. lia.
Qed.

Lemma bases_u64 b logs x : bases_ok b logs -> x ∈ bases b logs -> is_u64 x.
Proof.
  revert b. induction logs as [|l logs IH]; intros b; simpl; [by intros _ ?%not_elem_of_nil|].
  intros (? & ? & _ & Hok) [->|Hx]%elem_of_cons; [|by apply (IH _ Hok)].
  unfold is_u64. pose proof (zlen_nonneg l). lia.
Qed.

Lemma bases_sorted b logs : bases_ok b logs -> StronglySorted Z.lt (bases b logs).
Proof.
  revert b. induction logs as [|l logs IH]; intros b Hok; simpl; [constructor|].
  constructor; [by apply IH, Hok|]. apply Forall_forall. intros x Hx. by eapply bases_gt.
Qed.

(** ** Discovery *)

(** The segment names of the directory are exactly those of the bases [bs]. *)
Record names_ok (d : dir) (bs : list Z) : Prop := {
  nk_present : forall x, x ∈ bs -> is_Some (d_files d !! SegmentFileName x);
  nk_only : forall name x, is_Some (d_files d !! name) -> entry_base (name, false) = Some x ->
    x ∈ bs /\ name = SegmentFileName x
}.

(** Base offsets in the order the manager keeps its segments. *)
Definition bases_sorted_ok (bs : list Z) : Prop := StronglySorted Z.lt bs /\ Forall is_u64 bs.

Lemma bases_sorted_bases b logs : bases_ok b logs -> bases_sorted_ok (bases b logs).
Proof.
  intros Hok. split; [by apply bases_sorted|]. apply Forall_forall. intros x. by apply bases_u64.
Qed.

Lemma sorted_NoDup bs : StronglySorted Z.lt bs -> NoDup bs.
Proof.
  induction 1 as [|x l _ IH Hf]; constructor; [|done].
  intros Hx. rewrite Forall_forall in Hf. specialize (Hf _ Hx). lia.
Qed.

Lemma omap_none {A B} (f : A -> option B) (l : list A) : (forall x, x ∈ l -> f x = None) -> omap f l = [].
Proof.
  induction l as [|x l IH]; intros H; [done|]. cbn. rewrite (H x) by by left.
  apply IH. intros y Hy. apply H. by right.
Qed.

Lemma omap_inverse {A B} (f : A -> option B) (g : B -> A) (l : list B) :
  (forall x, x ∈ l -> f (g x) = Some x) -> omap f (g <$> l) = l.
Proof.
  induction l as [|x l IH]; intros H; [done|]. cbn. rewrite (H x) by by left. f_equal.
  apply IH. intros y Hy. apply H. by right.
Qed.

(** The names split into those of the segments and names that are none. *)
Lemma segment_names d bs :
  bases_sorted_ok bs -> names_ok d bs ->
  exists rest, (map_to_list (d_files d)).*1 ≡ₚ (SegmentFileName <$> bs) ++ rest /\
    forall n, n ∈ rest -> entry_base (n, false) = None.
Proof.
  intros [Hsort Hu] [Hin Honly]. rewrite Forall_forall in Hu. set (F := (map_to_list (d_files d)).*1).
  assert (forall name, name ∈ F <-> is_Some (d_files d !! name)) as HF.
  { intros name. unfold F. rewrite list_elem_of_fmap. split.
    - intros ([n f] & -> & Hf%elem_of_map_to_list). simpl. by rewrite Hf.
    - intros [f Hf]. exists (name, f). by rewrite elem_of_map_to_list. }
  assert (NoDup F) as HND by apply NoDup_fst_map_to_list.
  destruct (submseteq_Permutation (SegmentFileName <$> bs) F) as [rest Hrest].
  { apply NoDup_submseteq.
    - apply NoDup_fmap_2_strong; [|by apply sorted_NoDup].
      intros x y Hx Hy. apply SegmentFileName_inj; by apply Hu.
    - intros n (x & -> & Hx)%list_elem_of_fmap. by apply HF, Hin. }
  exists rest. split; [done|]. rewrite Hrest in HND. apply NoDup_app in HND as (_ & Hdisj & _).
  intros n Hn. destruct (entry_base (n, false)) as [x|] eqn:He; [|done].
  destruct (Honly n x) as [Hx ->]; [apply HF; rewrite Hrest; apply elem_of_app; by right|done|].
  exfalso. apply (Hdisj (SegmentFileName x)); [|done]. apply list_elem_of_fmap. by exists x.
Qed.

Lemma discover_bases d bs :
  bases_sorted_ok bs -> names_ok d bs ->
  discoverBaseOffsets None (dir_entries d) = Ok bs.
Proof.
  intros Hok Hnames. unfold discoverBaseOffsets. f_equal.
  destruct (segment_names d bs Hok Hnames) as (rest & Hperm & Hrest).
  destruct Hok as [Hs Hu]. rewrite Forall_forall in Hu.
  assert (omap entry_base (dir_entries d) ≡ₚ bs) as Hp.
  { unfold dir_entries. rewrite omap_app.
    rewrite (omap_none _ (_ <$> d_dirs d)), app_nil_r by by intros x (n & -> & _)%list_elem_of_fmap.
    transitivity (omap entry_base ((fun n => (n, false)) <$> ((SegmentFileName <$> bs) ++ rest))).
    { apply omap_Permutation, fmap_Permutation, Hperm. }
    rewrite fmap_app, omap_app, (omap_none _ (_ <$> rest)).
    2:{ intros x (n & -> & Hn)%list_elem_of_fmap. by apply Hrest. }
    rewrite app_nil_r, <- list_fmap_compose.
    rewrite (omap_inverse _ ((fun n => (n, false)) ∘ SegmentFileName)); [done|].
    intros x Hx. by apply entry_base_segment, Hu. }
  apply (Sorted_unique Z.le).
  - apply Sorted_merge_sort. intros x y. lia.
  - apply StronglySorted_Sorted.
    clear -Hs. induction Hs as [|x l Hs IH Hf]; constructor; [done|].
    eapply Forall_impl; [exact Hf|]. simpl. lia.
  - transitivity (omap entry_base (dir_entries d)); [apply merge_sort_Permutation|done].
Qed.

(** ** Opening *)

Section Open.
Context (c : Checksum) {Hc : ChecksumOk c}.

(** The files of a contiguous log: each segment's are recoverable and hold its
    records. *)
Fixpoint files_ok (d : dir) (b : Z) (logs : list (list (list byte))) : Prop :=
  match logs with
  | [] => True
  | l :: logs' =>
      (exists disk idx, d_files d !! SegmentFileName b = Some disk /\
         d_files d !! indexFileName (SegmentFileName b) = Some idx /\ disk_ok c disk idx l) /\
      files_ok d (b + zlen l) logs'
  end.

Lemma take_segment_other x y d :
  is_u64 x -> is_u64 y -> x <> y ->
  d_files (take_segment x d) !! SegmentFileName y = d_files d !! SegmentFileName y /\
  d_files (take_segment x d) !! indexFileName (SegmentFileName y) =
    d_files d !! indexFileName (SegmentFileName y).
Proof.
  intros Hx Hy Hne. cbn. pose proof (segment_ne_index y x). pose proof (segment_ne_index x y).
  rewrite !lookup_delete_ne; try done; intros Heq.
  - by apply Hne, indexFileName_inj.
  - by apply Hne, SegmentFileName_inj.
Qed.

(** One segment's two files are recoverable and hold the records [l]. *)
Definition file_ok (d : dir) (bl : Z * list (list byte)) : Prop :=
  0 <= bl.1 /\ bl.1 + zlen bl.2 < 2 ^ 64 /\
  exists disk idx, d_files d !! SegmentFileName bl.1 = Some disk /\
    d_files d !! indexFileName (SegmentFileName bl.1) = Some idx /\ disk_ok c disk idx bl.2.

Lemma file_ok_take x d bl : is_u64 x -> x <> bl.1 -> file_ok d bl -> file_ok (take_segment x d) bl.
Proof.
  intros Hx Hne (Hb0 & Hb1 & disk & idx & Hd & Hi & Hok). split_and!; try done.
  destruct (take_segment_other x bl.1 d Hx) as [H1 H2]; [|done|].
  { unfold is_u64. pose proof (zlen_nonneg bl.2). lia. }
  exists disk, idx. by rewrite H1, H2.
Qed.

(** Every segment opens, in order; their files, and no others, leave the
    directory.  The segments need not be adjacent. *)
Lemma open_each io d bls acc :
  (forall x, sg_ok (io x)) -> bases_sorted_ok bls.*1 -> Forall (file_ok d) bls ->
  exists segs d', open_segments io c bls.*1 acc d = Some (Ok (acc ++ segs), d') /\
    Forall2 (fun s bl => seg_inv c s bl.2 /\ baseOffset s = bl.1 /\ syncErr (s_writer s) = None) segs bls /\
    (forall x, x ∈ bls.*1 -> d_files d' !! SegmentFileName x = None /\
       d_files d' !! indexFileName (SegmentFileName x) = None) /\
    (forall n, d_files d' !! n = None \/ d_files d' !! n = d_files d !! n).
Proof.
  intros Hio. revert d acc. induction bls as [|[b l] bls IH]; intros d acc [Hs Hu] Hf.
  { exists [], d. rewrite app_nil_r. split_and!; try done; [|by right].
    intros x. simpl. by intros ?%not_elem_of_nil. }
  cbn [fmap list_fmap fst] in *.
  apply StronglySorted_inv in Hs as [Hs Hgt]. apply Forall_cons in Hu as [Hub Hu].
  apply Forall_cons in Hf as [(Hb0 & Hb1 & disk & idx & Hd & Hi & Hdk) Hf]. cbn [fst snd] in *.
  destruct (open_log_run c NthIndex disk idx l) as (w & Hrun & Hw & Hsy & _ & He);
    [unfold is_u32, NthIndex; lia|done|].
  destruct (NewSegment_open c (quiet:=true) (io b) b d l w (length l) 0) as (seg & Hnew & Hseg & Hbase & Hwr & _);
    try done; [by rewrite Hd, Hi|].
  destruct (IH (take_segment b d) (acc ++ [seg])) as (segs & d' & Hopen & Hall & Hgone & Hkeep).
  { done. }
  { apply Forall_forall. intros bl Hin. rewrite Forall_forall in Hf. rewrite Forall_forall in Hgt.
    apply file_ok_take; [done| |by apply Hf]. specialize (Hgt bl.1). intros ->.
    assert (bl.1 < bl.1); [|lia]. apply Hgt, list_elem_of_fmap. by exists bl. }
  exists (seg :: segs), d'. cbn [open_segments]. rewrite Hnew, Hopen, <- app_assoc.
  split_and!; [done| | |].
  - constructor; [|done]. cbn. split_and!; [done..|by rewrite Hwr].
  - intros x [->|Hx]%elem_of_cons; [|by apply Hgone].
    assert (forall n, d_files (take_segment b d) !! n = None -> d_files d' !! n = None) as Hnone
      by (intros n Hn; destruct (Hkeep n) as [|Heq]; [done|by rewrite Heq]).
    split; apply Hnone; cbn; rewrite ?lookup_delete_None; tauto.
  - intros n. destruct (Hkeep n) as [|Heq]; [by left|]. rewrite Heq. cbn.
    destruct (decide (n = SegmentFileName b)) as [->|]; [left; apply lookup_delete_eq|].
    rewrite lookup_delete_ne by done.
    destruct (decide (n = indexFileName (SegmentFileName b))) as [->|]; [left; apply lookup_delete_eq|].
    right. by rewrite lookup_delete_ne.
Qed.

(** The segments of a contiguous log. *)
Lemma bases_zip b logs : (zip (bases b logs) logs).*1 = bases b logs.
Proof.
  apply fst_zip. revert b. induction logs as [|l logs IH]; intros b; simpl; [done|]. specialize (IH (b + zlen l)). lia.
Qed.

Lemma files_each d b logs : bases_ok b logs -> files_ok d b logs -> Forall (file_ok d) (zip (bases b logs) logs).
Proof.
  revert b. induction logs as [|l logs IH]; intros b; [done|]. intros (Hb0 & Hb1 & _ & Hok) [Hl Hf].
  constructor; [done|]. by apply IH.
Qed.

Lemma chain_each b logs segs :
  bases_ok b logs ->
  Forall2 (fun s bl => seg_inv c s bl.2 /\ baseOffset s = bl.1 /\ syncErr (s_writer s) = None) segs
    (zip (bases b logs) logs) ->
  chain c b segs logs /\ Forall (fun s => syncErr (s_writer s) = None) segs.
Proof.
  revert b segs. induction logs as [|l logs IH]; intros b segs Hok Hall.
  { apply Forall2_nil_inv_r in Hall as ->. done. }
  apply Forall2_cons_inv_r in Hall as (s & segs' & (Hs & Hb & He) & Hall & ->).
  destruct Hok as (_ & _ & Hne & Hok). destruct (IH _ _ Hok Hall) as [Hch Herr]. split; [|by constructor].
  simpl. split_and!; try done. intros Hs'. apply Hne. destruct logs; [|done].
  by apply Forall2_nil_inv_r in Hall.
Qed.

Lemma open_segments_run io d b logs acc :
  (forall x, sg_ok (io x)) -> bases_ok b logs -> files_ok d b logs ->
  exists segs d', open_segments io c (bases b logs) acc d = Some (Ok (acc ++ segs), d') /\
    chain c b segs logs /\ Forall (fun s => syncErr (s_writer s) = None) segs /\
    (forall x, x ∈ bases b logs -> d_files d' !! SegmentFileName x = None /\
       d_files d' !! indexFileName (SegmentFileName x) = None) /\
    (forall n, d_files d' !! n = None \/ d_files d' !! n = d_files d !! n).
Proof.
  intros Hio Hok Hf. pose proof (bases_zip b logs) as Hz.
  destruct (open_each io d (zip (bases b logs) logs) acc Hio) as (segs & d' & Hrun & Hall & Hgone & Hkeep).
  { rewrite Hz. by apply bases_sorted_bases. } { by apply files_each. }
  rewrite Hz in Hrun, Hgone. destruct (chain_each b logs segs Hok Hall) as [Hch Herr].
  by exists segs, d'.
Qed.

(** Index files from the first offset on belong to a segment. *)
Definition no_stray_index (d : dir) (b : Z) (logs : list (list (list byte))) : Prop :=
  forall x, is_u64 x -> b <= x -> x ∉ bases b logs ->
    d_files d !! indexFileName (SegmentFileName x) = None.

Definition cfg_ok (cfg : Config) : Prop :=
  MaxSegmentBytes cfg <= 2 ^ 61 /\ default NewCRC32C (cfg_Checksum cfg) = c.

Lemma Open_run io cfg d b logs :
  (forall x, sg_ok (io x)) -> cfg_ok cfg -> Size_ c < 2 ^ 32 -> logs <> [] ->
  bases_ok b logs -> names_ok d (bases b logs) -> files_ok d b logs -> no_stray_index d b logs ->
  exists m, Open None None io cfg d = Some (Ok m) /\ mgr_inv c m logs /\ EarliestOffset m = b /\
    m_cfg m = default_cfg cfg /\ Forall (fun s => syncErr (s_writer s) = None) (segments m).
Proof.
  intros Hio [Hmax Hcs] Hsz Hne Hok Hnames Hf Hstray. unfold Open.
  rewrite (discover_bases d (bases b logs) (bases_sorted_bases _ _ Hok) Hnames). cbn [default_cfg cfg_Checksum]. rewrite Hcs.
  assert ((match bases b logs with [] => [0] | _ => bases b logs end) = bases b logs) as ->
    by by destruct logs.
  destruct (open_segments_run io d b logs []) as (segs & d' & -> & Hch & Herr & Hgone & Hkeep); try done.
  eexists. split; [done|]. cbn [app].
  assert (segs <> []) as Hsegs.
  { intros ->. by destruct logs. }
  assert (EarliestOffset (mkManager (default_cfg cfg) c segs (mkMetrics 0 0 0 0 0) d') = b) as Hearl.
  { destruct segs as [|s segs]; [done|]. destruct logs; [done|]. apply Hch. }
  split; [|done].
  split; try done.
  - by rewrite Hearl.
  - cbn. case_if; unfold DefaultMaxSegmentBytes; blia.
  - intros x Hx Hu.
    rewrite Hearl in Hx.
    destruct (decide (x ∈ bases b logs)) as [Hin|Hnot]; [by apply Hgone|]. split.
    + destruct (Hkeep (SegmentFileName x)) as [|Heq]; [done|]. cbn [m_dir]. rewrite Heq.
      destruct (d_files d !! SegmentFileName x) eqn:Hd; [|done].
      destruct (nk_only _ _ Hnames (SegmentFileName x) x); [by rewrite Hd|by apply entry_base_segment|done].
    + destruct (Hkeep (indexFileName (SegmentFileName x))) as [|Heq]; [done|]. cbn [m_dir]. rewrite Heq.
      by apply Hstray.
Qed.
End Open.
