(* ===== verification/MgrProps.v ===== *)
(** * MgrProps: what the segmented log promises its callers

    The contract of [Manager] against the abstract log of [MgrInv.v], across
    rolls, retention, restarts and crashes, and two behaviours that fall short
    of it. *)

From Stdlib Require Import ZArith Lia Strings.String Strings.Ascii.
From stdpp Require Import base list list_numbers numbers option gmap sorting strings.
From coqutil Require Import Byte.
From S2P Require Import Prelude Bytes Golib Index Checksum Wal WalFormat WalInv Crash WalProps Segment Manager MgrInv MgrOpen.

Local Open Scope Z_scope.

(** ** Crashes *)

(** What a crash may leave of the log directory: of each open segment a
    crashed log and index file, and the other files of the directory. *)
Record crash_dir (m : Manager) (d : dir) : Prop := {
  cd_segments : forall s, s ∈ segments m ->
    exists disk idx, d_files d !! Path s = Some disk /\ crash_file (w_file (s_writer s)) disk /\
      d_files d !! IndexPath s = Some idx /\ crash_file (indexFile (w_store (s_writer s))) idx;
  cd_others : forall n f, d_files d !! n = Some f ->
    (exists s, s ∈ segments m /\ (n = Path s \/ n = IndexPath s)) \/ d_files (m_dir m) !! n = Some f
}.

(** No file of a deleted segment is left in the directory. *)
Definition no_leftovers (m : Manager) : Prop :=
  forall n, is_Some (d_files (m_dir m) !! n) -> entry_base (n, false) = None.

Section MgrCrash.
Context (c : Checksum) {Hc : ChecksumOk c}.

(** Every record of the segment is fsynced. *)
Definition seg_synced (s : Segment) : Prop :=
  f_synced (w_file (s_writer s)) = length (f_data (w_file (s_writer s))).

Lemma seg_crash s l disk idx :
  seg_inv c s l -> crash_file (w_file (s_writer s)) disk ->
  crash_file (indexFile (w_store (s_writer s))) idx ->
  exists i, (i <= length l)%nat /\ disk_ok c disk idx (take i l) /\
    (forall j, (j <= length l)%nat -> (rec_pos c l j <= f_synced (w_file (s_writer s)))%nat -> (j <= i)%nat) /\
    (seg_synced s -> i = length l).
Proof.
  intros Hs Hd Hi. destruct (sv_wal _ _ _ Hs) as (b & q & Hw).
  destruct (crash_disk_ok c _ _ _ _ _ _ Hw Hd Hi) as (i & Hil & Hdk & Hmax).
  exists i. split_and!; try done. intros Hsy. unfold seg_synced in Hsy.
  rewrite (wi_data _ _ _ _ _ Hw) in Hsy.
  assert (length l <= i)%nat; [|lia]. apply Hmax; [done|]. rewrite rec_pos_all. lia.
Qed.

(** A crash of a chain whose sealed segments are fsynced cuts its last
    segment only. *)
Lemma chain_crash m d b ss s ls l :
  crash_dir m d -> (forall x, x ∈ ss ++ [s] -> x ∈ segments m) ->
  chain c b (ss ++ [s]) (ls ++ [l]) -> (forall x, x ∈ ss -> seg_synced x) ->
  exists i, (i <= length l)%nat /\ files_ok c d b (ls ++ [take i l]) /\
    bases_ok b (ls ++ [take i l]) /\ bases b (ls ++ [take i l]) = baseOffset <$> (ss ++ [s]) /\
    (forall j, (j <= length l)%nat -> (rec_pos c l j <= f_synced (w_file (s_writer s)))%nat -> (j <= i)%nat) /\
    (seg_synced s -> i = length l).
Proof.
  intros Hcr. revert b ls. induction ss as [|x ss IH]; intros b ls Hin Hch Hsy.
  - destruct ls as [|y ls]; [|by destruct Hch as (_ & _ & _ & Hch); destruct ls].
    destruct Hch as (Hb & Hs & _). cbn [app] in *.
    destruct (cd_segments _ _ Hcr s) as (disk & idx & Hd & Hcd & Hi & Hci); [apply Hin; by left|].
    destruct (seg_crash s l disk idx Hs Hcd Hci) as (i & Hil & Hdk & Hmax & Hall).
    exists i. unfold Path, IndexPath in *. rewrite (sv_path _ _ _ Hs), Hb in Hd, Hi.
    split_and!; try done.
    + cbn. split; [|done]. by exists disk, idx.
    + pose proof (sv_range _ _ _ Hs). cbn. unfold zlen in *. rewrite length_take.
      split_and!; lia || done.
    + cbn. by rewrite Hb.
  - destruct ls as [|y ls]; [by destruct Hch as (_ & _ & _ & Hch); destruct ss|].
    destruct Hch as (Hb & Hx & Hne & Hch). cbn [app] in *.
    destruct (cd_segments _ _ Hcr x) as (disk & idx & Hd & Hcd & Hi & Hci); [apply Hin; by left|].
    destruct (seg_crash x y disk idx Hx Hcd Hci) as (i0 & _ & Hdk & _ & Hall).
    rewrite Hall, take_ge in Hdk by (done || apply Hsy; by left).
    destruct (IH (b + zlen y) ls) as (i & Hil & Hf & Hbo & Hbe & Hmax & Hlast).
    { intros z Hz. apply Hin. by right. } { done. } { intros z Hz. apply Hsy. by right. }
    unfold Path, IndexPath in *. rewrite (sv_path _ _ _ Hx), Hb in Hd, Hi.
    exists i. split_and!; try done.
    + cbn. split; [|done]. by exists disk, idx.
    + pose proof (sv_range _ _ _ Hx). cbn. split_and!; try lia; try done.
      intros _. apply Hne. by destruct ss.
    + cbn. by rewrite Hbe, Hb.
Qed.

Lemma names_after_crash m d b logs' :
  crash_dir m d -> no_leftovers m -> (forall s, s ∈ segments m -> s_path s = SegmentFileName (baseOffset s)) ->
  bases_ok b logs' -> bases b logs' = baseOffset <$> segments m -> names_ok d (bases b logs').
Proof.
  intros Hcr Hno Hp Hok Hb. split.
  - intros x. rewrite Hb. intros (s & -> & Hs)%list_elem_of_fmap.
    destruct (cd_segments _ _ Hcr s Hs) as (disk & idx & Hd & _). unfold Path in Hd.
    rewrite Hp in Hd by done. by rewrite Hd.
  - intros n x [f Hf] Hx. destruct (cd_others _ _ Hcr n f Hf) as [(s & Hs & [-> | ->])|Hm].
    + unfold Path in Hx |- *. rewrite Hp in Hx |- * by done.
      assert (baseOffset s ∈ bases b logs') as Hin by (rewrite Hb; apply list_elem_of_fmap; by exists s).
      rewrite entry_base_segment in Hx by by eapply bases_u64. by injection Hx as <-.
    + unfold IndexPath in Hx. rewrite Hp in Hx by done. by rewrite entry_base_index in Hx.
    + rewrite Hno in Hx; [done|by rewrite Hm].
Qed.

(** Reopening after a crash. *)
Lemma mgr_crash io cfg m logs d :
  mgr_inv c m logs -> no_leftovers m -> crash_dir m d ->
  (forall k s, (S k < length (segments m))%nat -> segments m !! k = Some s -> seg_synced s) ->
  (forall x, sg_ok (io x)) -> cfg_ok c cfg ->
  exists m' ls l i, Open None None io cfg d = Some (Ok m') /\ logs = ls ++ [l] /\
    mgr_inv c m' (ls ++ [take i l]) /\ EarliestOffset m' = EarliestOffset m /\
    (forall a, active m = Some a -> seg_synced a -> take i l = l) /\
    (forall a j, active m = Some a -> (j <= length l)%nat ->
       (rec_pos c l j <= f_synced (w_file (s_writer a)))%nat -> (j <= i)%nat).
Proof.
  intros Hm Hno Hcr Hsy Hio Hcfg.
  destruct (mgr_split c _ _ Hm) as (ss & s & ls & l & Hss & Hl & Ha & Hs & Hb & Hnext).
  pose proof (mi_chain _ _ _ Hm) as Hch. rewrite Hss, Hl in Hch.
  destruct (chain_crash m d (EarliestOffset m) ss s ls l) as (i & Hil & Hf & Hbo & Hbe & Hmax & Hall); try done.
  { by rewrite Hss. }
  { intros x (k & Hk)%list_elem_of_lookup. pose proof (lookup_lt_Some _ _ _ Hk).
    apply (Hsy k); rewrite Hss; [rewrite length_app; simpl; lia|]. by rewrite lookup_app_l. }
  assert (forall x, x ∈ segments m -> s_path x = SegmentFileName (baseOffset x)) as Hpath.
  { intros x (k & Hk)%list_elem_of_lookup.
    destruct (chain_lookup c _ _ _ _ _ (mi_chain _ _ _ Hm) Hk) as (y & _ & Hx & _). apply Hx. }
  rewrite <- Hss in Hbe.
  pose proof (names_after_crash m d _ _ Hcr Hno Hpath Hbo Hbe) as Hnames.
  destruct (Open_run c io cfg d (EarliestOffset m) (ls ++ [take i l])) as (m' & Hopen & Hm' & He & _);
    try done; [apply Hm|by destruct ls| |].
  { intros x Hu Hx Hnin. destruct (d_files d !! indexFileName (SegmentFileName x)) as [f|] eqn:Hd; [|done].
    exfalso. destruct (cd_others _ _ Hcr _ _ Hd) as [(t & Ht & [Heq|Heq])|Hmd].
    - unfold Path in Heq. rewrite (Hpath t Ht) in Heq. by apply (segment_ne_index (baseOffset t) x).
    - unfold IndexPath in Heq. rewrite (Hpath t Ht) in Heq.
      assert (baseOffset t ∈ bases (EarliestOffset m) (ls ++ [take i l])) as Hin
        by (rewrite Hbe; apply list_elem_of_fmap; by exists t).
      apply indexFileName_inj in Heq; [|done|by eapply bases_u64]. by subst x.
    - destruct (mi_dir _ _ _ Hm x Hx Hu) as [_ Hnone]. congruence. }
  exists m', ls, l, i. split_and!; try done.
  - intros a Ha'. rewrite Ha in Ha'. injection Ha' as <-. intros Hfull. by rewrite (Hall Hfull), take_ge.
  - intros a j Ha'. rewrite Ha in Ha'. injection Ha' as <-. apply Hmax.
Qed.
End MgrCrash.

(** ** A fresh log *)

Lemma Open_fresh c {Hc : ChecksumOk c} io cfg d :
  (forall x, sg_ok (io x)) -> cfg_ok c cfg -> Size_ c < 2 ^ 32 ->
  (forall n, is_Some (d_files d !! n) -> entry_base (n, false) = None) ->
  (forall b, is_u64 b -> d_files d !! indexFileName (SegmentFileName b) = None) ->
  exists m, Open None None io cfg d = Some (Ok m) /\ mgr_inv c m [[]] /\ EarliestOffset m = 0 /\
    m_cfg m = default_cfg cfg /\ (forall a, active m = Some a -> syncErr (s_writer a) = None).
Proof.
  intros Hio [Hmax Hcs] Hsz Hno Hidx.
  assert (forall b, is_u64 b -> d_files d !! SegmentFileName b = None) as Hlog.
  { intros b Hb. destruct (d_files d !! SegmentFileName b) eqn:Hd; [|done].
    pose proof (entry_base_segment b Hb) as H. by rewrite Hno in H. }
  assert (discoverBaseOffsets None (dir_entries d) = Ok []) as Hdisc.
  { apply discover_bases; [by split; constructor|]. split.
    - intros x. by intros ?%not_elem_of_nil.
    - intros n x Hn Hx. by rewrite Hno in Hx. }
  destruct (NewSegment_new c (quiet:=true) (io 0) 0 d) as (s & Hnew & Hs & Hb & He & _); try done.
  { by apply Hlog; unfold is_u64; lia. } { by apply Hidx; unfold is_u64; lia. }
  unfold Open. rewrite Hdisc. cbn [default_cfg cfg_Checksum open_segments]. rewrite Hcs, Hnew.
  eexists. split; [done|]. cbn [app]. split; [|split; [done|]; split; [done|by intros a [= <-]]].
  split; try done.
  - cbn. case_if; unfold DefaultMaxSegmentBytes; blia.
  - intros b _ Hu. cbn [m_dir take_segment take_file d_files].
    rewrite !lookup_delete_None. split; right; right; [by apply Hlog|by apply Hidx].
Qed.

Definition ex_sgio : segment_io := mkSegIo open_ok open_ok recover_io_ok None 0 None.
Definition ex_cfg : Config := mkConfig 20 1000 0 0 true None.
Definition ex_mgr : Manager :=
  match Open None None (fun _ => ex_sgio) ex_cfg (mkDir ∅ []) with
  | Some (Ok m) => m
  | _ => mkManager ex_cfg NewCRC32C [] (mkMetrics 0 0 0 0 0) (mkDir ∅ [])
  end.

Lemma ex_mgr_ok :
  mgr_inv NewCRC32C ex_mgr [[]] /\ EarliestOffset ex_mgr = 0 /\
  (forall a, active ex_mgr = Some a -> syncErr (s_writer a) = None).
Proof.
  destruct (Open_fresh NewCRC32C (fun _ => ex_sgio) ex_cfg (mkDir ∅ []))
    as (m & Hopen & Hm & He & _ & Herr); try done.
  { intros n [f Hf]. cbn in Hf. by apply lookup_empty_Some in Hf. }
  unfold ex_mgr. by rewrite Hopen.
Qed.

(** ** Results *)



(** [ReadAt] on the segmented log refines lookup in one list: an offset
    below the first segment is reported as out of retention with the earliest
    offset, an offset of the log returns its record from whichever segment
    holds it, and an offset at or past the head is [io.EOF]. *)
Theorem Mgr_ReadAt_refines c (Hc : ChecksumOk c) m logs o (Hm : mgr_inv c m logs) (Ho : is_u64 o) :
  Mgr_ReadAt no_fault o m =
  Some (if o <? EarliestOffset m then Err (OffsetOutOfRetentionError o (EarliestOffset m))
        else match mjoin logs !! Z.to_nat (o - EarliestOffset m) with
             | Some x => Ok x | None => Err EOF end).
Proof. by apply (Mgr_ReadAt_run c (quiet:=true)). Qed.

Lemma Mgr_ReadAt_refines_witness : Mgr_ReadAt no_fault 3 ex_mgr = Some (Err EOF).
Proof.
  destruct ex_mgr_ok as (Hm & He & _).
  rewrite (Mgr_ReadAt_refines NewCRC32C _ ex_mgr [[]] 3 Hm) by (unfold is_u64; lia).
  rewrite He. reflexivity.
Defined.


Definition ex_close : close_io := mkCloseIo None sync_io_ok None None.
Definition ex_del : nat -> delete_io := fun _ => mkDelIo ex_close None None.

(** Three appends at time 5: the third rolls to a second segment. *)
Definition ex_append (m : Manager) : Manager :=
  match Mgr_Append ex_sgio WOk sync_io_ok ex_data 5 m with
  | Some (_, m') => m'
  | None => m
  end.
Definition ex_mgr3 : Manager := ex_append (ex_append (ex_append ex_mgr)).

Lemma ex_append_ok m logs :
  mgr_inv NewCRC32C m logs -> Mgr_NextOffset m + 1 < 2 ^ 64 ->
  (forall a, active m = Some a -> syncErr (s_writer a) = None) ->
  exists logs', mgr_inv NewCRC32C (ex_append m) logs' /\
    (forall a, active (ex_append m) = Some a -> syncErr (s_writer a) = None).
Proof.
  intros Hm Hn Herr.
  destruct (Append_run NewCRC32C (quiet:=true) ex_sgio sync_io_ok ex_data 5 m logs)
    as (m' & logs' & a & Hrun & Hm' & _ & _ & _ & Ha & He & _); try done.
  unfold ex_append. rewrite Hrun. exists logs'. split; [done|]. intros a'. rewrite Ha. by intros [= <-].
Qed.

Lemma ex_mgr3_run :
  exists logs, mgr_inv NewCRC32C ex_mgr3 logs /\ (forall a, active ex_mgr3 = Some a -> syncErr (s_writer a) = None).
Proof.
  destruct ex_mgr_ok as (H0 & _ & E0).
  destruct (ex_append_ok _ _ H0) as (l1 & H1 & E1); [vm_compute; reflexivity|done|].
  destruct (ex_append_ok _ _ H1) as (l2 & H2 & E2); [vm_compute; reflexivity|done|].
  destruct (ex_append_ok _ _ H2) as (l3 & H3 & E3); [vm_compute; reflexivity|done|].
  by exists l3.
Qed.

Lemma ex_mgr3_ok : exists logs, mgr_inv NewCRC32C ex_mgr3 logs.
Proof. destruct ex_mgr3_run as (logs & Hm & _). by exists logs. Qed.


(** ** Restarts *)

Section Close.
Context (c : Checksum) {Hc : ChecksumOk c}.

(** A writer's own files can be reopened as they are. *)
Lemma wal_disk_ok b s w log :
  wal_inv c b s w log -> disk_ok c (w_file w) (indexFile (w_store w)) log.
Proof.
  intros Hw. split.
  - exists []. split; [by apply is_torn_nil|]. by rewrite app_nil_r, (wi_data _ _ _ _ _ Hw).
  - apply Hw.
  - rewrite (wi_data _ _ _ _ _ Hw). apply Hw.
  - apply Hw.
  - destruct (wi_store _ _ _ _ _ Hw) as [Hwf Hpos]. rewrite (wf_file _ Hwf). intros e He.
    assert (e ∈ entries (w_store w)) as Hin.
    { destruct (valid_entries_cut (entries (w_store w)) (length (encode_entries (entries (w_store w))))
        (wf_entries _ Hwf)) as [l Hl].
      rewrite firstn_all in Hl. rewrite Hl. apply elem_of_app. by left. }
    destruct (Hpos _ Hin) as (i & _ & Hi & ->). exists i. split_and!; try done.
    by apply (wi_index_durable _ _ _ _ _ Hw _ i Hin).
Qed.

Lemma Wal_Close_inv b s w log io :
  wal_inv c b s w log -> syncing w = false -> sy_sync io = None ->
  (forall x, clean_write (sy_cp io x)) ->
  exists w' s', Wal_Close io None w = (None, w') /\ wal_inv c b s' w' log.
Proof.
  intros Hw Hs Hio Hcp. destruct (syncErr w) as [e|] eqn:He.
  { exists w, s. unfold Wal_Close. by rewrite He, andb_false_r. }
  destruct (Nat.lt_ge_cases b (length log)) as [Hb|Hb].
  - destruct (Close_run c b s w log io) as (w' & Hrun & Hw'); try done. by eexists _, _.
  - exists w, s. unfold Wal_Close. pose proof (wi_bs _ _ _ _ _ Hw).
    rewrite (wi_synced _ _ _ _ _ Hw), (wi_write _ _ _ _ _ Hw).
    destruct (Z.ltb_spec (Z.of_nat s) (Z.of_nat (length log - b))); [lia|done].
Qed.

(** A close in which every system call succeeds. *)
Definition close_ok (io : close_io) : Prop :=
  cl_reader io = None /\ sy_sync (cl_sync io) = None /\ (forall x, clean_write (sy_cp (cl_sync io) x)) /\
  cl_writer io = None /\ cl_store io = None.

(** Files put back for one segment are not overwritten by later ones. *)
Lemma put_files_kept b s (ss : list Segment) fl fi d d' :
  s_path s = SegmentFileName b -> is_u64 b ->
  (forall t, t ∈ ss -> b < baseOffset t /\ is_u64 (baseOffset t)) ->
  (forall t, t ∈ ss -> s_path t = SegmentFileName (baseOffset t)) ->
  (forall n, (exists t, t ∈ ss /\ (n = Path t \/ n = IndexPath t)) \/
     d_files d' !! n = d_files (put_file (IndexPath s) fi (put_file (Path s) fl d)) !! n) ->
  d_files d' !! SegmentFileName b = Some fl /\ d_files d' !! indexFileName (SegmentFileName b) = Some fi.
Proof.
  intros Hp Hub Hlt Hpath Hkeep. split.
  - destruct (Hkeep (SegmentFileName b)) as [(t & Ht & [Heq|Heq])| ->].
    + unfold Path in Heq. rewrite Hpath in Heq by done. destruct (Hlt t Ht).
      apply SegmentFileName_inj in Heq; try done. lia.
    + unfold IndexPath in Heq. rewrite Hpath in Heq by done. by apply segment_ne_index in Heq.
    + unfold Path, IndexPath. cbn [put_file d_files]. rewrite Hp.
      rewrite lookup_insert_ne, lookup_insert_eq; [done|]. intros Heq. by apply (segment_ne_index b b).
  - destruct (Hkeep (indexFileName (SegmentFileName b))) as [(t & Ht & [Heq|Heq])| ->].
    + unfold Path in Heq. rewrite Hpath in Heq by done. by apply eq_sym, segment_ne_index in Heq.
    + unfold IndexPath in Heq. rewrite Hpath in Heq by done. destruct (Hlt t Ht).
      apply indexFileName_inj in Heq; try done. lia.
    + unfold IndexPath. cbn [put_file d_files]. rewrite Hp. by rewrite lookup_insert_eq.
Qed.

(** Closing writes every segment's files back to the directory. *)
Lemma closeAll_run io i b ss logs d :
  (forall x, close_ok (io x)) -> chain c b ss logs ->
  exists d', closeAll io i ss None d = (None, d') /\ files_ok c d' b logs /\
    bases_ok b logs /\ bases b logs = baseOffset <$> ss /\
    (forall n, (exists s, s ∈ ss /\ (n = Path s \/ n = IndexPath s)) \/ d_files d' !! n = d_files d !! n) /\
    (forall s, s ∈ ss -> s_path s = SegmentFileName (baseOffset s)).
Proof.
  intros Hio. revert i b logs d. induction ss as [|s ss IH]; intros i b [|l logs] d Hch; try done.
  { exists d. split_and!; try done; [by right|]. by intros s ?%not_elem_of_nil. }
  destruct Hch as (Hb & Hs & Hne & Hch). destruct (sv_wal _ _ _ Hs) as (b0 & s0 & Hw).
  destruct (Hio i) as (Hr & Hsy & Hcp & Hcw & Hcs).
  destruct (Wal_Close_inv b0 s0 _ l (cl_sync (io i)) Hw (sv_idle _ _ _ Hs eq_refl) Hsy Hcp)
    as (w' & s' & Hrun & Hw').
  cbn [closeAll]. unfold Seg_Close. rewrite Hcw, Hrun, Hr, Hcs. unfold Index_Close. cbn [set_writer s_writer].
  set (d1 := put_file _ _ (put_file _ _ d)).
  destruct (IH (S i) (b + zlen l) logs d1 Hch) as (d' & -> & Hf & Hbo & Hbe & Hkeep & Hpath).
  exists d'. assert (s_path s = SegmentFileName b) as Hp by by rewrite (sv_path _ _ _ Hs), Hb.
  pose proof (chain_length _ _ _ _ Hch) as Hlen.
  assert (bases_ok b (l :: logs)) as Hok.
  { pose proof (sv_range _ _ _ Hs). cbn. split_and!; try lia; try done.
    intros Hl. apply Hne. by destruct ss, logs. }
  assert (forall t, t ∈ ss -> b < baseOffset t /\ is_u64 (baseOffset t)) as Hlt.
  { intros t Ht. assert (baseOffset t ∈ bases (b + zlen l) logs) as Hin
      by (rewrite Hbe; apply list_elem_of_fmap; by exists t).
    split; [by eapply bases_gt|by apply (bases_u64 (b + zlen l) logs)]. }
  assert (is_u64 b) as Hub by (eapply bases_u64; [exact Hok|by left]).
  destruct (put_files_kept b s ss (w_file w') (indexFile (w_store w')) d d')
    as [H1 H2]; [done|done|done|done|exact Hkeep|].
  split_and!; try done.
  - cbn. split; [|done]. exists (w_file w'), (indexFile (w_store w')).
    split_and!; [done..|by eapply wal_disk_ok].
  - cbn. by rewrite Hbe, Hb.
  - intros n. destruct (Hkeep n) as [(t & Ht & Hn)|Heq].
    { left. exists t. split; [by right|done]. }
    destruct (decide (n = Path s)) as [->|Hn1]; [left; exists s; split; [by left|by left]|].
    destruct (decide (n = IndexPath s)) as [->|Hn2]; [left; exists s; split; [by left|by right]|].
    right. rewrite Heq. unfold d1. cbn [put_file d_files]. by rewrite !lookup_insert_ne.
  - intros t [->|Ht]%elem_of_cons; [by rewrite Hp, Hb|by apply Hpath].
Qed.

Lemma close_open_run io oio cfg m logs :
  mgr_inv c m logs -> no_leftovers m -> (forall x, close_ok (io x)) -> (forall x, sg_ok (oio x)) ->
  cfg_ok c cfg ->
  exists d m', Mgr_Close io m = (None, d) /\ Open None None oio cfg d = Some (Ok m') /\
    mgr_inv c m' logs /\ EarliestOffset m' = EarliestOffset m.
Proof.
  intros Hm Hno Hio Hoio Hcfg.
  destruct (closeAll_run io 0 _ _ _ (m_dir m) Hio (mi_chain _ _ _ Hm))
    as (d & Hrun & Hf & Hbo & Hbe & Hkeep & Hpath).
  destruct (Open_run c oio cfg d (EarliestOffset m) logs) as (m' & Hopen & Hm' & He & _); try done.
  - apply Hm.
  - intros ->. pose proof (chain_length _ _ _ _ (mi_chain _ _ _ Hm)) as Hlen.
    by apply (mi_ne _ _ _ Hm), nil_length_inv.
  - split.
    + intros x Hx. clear -Hf Hx. revert Hf Hx. generalize (EarliestOffset m). induction logs as [|l logs IH];
        intros b Hf Hx; [by apply not_elem_of_nil in Hx|].
      destruct Hf as [(disk & idx & Hd & _) Hf]. apply elem_of_cons in Hx as [->|Hx]; [by rewrite Hd|eauto].
    + intros n x Hn Hx. destruct (Hkeep n) as [(s & Hs & [-> | ->])|Heq].
      * unfold Path in Hx |- *. rewrite Hpath in Hx |- * by done.
        assert (baseOffset s ∈ bases (EarliestOffset m) logs) as Hin
          by (rewrite Hbe; apply list_elem_of_fmap; by exists s).
        rewrite entry_base_segment in Hx by by eapply bases_u64. by injection Hx as <-.
      * unfold IndexPath in Hx. rewrite Hpath in Hx by done. by rewrite entry_base_index in Hx.
      * rewrite Heq in Hn. by rewrite Hno in Hx.
  - intros x Hu Hx Hnin. destruct (Hkeep (indexFileName (SegmentFileName x))) as [(s & Hs & [Heq|Heq])|Heq].
    + unfold Path in Heq. rewrite Hpath in Heq by done. by apply eq_sym, segment_ne_index in Heq.
    + unfold IndexPath in Heq. rewrite Hpath in Heq by done.
      assert (baseOffset s ∈ bases (EarliestOffset m) logs) as Hin
        by (rewrite Hbe; apply list_elem_of_fmap; by exists s).
      apply indexFileName_inj in Heq; [by subst|done|by eapply bases_u64].
    + rewrite Heq. by apply (mi_dir _ _ _ Hm).
  - by exists d, m'.
Qed.
End Close.

(** Restart round trip.  Closing a log and opening its directory again
    gives back a log with the same earliest offset and the same records,
    segment by segment, however many segments there are. *)
Theorem close_open_roundtrip c (Hc : ChecksumOk c) io oio cfg m logs
  (Hm : mgr_inv c m logs) (Hno : no_leftovers m) (Hio : forall x, close_ok (io x))
  (Hoio : forall x, sg_ok (oio x)) (Hcfg : cfg_ok c cfg) :
  exists d m', Mgr_Close io m = (None, d) /\ Open None None oio cfg d = Some (Ok m') /\
    mgr_inv c m' logs /\ EarliestOffset m' = EarliestOffset m.
Proof. by apply close_open_run. Qed.

Lemma close_open_roundtrip_witness :
  exists d m', Mgr_Close (fun _ => ex_close) ex_mgr3 = (None, d) /\
    Open None None (fun _ => ex_sgio) ex_cfg d = Some (Ok m') /\ EarliestOffset m' = 0.
Proof.
  destruct ex_mgr3_ok as [logs Hm].
  destruct (close_open_roundtrip NewCRC32C _ (fun _ => ex_close) (fun _ => ex_sgio) ex_cfg ex_mgr3 logs Hm)
    as (d & m' & Hcl & Hop & _ & He).
  - intros n Hn. exfalso. vm_compute in Hn. destruct Hn as [f Hf]. discriminate Hf.
  - intros _. repeat split.
  - intros _. repeat split.
  - split; [vm_compute; discriminate | reflexivity].
  - exists d, m'. split; [exact Hcl|]. split; [exact Hop|]. rewrite He. vm_compute. reflexivity.
Defined.

(** Crash of the segmented log.  If every sealed segment is fsynced, then
    after a crash the log opens without error, keeps its earliest offset and
    all sealed segments, and of the active segment keeps a prefix that
    includes every record of its fsynced part: all of it, if the last append
    returned. *)
Theorem manager_survives_crash c (Hc : ChecksumOk c) io cfg m logs d
  (Hm : mgr_inv c m logs) (Hno : no_leftovers m) (Hcr : crash_dir m d)
  (Hsealed : forall k s, (S k < length (segments m))%nat -> segments m !! k = Some s -> seg_synced s)
  (Hio : forall x, sg_ok (io x)) (Hcfg : cfg_ok c cfg) :
  exists m' ls l i, Open None None io cfg d = Some (Ok m') /\ logs = ls ++ [l] /\
    mgr_inv c m' (ls ++ [take i l]) /\ EarliestOffset m' = EarliestOffset m /\
    (forall a, active m = Some a -> seg_synced a -> take i l = l) /\
    (forall a j, active m = Some a -> (j <= length l)%nat ->
       (rec_pos c l j <= f_synced (w_file (s_writer a)))%nat -> (j <= i)%nat).
Proof. by apply mgr_crash. Qed.

(** A directory holding the given files of the segments with bases [b1] and [b2]. *)
Definition two_segments (b1 b2 : Z) (f1 i1 f2 i2 : file) : dir :=
  put_file (SegmentFileName b1) f1 (put_file (indexFileName (SegmentFileName b1)) i1
    (put_file (SegmentFileName b2) f2 (put_file (indexFileName (SegmentFileName b2)) i2 (mkDir ∅ [])))).

Lemma two_segments_crash m s1 s2 b1 b2 f1 i1 f2 i2 :
  segments m = [s1; s2] -> is_u64 b1 -> is_u64 b2 -> b1 <> b2 ->
  Path s1 = SegmentFileName b1 -> Path s2 = SegmentFileName b2 ->
  crash_file (w_file (s_writer s1)) f1 -> crash_file (indexFile (w_store (s_writer s1))) i1 ->
  crash_file (w_file (s_writer s2)) f2 -> crash_file (indexFile (w_store (s_writer s2))) i2 ->
  crash_dir m (two_segments b1 b2 f1 i1 f2 i2).
Proof.
  intros Hss Hu1 Hu2 Hne Hp1 Hp2 Hf1 Hi1 Hf2 Hi2.
  assert (SegmentFileName b1 <> SegmentFileName b2) by (intros ?%SegmentFileName_inj; done).
  assert (indexFileName (SegmentFileName b1) <> indexFileName (SegmentFileName b2))
    by (intros ?%indexFileName_inj; done).
  pose proof (segment_ne_index b1 b1). pose proof (segment_ne_index b1 b2).
  pose proof (segment_ne_index b2 b1). pose proof (segment_ne_index b2 b2).
  split; rewrite Hss; unfold IndexPath, Path in *; cbn [two_segments put_file d_files].
  - intros s [->|[->|[]%not_elem_of_nil]%elem_of_cons]%elem_of_cons; rewrite ?Hp1, ?Hp2.
    + exists f1, i1. split_and!; simplify_map_eq; done.
    + exists f2, i2. split_and!; try done.
      * do 2 rewrite lookup_insert_ne by done. apply lookup_insert_eq.
      * do 3 rewrite lookup_insert_ne by done. apply lookup_insert_eq.
  - intros n f [[<- <-]|[_ Hn]]%lookup_insert_Some.
    { left. exists s1. split; [by left|]. rewrite Hp1. by left. }
    apply lookup_insert_Some in Hn as [[<- <-]|[_ Hn]].
    { left. exists s1. split; [by left|]. rewrite Hp1. by right. }
    apply lookup_insert_Some in Hn as [[<- <-]|[_ Hn]].
    { left. exists s2. split; [right; by left|]. rewrite Hp2. by left. }
    apply lookup_insert_Some in Hn as [[<- <-]|[_ Hn]].
    { left. exists s2. split; [right; by left|]. rewrite Hp2. by right. }
    by apply lookup_empty_Some in Hn.
Qed.

Lemma crash_file_id f : crash_file f (mkFile (f_data f) (f_synced f)).
Proof.
  exists (Nat.max (f_synced f) (length (f_data f))). split; [lia|]. by rewrite take_ge by lia.
Qed.

Definition ex_seg (m : Manager) (k : nat) : Segment :=
  nth k (segments m) (mkSegment 0 ex_writer (reader_at NewCRC32C 0) [] 0).

Lemma ex_segs m : length (segments m) = 2%nat -> segments m = [ex_seg m 0; ex_seg m 1].
Proof. unfold ex_seg. by destruct (segments m) as [|s1 [|s2 [|]]]. Qed.

Lemma ex_seg_lookup m k s : segments m !! k = Some s -> s = ex_seg m k.
Proof.
  unfold ex_seg. intros H. pose proof (lookup_lt_Some _ _ _ H) as Hlt.
  rewrite (lookup_nth _ _ (mkSegment 0 ex_writer (reader_at NewCRC32C 0) [] 0) Hlt) in H. congruence.
Qed.

(** A crash that loses the index of both segments and nothing else. *)
Definition ex_crash3 : dir :=
  let f k := w_file (s_writer (ex_seg ex_mgr3 k)) in
  two_segments 0 2 (mkFile (f_data (f 0%nat)) (f_synced (f 0%nat))) empty_file
    (mkFile (f_data (f 1%nat)) (f_synced (f 1%nat))) empty_file.

Lemma manager_survives_crash_witness :
  exists m', Open None None (fun _ => ex_sgio) ex_cfg ex_crash3 = Some (Ok m') /\
    EarliestOffset m' = EarliestOffset ex_mgr3.
Proof.
  destruct ex_mgr3_ok as [logs Hm].
  destruct (manager_survives_crash NewCRC32C _ (fun _ => ex_sgio) ex_cfg ex_mgr3 logs ex_crash3 Hm)
    as (m' & ls & l & i & Hop & _ & _ & He & _).
  - intros n Hn. exfalso. vm_compute in Hn. destruct Hn as [f Hf]. discriminate Hf.
  - apply (two_segments_crash ex_mgr3 (ex_seg ex_mgr3 0) (ex_seg ex_mgr3 1));
      [apply ex_segs; vm_compute; reflexivity | vm_compute; split; [discriminate|reflexivity]
      | vm_compute; split; [discriminate|reflexivity] | lia | vm_compute; reflexivity
      | vm_compute; reflexivity | apply crash_file_id | exists 0%nat; split; [vm_compute; lia|vm_compute; reflexivity]
      | apply crash_file_id | exists 0%nat; split; [vm_compute; lia|vm_compute; reflexivity]].
  - intros [|k] s Hk Hs; [|vm_compute in Hk; lia].
    apply ex_seg_lookup in Hs. rewrite Hs. vm_compute. reflexivity.
  - intros _. repeat split.
  - split; [vm_compute; discriminate | reflexivity].
  - exists m'. split; [exact Hop|exact He].
Defined.

(** ** A defect *)

(** Three writers.  Two reserve records 0 and 1 in the first segment and have
    not committed yet; the third finds the segment full, rolls, reserves
    record 2 in the second segment, and its commit fsyncs that segment only. *)
Definition ex_reserve (m : Manager) : Manager :=
  match append_reserve ex_sgio WOk ex_data 5 m with
  | Some (_, m') => m'
  | None => m
  end.
Definition ex_hole : Manager :=
  match append_commit sync_io_ok 1 1 (ex_reserve (ex_reserve (ex_reserve ex_mgr))) with
  | Some (None, m) => m
  | _ => ex_mgr
  end.

(** The crash then takes the unsynced bytes of the first segment. *)
Definition ex_hole_dir : dir :=
  let f := w_file (s_writer (ex_seg ex_hole 1)) in
  two_segments 0 2 empty_file empty_file (mkFile (f_data f) (f_synced f)) empty_file.

(** Defect: rolling does not sync the segment it seals, so an acknowledged
    record can end up behind a hole.  In this run record 2 is acknowledged,
    the crash is one the disk allows, and the reopened log has record 2 but
    not 0 and 1, which are reported as [io.EOF] ("nothing written yet")
    although the next offset is 3: a reader that starts at the earliest
    offset never gets past them. *)
Theorem roll_can_leave_hole :
  crash_dir ex_hole ex_hole_dir /\
  match Open None None (fun _ => ex_sgio) ex_cfg ex_hole_dir with
  | Some (Ok m) =>
      Mgr_ReadAt no_fault 2 m = Some (Ok ex_data) /\ EarliestOffset m = 0 /\ Mgr_NextOffset m = 3 /\
      Mgr_ReadAt no_fault 0 m = Some (Err EOF) /\ Mgr_ReadAt no_fault 1 m = Some (Err EOF)
  | _ => False
  end.
Proof.
  split.
  - apply (two_segments_crash ex_hole (ex_seg ex_hole 0) (ex_seg ex_hole 1));
      [apply ex_segs; vm_compute; reflexivity | vm_compute; split; [discriminate|reflexivity]
      | vm_compute; split; [discriminate|reflexivity] | lia | vm_compute; reflexivity
      | vm_compute; reflexivity | exists 0%nat; split; [vm_compute; lia|vm_compute; reflexivity]
      | exists 0%nat; split; [vm_compute; lia|vm_compute; reflexivity]
      | apply crash_file_id | exists 0%nat; split; [vm_compute; lia|vm_compute; reflexivity]].
  - vm_compute. repeat split.
Qed.
