(* ===== verification/MgrConc.v ===== *)
(** * MgrConc: appends, reads and retention running at once

    The manager of [Manager.v] with any number of goroutines inside it.  A
    step is one critical section of the code:
    - phase 1 of [Append], under the manager's lock;
    - a step of a goroutine inside [seg.commit], in whatever segment it
      reserved in ([GroupCommit.v]);
    - the part of [ReadAt] under the read lock, which also takes the read
      reference, then one step per record scanned, on the file as it is then;
    - phase A of [RunRetention], under the lock, and phase B for one victim,
      which waits until no reader holds a reference to it.

    A segment is named by its base offset.  Detached segments stay open until
    phase B closes them; [commits] keeps every append ever started, by segment
    and goroutine, and [reads] every read, so that an invariant of the state
    speaks about all results given so far. *)

From Stdlib Require Import ZArith Lia Strings.String Strings.Ascii.
From stdpp Require Import base list list_numbers numbers option gmap sorting strings.
From coqutil Require Import Byte.
From S2P Require Import Prelude Bytes Golib Index Checksum Wal WalFormat WalInv GroupCommit Crash WalProps Segment Manager MgrInv.

Local Open Scope Z_scope.

(** A goroutine inside [ReadAt(offset)].  [base] names the segment whose read
    reference it holds.  [lo] and [hi] are the earliest and the next offset of
    the log when the segment was chosen. *)
Inductive rd_pc :=
| RdPicked (offset base lo hi : Z)
| RdScan (offset base lo hi cur pos : Z)
| RdDone (offset lo hi : Z) (res : result (list byte)).

Record conc := mkConc {
  cc_mgr : Manager;
  detached : list Segment;
  commits : gmap Z (gmap nat pc);
  reads : gmap nat rd_pc
}.

(** The segments whose files are open: the victims not closed yet, oldest
    first, and the live ones. *)
Definition open_segs (x : conc) : list Segment := detached x ++ segments (cc_mgr x).

Definition commits_of (x : conc) (base : Z) : gmap nat pc := default ∅ (commits x !! base).

(** [acquireRead] and [releaseRead]: is the segment referenced by a reader? *)
Definition rd_base (r : rd_pc) : option Z :=
  match r with
  | RdPicked _ base _ _ | RdScan _ base _ _ _ _ => Some base
  | RdDone _ _ _ _ => None
  end.
Definition no_readers (x : conc) (base : Z) : Prop :=
  forall t r, reads x !! t = Some r -> rd_base r <> Some base.

(** What reading a closed file returns. *)
Definition ErrClosed : error := Msg "file already closed".

Definition set_reads (rs : gmap nat rd_pc) (x : conc) : conc :=
  mkConc (cc_mgr x) (detached x) (commits x) rs.

(** The goroutine [t] inside [ReadAt] moves by itself, in the segment whose
    reference it holds.  With the segment closed the read would fail. *)
Inductive read_step (t : nat) : conc -> conc -> Prop :=
| cs_start x o base lo hi seg cur pos :
    reads x !! t = Some (RdPicked o base lo hi) ->
    seg ∈ open_segs x -> baseOffset seg = base ->
    read_start (u64 (o - base)) (w_store (s_writer seg)) = (cur, pos) ->
    read_step t x (set_reads (<[t := RdScan o base lo hi cur pos]> (reads x)) x)
| cs_next x o base lo hi seg cur pos cur' pos' :
    reads x !! t = Some (RdScan o base lo hi cur pos) ->
    seg ∈ open_segs x -> baseOffset seg = base ->
    read_iter no_fault (s_reader seg) (w_file (s_writer seg)) (u64 (o - base)) cur pos = inr (cur', pos') ->
    read_step t x (set_reads (<[t := RdScan o base lo hi cur' pos']> (reads x)) x)
| cs_return x o base lo hi seg cur pos res :
    reads x !! t = Some (RdScan o base lo hi cur pos) ->
    seg ∈ open_segs x -> baseOffset seg = base ->
    read_iter no_fault (s_reader seg) (w_file (s_writer seg)) (u64 (o - base)) cur pos = inl res ->
    read_step t x (set_reads (<[t := RdDone o lo hi res]> (reads x)) x)
| cs_closed x o base lo hi r :
    reads x !! t = Some r ->
    (r = RdPicked o base lo hi \/ exists cur pos, r = RdScan o base lo hi cur pos) ->
    (forall seg, seg ∈ open_segs x -> baseOffset seg <> base) ->
    read_step t x (set_reads (<[t := RdDone o lo hi (Err ErrClosed)]> (reads x)) x).

Inductive conc_step : conc -> conc -> Prop :=
(** [Append], phase 1: the offset is reserved ... *)
| cs_append m det cs rs t io data now base lo q m' :
    append_reserve io WOk data now m = Some (Ok (base, lo, q), m') ->
    Mgr_NextOffset m + 1 < 2 ^ 64 ->
    default ∅ (cs !! base) !! t = None ->
    conc_step (mkConc m det cs rs)
      (mkConc m' det (<[base := <[t := PCommit data lo q]> (default ∅ (cs !! base))]> cs) rs)
(** ... or it fails, possibly after a roll. *)
| cs_append_err m det cs rs io wo data now e m' :
    append_reserve io wo data now m = Some (Err e, m') -> clean_write wo ->
    Mgr_NextOffset m + 1 < 2 ^ 64 ->
    conc_step (mkConc m det cs rs) (mkConc m' det cs rs)
(** [Append], phase 2, in a live or a detached segment. *)
| cs_commit m det cs rs i seg w' pcs' :
    segments m !! i = Some seg ->
    gc_commit (mkGc (s_writer seg) (default ∅ (cs !! baseOffset seg))) (mkGc w' pcs') ->
    conc_step (mkConc m det cs rs)
      (mkConc (set_segments (<[i := set_writer w' seg]> (segments m)) m) det
         (<[baseOffset seg := pcs']> cs) rs)
| cs_commit_det m det cs rs i seg w' pcs' :
    det !! i = Some seg ->
    gc_commit (mkGc (s_writer seg) (default ∅ (cs !! baseOffset seg))) (mkGc w' pcs') ->
    conc_step (mkConc m det cs rs)
      (mkConc m (<[i := set_writer w' seg]> det) (<[baseOffset seg := pcs']> cs) rs)
(** A goroutine still committing in a segment that was deleted returns, with
    success or an error. *)
| cs_orphan m det cs rs base t p err :
    (forall seg, seg ∈ det ++ segments m -> baseOffset seg <> base) ->
    default ∅ (cs !! base) !! t = Some p -> ~ is_done p ->
    conc_step (mkConc m det cs rs)
      (mkConc m det (<[base := <[t := PDone (pc_data p) (pc_off p) err]> (default ∅ (cs !! base))]> cs) rs)
(** [ReadAt] chooses the segment and takes its reference, or returns. *)
| cs_pick m det cs rs t o :
    rs !! t = None -> is_u64 o ->
    conc_step (mkConc m det cs rs)
      (mkConc m det cs
         (<[t := match read_pick o m with
                 | Ok seg => RdPicked o (baseOffset seg) (EarliestOffset m) (Mgr_NextOffset m)
                 | Err e => RdDone o (EarliestOffset m) (Mgr_NextOffset m) (Err e)
                 end]> rs))
| cs_read x y t : read_step t x y -> conc_step x y
(** [RunRetention], phase A and, for one victim, phase B. *)
| cs_detach m det cs rs now1 now2 :
    conc_step (mkConc m det cs rs)
      (mkConc (retention_detach now1 now2 m).2 (det ++ (retention_detach now1 now2 m).1) cs rs)
| cs_delete m det cs rs i seg io :
    det !! i = Some seg -> no_readers (mkConc m det cs rs) (baseOffset seg) ->
    conc_step (mkConc m det cs rs)
      (mkConc (set_metrics (delete_segment io seg (Metrics m) (m_dir m)).1
                 (set_dir (delete_segment io seg (Metrics m) (m_dir m)).2 m))
         (delete i det) cs rs).

Inductive conc_steps : conc -> conc -> Prop :=
| conc_refl x : conc_steps x x
| conc_trans x y z : conc_steps x y -> conc_step y z -> conc_steps x z.

Lemma conc_cons x y z : conc_step x y -> conc_steps y z -> conc_steps x z.
Proof.
  intros Hxy Hyz. induction Hyz as [y|y u v _ IH Huv]; [by eapply conc_trans; [apply conc_refl|]|].
  eapply conc_trans; [by apply IH|done].
Qed.

(** ** Opening a segment that does not exist yet *)

(** The same call with every system call succeeding. *)
Definition sg_clean (io : segment_io) : segment_io :=
  mkSegIo open_ok open_ok recover_io_ok None (sg_now io) (sg_stat io).

Lemma sg_clean_ok io : sg_ok (sg_clean io).
Proof. done. Qed.

(** For any outcomes of the system calls, creating a segment fails and leaves
    the directory, or does what it does with a working disk. *)
Lemma NewSegment_any c io base d :
  d_files d !! SegmentFileName base = None -> d_files d !! indexFileName (SegmentFileName base) = None ->
  NewSegment io base c d = NewSegment (sg_clean io) base c d \/
  exists e, NewSegment io base c d = Some (Err e, d).
Proof.
  intros Hl Hi. unfold NewSegment. rewrite Hl, Hi. unfold NewInMemoryStore.
  destruct (oi_open (sg_store io)); [by right; eexists|].
  destruct (oi_syncdir (sg_store io)); [by right; eexists|]. cbn [default].
  unfold NewWalWriter. destruct (oi_open (sg_wal io)); [by right; eexists|].
  destruct (oi_syncdir (sg_wal io)); [by right; eexists|]. cbn [default].
  unfold recover, LoadCheckpoints.
  destruct (li_stat (ri_load (sg_recover io))); [by right; eexists|]. cbn.
  destruct (ri_stat (sg_recover io)); [by right; eexists|]. cbn.
  destruct (sg_reader io); [by right; eexists|]. by left.
Qed.

Section Conc.
Context (c : Checksum) {Hc : ChecksumOk c}.

Lemma roll_any io m logs s l ls :
  mgr_ok c false m logs -> logs = ls ++ [l] -> active m = Some s -> Mgr_NextOffset m < 2 ^ 64 ->
  roll io m = roll (sg_clean io) m \/ exists e, roll io m = Some (Some e, m).
Proof.
  intros Hm -> Ha Hn. destruct (mgr_split c _ _ Hm) as (_ & s0 & _ & l0 & _ & _ & Ha0 & Hs & _ & Hnext).
  rewrite Ha in Ha0. injection Ha0 as <-.
  assert (Mgr_NextOffset m = Seg_NextOffset s) as Hns by (unfold Mgr_NextOffset; by rewrite Ha).
  pose proof (zlen_nonneg (mjoin (ls ++ [l]))). pose proof (zlen_nonneg l0).
  destruct (sv_range _ _ _ Hs). rewrite Hns, (seg_next c _ _ Hs) in *.
  destruct (mi_dir _ _ _ Hm (baseOffset s + zlen l0)) as [Hd1 Hd2]; [lia|unfold is_u64; lia|].
  unfold roll. rewrite Ha, (seg_next c _ _ Hs).
  destruct (NewSegment_any (m_csum m) io (baseOffset s + zlen l0) (m_dir m) Hd1 Hd2) as [-> | [e ->]].
  - by left.
  - right. eexists. by destruct m.
Qed.
End Conc.
