(* ===== verification/MgrConcInv.v ===== *)
(** * MgrConcInv: the invariant of the concurrent manager

    [conc_inv h0 hist dlogs logs x]: [hist] are all records ever appended, the
    first at global offset [h0]; every open segment, detached or live, holds
    the slice of [hist] at its base offset and satisfies the group-commit
    invariant with the goroutines inside it; every append has its payload in
    [hist] at its own offset; every read in flight holds a reference to an
    open segment that contains its offset, and every finished read returned
    what the log held when its segment was chosen. *)

From Stdlib Require Import ZArith Lia Strings.String Strings.Ascii.
From stdpp Require Import base list list_numbers numbers option gmap sorting strings.
From coqutil Require Import Byte.
From S2P Require Import Prelude Bytes Golib Index Checksum Wal WalFormat WalInv GroupCommit Crash WalProps Segment Manager MgrInv MgrConc.

Local Open Scope Z_scope.

(** The specification of [ReadAt] on a log that holds the offsets from [lo] up
    to [hi]. *)
Definition window_read (h0 : Z) (hist : list (list byte)) (lo hi o : Z) : result (list byte) :=
  if o <? lo then Err (OffsetOutOfRetentionError o lo)
  else if o <? hi then
    match rec_at h0 hist o with Some x => Ok x | None => Err EOF end
  else Err EOF.

Lemma window_read_app h0 hist l lo hi o :
  hi <= h0 + zlen hist -> window_read h0 (hist ++ l) lo hi o = window_read h0 hist lo hi o.
Proof.
  intros. unfold window_read. case_if; [done|]. case_if; [|done]. rewrite rec_at_grow; [done|blia].
Qed.

Section ConcInv.
Context (c : Checksum) {Hc : ChecksumOk c}.
Implicit Types (hist : list (list byte)) (logs : list (list (list byte))) (cs : gmap Z (gmap nat pc)).

(** An open segment and the goroutines committing in it. *)
Record seg_at h0 hist cs (seg : Segment) (l : list (list byte)) : Prop := {
  sa_ok : seg_ok c false seg l;
  sa_base : h0 <= baseOffset seg;
  sa_hist : forall i d, l !! i = Some d -> rec_at h0 hist (baseOffset seg + Z.of_nat i) = Some d;
  sa_gc : exists b s, gc_inv c b s l (mkGc (s_writer seg) (default ∅ (cs !! baseOffset seg)))
}.

(** The segment a read holds its reference to, and its records. *)
Definition holds_seg (segs : list Segment) logs (base o : Z) (l : list (list byte)) : Prop :=
  exists k seg, segs !! k = Some seg /\ logs !! k = Some l /\ baseOffset seg = base /\
    base <= o < base + zlen l.

Definition read_ok h0 hist (segs : list Segment) logs (r : rd_pc) : Prop :=
  match r with
  | RdPicked o base lo hi =>
      h0 <= lo <= o /\ o < hi <= h0 + zlen hist /\ exists l, holds_seg segs logs base o l
  | RdScan o base lo hi cur pos =>
      h0 <= lo <= o /\ o < hi <= h0 + zlen hist /\
      exists l i, holds_seg segs logs base o l /\ base + Z.of_nat i <= o /\
        cur = Z.of_nat i /\ pos = Z.of_nat (rec_pos c l i)
  | RdDone o lo hi res =>
      hi <= h0 + zlen hist /\ res = window_read h0 hist lo hi o
  end.

(** What the invariant says of all appends so far. *)
Definition appends_ok h0 hist cs : Prop :=
  (forall base t p, default ∅ (cs !! base) !! t = Some p ->
    0 <= pc_off p /\ h0 <= base /\ rec_at h0 hist (base + pc_off p) = Some (pc_data p)) /\
  (forall b1 t1 p1 b2 t2 p2,
    default ∅ (cs !! b1) !! t1 = Some p1 -> default ∅ (cs !! b2) !! t2 = Some p2 ->
    b1 + pc_off p1 = b2 + pc_off p2 -> b1 = b2 /\ t1 = t2).

Record conc_inv h0 hist (dlogs logs : list (list (list byte))) (x : conc) : Prop := {
  ci_mgr : mgr_ok c false (cc_mgr x) logs;
  ci_segs : Forall2 (seg_at h0 hist (commits x)) (open_segs x) (dlogs ++ logs);
  ci_dlen : length dlogs = length (detached x);
  ci_nodup : NoDup (baseOffset <$> open_segs x);
  ci_det : Forall (fun b => b < EarliestOffset (cc_mgr x)) (baseOffset <$> detached x);
  ci_next : Mgr_NextOffset (cc_mgr x) = h0 + zlen hist;
  ci_appends : appends_ok h0 hist (commits x);
  ci_reads : forall t r, reads x !! t = Some r -> read_ok h0 hist (open_segs x) (dlogs ++ logs) r
}.

(** A read keeps its facts when its segment is still there, with the same or
    more records, and the history has grown. *)
Lemma read_ok_mono h0 hist l segs logs segs' logs' r :
  (forall k seg l, segs !! k = Some seg -> logs !! k = Some l -> rd_base r = Some (baseOffset seg) ->
     exists k' seg' l', segs' !! k' = Some seg' /\ logs' !! k' = Some (l ++ l') /\
       baseOffset seg' = baseOffset seg) ->
  read_ok h0 hist segs logs r -> read_ok h0 (hist ++ l) segs' logs' r.
Proof.
  intros Hkeep. assert (zlen hist <= zlen (hist ++ l)) as Hz
    by (rewrite zlen_app; pose proof (zlen_nonneg l); lia).
  assert (forall base o l, rd_base r = Some base -> holds_seg segs logs base o l ->
    exists l', holds_seg segs' logs' base o (l ++ l')) as Hholds.
  { intros base o x Hr (k & seg & Hk & Hl & <- & Ho).
    destruct (Hkeep k seg x Hk Hl Hr) as (k' & seg' & l' & ? & ? & ?).
    exists l', k', seg'. split_and!; try done; rewrite ?zlen_app; pose proof (zlen_nonneg l'); lia. }
  destruct r as [o base lo hi|o base lo hi cur pos|o lo hi res]; cbn in *.
  - intros (? & ? & x & Hx). destruct (Hholds base o x eq_refl Hx) as [l' ?].
    split_and!; try lia. by exists (x ++ l').
  - intros (? & ? & x & i & Hx & Hi & -> & ->). destruct (Hholds base o x eq_refl Hx) as [l' ?].
    split_and!; try lia. exists (x ++ l'), i. split_and!; try done.
    destruct Hx as (_ & _ & _ & _ & _ & Ho). rewrite rec_pos_app; [done|]. unfold zlen in Ho. lia.
  - intros [? ->]. split; [lia|]. by rewrite window_read_app.
Qed.

(** A segment the step does not touch. *)
Lemma seg_at_mono h0 hist l cs cs' seg x :
  default ∅ (cs' !! baseOffset seg) = default ∅ (cs !! baseOffset seg) ->
  seg_at h0 hist cs seg x -> seg_at h0 (hist ++ l) cs' seg x.
Proof.
  intros Heq [Hok Hb Hh Hg]. split; try done.
  - intros i d Hi. by apply rec_at_app, Hh.
  - by rewrite Heq.
Qed.
(** Segment [k] moves on; the others are not touched. *)
Lemma segs_update h0 hist ext cs cs' segs ls k seg l seg' l' :
  Forall2 (seg_at h0 hist cs) segs ls -> NoDup (baseOffset <$> segs) ->
  segs !! k = Some seg -> ls !! k = Some l -> baseOffset seg' = baseOffset seg ->
  seg_at h0 (hist ++ ext) cs' seg' l' ->
  (forall b, b <> baseOffset seg -> cs' !! b = cs !! b) ->
  Forall2 (seg_at h0 (hist ++ ext) cs') (<[k := seg']> segs) (<[k := l']> ls) /\
  baseOffset <$> <[k := seg']> segs = baseOffset <$> segs.
Proof.
  intros Hall Hnd Hk Hl Hb Hat Hcs. split.
  - apply Forall2_same_length_lookup_2.
    { rewrite !length_insert. by eapply Forall2_length. }
    intros i s x. destruct (decide (i = k)) as [->|Hik].
    + rewrite !list_lookup_insert_eq by (by eapply lookup_lt_Some). by intros [= <-] [= <-].
    + rewrite !list_lookup_insert_ne by done. intros Hs Hx.
      apply (seg_at_mono _ _ _ cs); [|by eapply Forall2_lookup_lr].
      rewrite Hcs; [done|]. intros Heq. apply Hik.
      eapply (NoDup_lookup _ i k (baseOffset s) Hnd); rewrite list_lookup_fmap.
      * by rewrite Hs.
      * by rewrite Hk, Heq.
  - rewrite list_fmap_insert, Hb. apply list_insert_id. by rewrite list_lookup_fmap, Hk.
Qed.

Lemma reads_update h0 hist ext segs ls k seg l seg' l' (rs : gmap nat rd_pc) :
  segs !! k = Some seg -> ls !! k = Some l -> baseOffset seg' = baseOffset seg ->
  (forall t r, rs !! t = Some r -> read_ok h0 hist segs ls r) ->
  forall t r, rs !! t = Some r -> read_ok h0 (hist ++ ext) (<[k := seg']> segs) (<[k := l ++ l']> ls) r.
Proof.
  intros Hk Hl Hb Hr t r Ht. eapply read_ok_mono; [|by eapply Hr].
  intros i s x Hs Hx _. destruct (decide (i = k)) as [->|Hik].
  - simplify_eq. exists k, seg', l'. rewrite !list_lookup_insert_eq by (by eapply lookup_lt_Some). done.
  - exists i, s, []. by rewrite !list_lookup_insert_ne, app_nil_r by done.
Qed.

(** The goroutines of one segment move, without new ones. *)
Lemma commits_move (P : Z -> nat -> pc -> Prop) cs base pcs' :
  (forall b t p, default ∅ (cs !! b) !! t = Some p -> P b t p) ->
  (forall t p', pcs' !! t = Some p' -> exists p, default ∅ (cs !! base) !! t = Some p /\
     pc_off p' = pc_off p /\ pc_data p' = pc_data p) ->
  (forall b t p p', pc_off p' = pc_off p -> pc_data p' = pc_data p -> P b t p -> P b t p') ->
  forall b t p, default ∅ (<[base := pcs']> cs !! b) !! t = Some p -> P b t p.
Proof.
  intros Hall Hrel Hstable b t p. destruct (decide (base = b)) as [->|Hne].
  - rewrite lookup_insert_eq. intros (q & Hq & Ho & Hd)%Hrel. by eapply Hstable; eauto.
  - rewrite lookup_insert_ne by done. apply Hall.
Qed.

Lemma appends_move h0 hist cs base pcs' :
  (forall t p', pcs' !! t = Some p' -> exists p, default ∅ (cs !! base) !! t = Some p /\
     pc_off p' = pc_off p /\ pc_data p' = pc_data p) ->
  appends_ok h0 hist cs -> appends_ok h0 hist (<[base := pcs']> cs).
Proof.
  intros Hrel [Hc1 Hd1]. split.
  - apply (commits_move _ _ _ _ Hc1 Hrel). by intros b t p p' -> ->.
  - assert (forall b t p, default ∅ (<[base := pcs']> cs !! b) !! t = Some p ->
      exists q, default ∅ (cs !! b) !! t = Some q /\ pc_off p = pc_off q) as Hback.
    { apply (commits_move _ _ _ _ (fun b t p H => ex_intro _ p (conj H eq_refl)) Hrel).
      intros b t p p' Ho _ (q & ? & ?). exists q. split; [done|congruence]. }
    intros b1 t1 p1 b2 t2 p2 (q1 & H1 & ->)%Hback (q2 & H2 & ->)%Hback. by apply Hd1.
Qed.

(** A new append takes the next offset. *)
Lemma appends_new h0 hist cs base t data lo q :
  appends_ok h0 hist cs -> 0 <= lo -> h0 <= base -> base + lo = h0 + zlen hist ->
  appends_ok h0 (hist ++ [data]) (<[base := <[t := PCommit data lo q]> (default ∅ (cs !! base))]> cs).
Proof.
  intros [Hc1 Hd1] Hlo Hb Heq.
  assert (forall b t' p, default ∅ (<[base := <[t := PCommit data lo q]> (default ∅ (cs !! base))]> cs !! b) !! t' = Some p ->
    (b = base /\ t' = t /\ p = PCommit data lo q) \/ default ∅ (cs !! b) !! t' = Some p) as Hcase.
  { intros b t' p. destruct (decide (base = b)) as [->|]; [|rewrite lookup_insert_ne by done; tauto].
    rewrite lookup_insert_eq. cbn. intros [[<- <-]|[_ H]]%lookup_insert_Some; tauto. }
  assert (forall b t' p, default ∅ (cs !! b) !! t' = Some p -> b + pc_off p < h0 + zlen hist) as Hlt.
  { intros b t' p (_ & _ & ?%rec_at_lt)%Hc1. lia. }
  split.
  - intros b t' p [(-> & -> & ->)|H]%Hcase; cbn.
    + rewrite Heq. split_and!; try done. apply rec_at_new.
    + destruct (Hc1 _ _ _ H) as (? & ? & ?). split_and!; try done. by apply rec_at_app.
  - intros b1 t1 p1 b2 t2 p2 [(-> & -> & ->)|H1]%Hcase [(-> & -> & ->)|H2]%Hcase; cbn; try done.
    + apply Hlt in H2. lia.
    + apply Hlt in H1. lia.
    + by eapply Hd1.
Qed.
(** ** Commits *)

(** A commit step in open segment [k]. *)
Lemma gc_move h0 hist dlogs logs x k seg l w' pcs' :
  conc_inv h0 hist dlogs logs x -> open_segs x !! k = Some seg -> (dlogs ++ logs) !! k = Some l ->
  gc_commit (mkGc (s_writer seg) (default ∅ (commits x !! baseOffset seg))) (mkGc w' pcs') ->
  let cs' := <[baseOffset seg := pcs']> (commits x) in
  let segs' := <[k := set_writer w' seg]> (open_segs x) in
  seg_ok c false (set_writer w' seg) l /\
  Forall2 (seg_at h0 hist cs') segs' (dlogs ++ logs) /\
  baseOffset <$> segs' = baseOffset <$> open_segs x /\ appends_ok h0 hist cs' /\
  forall t r, reads x !! t = Some r -> read_ok h0 hist segs' (dlogs ++ logs) r.
Proof.
  intros Hx Hk Hl Hgc cs' segs'.
  pose proof (Forall2_lookup_lr _ _ _ _ _ _ (ci_segs _ _ _ _ _ Hx) Hk Hl) as [Hok Hb Hh (b & s & Hg)].
  destruct (gc_commit_inv c _ _ _ _ _ Hg Hgc) as (u & _ & Hg').
  assert (seg_ok c false (set_writer w' seg) l) as Hok'.
  { destruct Hok. split; cbn; try done. exists b, u. apply Hg'. }
  assert (seg_at h0 (hist ++ []) cs' (set_writer w' seg) l) as Hat.
  { rewrite app_nil_r. split; try done. exists b, u. cbn. unfold cs'. by rewrite lookup_insert_eq. }
  destruct (segs_update h0 hist [] (commits x) cs' (open_segs x) (dlogs ++ logs) k seg l (set_writer w' seg) l)
    as [Hsegs Hbases]; try done; [apply Hx|apply Hx| |].
  { intros b' Hne. unfold cs'. by rewrite lookup_insert_ne. }
  pose proof (reads_update h0 hist [] (open_segs x) (dlogs ++ logs) k seg l (set_writer w' seg) [] (reads x)
    Hk Hl eq_refl (ci_reads _ _ _ _ _ Hx)) as Hreads.
  rewrite app_nil_r, (list_insert_id (dlogs ++ logs)) in * by (by rewrite ?app_nil_r).
  split_and!; try done.
  apply appends_move; [|apply Hx]. intros t p' Hp'. by apply (gc_commit_keeps _ _ _ _ Hgc).
Qed.

Lemma conc_inv_commit h0 hist dlogs logs m det cs rs i seg w' pcs' :
  conc_inv h0 hist dlogs logs (mkConc m det cs rs) -> segments m !! i = Some seg ->
  gc_commit (mkGc (s_writer seg) (default ∅ (cs !! baseOffset seg))) (mkGc w' pcs') ->
  conc_inv h0 hist dlogs logs
    (mkConc (set_segments (<[i := set_writer w' seg]> (segments m)) m) det (<[baseOffset seg := pcs']> cs) rs).
Proof.
  intros Hx Hi Hgc. pose proof (ci_mgr _ _ _ _ _ Hx) as Hm. pose proof (ci_dlen _ _ _ _ _ Hx) as Hdl.
  cbn in Hm, Hdl.
  destruct (chain_lookup c _ _ _ _ _ (mi_chain _ _ _ Hm) Hi) as (l & Hl & _).
  destruct (gc_move _ _ _ _ _ (length det + i) seg l w' pcs' Hx) as (Hok & Hsegs & Hb & Ha & Hr); try done.
  { unfold open_segs. cbn. rewrite lookup_app_r by lia. rewrite <- Hi. f_equal. lia. }
  { rewrite lookup_app_r by lia. rewrite <- Hl. f_equal. lia. }
  cbn [commits reads] in *.
  assert (<[(length det + i)%nat := set_writer w' seg]> (open_segs (mkConc m det cs rs)) =
    det ++ <[i := set_writer w' seg]> (segments m)) as Heq.
  { unfold open_segs. cbn. rewrite insert_app_r_alt by lia. f_equal. f_equal. lia. }
  rewrite Heq in *.
  destruct (mgr_ok_insert c m logs i seg (set_writer w' seg) l Hm Hi Hl) as (Hm' & He' & Hn'); try done.
  split; cbn; try done.
  - unfold open_segs. cbn. rewrite Hb. apply Hx.
  - rewrite He'. apply Hx.
  - rewrite Hn'. apply Hx.
Qed.

Lemma conc_inv_commit_det h0 hist dlogs logs m det cs rs i seg w' pcs' :
  conc_inv h0 hist dlogs logs (mkConc m det cs rs) -> det !! i = Some seg ->
  gc_commit (mkGc (s_writer seg) (default ∅ (cs !! baseOffset seg))) (mkGc w' pcs') ->
  conc_inv h0 hist dlogs logs
    (mkConc m (<[i := set_writer w' seg]> det) (<[baseOffset seg := pcs']> cs) rs).
Proof.
  intros Hx Hi Hgc. pose proof (ci_dlen _ _ _ _ _ Hx) as Hdl. cbn in Hdl.
  pose proof (lookup_lt_Some _ _ _ Hi) as Hlt.
  destruct (lookup_lt_is_Some_2 dlogs i) as [l Hl]; [lia|].
  destruct (gc_move _ _ _ _ _ i seg l w' pcs' Hx) as (Hok & Hsegs & Hb & Ha & Hr); try done.
  { unfold open_segs. cbn. by rewrite lookup_app_l. }
  { by rewrite lookup_app_l by lia. }
  cbn [commits reads] in *.
  assert (<[i := set_writer w' seg]> (open_segs (mkConc m det cs rs)) =
    <[i := set_writer w' seg]> det ++ segments m) as Heq.
  { unfold open_segs. cbn. by rewrite insert_app_l. }
  rewrite Heq in *. split; cbn; try done; try apply Hx.
  - by rewrite length_insert.
  - unfold open_segs. cbn. rewrite Hb. apply Hx.
  - rewrite list_fmap_insert, list_insert_id; [apply Hx|]. by rewrite list_lookup_fmap, Hi.
Qed.
(** The goroutines of no open segment changed. *)
Lemma segs_other h0 hist ext cs cs' segs ls :
  Forall2 (seg_at h0 hist cs) segs ls ->
  (forall seg, seg ∈ segs -> default ∅ (cs' !! baseOffset seg) = default ∅ (cs !! baseOffset seg)) ->
  Forall2 (seg_at h0 (hist ++ ext) cs') segs ls.
Proof.
  intros Hall Hcs. apply Forall2_same_length_lookup_2; [by eapply Forall2_length|].
  intros i s x Hs Hx. apply (seg_at_mono _ _ _ cs); [|by eapply Forall2_lookup_lr].
  apply Hcs. by eapply list_elem_of_lookup_2.
Qed.

Lemma conc_inv_orphan h0 hist dlogs logs m det cs rs base t p err :
  conc_inv h0 hist dlogs logs (mkConc m det cs rs) ->
  (forall seg, seg ∈ det ++ segments m -> baseOffset seg <> base) ->
  default ∅ (cs !! base) !! t = Some p ->
  conc_inv h0 hist dlogs logs (mkConc m det
    (<[base := <[t := PDone (pc_data p) (pc_off p) err]> (default ∅ (cs !! base))]> cs) rs).
Proof.
  intros Hx Hno Ht. split; try apply Hx.
  - cbn. rewrite <- (app_nil_r hist). eapply segs_other; [apply Hx|]. cbn.
    intros seg Hseg. rewrite lookup_insert_ne; [done|]. intros Heq. by apply (Hno seg Hseg).
  - cbn. apply appends_move; [|apply Hx].
    intros t' p' [[<- <-]|[_ H]]%lookup_insert_Some; eauto.
Qed.

(** ** Reads *)

Lemma conc_window h0 hist dlogs logs x :
  conc_inv h0 hist dlogs logs x ->
  h0 <= EarliestOffset (cc_mgr x) /\ EarliestOffset (cc_mgr x) <= Mgr_NextOffset (cc_mgr x) /\
  Mgr_NextOffset (cc_mgr x) = EarliestOffset (cc_mgr x) + zlen (mjoin logs).
Proof.
  intros Hx. pose proof (ci_mgr _ _ _ _ _ Hx) as Hm.
  destruct (mgr_split c _ _ Hm) as (_ & _ & _ & _ & _ & _ & _ & _ & _ & ->).
  pose proof (zlen_nonneg (mjoin logs)). split_and!; try lia.
  pose proof (ci_segs _ _ _ _ _ Hx) as Hs. unfold open_segs in Hs.
  apply Forall2_app_inv_l in Hs as (a & b & _ & Hs & _). pose proof (mi_ne _ _ _ Hm) as Hne.
  unfold EarliestOffset. destruct (segments (cc_mgr x)) as [|s ss]; [done|].
  destruct b; [by apply Forall2_cons_nil_inv in Hs|].
  apply Forall2_cons in Hs as [Hs _]. apply (sa_base _ _ _ _ _ Hs).
Qed.

(** Changing one goroutine's read. *)
Lemma conc_inv_read h0 hist dlogs logs x t r :
  conc_inv h0 hist dlogs logs x -> read_ok h0 hist (open_segs x) (dlogs ++ logs) r ->
  conc_inv h0 hist dlogs logs (set_reads (<[t := r]> (reads x)) x).
Proof.
  intros Hx Hr. destruct Hx. split; try done.
  intros t' r'. cbn. intros [[<- <-]|[_ H]]%lookup_insert_Some; [done|by eapply ci_reads0].
Qed.

Lemma read_pick_ok h0 hist dlogs logs x o :
  conc_inv h0 hist dlogs logs x ->
  read_ok h0 hist (open_segs x) (dlogs ++ logs)
    match read_pick o (cc_mgr x) with
    | Ok seg => RdPicked o (baseOffset seg) (EarliestOffset (cc_mgr x)) (Mgr_NextOffset (cc_mgr x))
    | Err e => RdDone o (EarliestOffset (cc_mgr x)) (Mgr_NextOffset (cc_mgr x)) (Err e)
    end.
Proof.
  intros Hx. destruct (conc_window _ _ _ _ _ Hx) as (Hlo & Hle & Hw).
  pose proof (ci_next _ _ _ _ _ Hx) as Hn. pose proof (ci_dlen _ _ _ _ _ Hx) as Hdl.
  pose proof (segmentFor_spec c (cc_mgr x) _ _ o (mi_chain _ _ _ (ci_mgr _ _ _ _ _ Hx))) as Hfor.
  unfold read_pick. destruct (segmentFor o (cc_mgr x)) as [s|].
  - destruct Hfor as (k & l & Hk & Hl & Hb & Ho & _). cbn.
    pose proof (zlen_nonneg (mjoin (take k logs))).
    pose proof (mjoin_take_S _ _ _ Hl). pose proof (mjoin_take_le logs (S k) (length logs)) as Hm.
    rewrite firstn_all in Hm. pose proof (lookup_lt_Some _ _ _ Hl). split_and!; try lia.
    exists l, (length (detached x) + k)%nat, s. unfold open_segs.
    rewrite !lookup_app_r by lia. rewrite <- Hk, <- Hl.
    split_and!; try done; try lia; f_equal; lia.
  - destruct (Z.ltb_spec o (EarliestOffset (cc_mgr x))); cbn; (split; [lia|]); unfold window_read.
    + by case_if; [|blia].
    + case_if; [blia|]. case_if; [blia|done].
Qed.

(** The segment a reader holds is the open one with its base. *)
Lemma holds_seg_unique h0 hist dlogs logs x base o l seg :
  conc_inv h0 hist dlogs logs x -> holds_seg (open_segs x) (dlogs ++ logs) base o l ->
  seg ∈ open_segs x -> baseOffset seg = base -> seg_at h0 hist (commits x) seg l.
Proof.
  intros Hx (k & s & Hk & Hl & Hb & _) (j & Hj)%list_elem_of_lookup Hbj.
  assert (j = k) as ->.
  { eapply (NoDup_lookup _ j k base (ci_nodup _ _ _ _ _ Hx)); rewrite list_lookup_fmap.
    - by rewrite Hj, <- Hbj.
    - by rewrite Hk, <- Hb. }
  rewrite Hk in Hj. injection Hj as ->. by eapply Forall2_lookup_lr; [apply Hx|..].
Qed.

(** One round of the scan of a read in flight. *)
Lemma scan_round h0 hist cs seg l base o i :
  seg_at h0 hist cs seg l -> baseOffset seg = base -> base <= o < base + zlen l -> base + Z.of_nat i <= o ->
  exists d, l !! i = Some d /\
  read_iter no_fault (s_reader seg) (w_file (s_writer seg)) (u64 (o - base)) (Z.of_nat i)
    (Z.of_nat (rec_pos c l i)) =
  if base + Z.of_nat i =? o then inl (Ok d) else inr (Z.of_nat (S i), Z.of_nat (rec_pos c l (S i))).
Proof.
  intros [Hok Hh0 _ _] <- Ho Hi. destruct (lookup_lt_is_Some_2 l i) as [d Hd]; [unfold zlen in *; lia|].
  exists d. split; [done|]. destruct (sv_wal _ _ _ Hok) as (b & s & Hw).
  destruct (sv_reader _ _ _ Hok) as [r ->]. destruct (sv_range _ _ _ Hok).
  rewrite u64_small by (unfold is_u64; lia).
  rewrite (read_iter_record c _ l r i d) by (done || by eapply wal_inv_holds).
  by destruct (Z.eqb_spec (Z.of_nat i) (o - baseOffset seg)),
    (Z.eqb_spec (baseOffset seg + Z.of_nat i) o); try lia.
Qed.

Lemma read_step_inv h0 hist dlogs logs t x y :
  conc_inv h0 hist dlogs logs x -> read_step t x y -> conc_inv h0 hist dlogs logs y.
Proof.
  intros Hx Hstep.
  destruct Hstep as [x o base lo hi seg cur pos Ht Hin Hb Hst|x o base lo hi seg cur pos cur' pos' Ht Hin Hb Hit|
    x o base lo hi seg cur pos res Ht Hin Hb Hit|x o base lo hi r Ht Hr Hno];
    apply conc_inv_read; try done; pose proof (ci_reads _ _ _ _ _ Hx _ _ Ht) as Hok.
  - destruct Hok as (? & ? & l & Hl). pose proof (holds_seg_unique _ _ _ _ _ _ _ _ _ Hx Hl Hin Hb) as Hat.
    destruct Hl as (k & s & Hk & Hlk & Hs & Ho). pose proof (sa_ok _ _ _ _ _ Hat) as Hsok.
    destruct (sv_range _ _ _ Hsok). destruct (sv_wal _ _ _ Hsok) as (b & q & Hw).
    destruct (read_start_boundary c l _ _ (o - base) (wi_store _ _ _ _ _ Hw)) as (i & ? & ? & Hrun); [lia|].
    rewrite u64_small, Hrun in Hst by (unfold is_u64; lia). injection Hst as <- <-.
    cbn. split_and!; try lia. exists l, i. split_and!; try done; try lia. by exists k, s.
  - destruct Hok as (? & ? & l & i & Hl & Hi & -> & ->).
    pose proof (holds_seg_unique _ _ _ _ _ _ _ _ _ Hx Hl Hin Hb) as Hat.
    assert (base <= o < base + zlen l) as Ho by by destruct Hl as (_ & _ & _ & _ & _ & ?).
    destruct (scan_round _ _ _ _ _ _ _ i Hat Hb Ho Hi) as (d & _ & Hrun). rewrite Hrun in Hit.
    case_if_in Hit; [done|]. injection Hit as <- <-. cbn. split_and!; try lia.
    exists l, (S i). split_and!; try done. blia.
  - destruct Hok as (? & ? & l & i & Hl & Hi & -> & ->).
    pose proof (holds_seg_unique _ _ _ _ _ _ _ _ _ Hx Hl Hin Hb) as Hat.
    assert (base <= o < base + zlen l) as Ho by by destruct Hl as (_ & _ & _ & _ & _ & ?).
    destruct (scan_round _ _ _ _ _ _ _ i Hat Hb Ho Hi) as (d & Hd & Hrun). rewrite Hrun in Hit.
    case_if_in Hit; [|done]. injection Hit as <-. cbn. split; [lia|]. unfold window_read.
    pose proof (sa_hist _ _ _ _ _ Hat i d Hd) as Hrec. rewrite Hb in Hrec.
    case_if; [blia|]. case_if; [|blia]. bprop. by subst o; rewrite Hrec.
  - exfalso. assert (exists l, holds_seg (open_segs x) (dlogs ++ logs) base o l) as (l & k & s & Hk & _ & Hb & _).
    { destruct Hr as [->|(cur & pos & ->)]; [by destruct Hok as (_ & _ & ?)|].
      destruct Hok as (_ & _ & l & i & Hl & _). by exists l. }
    apply (Hno s); [|done]. by eapply list_elem_of_lookup_2.
Qed.
(** ** Retention *)

Lemma conc_inv_detach h0 hist dlogs logs m det cs rs now1 now2 :
  conc_inv h0 hist dlogs logs (mkConc m det cs rs) ->
  let n := retention_count now2 m in
  conc_inv h0 hist (dlogs ++ take n logs) (drop n logs)
    (mkConc (retention_detach now1 now2 m).2 (det ++ (retention_detach now1 now2 m).1) cs rs).
Proof.
  intros Hx n. pose proof (ci_mgr _ _ _ _ _ Hx) as Hm. cbn in Hm.
  destruct (detach_inv c now1 now2 m logs Hm) as (Hm1 & He & Hn). fold n in Hm1, He.
  pose proof (retention_lt c now2 m logs Hm) as Hlt. fold n in Hlt.
  assert (open_segs (mkConc (retention_detach now1 now2 m).2 (det ++ (retention_detach now1 now2 m).1) cs rs) =
    open_segs (mkConc m det cs rs)) as Ho.
  { unfold open_segs. cbn. by rewrite <- app_assoc, take_drop. }
  assert ((dlogs ++ take n logs) ++ drop n logs = dlogs ++ logs) as Hl by by rewrite <- app_assoc, take_drop.
  split; rewrite ?Ho, ?Hl; try apply Hx; try done.
  - cbn. fold (retention_count now2 m). fold n.
    rewrite !length_app, !length_take, (chain_length c _ _ _ (mi_chain _ _ _ Hm)).
    pose proof (ci_dlen _ _ _ _ _ Hx) as Hdl. cbn in Hdl. lia.
  - cbn [detached cc_mgr]. rewrite He, fmap_app. apply Forall_app. split.
    + eapply Forall_impl; [apply Hx|]. cbn. intros b. pose proof (zlen_nonneg (mjoin (take n logs))). lia.
    + apply Forall_forall. intros b (s & -> & (k & Hk)%list_elem_of_lookup)%list_elem_of_fmap.
      change (take n (segments m) !! k = Some s) in Hk. pose proof (lookup_lt_Some _ _ _ Hk) as Hkn.
      rewrite length_take in Hkn. rewrite lookup_take_lt in Hk by lia.
      by destruct (chain_base_lt c _ _ _ _ _ n (mi_chain _ _ _ Hm) Hk ltac:(lia) Hlt) as (_ & ? & _).
  - cbn [cc_mgr]. rewrite Hn. apply Hx.
Qed.

Lemma delete_app_l {A} (l k : list A) i : (i < length l)%nat -> delete i (l ++ k) = delete i l ++ k.
Proof.
  revert i. induction l as [|x l IH]; intros [|i] Hi; simpl in *; try lia; [done|].
  f_equal. apply IH. lia.
Qed.

(** Phase B needs that no reader is left: the others keep their segments. *)
Lemma conc_inv_delete h0 hist dlogs logs m det cs rs i seg io :
  conc_inv h0 hist dlogs logs (mkConc m det cs rs) -> det !! i = Some seg ->
  no_readers (mkConc m det cs rs) (baseOffset seg) ->
  conc_inv h0 hist (delete i dlogs) logs
    (mkConc (set_metrics (delete_segment io seg (Metrics m) (m_dir m)).1
               (set_dir (delete_segment io seg (Metrics m) (m_dir m)).2 m)) (delete i det) cs rs).
Proof.
  intros Hx Hi Hno. pose proof (ci_mgr _ _ _ _ _ Hx) as Hm. pose proof (ci_dlen _ _ _ _ _ Hx) as Hdl.
  cbn in Hm, Hdl. pose proof (lookup_lt_Some _ _ _ Hi) as Hlt.
  assert (delete i det ++ segments m = delete i (det ++ segments m)) as Ho by by rewrite delete_app_l.
  assert (delete i dlogs ++ logs = delete i (dlogs ++ logs)) as Hl by (rewrite delete_app_l; [done|lia]).
  destruct (lookup_lt_is_Some_2 dlogs i) as [l Hli]; [lia|].
  assert (seg_at h0 hist cs seg l) as Hat.
  { eapply Forall2_lookup_lr; [apply Hx|..]; cbn; unfold open_segs; rewrite lookup_app_l; done || (cbn; lia). }
  pose proof (sa_ok _ _ _ _ _ Hat) as Hsok. destruct (sv_range _ _ _ Hsok).
  pose proof (ci_det _ _ _ _ _ Hx) as Hdet. cbn in Hdet.
  pose proof (delete_inv c io seg m logs Hm (sv_path _ _ _ Hsok)) as Hm'.
  destruct (delete_segment io seg (Metrics m) (m_dir m)) as [x d]. cbn [fst snd].
  split; cbn [cc_mgr detached commits reads]; unfold open_segs; cbn [cc_mgr detached set_metrics set_dir segments];
    rewrite ?Ho, ?Hl; try apply Hx.
  - apply Hm'. split; [lia|]. rewrite Forall_fmap, Forall_lookup in Hdet. by apply (Hdet i).
  - apply Forall2_delete, Hx.
  - rewrite !length_delete; [lia|..]; [by rewrite Hi|by rewrite Hli].
  - eapply sublist_NoDup; [apply (ci_nodup _ _ _ _ _ Hx)|]. apply fmap_sublist, sublist_delete.
  - rewrite Forall_fmap in Hdet |- *. change (EarliestOffset (set_metrics x (set_dir d m))) with (EarliestOffset m).
    by apply Forall_delete.
  - intros t r Ht. rewrite <- (app_nil_r hist). eapply read_ok_mono; [|by eapply (ci_reads _ _ _ _ _ Hx)].
    intros k s lk Hk Hlk Hb. unfold open_segs in Hk. cbn in Hk. exists (if decide (k < i)%nat then k else pred k), s, [].
    assert (k <> i).
    { intros ->. rewrite lookup_app_l, Hi in Hk by done. injection Hk as <-. by apply (Hno t r). }
    rewrite app_nil_r. case_decide.
    + by rewrite !list_lookup_delete_lt by lia.
    + rewrite !list_lookup_delete_ge by lia. by replace (S (pred k)) with k by lia.
Qed.
(** ** Appends *)

(** No goroutine has an offset in a segment that does not exist yet. *)
Lemma commits_fresh h0 hist cs base :
  appends_ok h0 hist cs -> h0 + zlen hist <= base -> default ∅ (cs !! base) = ∅.
Proof.
  intros [Hok _] Hb. apply map_empty. intros t.
  destruct (default ∅ (cs !! base) !! t) as [p|] eqn:Ht; [|done].
  destruct (Hok _ _ _ Ht) as (? & _ & ?%rec_at_lt). lia.
Qed.

(** The base of a segment behind the live ones is new. *)
Lemma roll_bases h0 hist dlogs logs x m1 s1 :
  conc_inv h0 hist dlogs logs x -> mgr_ok c false m1 (logs ++ [[]]) ->
  segments m1 = segments (cc_mgr x) ++ [s1] -> EarliestOffset m1 = EarliestOffset (cc_mgr x) ->
  forall s, s ∈ open_segs x -> baseOffset s < Mgr_NextOffset (cc_mgr x).
Proof.
  intros Hx Hm1 Hss1 He1 s [Hin|(k & Hk)%list_elem_of_lookup]%elem_of_app;
    destruct (conc_window _ _ _ _ _ Hx) as (_ & Hle & Hw).
  - pose proof (ci_det _ _ _ _ _ Hx) as Hd. rewrite Forall_fmap, Forall_forall in Hd.
    specialize (Hd s Hin). cbn in Hd. lia.
  - pose proof (lookup_lt_Some _ _ _ Hk).
    pose proof (chain_length c _ _ _ (mi_chain _ _ _ (ci_mgr _ _ _ _ _ Hx))) as Hlen.
    destruct (chain_base_lt c _ _ _ k s (length (segments (cc_mgr x))) (mi_chain _ _ _ Hm1)) as (_ & Hlt & _);
      try lia.
    + by rewrite Hss1, lookup_app_l.
    + rewrite Hss1, length_app. simpl. lia.
    + rewrite He1, Hlen, take_app_length in Hlt. lia.
Qed.

Lemma conc_inv_roll h0 hist dlogs ls l m det cs rs s io :
  conc_inv h0 hist dlogs (ls ++ [l]) (mkConc m det cs rs) -> active m = Some s -> l <> [] -> sg_ok io ->
  Mgr_NextOffset m < 2 ^ 64 ->
  exists m1, roll io m = Some (None, m1) /\
    conc_inv h0 hist dlogs ((ls ++ [l]) ++ [[]]) (mkConc m1 det cs rs) /\
    Mgr_NextOffset m1 = Mgr_NextOffset m /\ m_cfg m1 = m_cfg m.
Proof.
  intros Hx Ha Hl Hio Hn. pose proof (ci_mgr _ _ _ _ _ Hx) as Hm. cbn in Hm.
  destruct (roll_inv c io m _ s l ls Hm eq_refl Ha Hl Hio Hn)
    as (m1 & s1 & Hr & Hm1 & Hss1 & Hb1 & He1 & _ & Hcfg & Hn1 & Hsy).
  exists m1. split_and!; try done.
  pose proof (chain_length c _ _ _ (mi_chain _ _ _ Hm)) as Hlen.
  assert (open_segs (mkConc m1 det cs rs) = open_segs (mkConc m det cs rs) ++ [s1]) as Ho
    by (unfold open_segs; cbn; by rewrite Hss1, app_assoc).
  assert (dlogs ++ (ls ++ [l]) ++ [[]] = (dlogs ++ ls ++ [l]) ++ [[]]) as Hls by by rewrite !app_assoc.
  pose proof (ci_next _ _ _ _ _ Hx) as Hnx. cbn in Hnx.
  destruct (conc_window _ _ _ _ _ Hx) as (Hlo & Hle & Hw). cbn in Hlo, Hle, Hw.
  assert (seg_ok c false s1 []) as Hs1.
  { destruct (chain_lookup c _ _ _ (length (segments m)) s1 (mi_chain _ _ _ Hm1)) as (l1 & Hl1 & ? & _).
    - by rewrite Hss1, lookup_app_r, Nat.sub_diag by lia.
    - rewrite lookup_app_r, Hlen, Nat.sub_diag in Hl1 by lia. by injection Hl1 as <-. }
  pose proof (roll_bases _ _ _ _ _ _ _ Hx Hm1 Hss1 He1) as Hbases. cbn in Hbases.
  split; cbn [cc_mgr detached commits reads]; rewrite ?Ho, ?Hls; try apply Hx; try done.
  - apply Forall2_app; [apply Hx|]. apply Forall2_cons. split; [|done]. split; try done; [lia|].
    destruct (sv_wal _ _ _ Hs1) as (b & q & Hwal). pose proof (wi_bs _ _ _ _ _ Hwal) as Hbq. simpl in Hbq.
    assert (b = 0%nat /\ q = 0%nat) as [-> ->] by lia. exists 0%nat, 0%nat.
    rewrite (commits_fresh h0 hist); [by apply gc_inv_init|apply Hx|lia].
  - rewrite fmap_app. apply NoDup_app. split_and!; [apply Hx| |apply NoDup_singleton].
    intros b (s' & -> & Hs')%list_elem_of_fmap. cbn. rewrite list_elem_of_singleton.
    specialize (Hbases s' Hs'). lia.
  - rewrite He1. apply Hx.
  - lia.
  - intros t r Ht. rewrite <- (app_nil_r hist). eapply read_ok_mono; [|by eapply (ci_reads _ _ _ _ _ Hx)].
    intros k s' lk Hk Hlk _. exists k, s', []. rewrite app_nil_r.
    by rewrite (lookup_app_l_Some _ _ _ _ Hk), (lookup_app_l_Some _ _ _ _ Hlk).
Qed.

Lemma last_pos {A} (l : list A) k x y :
  length l = k -> (l ++ [x]) !! k = Some x /\ <[k := y]> (l ++ [x]) = l ++ [y].
Proof. intros <-. by rewrite lookup_app_r, insert_app_r_alt, Nat.sub_diag by lia. Qed.

(** The active segment with one more record and its goroutine. *)
Lemma reserve_seg_at h0 hist cs s l t data now lo q w' :
  seg_at h0 hist cs s l -> payload_ok data -> fits c (encode_log c (l ++ [data])) ->
  baseOffset s + zlen l = h0 + zlen hist -> baseOffset s + zlen l + 1 < 2 ^ 64 ->
  default ∅ (cs !! baseOffset s) !! t = None ->
  Reserve WOk data (s_writer s) = (Ok (lo, q), w') ->
  lo = zlen l /\
  seg_at h0 (hist ++ [data])
    (<[baseOffset s := <[t := PCommit data lo q]> (default ∅ (cs !! baseOffset s))]> cs)
    (mkSegment (baseOffset s) w' (s_reader s) (s_path s) now) (l ++ [data]).
Proof.
  intros [Hok Hb Hh (b & u & Hg)] Hp Hfit Hnext Hn Ht Hres.
  pose proof (gi_wal _ _ _ _ _ Hg) as Hw. cbn in Hw. pose proof (sv_range _ _ _ Hok) as Hr.
  assert (gc_inv c b u (l ++ [data]) (mkGc w' (<[t := PCommit data lo q]> (default ∅ (cs !! baseOffset s))))) as Hg'.
  { eapply gc_inv_reserve; try done. unfold fits in Hfit. rewrite encode_log_app, encode_log_singleton, zlen_app in Hfit.
    rewrite (wi_csum _ _ _ _ _ Hw), (wi_data _ _ _ _ _ Hw), (wi_hs _ _ _ _ _ Hw). lia. }
  destruct (Reserve_inv c _ _ _ _ data Hw Hp Hfit) as (w1 & Hres1 & _).
  rewrite Hres1 in Hres. injection Hres as <- <- <-. split; [done|]. split; cbn; try done.
  - split; cbn; try done.
    + exists b, u. apply Hg'.
    + apply Hok.
    + apply Hok.
    + rewrite zlen_app. unfold zlen at 2. simpl. lia.
  - intros i d [Hi|[? Hi]]%lookup_app_Some.
    + by apply rec_at_app, Hh.
    + apply list_lookup_singleton_Some in Hi as [? <-].
      replace (baseOffset s + Z.of_nat i) with (h0 + zlen hist) by (unfold zlen in *; lia). apply rec_at_new.
  - exists b, u. by rewrite lookup_insert_eq.
Qed.

Lemma conc_inv_reserve h0 hist dlogs ls l m det cs rs ss s t data now lo q w' :
  conc_inv h0 hist dlogs (ls ++ [l]) (mkConc m det cs rs) -> segments m = ss ++ [s] -> payload_ok data ->
  zlen (encode_log c l) <= 2 ^ 61 -> Mgr_NextOffset m + 1 < 2 ^ 64 ->
  default ∅ (cs !! baseOffset s) !! t = None ->
  Reserve WOk data (s_writer s) = (Ok (lo, q), w') ->
  conc_inv h0 (hist ++ [data]) dlogs (ls ++ [l ++ [data]])
    (mkConc (set_segments (ss ++ [mkSegment (baseOffset s) w' (s_reader s) (s_path s) now]) m) det
       (<[baseOffset s := <[t := PCommit data lo q]> (default ∅ (cs !! baseOffset s))]> cs) rs) /\
  baseOffset s + lo = Mgr_NextOffset m.
Proof.
  intros Hx Hss Hp Hz Hn Ht Hres. set (s' := mkSegment _ w' _ _ _).
  pose proof (ci_mgr _ _ _ _ _ Hx) as Hm. pose proof (ci_dlen _ _ _ _ _ Hx) as Hdl. cbn in Hm, Hdl.
  pose proof (chain_length c _ _ _ (mi_chain _ _ _ Hm)) as Hlen. rewrite Hss, !length_app in Hlen. simpl in Hlen.
  assert (open_segs (mkConc m det cs rs) = (det ++ ss) ++ [s]) as Ho
    by (unfold open_segs; cbn; by rewrite Hss, app_assoc).
  set (k := length (det ++ ss)).
  pose proof (fun x y => last_pos (det ++ ss) k x y eq_refl) as Hlast.
  assert (length (dlogs ++ ls) = k) as Hk by (unfold k; rewrite !length_app; lia).
  pose proof (fun x y => last_pos (dlogs ++ ls) k x y Hk) as Hllast.
  pose proof (ci_segs _ _ _ _ _ Hx) as Hall. rewrite Ho, app_assoc in Hall. cbn [commits] in Hall.
  pose proof (Forall2_lookup_lr _ _ _ _ _ _ Hall (proj1 (Hlast s s)) (proj1 (Hllast l l))) as Hat.
  pose proof (sa_ok _ _ _ _ _ Hat) as Hok.
  assert (baseOffset s + zlen l = Mgr_NextOffset m) as Hnext
    by (unfold Mgr_NextOffset, active; by rewrite Hss, last_snoc, (seg_next c _ _ Hok)).
  pose proof (ci_next _ _ _ _ _ Hx) as Hnx. cbn in Hnx.
  destruct (reserve_seg_at _ _ _ _ _ t data now lo q w' Hat Hp) as [-> Hat']; try done; try lia.
  { apply fits_small; [done|apply Hm|done|done]. }
  fold s' in Hat'. split; [|done].
  set (cs' := <[baseOffset s := _]> cs) in *.
  destruct (segs_update _ _ [data] cs cs' _ _ k s l s' (l ++ [data]) Hall) as [Hsegs Hb]; try done;
    [rewrite <- Ho; apply Hx|apply (Hlast s s)|apply (Hllast l l)|by intros; unfold cs'; rewrite lookup_insert_ne|].
  pose proof (reads_update h0 hist [data] _ _ k s l s' [data] rs (proj1 (Hlast s s')) (proj1 (Hllast l l)) eq_refl) as Hreads.
  rewrite (proj2 (Hlast s s')), (proj2 (Hllast l _)) in *.
  destruct (mgr_inv_update c m ss s ls l s' (l ++ [data]) Hm Hss eq_refl (sa_ok _ _ _ _ _ Hat')) as [Hm' He'].
  assert (open_segs (mkConc (set_segments (ss ++ [s']) m) det cs' rs) = (det ++ ss) ++ [s']) as Ho'
    by (unfold open_segs; cbn; by rewrite app_assoc).
  split; rewrite ?Ho', ?(app_assoc dlogs); cbn [cc_mgr detached commits reads]; try done.
  - rewrite Hb, <- Ho. apply Hx.
  - rewrite He'. apply Hx.
  - unfold Mgr_NextOffset, active. cbn. rewrite last_snoc, (seg_next c _ _ (sa_ok _ _ _ _ _ Hat')), !zlen_app.
    cbn. lia.
  - apply appends_new; [apply Hx|apply zlen_nonneg|apply Hat|lia].
  - apply Hreads. rewrite <- Ho, <- app_assoc. apply Hx.
Qed.
(** Phase 1 of [Append] up to its [reserve]: a segment with room, or the error
    of a failed roll with nothing changed. *)
Lemma maybe_roll_conc h0 hist dlogs logs m det cs rs a io :
  conc_inv h0 hist dlogs logs (mkConc m det cs rs) -> active m = Some a -> Mgr_NextOffset m + 1 < 2 ^ 64 ->
  (exists e, (if MaxSegmentBytes (m_cfg m) <=? Seg_Size a then roll io m else Some (None, m)) = Some (Some e, m)) \/
  exists m1 ls l, (if MaxSegmentBytes (m_cfg m) <=? Seg_Size a then roll io m else Some (None, m)) = Some (None, m1) /\
    conc_inv h0 hist dlogs (ls ++ [l]) (mkConc m1 det cs rs) /\ zlen (encode_log c l) <= 2 ^ 61 /\
    Mgr_NextOffset m1 = Mgr_NextOffset m.
Proof.
  intros Hx Ha Hn. pose proof (ci_mgr _ _ _ _ _ Hx) as Hm. cbn in Hm.
  destruct (mgr_split c _ _ Hm) as (ss & s & ls & l & Hss & -> & Ha' & Hs & _ & _).
  rewrite Ha in Ha'. injection Ha' as <-. pose proof (mi_max _ _ _ Hm) as Hmax. rewrite (seg_size c _ _ Hs).
  destruct (Z.leb_spec (MaxSegmentBytes (m_cfg m)) (zlen (encode_log c l))) as [Hfull|Hroom].
  - destruct (roll_any c io m _ a l ls Hm eq_refl Ha ltac:(lia)) as [-> |[e ->]]; [|left; by eexists].
    destruct (conc_inv_roll _ _ _ ls l m det cs rs a (sg_clean io) Hx Ha) as (m1 & Hr & Hx1 & Hn1 & _);
      [|apply sg_clean_ok|lia|].
    { intros ->. unfold zlen in Hfull. simpl in Hfull. lia. }
    right. exists m1, (ls ++ [l]), []. split_and!; try done.
  - right. exists m, ls, l. split_and!; try done. lia.
Qed.

Lemma conc_inv_append h0 hist dlogs logs m det cs rs t io data now base lo q m' :
  conc_inv h0 hist dlogs logs (mkConc m det cs rs) ->
  append_reserve io WOk data now m = Some (Ok (base, lo, q), m') -> Mgr_NextOffset m + 1 < 2 ^ 64 ->
  default ∅ (cs !! base) !! t = None ->
  base + lo = Mgr_NextOffset m /\ exists logs',
  conc_inv h0 (hist ++ [data]) dlogs logs'
    (mkConc m' det (<[base := <[t := PCommit data lo q]> (default ∅ (cs !! base))]> cs) rs).
Proof.
  intros Hx Hrun Hn Ht. unfold append_reserve in Hrun.
  destruct (active m) as [a|] eqn:Ha; [|done].
  destruct (maybe_roll_conc _ _ _ _ _ _ _ _ _ io Hx Ha Hn) as [[e Hr]|(m1 & ls & l & Hr & Hx1 & Hz & Hn1)];
    rewrite Hr in Hrun; [done|].
  destruct (mgr_split c _ _ (ci_mgr _ _ _ _ _ Hx1)) as (ss & s & _ & _ & Hss & _ & Ha1 & _). cbn in Hss, Ha1.
  rewrite Ha1 in Hrun. unfold reserve in Hrun.
  destruct (Reserve WOk data (s_writer s)) as [[[lo' q']|e] w'] eqn:Hres; [|done].
  injection Hrun as <- <- <- <-. unfold BaseOffset in *. rewrite Hss, update_last_snoc.
  assert (payload_ok data) as Hp.
  { unfold Reserve in Hres. unfold payload_ok. case_if_in Hres; [done|blia]. }
  rewrite <- Hn1 in Hn |- *.
  destruct (conc_inv_reserve _ _ _ _ _ _ _ _ _ _ _ t data now _ _ _ Hx1 Hss Hp Hz Hn Ht Hres) as [Hx2 ?].
  split; [done|]. by eexists.
Qed.

Lemma conc_inv_append_err h0 hist dlogs logs m det cs rs io wo data now e m' :
  conc_inv h0 hist dlogs logs (mkConc m det cs rs) ->
  append_reserve io wo data now m = Some (Err e, m') -> clean_write wo -> Mgr_NextOffset m + 1 < 2 ^ 64 ->
  exists logs', conc_inv h0 hist dlogs logs' (mkConc m' det cs rs).
Proof.
  intros Hx Hrun Hwo Hn. unfold append_reserve in Hrun.
  destruct (active m) as [a|] eqn:Ha; [|done].
  destruct (maybe_roll_conc _ _ _ _ _ _ _ _ _ io Hx Ha Hn) as [[e' Hr]|(m1 & ls & l & Hr & Hx1 & Hz & Hn1)];
    rewrite Hr in Hrun; [injection Hrun as <- <-; by exists logs|].
  destruct (mgr_split c _ _ (ci_mgr _ _ _ _ _ Hx1)) as (ss & s & _ & _ & Hss & _ & Ha1 & _). cbn in Hss, Ha1.
  rewrite Ha1 in Hrun. unfold reserve in Hrun.
  destruct (Reserve wo data (s_writer s)) as [[[lo' q']|e'] w'] eqn:Hres; [done|].
  pose proof (ci_segs _ _ _ _ _ Hx1) as Hall. unfold open_segs in Hall. cbn in Hall. rewrite Hss, app_assoc in Hall.
  apply Forall2_app_inv_l in Hall as (? & ? & _ & (? & ? & [_ _ _ (b & u & Hg)] & _ & _)%Forall2_cons_inv_l & _).
  rewrite (gc_inv_reserve_err c _ _ _ _ _ _ _ _ _ Hg Hwo Hres) in Hrun.
  injection Hrun as <- <-. rewrite Hss, update_last_snoc. exists (ls ++ [l]).
  assert (set_segments (ss ++ [set_writer (s_writer s) s]) m1 = m1) as ->; [|done].
  destruct m1, s. cbn in *. by rewrite Hss.
Qed.

(** ** Every step *)

Lemma conc_step_inv h0 hist dlogs logs x y :
  conc_inv h0 hist dlogs logs x -> conc_step x y ->
  exists ext dlogs' logs', conc_inv h0 (hist ++ ext) dlogs' logs' y.
Proof.
  intros Hx Hstep.
  destruct Hstep as [m det cs rs t io data now base lo q m' Hrun Hn Ht|m det cs rs io wo data now e m' Hrun Hwo Hn|
    m det cs rs i seg w' pcs' Hi Hgc|m det cs rs i seg w' pcs' Hi Hgc|m det cs rs base t p err Hno Hp _|
    m det cs rs t o Ht Ho|x y t Hr|m det cs rs now1 now2|m det cs rs i seg io Hi Hno].
  - destruct (conc_inv_append _ _ _ _ _ _ _ _ _ _ _ _ _ _ _ _ Hx Hrun Hn Ht) as (_ & logs' & H).
    by exists [data], dlogs, logs'.
  - destruct (conc_inv_append_err _ _ _ _ _ _ _ _ _ _ _ _ _ _ Hx Hrun Hwo Hn) as (logs' & H).
    exists [], dlogs, logs'. by rewrite app_nil_r.
  - exists [], dlogs, logs. rewrite app_nil_r. by apply conc_inv_commit.
  - exists [], dlogs, logs. rewrite app_nil_r. by apply conc_inv_commit_det.
  - exists [], dlogs, logs. rewrite app_nil_r. by apply conc_inv_orphan.
  - exists [], dlogs, logs. rewrite app_nil_r.
    apply (conc_inv_read _ _ _ _ (mkConc m det cs rs) t); [done|]. by apply (read_pick_ok _ _ _ _ (mkConc m det cs rs)).
  - exists [], dlogs, logs. rewrite app_nil_r. by eapply read_step_inv.
  - eexists [], _, _. rewrite app_nil_r. by apply conc_inv_detach.
  - eexists [], _, _. rewrite app_nil_r. by apply conc_inv_delete.
Qed.

Lemma conc_steps_inv h0 hist dlogs logs x y :
  conc_steps x y -> conc_inv h0 hist dlogs logs x ->
  exists ext dlogs' logs', conc_inv h0 (hist ++ ext) dlogs' logs' y.
Proof.
  induction 1 as [x|x y z _ IH Hyz]; intros Hx.
  - exists [], dlogs, logs. by rewrite app_nil_r.
  - destruct (IH Hx) as (e1 & d1 & l1 & Hy). destruct (conc_step_inv _ _ _ _ _ _ Hy Hyz) as (e2 & d2 & l2 & Hz).
    exists (e1 ++ e2), d2, l2. by rewrite app_assoc.
Qed.
End ConcInv.
