(* ===== verification/MgrConcProps.v ===== *)
(** * MgrConcProps: what concurrent appends, reads and retention guarantee

    Consequences of the invariant of [MgrConcInv.v] for every state that
    goroutines can reach from an open manager: reads are linearizable at the
    point where they choose their segment, no read meets a closed file,
    acknowledged appends are distinct and durable, and retention's wait for
    readers ends. *)

From Stdlib Require Import ZArith Lia Strings.String Strings.Ascii Strings.Byte.
From stdpp Require Import base list list_numbers numbers option gmap sorting strings.
From coqutil Require Import Byte.
From S2P Require Import Prelude Bytes Golib Index Checksum Wal WalFormat WalInv GroupCommit Crash WalProps Segment Manager MgrInv MgrProps MgrConc MgrConcInv.

Local Open Scope Z_scope.

(** A manager with no goroutine inside it. *)
Definition conc_start (m : Manager) : conc := mkConc m [] ∅ ∅.

Lemma chain_quiet c b ss logs :
  chain c b ss logs -> Forall2 (seg_inv c) ss logs /\ NoDup (baseOffset <$> ss) /\
  (forall s, s ∈ ss -> b <= baseOffset s).
Proof.
  revert b logs. induction ss as [|s ss IH]; intros b [|l logs]; try done.
  { intros _. split_and!; [done|apply NoDup_nil_2|]. by intros s ?%not_elem_of_nil. }
  intros (Hb & Hs & Hne & (Hall & Hnd & Hge)%IH). pose proof (zlen_nonneg l).
  split_and!.
  - by constructor.
  - cbn. constructor; [|done]. intros (s' & Heq & Hin)%list_elem_of_fmap. specialize (Hge s' Hin).
    assert (l <> []) as Hl by (apply Hne; by destruct ss; [apply not_elem_of_nil in Hin|]).
    destruct l; [done|]. unfold zlen in Hge. simpl in Hge. lia.
  - intros s' [-> |Hin]%elem_of_cons; [lia|]. specialize (Hge s' Hin). lia.
Qed.

Section Start.
Context (c : Checksum) {Hc : ChecksumOk c}.

Lemma conc_start_inv m logs :
  mgr_inv c m logs -> conc_inv c (EarliestOffset m) (mjoin logs) [] logs (conc_start m).
Proof.
  intros Hm. pose proof (mi_chain _ _ _ Hm) as Hch.
  destruct (chain_quiet c _ _ _ Hch) as (Hall & Hnd & Hge).
  destruct (mgr_split c _ _ Hm) as (_ & _ & _ & _ & _ & _ & _ & _ & _ & Hnext).
  split; try done.
  - by apply mgr_ok_weaken.
  - cbn. apply Forall2_same_length_lookup_2; [by eapply Forall2_length|]. intros k s l Hs Hl.
    pose proof (Forall2_lookup_lr _ _ _ _ _ _ Hall Hs Hl) as Hsl.
    destruct (chain_lookup c _ _ _ _ _ Hch Hs) as (l' & Hl' & _ & Hb & _). simplify_eq.
    split; [by apply seg_ok_weaken|apply Hge; by eapply list_elem_of_lookup_2| |].
    + intros i d Hi. unfold rec_at. pose proof (zlen_nonneg (mjoin (take k logs))).
      case_if; [blia|]. pose proof (lookup_lt_Some _ _ _ Hi).
      rewrite (mjoin_lookup logs k l) by (done || unfold zlen in *; lia).
      rewrite <- Hi. f_equal. lia.
    + destruct (sv_wal _ _ _ Hsl) as (b & q & Hw). exists b, q. cbn.
      apply gc_inv_init; [done|]. by apply (sv_idle _ _ _ Hsl).
Qed.
End Start.

(** ** Reads in flight *)

(** The offset a goroutine reads, its window, and how many of its own steps are
    left at most. *)
Definition rd_off (r : rd_pc) : Z :=
  match r with RdPicked o _ _ _ | RdScan o _ _ _ _ _ | RdDone o _ _ _ => o end.
Definition rd_win (r : rd_pc) : Z * Z :=
  match r with RdPicked _ _ lo hi | RdScan _ _ lo hi _ _ | RdDone _ lo hi _ => (lo, hi) end.
Definition rd_left (r : rd_pc) : Z :=
  match r with
  | RdPicked o base _ _ => o - base + 2
  | RdScan o base _ _ cur _ => o - base - cur + 1
  | RdDone _ _ _ _ => 0
  end.

Section Reading.
Context (c : Checksum) {Hc : ChecksumOk c}.

Lemma in_flight_seg h0 hist dlogs logs x t r base :
  conc_inv c h0 hist dlogs logs x -> reads x !! t = Some r -> rd_base r = Some base ->
  exists seg l, seg ∈ open_segs x /\ baseOffset seg = base /\ seg_at c h0 hist (commits x) seg l /\
    holds_seg (open_segs x) (dlogs ++ logs) base (rd_off r) l /\ base <= rd_off r < base + zlen l.
Proof.
  intros Hx Ht Hb. pose proof (ci_reads _ _ _ _ _ _ Hx _ _ Ht) as Hok.
  assert (exists l, holds_seg (open_segs x) (dlogs ++ logs) base (rd_off r) l) as [l Hl].
  { destruct r as [o b lo hi|o b lo hi cur pos|]; try done; injection Hb as <-; cbn in Hok.
    - by destruct Hok as (_ & _ & ?).
    - destruct Hok as (_ & _ & l & i & ? & _). by exists l. }
  pose proof Hl as (k & seg & Hk & _ & Hbase & Ho). exists seg, l.
  assert (seg ∈ open_segs x) by by eapply list_elem_of_lookup_2.
  split_and!; try done; try lia. by eapply holds_seg_unique.
Qed.

(** A read in flight can move. *)
Lemma read_progress h0 hist dlogs logs x t r base :
  conc_inv c h0 hist dlogs logs x -> reads x !! t = Some r -> rd_base r = Some base ->
  exists y, read_step t x y.
Proof.
  intros Hx Ht Hb.
  destruct (in_flight_seg _ _ _ _ _ _ _ _ Hx Ht Hb) as (seg & l & Hin & Hbase & _).
  destruct r as [o b lo hi|o b lo hi cur pos|]; try done; injection Hb as ->.
  - destruct (read_start (u64 (o - base)) (w_store (s_writer seg))) as [cur pos] eqn:Hst.
    eexists. by eapply cs_start.
  - destruct (read_iter no_fault (s_reader seg) (w_file (s_writer seg)) (u64 (o - base)) cur pos)
      as [res|[cur' pos']] eqn:Hit; eexists; [by eapply cs_return|by eapply cs_next].
Qed.

(** Each of its steps brings it closer to its end and changes nothing else. *)
Lemma read_step_left h0 hist dlogs logs x y t r :
  conc_inv c h0 hist dlogs logs x -> reads x !! t = Some r -> read_step t x y ->
  exists r', y = set_reads (<[t := r']> (reads x)) x /\ 0 <= rd_left r' < rd_left r /\ rd_off r' = rd_off r /\ rd_win r' = rd_win r.
Proof.
  intros Hx Ht Hstep. pose proof (read_step_inv c _ _ _ _ _ _ _ Hx Hstep) as Hy.
  pose proof (ci_reads _ _ _ _ _ _ Hx _ _ Ht) as Hok.
  destruct Hstep as [x o base lo hi seg cur pos Ht' _ _ _|x o base lo hi seg cur pos cur' pos' Ht' Hin Hb Hit|
    x o base lo hi seg cur pos res Ht' Hin Hb _|x o base lo hi r' Ht' Hr Hno];
    rewrite Ht in Ht'; injection Ht' as ->; eexists; (split; [done|]).
  - pose proof (ci_reads _ _ _ _ _ _ Hy t) as Hy'. cbn in Hy'. rewrite lookup_insert_eq in Hy'.
    destruct (Hy' _ eq_refl) as (_ & _ & l & i & _ & Hi & -> & _). cbn in *. split_and!; done || lia.
  - destruct Hok as (_ & _ & l & i & Hl & Hi & -> & ->).
    pose proof (holds_seg_unique c _ _ _ _ _ _ _ _ _ Hx Hl Hin Hb) as Hat.
    destruct Hl as (_ & _ & _ & _ & _ & Ho).
    destruct (scan_round c _ _ _ _ _ _ _ i Hat Hb Ho Hi) as (d & _ & Hrun). rewrite Hrun in Hit.
    case_if_in Hit; [done|]. injection Hit as <- <-. cbn. split_and!; done || blia.
  - destruct Hok as (_ & _ & l & i & _ & Hi & -> & _). cbn. split_and!; done || lia.
  - destruct Hr as [->|(cur & pos & ->)]; cbn in Hok |- *.
    + destruct Hok as (_ & _ & l & _ & _ & _ & _ & _ & Ho). split_and!; done || lia.
    + destruct Hok as (_ & _ & l & i & (_ & _ & _ & _ & _ & Ho) & Hi & -> & _). split_and!; done || lia.
Qed.

(** Run alone, a read in flight ends with the answer of its window. *)
Lemma read_finishes h0 hist dlogs logs x t r :
  conc_inv c h0 hist dlogs logs x -> reads x !! t = Some r ->
  exists y, conc_steps x y /\ conc_inv c h0 hist dlogs logs y /\
    reads y !! t = Some (RdDone (rd_off r) (rd_win r).1 (rd_win r).2
                           (window_read h0 hist (rd_win r).1 (rd_win r).2 (rd_off r))) /\
    cc_mgr y = cc_mgr x /\ detached y = detached x /\ commits y = commits x.
Proof.
  intros Hx Ht. remember (Z.to_nat (rd_left r)) as n eqn:Hn.
  revert x r Hx Ht Hn. induction (lt_wf n) as [n _ IH]. intros x r Hx Ht ->.
  destruct (rd_base r) as [base|] eqn:Hb.
  - destruct (read_progress _ _ _ _ _ _ _ _ Hx Ht Hb) as [y Hstep].
    destruct (read_step_left _ _ _ _ _ _ _ _ Hx Ht Hstep) as (r' & Hy & Hleft & Hoff & Hwin).
    pose proof (read_step_inv c _ _ _ _ _ _ _ Hx Hstep) as Hyi.
    destruct (IH (Z.to_nat (rd_left r')) ltac:(lia) y r') as (z & Hsteps & Hz & Hres & Hm & Hd & Hcm);
      [done| |done|].
    { rewrite Hy. cbn. by rewrite lookup_insert_eq. }
    exists z. rewrite Hoff, Hwin in Hres. rewrite Hm, Hd, Hcm, Hy. split_and!; try done.
    eapply conc_cons; [by eapply cs_read|done].
  - destruct r as [| |o lo hi res]; try done. exists x. pose proof (ci_reads _ _ _ _ _ _ Hx _ _ Ht) as [_ ->].
    split_and!; try done. apply conc_refl.
Qed.
End Reading.

(** ** Results *)

Section Reachable.
Context (c : Checksum) {Hc : ChecksumOk c}.

Lemma reach_conc m logs x :
  mgr_inv c m logs -> conc_steps (conc_start m) x ->
  exists ext dlogs' logs', conc_inv c (EarliestOffset m) (mjoin logs ++ ext) dlogs' logs' x.
Proof. intros Hm Hrun. eapply (conc_steps_inv c); [done|]. by apply conc_start_inv. Qed.

(** An append that returned success: its record is fsynced in its segment. *)
Lemma acked_synced h0 hist cs seg l t d o :
  seg_at c h0 hist cs seg l -> default ∅ (cs !! baseOffset seg) !! t = Some (PDone d o None) ->
  exists i, o = Z.of_nat i /\ l !! i = Some d /\
    (rec_pos c l (S i) <= f_synced (w_file (s_writer seg)))%nat.
Proof.
  intros [_ _ _ (b & s & Hg)] Ht. destruct (gi_pcs _ _ _ _ _ Hg _ _ Ht) as (i & -> & Hi & Hbi & Hlt).
  specialize (Hlt eq_refl). exists i. split_and!; try done.
  pose proof (wi_durable _ _ _ _ _ (gi_wal _ _ _ _ _ Hg) ltac:(lia)) as Hd. cbn in Hd.
  pose proof (rec_pos_mono c l (S i) (b + s)). lia.
Qed.

(** A segment's files after a crash open to a prefix with every fsynced record. *)
Lemma segment_crash seg l io dd disk idx i d :
  seg_ok c false seg l -> sg_ok io -> l !! i = Some d ->
  (rec_pos c l (S i) <= f_synced (w_file (s_writer seg)))%nat ->
  d_files dd !! Path seg = Some disk -> d_files dd !! IndexPath seg = Some idx ->
  crash_file (w_file (s_writer seg)) disk -> crash_file (indexFile (w_store (s_writer seg))) idx ->
  exists seg' dd', NewSegment io (baseOffset seg) c dd = Some (Ok seg', dd') /\
    Seg_ReadAt no_fault (baseOffset seg + Z.of_nat i) seg' = Some (Ok d).
Proof.
  intros Hok Hio Hi Hsync Hd Hx Hcd Hci. destruct (sv_wal _ _ _ Hok) as (b & s & Hw).
  destruct (sv_range _ _ _ Hok) as [Hb0 Hb1].
  destruct (crash_disk_ok c _ _ _ _ _ _ Hw Hcd Hci) as (j & Hj & Hdk & Hmax).
  pose proof (lookup_lt_Some _ _ _ Hi). specialize (Hmax (S i) ltac:(lia) Hsync).
  destruct (open_log_run c NthIndex disk idx _ ltac:(done) Hdk) as (w & Hrun & Hw' & Hsy & _).
  unfold Path, IndexPath in Hd, Hx. rewrite (sv_path _ _ _ Hok) in Hd, Hx.
  assert (zlen (take j l) <= zlen l) by (unfold zlen; rewrite length_take; lia).
  destruct (NewSegment_open c (quiet:=true) io (baseOffset seg) dd (take j l) w (length (take j l)) 0 Hio)
    as (seg' & Hnew & Hs' & Hb' & _); [lia|by rewrite Hd, Hx|done|done|].
  eexists seg', _. split; [done|].
  rewrite (seg_read c seg' _ _ Hs') by (unfold zlen in *; lia).
  replace (Z.to_nat _) with i by lia. by rewrite lookup_take_lt, Hi by lia.
Qed.
End Reachable.

(** An append whose goroutine runs alone: it leads the flush and returns. *)
Lemma commit_alone m det cs rs i seg t d o q target w' :
  segments m !! i = Some seg -> default ∅ (cs !! baseOffset seg) !! t = Some (PCommit d o q) ->
  commit_check q (s_writer seg) = CLead target ->
  end_sync None (fun _ => WOk) target (length (f_data (w_file (s_writer seg)))) (begin_sync (s_writer seg))
    = (None, w') ->
  commit_check q w' = CReturn None ->
  exists cs', conc_steps (mkConc m det cs rs)
      (mkConc (set_segments (<[i := set_writer w' seg]> (segments m)) m) det cs' rs) /\
    default ∅ (cs' !! baseOffset seg) !! t = Some (PDone d o None).
Proof.
  intros Hi Ht Hlead Hsync Hret. set (base := baseOffset seg). set (pcs := default ∅ (cs !! base)) in *.
  pose proof (lookup_lt_Some _ _ _ Hi) as Hlt.
  assert (forall cs2 ss s2 w2 w3 pcs2 pcs3, ss !! i = Some s2 -> s2 = set_writer w2 seg ->
    default ∅ (cs2 !! base) = pcs2 -> gc_commit (mkGc w2 pcs2) (mkGc w3 pcs3) ->
    conc_step (mkConc (set_segments ss m) det cs2 rs)
      (mkConc (set_segments (<[i := set_writer w3 seg]> ss) m) det (<[base := pcs3]> cs2) rs)) as Hstep.
  { intros cs2 ss s2 w2 w3 pcs2 pcs3 Hs -> <- Hgc.
    by apply (cs_commit (set_segments ss m) det cs2 rs i (set_writer w2 seg) w3 pcs3). }
  set (p1 := <[t := PSyncing d o q target (length (f_data (w_file (s_writer seg))))]> pcs).
  set (p2 := wake <$> <[t := PCommit d o q]> p1). set (p3 := <[t := PDone d o None]> p2).
  exists (<[base := p3]> (<[base := p2]> (<[base := p1]> cs))).
  split; [|unfold base, p3; rewrite lookup_insert_eq; cbn; by rewrite lookup_insert_eq].
  replace (mkConc m det cs rs) with (mkConc (set_segments (segments m) m) det cs rs) by by destruct m.
  eapply conc_cons; [apply (Hstep cs _ seg (s_writer seg) (begin_sync (s_writer seg)) pcs p1); [done|by destruct seg|done|]|].
  { by apply gs_lead. }
  eapply conc_cons; [eapply (Hstep _ _ _ (begin_sync (s_writer seg)) w' p1 p2);
    [by rewrite list_lookup_insert_eq|done|by rewrite lookup_insert_eq|]|].
  { eapply (gs_synced _ _ t d o q target _ None (fun _ => WOk) None); try done. unfold p1. by rewrite lookup_insert_eq. }
  eapply conc_cons; [eapply (Hstep _ _ _ w' w' p2 p3);
    [by rewrite list_lookup_insert_eq by (by rewrite length_insert)|done|by rewrite lookup_insert_eq|]|].
  { apply (gs_return _ _ t d o q None); [|done]. unfold p2. by rewrite lookup_fmap, lookup_insert_eq. }
  rewrite !list_insert_insert_eq. apply conc_refl.
Qed.

(** ** An execution *)

(** The manager after the first phase of an append to an empty log. *)
Definition ex_m1 : Manager := default ex_mgr (snd <$> append_reserve ex_sgio WOk ex_data 5 ex_mgr).

(** Goroutine 0 appends and commits alone; its record is at offset 0. *)
Lemma ex_append_run :
  exists m cs seg, conc_steps (conc_start ex_mgr) (mkConc m [] cs ∅) /\ segments m = [seg] /\
    baseOffset seg = 0 /\ Seg_NextOffset seg = 1 /\ default ∅ (cs !! 0) !! 0%nat = Some (PDone ex_data 0 None) /\
    d_files (m_dir m) = ∅.
Proof.
  assert (d_files (m_dir ex_m1) = ∅) as HD by (vm_compute; reflexivity).
  assert (fst <$> append_reserve ex_sgio WOk ex_data 5 ex_mgr = Some (Ok (0, 0, 1))) as HA
    by (vm_compute; reflexivity).
  assert ((fun s => (baseOffset s, commit_check 1 (s_writer s))) <$> segments ex_m1 = [(0, CLead 1)]) as HB
    by (vm_compute; reflexivity).
  assert ((fun s => let r := end_sync None (fun _ => WOk) 1 (length (f_data (w_file (s_writer s)))) (begin_sync (s_writer s)) in
    (r.1, commit_check 1 r.2, Seg_NextOffset (set_writer r.2 s))) <$> segments ex_m1 = [(None, CReturn None, 1)]) as HC
    by (vm_compute; reflexivity).
  unfold ex_m1 in HB, HC, HD. destruct (append_reserve ex_sgio WOk ex_data 5 ex_mgr) as [[r m1]|] eqn:Hrun; [|done].
  injection HA as ->. cbn [default fmap option_fmap option_map snd id] in HB, HC, HD.
  destruct (segments m1) as [|s1 [|s2 ss]] eqn:Hss; try done.
  cbn [fmap list_fmap] in HB, HC. injection HB as Hb Hlead.
  destruct (end_sync None (fun _ => WOk) 1 _ _) as [e w'] eqn:Hsync. cbn zeta in HC.
  cbn [fst snd] in HC. injection HC as -> Hret Hnext.
  set (cs0 := ∅ : gmap Z (gmap nat pc)).
  set (cs1 := <[0 := <[0%nat := PCommit ex_data 0 1]> (default ∅ (cs0 !! 0))]> cs0).
  destruct (commit_alone m1 [] cs1 ∅ 0 s1 0 ex_data 0 1 1 w') as (cs' & Hsteps & Hdone); try done.
  { by rewrite Hss. }
  { rewrite Hb. unfold cs1. rewrite lookup_insert_eq. cbn. by rewrite lookup_insert_eq. }
  exists (set_segments [set_writer w' s1] m1), cs', (set_writer w' s1). rewrite Hb in Hdone.
  rewrite Hss in Hsteps. split_and!; try done.
  eapply conc_cons; [|done].
  by apply (cs_append ex_mgr [] ∅ ∅ 0 ex_sgio ex_data 5 0 0 1 m1).
Qed.

(** From a state with one segment of one record, goroutine 7 reads offset 0. *)
Lemma read_zero_run m cs seg :
  conc_steps (conc_start ex_mgr) (mkConc m [] cs ∅) -> segments m = [seg] ->
  baseOffset seg = 0 -> Seg_NextOffset seg = 1 ->
  exists rs res, conc_steps (conc_start ex_mgr) (mkConc m [] cs rs) /\ rs !! 7%nat = Some (RdDone 0 0 1 res).
Proof.
  intros Hrun Hss Hb Hn. destruct ex_mgr_ok as (Hm & He & _).
  set (r := match read_pick 0 m with
            | Ok seg => RdPicked 0 (baseOffset seg) (EarliestOffset m) (Mgr_NextOffset m)
            | Err e => RdDone 0 (EarliestOffset m) (Mgr_NextOffset m) (Err e)
            end).
  assert (conc_steps (conc_start ex_mgr) (mkConc m [] cs {[7%nat := r]})) as Hrun1.
  { eapply conc_trans; [done|]. by apply (cs_pick m [] cs ∅ 7 0). }
  destruct (reach_conc NewCRC32C ex_mgr [[]] _ Hm Hrun1) as (ext & dlogs & logs' & Hx).
  destruct (read_finishes NewCRC32C _ _ _ _ _ 7 r Hx) as ([m2 det2 cs2 rs2] & Hrun2 & _ & Hres & Hm2 & Hd2 & Hc2).
  { by apply lookup_singleton_eq. }
  cbn in Hm2, Hd2, Hc2, Hres. subst.
  assert (rd_off r = 0 /\ rd_win r = (0, 1)) as [Hro Hrw].
  { unfold r, EarliestOffset, Mgr_NextOffset, active. rewrite Hss. cbn. unfold BaseOffset. rewrite Hb, Hn.
    by destruct (read_pick 0 m). }
  rewrite Hro, Hrw in Hres. eexists rs2, _. split; [|done].
  clear -Hrun1 Hrun2. induction Hrun2 as [|x y z _ IH Hyz]; [done|]. by eapply conc_trans; [apply IH|].
Qed.

Lemma ex_read_run :
  exists m cs rs res seg, conc_steps (conc_start ex_mgr) (mkConc m [] cs rs) /\
    rs !! 7%nat = Some (RdDone 0 0 1 res) /\ seg ∈ segments m /\ baseOffset seg = 0 /\
    default ∅ (cs !! 0) !! 0%nat = Some (PDone ex_data 0 None).
Proof.
  destruct ex_append_run as (m & cs & seg & Hrun & Hss & Hb & Hn & Hd & _).
  destruct (read_zero_run m cs seg Hrun Hss Hb Hn) as (rs & res & Hrun2 & Hres).
  exists m, cs, rs, res, seg. split_and!; try done. rewrite Hss. by left.
Qed.

(** Retention detaches a segment goroutine [t] is reading. *)
Lemma pick_detach_run m t o s now vs m' :
  read_pick o m = Ok s -> is_u64 o -> retention_detach now now m = (vs, m') ->
  conc_steps (conc_start m)
    (mkConc m' vs ∅ {[t := RdPicked o (baseOffset s) (EarliestOffset m) (Mgr_NextOffset m)]}).
Proof.
  intros Hp Ho Hd. set (r := RdPicked o _ _ _).
  apply (conc_trans _ (mkConc m [] ∅ (<[t := r]> ∅))).
  - apply (conc_trans _ (conc_start m)); [apply conc_refl|].
    pose proof (cs_pick m [] ∅ ∅ t o (lookup_empty t) Ho) as H. by rewrite Hp in H.
  - pose proof (cs_detach m [] ∅ (<[t := r]> ∅) now now) as H. by rewrite Hd in H.
Qed.

Lemma ex_detach_run :
  exists m seg r, conc_steps (conc_start ex_mgr3) (mkConc m [seg] ∅ {[7%nat := r]}) /\
    baseOffset seg = 0 /\ rd_base r = Some 0 /\ rd_off r = 1.
Proof.
  assert ((fun s => baseOffset s) <$> (retention_detach 9000 9000 ex_mgr3).1 = [0]) as HA
    by (vm_compute; reflexivity).
  assert (match read_pick 1 ex_mgr3 with Ok s => Some (baseOffset s) | Err _ => None end = Some 0) as HB
    by (vm_compute; reflexivity).
  destruct (read_pick 1 ex_mgr3) as [s|] eqn:Hpick; [|discriminate HB]. injection HB as Hb.
  destruct (retention_detach 9000 9000 ex_mgr3) as [[|v [|]] m'] eqn:Hd; try discriminate HA.
  injection HA as Hv.
  eexists m', v, _. split; [apply (pick_detach_run ex_mgr3 7 1 s 9000 [v] m' Hpick); [unfold is_u64; lia|exact Hd]|].
  split; [exact Hv|]. split; [cbn; f_equal; exact Hb|reflexivity].
Qed.

(** ** Theorems *)

(** C7. Linearizable reads.  Whatever appends, commits, rolls, reads and
    retention passes run concurrently, there is one history of records in
    which every append has its payload at the offset it was given, and every
    read that returned gave exactly the answer of the log at the moment it
    chose its segment: the record at its offset, out-of-retention with the
    earliest offset of that moment, or end of log. *)
Theorem concurrent_reads_linearize c (Hc : ChecksumOk c) m logs x
  (Hm : mgr_inv c m logs) (Hrun : conc_steps (conc_start m) x) :
  let h0 := EarliestOffset m in
  exists ext, let hist := mjoin logs ++ ext in
    Mgr_NextOffset (cc_mgr x) = h0 + zlen hist /\
    (forall base t p, commits_of x base !! t = Some p ->
       rec_at h0 hist (base + pc_off p) = Some (pc_data p)) /\
    (forall t o lo hi res, reads x !! t = Some (RdDone o lo hi res) ->
       hi <= Mgr_NextOffset (cc_mgr x) /\ res = window_read h0 hist lo hi o).
Proof.
  intros h0. destruct (reach_conc c m logs x Hm Hrun) as (ext & dlogs & logs' & Hx).
  pose proof (ci_next _ _ _ _ _ _ Hx) as Hn. exists ext. cbn zeta. split_and!; [done|..].
  - intros base t p Hp. by apply (proj1 (ci_appends _ _ _ _ _ _ Hx) base t p).
  - intros t o lo hi res Hr. destruct (ci_reads _ _ _ _ _ _ Hx _ _ Hr). rewrite Hn. done.
Qed.

Lemma concurrent_reads_linearize_witness :
  exists m cs rs, conc_steps (conc_start ex_mgr) (mkConc m [] cs rs) /\
    rs !! 7%nat = Some (RdDone 0 0 1 (Ok ex_data)).
Proof.
  destruct ex_read_run as (m & cs & rs & res & seg & Hrun & Hres & _ & _ & Hd).
  destruct ex_mgr_ok as (Hm & He & _). exists m, cs, rs. split; [done|].
  destruct (concurrent_reads_linearize NewCRC32C _ ex_mgr [[]] _ Hm Hrun) as (ext & _ & Hall & Hread).
  specialize (Hall 0 0%nat _ Hd). destruct (Hread _ _ _ _ _ Hres) as [_ Hr].
  rewrite He in Hall, Hr. cbn [pc_off pc_data] in Hall. change (0 + 0) with 0 in Hall.
  rewrite Hres, Hr. unfold window_read. cbn [Z.ltb Z.compare]. by rewrite Hall.
Defined.

(** Concurrent appends.  The offsets given to appends are distinct, also
    across rolls; and while its segment has not been deleted, a record whose
    [Append] returned success is inside the fsynced part of its segment's
    file, and after a crash the segment opens and reads it back. *)
Theorem concurrent_appends_durable c (Hc : ChecksumOk c) m logs x
  (Hm : mgr_inv c m logs) (Hrun : conc_steps (conc_start m) x) :
  (forall b1 t1 p1 b2 t2 p2, commits_of x b1 !! t1 = Some p1 -> commits_of x b2 !! t2 = Some p2 ->
     b1 + pc_off p1 = b2 + pc_off p2 -> b1 = b2 /\ t1 = t2) /\
  (forall seg t d o, seg ∈ open_segs x -> commits_of x (baseOffset seg) !! t = Some (PDone d o None) ->
     Seg_ReadAt no_fault (baseOffset seg + o) seg = Some (Ok d) /\
     forall io dd disk idx, sg_ok io ->
       d_files dd !! Path seg = Some disk -> crash_file (w_file (s_writer seg)) disk ->
       d_files dd !! IndexPath seg = Some idx -> crash_file (indexFile (w_store (s_writer seg))) idx ->
       exists seg' dd', NewSegment io (baseOffset seg) c dd = Some (Ok seg', dd') /\
         Seg_ReadAt no_fault (baseOffset seg + o) seg' = Some (Ok d)).
Proof.
  destruct (reach_conc c m logs x Hm Hrun) as (ext & dlogs & logs' & Hx).
  split; [apply (ci_appends _ _ _ _ _ _ Hx)|].
  intros seg t d o (k & Hk)%list_elem_of_lookup Ht. pose proof (ci_segs _ _ _ _ _ _ Hx) as Hall.
  destruct (Forall2_lookup_l _ _ _ _ _ Hall Hk) as (l & Hl & Hat).
  destruct (acked_synced c _ _ _ _ _ _ _ _ Hat Ht) as (i & -> & Hi & Hsync).
  pose proof (sa_ok _ _ _ _ _ _ Hat) as Hok. split.
  - pose proof (lookup_lt_Some _ _ _ Hi). destruct (sv_range _ _ _ Hok).
    rewrite (seg_read c seg l) by (done || unfold zlen in *; lia).
    replace (Z.to_nat _) with i by lia. by rewrite Hi.
  - intros io dd disk idx Hio Hd Hcd Hx' Hci. by eapply (segment_crash c).
Qed.

Lemma concurrent_appends_durable_witness :
  exists m cs rs seg, conc_steps (conc_start ex_mgr) (mkConc m [] cs rs) /\ seg ∈ segments m /\
    Seg_ReadAt no_fault 0 seg = Some (Ok ex_data).
Proof.
  destruct ex_read_run as (m & cs & rs & res & seg & Hrun & _ & Hin & Hb & Hd).
  destruct ex_mgr_ok as (Hm & _ & _). exists m, cs, rs, seg. split; [done|]. split; [done|].
  destruct (concurrent_appends_durable NewCRC32C _ ex_mgr [[]] _ Hm Hrun) as [_ Hall].
  destruct (Hall seg 0%nat ex_data 0 Hin) as [Hread _].
  { unfold commits_of. cbn. by rewrite Hb. }
  by rewrite Hb in Hread.
Defined.

(** C13. Retention never cuts off a read.  At every moment, the segment a read
    in flight holds its reference to is open, whether live or detached, and
    contains the offset being read; so no read ever meets a closed file. *)
Theorem retention_spares_readers c (Hc : ChecksumOk c) m logs x
  (Hm : mgr_inv c m logs) (Hrun : conc_steps (conc_start m) x) :
  (forall t r base, reads x !! t = Some r -> rd_base r = Some base ->
     exists seg, seg ∈ open_segs x /\ baseOffset seg = base /\ Contains seg (rd_off r) = true) /\
  (forall t o lo hi, reads x !! t <> Some (RdDone o lo hi (Err ErrClosed))).
Proof.
  destruct (reach_conc c m logs x Hm Hrun) as (ext & dlogs & logs' & Hx). split.
  - intros t r base Ht Hb.
    destruct (in_flight_seg c _ _ _ _ _ _ _ _ Hx Ht Hb) as (seg & l & Hin & Hbase & Hat & _ & Ho).
    exists seg. split_and!; try done.
    rewrite (seg_contains c _ _ _ (sa_ok _ _ _ _ _ _ Hat)). apply bool_decide_eq_true_2. lia.
  - intros t o lo hi Ht. destruct (ci_reads _ _ _ _ _ _ Hx _ _ Ht) as [_ Hres].
    unfold window_read in Hres. repeat case_if_in Hres; try done. by destruct (rec_at _ _ _).
Qed.

Lemma retention_spares_readers_witness :
  exists m seg r seg', conc_steps (conc_start ex_mgr3) (mkConc m [seg] ∅ {[7%nat := r]}) /\ rd_off r = 1 /\
    seg' ∈ seg :: segments m /\ Contains seg' 1 = true.
Proof.
  destruct ex_detach_run as (m & seg & r & Hrun & Hb & Hr & Ho). destruct ex_mgr3_ok as [logs Hm].
  destruct (retention_spares_readers NewCRC32C _ ex_mgr3 logs _ Hm Hrun) as [Hall _].
  destruct (Hall 7%nat r 0) as (seg' & Hin & _ & Hc); [by apply lookup_singleton_eq|done|].
  exists m, seg, r, seg'. rewrite Ho in Hc. done.
Defined.

(** A read moves only by its own steps. *)
Lemma read_moves_alone x y t r :
  conc_step x y -> reads x !! t = Some r -> reads y !! t = Some r \/ read_step t x y.
Proof.
  intros Hstep Ht. destruct Hstep as [| | | | |m det cs rs u o Hu Ho|x y u Hr| |]; try by left.
  - left. cbn in *. rewrite lookup_insert_ne; [done|]. intros ->. congruence.
  - destruct (decide (u = t)) as [->|Hne]; [by right|]. left.
    by destruct Hr; cbn; rewrite lookup_insert_ne.
Qed.

(** A read keeps its segment until it is done. *)
Lemma read_step_base x y t t' r' base :
  read_step t x y -> reads y !! t' = Some r' -> rd_base r' = Some base ->
  exists r, reads x !! t' = Some r /\ rd_base r = Some base.
Proof.
  intros Hr. destruct Hr; cbn; intros [[<- <-]|[_ Hx]]%lookup_insert_Some Hb; cbn in Hb; try done; eauto.
Qed.

(** Retention's wait for readers ends.  Once a segment is detached, no step
    adds a reader to it; each reader that still holds it can always move,
    moves by its own steps only, and every such step brings it strictly
    closer to its end, whatever the other goroutines do. *)
Theorem retention_wait_ends c (Hc : ChecksumOk c) m logs x seg
  (Hm : mgr_inv c m logs) (Hrun : conc_steps (conc_start m) x) (Hseg : seg ∈ detached x) :
  (forall y t r', conc_step x y -> reads y !! t = Some r' -> rd_base r' = Some (baseOffset seg) ->
     exists r, reads x !! t = Some r /\ rd_base r = Some (baseOffset seg)) /\
  (forall t r, reads x !! t = Some r -> rd_base r = Some (baseOffset seg) ->
     (exists y, read_step t x y) /\
     (forall y, conc_step x y -> reads y !! t = Some r \/
        exists r', reads y !! t = Some r' /\ 0 <= rd_left r' < rd_left r)).
Proof.
  destruct (reach_conc c m logs x Hm Hrun) as (ext & dlogs & logs' & Hx). split.
  - intros y t r' Hstep Ht Hb.
    destruct Hstep as [| | | | |m' det cs rs u o Hu Ho|x y u Hr| |]; cbn in *; try by eauto.
    + apply lookup_insert_Some in Ht as [[<- <-]|[_ Ht]]; [|by eauto]. exfalso.
      destruct (read_pick o m') as [s|e] eqn:Hp; [|done]. cbn in Hb. injection Hb as Hb.
      pose proof (segmentFor_spec c m' _ _ o (mi_chain _ _ _ (ci_mgr _ _ _ _ _ _ Hx))) as Hfor.
      unfold read_pick in Hp. destruct (segmentFor o m') as [s'|]; [|by case_if_in Hp]. injection Hp as ->.
      destruct Hfor as (k & l & _ & _ & Hbase & _). cbn [cc_mgr] in Hbase. pose proof (zlen_nonneg (mjoin (take k logs'))).
      pose proof (ci_det _ _ _ _ _ _ Hx) as Hd. rewrite Forall_fmap, Forall_forall in Hd.
      specialize (Hd seg Hseg). change (baseOffset seg < EarliestOffset m') in Hd. lia.
    + by eapply read_step_base.
  - intros t r Ht Hb. split; [by eapply (read_progress c)|].
    intros y Hstep. destruct (read_moves_alone _ _ _ _ Hstep Ht) as [?|Hr]; [by left|]. right.
    destruct (read_step_left c _ _ _ _ _ _ _ _ Hx Ht Hr) as (r' & -> & Hleft & _).
    exists r'. cbn. by rewrite lookup_insert_eq.
Qed.

Lemma retention_wait_ends_witness :
  exists x y, conc_steps (conc_start ex_mgr3) x /\ read_step 7 x y.
Proof.
  destruct ex_detach_run as (m & seg & r & Hrun & Hb & Hr & Ho). destruct ex_mgr3_ok as [logs Hm].
  destruct (retention_wait_ends NewCRC32C _ ex_mgr3 logs _ seg Hm Hrun) as [_ Hall]; [by left|].
  destruct (Hall 7%nat r) as [[y Hy] _]; [by apply lookup_singleton_eq|by rewrite Hb|].
  by eexists _, y.
Defined.

(** Phase B, victim by victim, as steps. *)
Lemma delete_segments_steps io i vs m cs rs :
  (forall s, s ∈ vs -> no_readers (mkConc m vs cs rs) (baseOffset s)) ->
  conc_steps (mkConc m vs cs rs)
    (mkConc (set_metrics (delete_segments io i vs (Metrics m) (m_dir m)).1
               (set_dir (delete_segments io i vs (Metrics m) (m_dir m)).2 m)) [] cs rs).
Proof.
  revert i m. induction vs as [|s vs IH]; intros i m Hno.
  { cbn. destruct m. apply conc_refl. }
  cbn [delete_segments].
  eapply conc_cons; [apply (cs_delete m (s :: vs) cs rs 0 s (io i)); [done|apply Hno; by left]|].
  destruct (delete_segment (io i) s (Metrics m) (m_dir m)) as [x d]. cbn [fst snd delete list_delete].
  apply (IH (S i) (set_metrics x (set_dir d m))).
  intros s' Hs'. apply (Hno s'). by right.
Qed.

(** [RunRetention] as it is used sequentially is an execution of the
    concurrent phases: detaching the victims and then deleting each of them,
    in order, is a run of the step relation that ends in exactly the manager
    [RunRetention] computes, provided no reader holds a victim. *)
Theorem RunRetention_is_run now1 now2 io m cs rs
  (Hno : forall s, s ∈ (retention_detach now1 now2 m).1 -> no_readers (mkConc m [] cs rs) (baseOffset s)) :
  conc_steps (mkConc m [] cs rs) (mkConc (RunRetention now1 now2 io m) [] cs rs).
Proof.
  eapply conc_cons; [apply (cs_detach m [] cs rs now1 now2)|].
  pose proof (delete_segments_steps io 0 (retention_detach now1 now2 m).1 (retention_detach now1 now2 m).2 cs rs) as H.
  unfold RunRetention. destruct (retention_detach now1 now2 m) as [vs m1]. cbn [fst snd app] in *.
  destruct (delete_segments io 0 vs (Metrics m1) (m_dir m1)) as [x d]. by apply H.
Qed.

Lemma RunRetention_is_run_witness :
  conc_steps (conc_start ex_mgr3) (conc_start (RunRetention 9000 9000 ex_del ex_mgr3)).
Proof. apply (RunRetention_is_run 9000 9000 ex_del ex_mgr3 ∅ ∅). intros s _ t r Ht. done. Defined.

(** ** A limit *)

(** Defect: reads do not wait for durability.  [Reserve] makes a record visible
    before any fsync: a read returns it while its [Append] has not returned,
    and a crash then leaves a segment without it, whose next append takes the
    same offset.  A consumer that committed past it never sees the record that
    is stored there afterwards. *)
Theorem dirty_read_lost :
  exists m cs rs seg disk idx seg' dd,
    conc_steps (conc_start ex_mgr) (mkConc m [] cs rs) /\
    rs !! 7%nat = Some (RdDone 0 0 1 (Ok ex_data)) /\ segments m = [seg] /\
    crash_file (w_file (s_writer seg)) disk /\ crash_file (indexFile (w_store (s_writer seg))) idx /\
    NewSegment ex_sgio 0 NewCRC32C
      (put_file (SegmentFileName 0) disk (put_file (indexFileName (SegmentFileName 0)) idx (mkDir ∅ [])))
      = Some (Ok seg', dd) /\ Seg_NextOffset seg' = 0.
Proof.
  assert (fst <$> append_reserve ex_sgio WOk ex_data 5 ex_mgr = Some (Ok (0, 0, 1))) as HA
    by (vm_compute; reflexivity).
  assert ((fun s => (baseOffset s, Seg_NextOffset s, f_synced (w_file (s_writer s)),
    f_synced (indexFile (w_store (s_writer s))))) <$> segments ex_m1 = [(0, 1, 0%nat, 0%nat)]) as HB
    by (vm_compute; reflexivity).
  unfold ex_m1 in HB. destruct (append_reserve ex_sgio WOk ex_data 5 ex_mgr) as [[r m1]|] eqn:Hrun; [|discriminate HA].
  injection HA as ->. cbn [default fmap option_fmap option_map snd id] in HB.
  destruct (segments m1) as [|s1 [|s2 ss]] eqn:Hss; try discriminate HB.
  cbn [fmap list_fmap] in HB. injection HB as Hb Hn Hs1 Hs2.
  set (cs0 := ∅ : gmap Z (gmap nat pc)).
  set (cs1 := <[0 := <[0%nat := PCommit ex_data 0 1]> (default ∅ (cs0 !! 0))]> cs0).
  assert (conc_steps (conc_start ex_mgr) (mkConc m1 [] cs1 ∅)) as Hsteps.
  { eapply conc_cons; [|apply conc_refl]. by apply (cs_append ex_mgr [] ∅ ∅ 0 ex_sgio ex_data 5 0 0 1 m1). }
  destruct (read_zero_run m1 cs1 s1 Hsteps Hss Hb Hn) as (rs & res & Hrun2 & Hres).
  destruct ex_mgr_ok as (Hm & He & _).
  destruct (reach_conc NewCRC32C ex_mgr [[]] _ Hm Hrun2) as (ext & dlogs & logs' & Hx).
  destruct (proj1 (ci_appends _ _ _ _ _ _ Hx) 0 0%nat (PCommit ex_data 0 1)) as (_ & _ & Hrec).
  { cbn. unfold cs1. rewrite lookup_insert_eq. cbn. by rewrite lookup_insert_eq. }
  destruct (ci_reads _ _ _ _ _ _ Hx _ _ Hres) as [_ Hr]. rewrite He in Hrec, Hr.
  cbn [pc_off pc_data] in Hrec. change (0 + 0) with 0 in Hrec. unfold window_read in Hr.
  cbn [Z.ltb Z.compare] in Hr. rewrite Hrec in Hr. subst res.
  eexists m1, cs1, rs, s1, (mkFile [] 0), (mkFile [] 0), _, _. split_and!; try done.
  - exists 0%nat. by rewrite Hs1.
  - exists 0%nat. by rewrite Hs2.
Qed.
