(* ===== verification/MgrCrash.v ===== *)
(** * MgrCrash: a crash of the whole manager while goroutines are inside it

    [MgrConc.v] run to any point, then the machine stops: every open segment
    keeps its fsynced bytes and any part of the rest, a segment being deleted
    may be gone.  Sealed segments are not fsynced when a new one is started, so
    the reopened log may have holes between its segments; what was
    acknowledged is still found at its offset, because a segment carries its
    base offset in its name. *)

From Stdlib Require Import ZArith Lia Strings.String Strings.Ascii.
From stdpp Require Import base list list_numbers numbers option gmap sorting strings.
From coqutil Require Import Byte.
From S2P Require Import Prelude Bytes Golib Index Checksum Wal WalFormat WalInv GroupCommit Crash WalProps Segment Manager MgrInv MgrOpen MgrProps MgrConc MgrConcInv MgrConcProps.

Local Open Scope Z_scope.

(** The files a crash leaves of an open segment. *)
Definition crashed_files (s : Segment) (d : dir) : Prop :=
  exists disk idx, d_files d !! Path s = Some disk /\ crash_file (w_file (s_writer s)) disk /\
    d_files d !! IndexPath s = Some idx /\ crash_file (indexFile (w_store (s_writer s))) idx.

(** What a crash leaves of the directory.  Retention removes the log file of a
    victim first. *)
Record crash_conc (x : conc) (d : dir) : Prop := {
  cx_live : forall s, s ∈ segments (cc_mgr x) -> crashed_files s d;
  cx_det : forall s, s ∈ detached x -> d_files d !! Path s = None \/ crashed_files s d;
  cx_others : forall n f, d_files d !! n = Some f ->
    (exists s, s ∈ open_segs x /\ (n = Path s \/ n = IndexPath s)) \/ d_files (m_dir (cc_mgr x)) !! n = Some f
}.

(** ** Reading a log whose segments need not be adjacent *)

Section Sparse.
Context (c : Checksum) {Hc : ChecksumOk c}.
Implicit Types (bls : list (Z * list (list byte))).

(** The manager's segments are [bls]: base offsets with records, in order. *)
Record sparse_ok (m : Manager) bls : Prop := {
  sp_segs : Forall2 (fun s bl => seg_inv c s bl.2 /\ baseOffset s = bl.1) (segments m) bls;
  sp_sorted : StronglySorted Z.lt bls.*1
}.

Lemma sparse_lookup m bls i s :
  sparse_ok m bls -> segments m !! i = Some s ->
  exists l, bls !! i = Some (baseOffset s, l) /\ seg_inv c s l.
Proof.
  intros Hm Hs. destruct (Forall2_lookup_l _ _ _ _ _ (sp_segs _ _ Hm) Hs) as ([b l] & Hl & Hsl & Hb).
  cbn in Hsl, Hb. subst b. by exists l.
Qed.

Lemma sparse_bases m bls i j s t :
  sparse_ok m bls -> segments m !! i = Some s -> segments m !! j = Some t -> (i < j)%nat ->
  baseOffset s < baseOffset t.
Proof.
  intros Hm Hs Ht Hij. destruct (sparse_lookup m bls i s Hm Hs) as (l & Hl & _).
  destruct (sparse_lookup m bls j t Hm Ht) as (l' & Hl' & _).
  eapply (StronglySorted_lookup Z.lt bls.*1 i j); [apply Hm|done|..];
    rewrite list_lookup_fmap; [by rewrite Hl|by rewrite Hl'].
Qed.

(** Whatever is read is in the segment that holds the offset. *)
Lemma sparse_read_sound m bls o data :
  sparse_ok m bls -> is_u64 o -> Mgr_ReadAt no_fault o m = Some (Ok data) ->
  exists b l, (b, l) ∈ bls /\ b <= o /\ l !! Z.to_nat (o - b) = Some data.
Proof.
  intros Hm Ho. unfold Mgr_ReadAt, read_pick, segmentFor.
  destruct (Search _ _) as [|k]; [by case_if|].
  destruct (segments m !! k) as [s|] eqn:Hs; [|by case_if].
  destruct (sparse_lookup m bls k s Hm Hs) as (l & Hl & Hsl).
  rewrite (seg_contains c _ _ _ Hsl). case_bool_decide as Hin; [|by case_if].
  rewrite (seg_read c s l o Hsl) by (unfold is_u64 in Ho; lia).
  destruct (l !! _) as [y|] eqn:Hy; [|done]. intros [= <-].
  exists (baseOffset s), l. split_and!; [by eapply list_elem_of_lookup_2|lia|done].
Qed.

(** An offset of a segment is read from it, unless a later segment starts at
    or below it. *)
Lemma sparse_read m bls k b l o :
  sparse_ok m bls -> bls !! k = Some (b, l) -> b <= o < b + zlen l ->
  (forall j b' l', (k < j)%nat -> bls !! j = Some (b', l') -> o < b') ->
  Mgr_ReadAt no_fault o m = Some (match l !! Z.to_nat (o - b) with Some x => Ok x | None => Err EOF end).
Proof.
  intros Hm Hk Ho Hlater.
  destruct (Forall2_lookup_r _ _ _ _ _ (sp_segs _ _ Hm) Hk) as (s & Hs & Hsl & Hb). cbn in Hsl, Hb. subst b.
  unfold Mgr_ReadAt, read_pick, segmentFor. set (ss := segments m) in *.
  set (f := fun i => match ss !! i with Some s => o <? BaseOffset s | None => true end).
  assert (forall i t, ss !! i = Some t -> (k < i)%nat -> o < baseOffset t) as Hafter.
  { intros i t Ht Hki. destruct (sparse_lookup m bls i t Hm Ht) as (l' & Hl' & _). by eapply Hlater. }
  assert (forall i t, ss !! i = Some t -> (i <= k)%nat -> baseOffset t <= o) as Hbefore.
  { intros i t Ht Hik. destruct (decide (i = k)) as [->|Hne]; [simplify_eq; lia|].
    pose proof (sparse_bases m bls i k t s Hm Ht Hs ltac:(lia)). lia. }
  destruct (Search_spec (length ss) f) as (Hle & Hlo & Hhi).
  { intros i j Hij. unfold f. destruct (ss !! i) as [si|] eqn:Hi; destruct (ss !! j) as [sj|] eqn:Hj; try done.
    - unfold BaseOffset. rewrite !Z.ltb_lt. destruct (decide (i = j)) as [->|Hne]; [by simplify_eq|].
      pose proof (sparse_bases m bls i j si sj Hm Hi Hj ltac:(lia)). lia.
    - apply lookup_ge_None in Hi. pose proof (lookup_lt_Some _ _ _ Hj). lia. }
  pose proof (lookup_lt_Some _ _ _ Hs) as Hkl.
  assert (Search (length ss) f = S k) as ->.
  { destruct (Nat.lt_total (Search (length ss) f) (S k)) as [Hlt|[Heq|Hgt]]; [|done|].
    - specialize (Hhi k ltac:(lia)). unfold f, BaseOffset in Hhi. rewrite Hs in Hhi. blia.
    - specialize (Hlo (S k) ltac:(lia)). unfold f, BaseOffset in Hlo.
      destruct (ss !! S k) as [t|] eqn:Ht; [|done]. pose proof (Hafter _ _ Ht ltac:(lia)). blia. }
  rewrite Hs, (seg_contains c _ _ _ Hsl), bool_decide_eq_true_2 by lia.
  destruct (sv_range _ _ _ Hsl). apply (seg_read c s l o Hsl). unfold zlen in *. lia.
Qed.

Lemma sparse_next m bls b l :
  sparse_ok m bls -> last bls = Some (b, l) -> Mgr_NextOffset m = b + zlen l.
Proof.
  intros Hm Hl. pose proof (Forall2_length _ _ _ (sp_segs _ _ Hm)) as Hlen.
  rewrite last_lookup, <- Hlen in Hl.
  destruct (Forall2_lookup_r _ _ _ _ _ (sp_segs _ _ Hm) Hl) as (s & Hs & Hsl & Hb). cbn in Hsl, Hb.
  unfold Mgr_NextOffset, active. rewrite last_lookup, Hs. rewrite (seg_next c _ _ Hsl). congruence.
Qed.

(** Opening such a directory. *)
Lemma Open_sparse io cfg d bls :
  (forall x, sg_ok (io x)) -> cfg_ok c cfg -> bls <> [] ->
  bases_sorted_ok bls.*1 -> names_ok d bls.*1 -> Forall (file_ok c d) bls ->
  exists m, Open None None io cfg d = Some (Ok m) /\ sparse_ok m bls.
Proof.
  intros Hio [Hmax Hcs] Hne Hsort Hnames Hf. unfold Open.
  rewrite (discover_bases d _ Hsort Hnames). cbn [default_cfg cfg_Checksum]. rewrite Hcs.
  assert ((match bls.*1 with [] => [0] | _ => bls.*1 end) = bls.*1) as -> by by destruct bls.
  destruct (open_each c io d bls [] Hio Hsort Hf) as (segs & d' & -> & Hall & _).
  eexists. split; [done|]. split; [|apply Hsort]. cbn.
  eapply Forall2_impl; [exact Hall|]. cbn. by intros s bl (? & ? & _).
Qed.
End Sparse.

(** ** What survives *)

Section Survivors.
Context (c : Checksum) {Hc : ChecksumOk c}.
Implicit Types (bls : list (Z * list (list byte))).

(** [i] records of the segment's [l] survive: all that are fsynced. *)
Definition cut_ok (s : Segment) (l : list (list byte)) (i : nat) : Prop :=
  forall j, (j <= length l)%nat -> (rec_pos c l j <= f_synced (w_file (s_writer s)))%nat -> (j <= i)%nat.

Lemma crashed_file_ok s l d :
  seg_ok c false s l -> crashed_files s d -> exists i, file_ok c d (baseOffset s, take i l) /\ cut_ok s l i.
Proof.
  intros Hs (disk & idx & Hd & Hcd & Hi & Hci). destruct (sv_wal _ _ _ Hs) as (b & q & Hw).
  destruct (crash_disk_ok c _ _ _ _ _ _ Hw Hcd Hci) as (i & Hil & Hdk & Hmax).
  exists i. split; [|done]. destruct (sv_range _ _ _ Hs). unfold Path, IndexPath in *.
  rewrite (sv_path _ _ _ Hs) in Hd, Hi. split_and!; cbn; [done| |by exists disk, idx].
  unfold zlen in *. rewrite length_take. lia.
Qed.

(** Each surviving segment with its records, from a list of open segments. *)
Lemma survivors segs ls d :
  Forall2 (seg_ok c false) segs ls -> (forall s, s ∈ segs -> d_files d !! Path s = None \/ crashed_files s d) ->
  exists bls, Forall (file_ok c d) bls /\ bls.*1 `sublist_of` (baseOffset <$> segs) /\
    (forall b l', (b, l') ∈ bls -> exists k s l i, segs !! k = Some s /\ ls !! k = Some l /\
       b = baseOffset s /\ l' = take i l) /\
    (forall k s l, segs !! k = Some s -> ls !! k = Some l -> is_Some (d_files d !! Path s) ->
       exists i, (baseOffset s, take i l) ∈ bls /\ cut_ok s l i).
Proof.
  intros Hall. induction Hall as [|s l segs ls Hs Hall IH]; intros Hd.
  { exists []. split_and!; try done. by intros b l' ?%not_elem_of_nil. }
  destruct IH as (bls & Hf & Hsub & Hfrom & Hto); [intros t Ht; apply Hd; by right|].
  assert (forall b l', (b, l') ∈ bls -> exists k t y i, (s :: segs) !! k = Some t /\ (l :: ls) !! k = Some y /\
    b = baseOffset t /\ l' = take i y) as Hfrom'.
  { intros b l' (k & t & y & i & ? & ? & ? & ?)%Hfrom. by exists (S k), t, y, i. }
  destruct (Hd s) as [Hnone|Hcr]; [by left|..].
  - exists bls. split_and!; try done; [by cbn; apply sublist_cons|].
    intros [|k] t y Ht Hy Hp; [cbn in Ht; injection Ht as <-; by rewrite Hnone in Hp; destruct Hp|].
    by eapply Hto.
  - destruct (crashed_file_ok s l d Hs Hcr) as (i & Hi & Hcut).
    exists ((baseOffset s, take i l) :: bls). split_and!.
    + by constructor.
    + cbn. by apply sublist_skip.
    + intros b l' [[= -> ->]|Hin]%elem_of_cons; [by exists 0%nat, s, l, i|by apply Hfrom'].
    + intros [|k] t y Ht Hy Hp; [cbn in Ht, Hy; simplify_eq; exists i; split; [by left|done]|].
      destruct (Hto k t y Ht Hy Hp) as (j & Hj & ?). exists j. split; [by right|done].
Qed.

Lemma sorted_fst bls :
  NoDup bls.*1 -> exists bls', bls' ≡ₚ bls /\ StronglySorted Z.lt bls'.*1.
Proof.
  intros Hnd. set (R := fun p q : Z * list (list byte) => p.1 <= q.1).
  assert (forall x y, Decision (R x y)) as HD by (intros x y; unfold R; apply _).
  exists (merge_sort R bls). pose proof (merge_sort_Permutation R bls) as Hp. split; [done|].
  assert (StronglySorted R (merge_sort R bls)) as Hs.
  { apply StronglySorted_merge_sort; [intros ???; unfold R; lia|intros ??; unfold R; lia]. }
  rewrite <- Hp in Hnd. clear Hp. revert Hnd Hs. generalize (merge_sort R bls). clear.
  intros l. induction l as [|p l IH]; intros Hnd Hs; cbn; constructor.
  - cbn in Hnd. apply NoDup_cons in Hnd as [_ Hnd]. apply StronglySorted_inv in Hs as [Hs _]. by apply IH.
  - cbn in Hnd. apply NoDup_cons in Hnd as [Hnin _]. apply StronglySorted_inv in Hs as [_ Hs].
    rewrite Forall_forall in Hs. apply Forall_forall. intros x (q & -> & Hq)%list_elem_of_fmap.
    specialize (Hs q Hq). unfold R in Hs. destruct (decide (p.1 = q.1)) as [Heq|]; [|lia].
    exfalso. apply Hnin. rewrite Heq. by apply list_elem_of_fmap_2.
Qed.
End Survivors.

(** ** Reopening *)

Section Reopen.
Context (c : Checksum) {Hc : ChecksumOk c}.

(** Whatever is open and starts behind a live segment starts behind its
    records. *)
Lemma starts_behind h0 hist dlogs logs x k s l t :
  conc_inv c h0 hist dlogs logs x -> segments (cc_mgr x) !! k = Some s -> logs !! k = Some l ->
  t ∈ open_segs x -> baseOffset s < baseOffset t -> baseOffset s + zlen l <= baseOffset t.
Proof.
  intros Hx Hs Hl Ht Hlt. pose proof (mi_chain _ _ _ (ci_mgr _ _ _ _ _ _ Hx)) as Hch.
  destruct (chain_lookup c _ _ _ _ _ Hch Hs) as (l0 & Hl0 & _ & Hb & _). simplify_eq.
  pose proof (zlen_nonneg (mjoin (take k logs))) as Hge.
  apply elem_of_app in Ht as [Ht|(j & Hj)%list_elem_of_lookup].
  - pose proof (ci_det _ _ _ _ _ _ Hx) as Hdet. rewrite Forall_forall in Hdet.
    specialize (Hdet (baseOffset t)). assert (baseOffset t < EarliestOffset (cc_mgr x)); [|lia].
    apply Hdet, list_elem_of_fmap. by exists t.
  - destruct (chain_lookup c _ _ _ _ _ Hch Hj) as (lt & _ & _ & Hbt & _).
    pose proof (mjoin_take_S _ _ _ Hl) as HS.
    destruct (Nat.lt_ge_cases k j) as [Hkj|Hjk].
    + pose proof (mjoin_take_le logs (S k) j ltac:(lia)). lia.
    + pose proof (mjoin_take_le logs j k Hjk). lia.
Qed.

Lemma live_seg_at h0 hist dlogs logs x k s :
  conc_inv c h0 hist dlogs logs x -> segments (cc_mgr x) !! k = Some s ->
  exists l, logs !! k = Some l /\ seg_at c h0 hist (commits x) s l.
Proof.
  intros Hx Hs. pose proof (ci_segs _ _ _ _ _ _ Hx) as Hall. unfold open_segs in Hall.
  apply Forall2_app_inv in Hall as [_ Hall]; [|symmetry; apply Hx].
  destruct (Forall2_lookup_l _ _ _ _ _ Hall Hs) as (l & Hl & Hat). by exists l.
Qed.

Lemma conc_crash_open h0 hist dlogs logs x io cfg d :
  conc_inv c h0 hist dlogs logs x -> no_leftovers (cc_mgr x) -> crash_conc x d ->
  (forall b, sg_ok (io b)) -> cfg_ok c cfg ->
  exists m bls, Open None None io cfg d = Some (Ok m) /\ sparse_ok c m bls /\
    (forall b l', (b, l') ∈ bls -> exists k s l i, open_segs x !! k = Some s /\ (dlogs ++ logs) !! k = Some l /\
       b = baseOffset s /\ l' = take i l) /\
    (forall k s l, segments (cc_mgr x) !! k = Some s -> logs !! k = Some l ->
       exists i, (baseOffset s, take i l) ∈ bls /\ cut_ok c s l i).
Proof.
  intros Hx Hno Hcr Hio Hcfg. pose proof (ci_segs _ _ _ _ _ _ Hx) as Hall.
  assert (Forall2 (seg_ok c false) (open_segs x) (dlogs ++ logs)) as Hok
    by (eapply Forall2_impl; [exact Hall|]; by intros s l [? _ _ _]).
  assert (forall s, s ∈ open_segs x -> s_path s = SegmentFileName (baseOffset s) /\ is_u64 (baseOffset s)) as Hseg.
  { intros s (k & Hk)%list_elem_of_lookup. destruct (Forall2_lookup_l _ _ _ _ _ Hok Hk) as (l & _ & Hs).
    split; [apply Hs|]. destruct (sv_range _ _ _ Hs). unfold is_u64. pose proof (zlen_nonneg l). lia. }
  destruct (survivors c (open_segs x) (dlogs ++ logs) d Hok) as (us & Hf & Hsub & Hfrom & Hto).
  { intros s [Hs|Hs]%elem_of_app; [by apply (cx_det _ _ Hcr)|right; by apply (cx_live _ _ Hcr)]. }
  destruct (sorted_fst us) as (bls & Hp & Hsort).
  { eapply sublist_NoDup, Hsub. apply Hx. }
  assert (forall b, b ∈ bls.*1 -> exists s l', s ∈ open_segs x /\ b = baseOffset s /\ (b, l') ∈ us) as Hin.
  { intros b ([b' l'] & -> & Hb)%list_elem_of_fmap. rewrite Hp in Hb.
    destruct (Hfrom b' l' Hb) as (k & s & l & i & Hk & _ & -> & _).
    exists s, l'. split_and!; [by eapply list_elem_of_lookup_2|done|done]. }
  assert (forall k s l, open_segs x !! k = Some s -> (dlogs ++ logs) !! k = Some l -> is_Some (d_files d !! Path s) ->
    exists i, (baseOffset s, take i l) ∈ bls /\ cut_ok c s l i) as Hto'.
  { intros k s l Hs Hl Hd. destruct (Hto k s l Hs Hl Hd) as (i & Hi & Hcut). exists i. by rewrite Hp. }
  assert (forall k s l, segments (cc_mgr x) !! k = Some s -> logs !! k = Some l ->
    exists i, (baseOffset s, take i l) ∈ bls /\ cut_ok c s l i) as Hlive.
  { intros k s l Hs Hl. pose proof (ci_dlen _ _ _ _ _ _ Hx) as Hlen.
    apply (Hto' (length (detached x) + k)%nat).
    - unfold open_segs. rewrite lookup_app_r by lia. by rewrite Nat.add_comm, Nat.add_sub.
    - rewrite lookup_app_r by lia. by rewrite Hlen, Nat.add_comm, Nat.add_sub.
    - destruct (cx_live _ _ Hcr s) as (disk & idx & Hd & _); [by eapply list_elem_of_lookup_2|by rewrite Hd]. }
  destruct (Open_sparse c io cfg d bls Hio Hcfg) as (m & Hopen & Hm).
  - intros ->. pose proof (mi_ne _ _ _ (ci_mgr _ _ _ _ _ _ Hx)) as Hne.
    destruct (segments (cc_mgr x)) as [|s ss] eqn:Hss; [done|].
    destruct (live_seg_at _ _ _ _ _ 0 s Hx) as (l & Hl & _); [by rewrite Hss|].
    destruct (Hlive 0%nat s l eq_refl Hl) as (i & Hi & _). by apply not_elem_of_nil in Hi.
  - split; [done|]. apply Forall_forall. intros b (s & l' & Hs & -> & _)%Hin. by apply Hseg.
  - split.
    + intros b (s & l' & Hs & -> & Hus)%Hin. rewrite Forall_forall in Hf.
      destruct (Hf _ Hus) as (_ & _ & disk & idx & Hd & _). by exists disk.
    + intros n b [f Hn] Hb. destruct (cx_others _ _ Hcr n f Hn) as [(s & Hs & [-> | ->])|Hmd].
      * destruct (Hseg s Hs) as [Hpath Hu]. unfold Path in Hb |- *. rewrite Hpath in Hb |- *.
        rewrite entry_base_segment in Hb by done. injection Hb as <-. split; [|done].
        apply list_elem_of_lookup in Hs as [k Hk].
        destruct (Forall2_lookup_l _ _ _ _ _ Hok Hk) as (l & Hl & _).
        destruct (Hto' k s l Hk Hl) as (i & Hi & _); [by rewrite Hn|].
        apply list_elem_of_fmap. by exists (baseOffset s, take i l).
      * destruct (Hseg s Hs) as [Hpath Hu]. unfold IndexPath in Hb. rewrite Hpath in Hb.
        by rewrite entry_base_index in Hb.
      * rewrite Hno in Hb; [done|by rewrite Hmd].
  - by rewrite Hp.
  - exists m, bls. split_and!; try done. intros b l' Hb. apply Hfrom. by rewrite <- Hp.
Qed.
End Reopen.

(** ** Results *)

(** C2. Acknowledged appends survive a crash of the whole manager.  Let any
    number of goroutines append, roll, read and run retention passes, stop the
    machine at any moment, and open what is left of the directory.  Opening
    succeeds; every record whose [Append] returned success, in a segment that
    retention has not taken, reads back at the offset it was given, even if a
    segment sealed before it lost its unsynced end; the next offset is past it,
    so that it is never given again; and every record that can be read is one
    that was appended at that offset. *)
Theorem acked_survive_manager_crash c (Hc : ChecksumOk c) m logs x io cfg d
  (Hm : mgr_inv c m logs) (Hrun : conc_steps (conc_start m) x) (Hno : no_leftovers (cc_mgr x))
  (Hcr : crash_conc x d) (Hio : forall b, sg_ok (io b)) (Hcfg : cfg_ok c cfg) :
  exists m' ext, Open None None io cfg d = Some (Ok m') /\
    (forall s t data o, s ∈ segments (cc_mgr x) -> commits_of x (baseOffset s) !! t = Some (PDone data o None) ->
       Mgr_ReadAt no_fault (baseOffset s + o) m' = Some (Ok data) /\ baseOffset s + o < Mgr_NextOffset m') /\
    (forall o data, is_u64 o -> Mgr_ReadAt no_fault o m' = Some (Ok data) ->
       rec_at (EarliestOffset m) (mjoin logs ++ ext) o = Some data).
Proof.
  destruct (reach_conc c m logs x Hm Hrun) as (ext & dlogs & logs' & Hx).
  destruct (conc_crash_open c _ _ _ _ x io cfg d Hx Hno Hcr Hio Hcfg) as (m' & bls & Hopen & Hsp & Hfrom & Hlive).
  exists m', ext. split_and!; [done|..].
  - intros s t data o (k & Hk)%list_elem_of_lookup Ht.
    destruct (live_seg_at c _ _ _ _ _ _ _ Hx Hk) as (l & Hl & Hat).
    destruct (acked_synced c _ _ _ _ _ _ _ _ Hat Ht) as (i & -> & Hi & Hsync).
    destruct (Hlive k s l Hk Hl) as (n & Hn & Hcut). pose proof (lookup_lt_Some _ _ _ Hi) as Hlt.
    specialize (Hcut (S i) ltac:(lia) Hsync).
    assert (forall b l', (b, l') ∈ bls -> baseOffset s < b -> baseOffset s + Z.of_nat i < b) as Hbehind.
    { intros b l' Hb Hsb. destruct (Hfrom b l' Hb) as (k' & s' & y & j & Hk' & _ & -> & _).
      pose proof (starts_behind c _ _ _ _ _ _ _ _ s' Hx Hk Hl ltac:(by eapply list_elem_of_lookup_2) Hsb).
      unfold zlen in *. lia. }
    apply list_elem_of_lookup in Hn as [kk Hkk].
    assert (forall j b l', (kk < j)%nat -> bls !! j = Some (b, l') -> baseOffset s < b) as Hafter.
    { intros j b l' Hj Hb. eapply (StronglySorted_lookup Z.lt bls.*1 kk j); [apply Hsp|done|..];
        rewrite list_lookup_fmap; [by rewrite Hkk|by rewrite Hb]. }
    assert (zlen (take n l) > Z.of_nat i) as Hz by (unfold zlen; rewrite length_take; lia).
    split.
    + rewrite (sparse_read c m' bls kk (baseOffset s) (take n l) _ Hsp Hkk); [|lia|].
      * replace (Z.to_nat _) with i by lia. by rewrite lookup_take_lt, Hi by lia.
      * intros j b l' Hj Hb. eapply Hbehind; [by eapply list_elem_of_lookup_2|by eapply Hafter].
    + destruct (last bls) as [[b l']|] eqn:Hlast; [|by apply last_None in Hlast as ->].
      rewrite (sparse_next c m' bls b l' Hsp Hlast). pose proof (zlen_nonneg l').
      rewrite last_lookup in Hlast. pose proof (lookup_lt_Some _ _ _ Hkk).
      destruct (decide (kk = pred (length bls))) as [->|Hne]; [simplify_eq; lia|].
      pose proof (Hafter (pred (length bls)) b l' ltac:(lia) Hlast). assert (baseOffset s + Z.of_nat i < b); [|lia].
      eapply Hbehind; [by eapply list_elem_of_lookup_2|done].
  - intros o data Ho Hr. destruct (sparse_read_sound c m' bls o data Hsp Ho Hr) as (b & l & Hb & Hbo & Hlk).
    destruct (Hfrom b l Hb) as (k & s & y & j & Hk & Hy & -> & ->).
    destruct (Forall2_lookup_lr _ _ _ _ _ _ (ci_segs _ _ _ _ _ _ Hx) Hk Hy) as [_ _ Hh _].
    apply lookup_take_Some in Hlk as [Hlk _]. specialize (Hh _ _ Hlk).
    by rewrite Z2Nat.id, Zplus_minus in Hh by lia.
Qed.

(** A crash that loses nothing. *)
Definition no_loss_dir (s : Segment) : dir :=
  mkDir (<[Path s := w_file (s_writer s)]> {[IndexPath s := indexFile (w_store (s_writer s))]}) [].

Lemma no_loss_crash m cs rs s :
  segments m = [s] -> d_files (m_dir m) = ∅ -> Path s <> IndexPath s -> crash_conc (mkConc m [] cs rs) (no_loss_dir s).
Proof.
  intros Hss Hd Hne.
  assert (forall f, crash_file f f) as Hid by (intros f; destruct (crash_file_id f) as (k & ? & ?); exists k; by destruct f).
  split; cbn [cc_mgr detached].
  - intros t. rewrite Hss. intros ->%list_elem_of_singleton. eexists _, _. unfold no_loss_dir. cbn [d_files].
    rewrite lookup_insert_eq, lookup_insert_ne, lookup_singleton_eq by done. split_and!; [done|apply Hid|done|apply Hid].
  - by intros t ?%not_elem_of_nil.
  - intros n f. unfold no_loss_dir, open_segs. cbn [d_files cc_mgr detached app]. rewrite Hss. intros Hn. left. exists s.
    split; [by left|]. apply lookup_insert_Some in Hn as [[<- _]|[_ Hn]]; [by left|].
    apply lookup_singleton_Some in Hn as [<- _]. by right.
Qed.

Lemma acked_survive_manager_crash_witness :
  exists m cs s m', conc_steps (conc_start ex_mgr) (mkConc m [] cs ∅) /\
    crash_conc (mkConc m [] cs ∅) (no_loss_dir s) /\
    Open None None (fun _ => ex_sgio) ex_cfg (no_loss_dir s) = Some (Ok m') /\
    Mgr_ReadAt no_fault 0 m' = Some (Ok ex_data).
Proof.
  destruct ex_append_run as (m & cs & s & Hrun & Hss & Hb & _ & Hd & Hdir). destruct ex_mgr_ok as (Hm & _ & _).
  assert (Path s <> IndexPath s) as Hne.
  { destruct (reach_conc NewCRC32C ex_mgr [[]] _ Hm Hrun) as (ext & dlogs & logs & Hx).
    destruct (live_seg_at NewCRC32C _ _ _ _ _ 0 s Hx) as (l & _ & [Hok _ _ _]); [cbn; by rewrite Hss|].
    unfold Path, IndexPath. rewrite (sv_path _ _ _ Hok). apply segment_ne_index. }
  pose proof (no_loss_crash m cs ∅ s Hss Hdir Hne) as Hcr.
  destruct (acked_survive_manager_crash NewCRC32C _ ex_mgr [[]] (mkConc m [] cs ∅) (fun _ => ex_sgio) ex_cfg (no_loss_dir s) Hm Hrun)
    as (m' & ext & Ho & Hall & _).
  - intros n. cbn [cc_mgr]. rewrite Hdir, lookup_empty. by intros [? ?].
  - exact Hcr.
  - intros _. repeat split.
  - split; [vm_compute; discriminate | reflexivity].
  - exists m, cs, s, m'. split; [exact Hrun|]. split; [exact Hcr|]. split; [exact Ho|].
    destruct (Hall s 0%nat ex_data 0) as [Hr _]; [cbn; rewrite Hss; by left| |].
    + unfold commits_of. cbn [commits]. rewrite Hb. exact Hd.
    + rewrite Hb in Hr. exact Hr.
Defined.
