(* ===== verification/Service.v ===== *)
(** * Service: the log as its clients see it, and the consumer's cursor

    [LogService] is [ManagerInterface] of [manager.go]; [LogServiceOk] is what
    its clients rely on: reads are lookups in one list of records that starts
    at the earliest offset, and a successful append extends it.  [Manager]
    with a working disk is an instance.  [Reader] ([segment/reader.go]) and
    the network server are verified against the class alone. *)

From Stdlib Require Import ZArith Lia Strings.String Strings.Ascii.
From stdpp Require Import base list list_numbers numbers option gmap sorting strings.
From coqutil Require Import Byte.
From S2P Require Import Prelude Bytes Golib Index Checksum Wal WalFormat WalInv Crash WalProps Segment Manager MgrInv MgrOpen MgrProps.

Local Open Scope Z_scope.

(** The operations; [None] is a computation that did not finish. *)
Class LogService (M : Type) := {
  svc_Append : list byte -> M -> option (result Z * M);
  svc_ReadAt : Z -> M -> option (result (list byte));
  svc_NextOffset : M -> Z;
  svc_EarliestOffset : M -> Z
}.

(** What reading offset [o] of a log [log] starting at [b] must give. *)
Definition read_spec (b : Z) (log : list (list byte)) (o : Z) : result (list byte) :=
  if o <? b then Err (OffsetOutOfRetentionError o b)
  else match log !! Z.to_nat (o - b) with Some x => Ok x | None => Err EOF end.

(** [svc_rep m b log]: service state [m] holds the records [log] from offset [b]. *)
Class LogServiceOk (M : Type) `{LogService M} := {
  svc_rep : M -> Z -> list (list byte) -> Prop;
  svc_range : forall m b log, svc_rep m b log -> 0 <= b /\ b + zlen log < 2 ^ 64;
  svc_records : forall m b log, svc_rep m b log -> Forall payload_ok log;
  svc_read_ok : forall m b log o, svc_rep m b log -> is_u64 o -> svc_ReadAt o m = Some (read_spec b log o);
  svc_next_ok : forall m b log, svc_rep m b log -> svc_NextOffset m = b + zlen log;
  svc_earliest_ok : forall m b log, svc_rep m b log -> svc_EarliestOffset m = b;
  svc_append_ok : forall m b log data, svc_rep m b log -> payload_ok data ->
    b + zlen log + 1 < 2 ^ 64 ->
    exists m', svc_Append data m = Some (Ok (b + zlen log), m') /\ svc_rep m' b (log ++ [data])
}.

Section Unique.
Context {M : Type} `{LogServiceOk M}.

(** The interface determines what the log holds. *)
Lemma svc_rep_unique m b log b' log' : svc_rep m b log -> svc_rep m b' log' -> b = b' /\ log = log'.
Proof.
  intros H1 H2. assert (b = b') as <-
    by (by rewrite <- (svc_earliest_ok _ _ _ H1), <- (svc_earliest_ok _ _ _ H2)).
  split; [done|]. destruct (svc_range _ _ _ H1), (svc_range _ _ _ H2).
  assert (forall l i, svc_rep m b l -> b + Z.of_nat i < 2 ^ 64 ->
    svc_ReadAt (b + Z.of_nat i) m = Some (match l !! i with Some x => Ok x | None => Err EOF end)) as Hrd.
  { intros l i Hl Hi. rewrite (svc_read_ok _ _ _ _ Hl) by (unfold is_u64; lia).
    unfold read_spec. destruct (Z.ltb_spec (b + Z.of_nat i) b); [lia|].
    by replace (b + Z.of_nat i - b) with (Z.of_nat i) by lia; rewrite Nat2Z.id. }
  assert (length log = length log') as Hlen.
  { pose proof (svc_next_ok _ _ _ H1) as Hn1. rewrite (svc_next_ok _ _ _ H2) in Hn1. unfold zlen in Hn1. lia. }
  apply list_eq_same_length with (length log); try done. intros i x y Hi Hx Hy.
  pose proof (Hrd log i H1) as R1. pose proof (Hrd log' i H2) as R2. unfold zlen in *.
  rewrite R1, Hx, Hy in R2 by lia. specialize (R2 ltac:(lia)). congruence.
Qed.

End Unique.

(** ** The manager as a service *)

(** A manager with the outcomes its next calls will meet. *)
Record LiveManager := mkLive {
  lv_mgr : Manager;
  lv_io : segment_io;
  lv_sync : sync_io;
  lv_now : Z
}.

#[export] Instance manager_service : LogService LiveManager := {
  svc_Append data lm :=
    match Mgr_Append (lv_io lm) WOk (lv_sync lm) data (lv_now lm) (lv_mgr lm) with
    | None => None
    | Some (r, m') => Some (r, mkLive m' (lv_io lm) (lv_sync lm) (lv_now lm))
    end;
  svc_ReadAt o lm := Mgr_ReadAt no_fault o (lv_mgr lm);
  svc_NextOffset lm := Mgr_NextOffset (lv_mgr lm);
  svc_EarliestOffset lm := EarliestOffset (lv_mgr lm)
}.

Definition live_rep (lm : LiveManager) (b : Z) (log : list (list byte)) : Prop :=
  (exists c logs, ChecksumOk c /\ mgr_inv c (lv_mgr lm) logs /\ mjoin logs = log) /\
  EarliestOffset (lv_mgr lm) = b /\
  (forall a, active (lv_mgr lm) = Some a -> syncErr (s_writer a) = None) /\
  sg_ok (lv_io lm) /\ sy_sync (lv_sync lm) = None /\ (forall x, clean_write (sy_cp (lv_sync lm) x)).

Lemma chain_payloads c b ss logs : chain c b ss logs -> Forall payload_ok (mjoin logs).
Proof.
  revert b logs. induction ss as [|s ss IH]; intros b [|l logs]; simpl; try done.
  intros (_ & Hs & _ & Hch). apply Forall_app. split; [|by eapply IH].
  destruct (sv_wal _ _ _ Hs) as (? & ? & Hw). apply Hw.
Qed.

#[export] Program Instance manager_service_ok : LogServiceOk LiveManager := {
  svc_rep := live_rep
}.
Next Obligation.
  intros lm b log ((c & logs & Hc & Hm & <-) & <- & _).
  destruct (mgr_split c _ _ Hm) as (ss & s & ls & l & Hss & -> & _ & Hs & Hb & _).
  pose proof (sv_range _ _ _ Hs). rewrite join_app, zlen_app. simpl. rewrite app_nil_r.
  split; [|lia]. pose proof (mi_chain _ _ _ Hm) as Hch. unfold EarliestOffset.
  destruct (segments (lv_mgr lm)) as [|s0 ss0]; [lia|].
  destruct (ls ++ [l]) as [|l0 logs0]; [done|]. destruct Hch as (_ & Hs0 & _). apply Hs0.
Qed.
Next Obligation.
  intros lm b log ((c & logs & Hc & Hm & <-) & _). by eapply chain_payloads, mi_chain.
Qed.
Next Obligation.
  intros lm b log o ((c & logs & Hc & Hm & <-) & <- & _) Ho. by apply (Mgr_ReadAt_run c (quiet:=true)).
Qed.
Next Obligation.
  intros lm b log ((c & logs & Hc & Hm & <-) & <- & _).
  by destruct (mgr_split c _ _ Hm) as (_ & _ & _ & _ & _ & _ & _ & _ & _ & ?).
Qed.
Next Obligation. by intros lm b log (_ & <- & _). Qed.
Next Obligation.
  intros lm b log data ((c & logs & Hc & Hm & <-) & <- & Herr & Hio & Hsy & Hcp) Hp Hn.
  destruct (mgr_split c _ _ Hm) as (_ & _ & _ & _ & _ & _ & _ & _ & _ & Hnext).
  destruct (Append_run c (quiet:=true) (lv_io lm) (lv_sync lm) data (lv_now lm) (lv_mgr lm) logs)
    as (m' & logs' & a & Hrun & Hm' & Hj & He & _ & Ha & Hea & _); try done; [lia|].
  cbn. rewrite Hrun, Hnext. eexists. split; [done|]. unfold live_rep. cbn. split_and!; try done.
  - by exists c, logs'.
  - intros a'. rewrite Ha. by intros [= <-].
Qed.

(** ** Retention as the log's clients see it *)

(** A retention pass at time [now] drops records from the front. *)
Class LogRetention (M : Type) `{LogServiceOk M} := {
  svc_retain : Z -> M -> M;
  svc_retain_ok : forall now m b log, svc_rep m b log ->
    exists n, (n <= length log)%nat /\ svc_rep (svc_retain now m) (b + Z.of_nat n) (drop n log)
}.

(** A deleted segment closes cleanly and its files go away. *)
Definition clean_delete : nat -> delete_io := fun _ => mkDelIo (mkCloseIo None sync_io_ok None None) None None.

(** [RunRetention] of the manager. *)
#[export] Program Instance manager_retention : LogRetention LiveManager := {
  svc_retain now lm := mkLive (RunRetention now now clean_delete (lv_mgr lm)) (lv_io lm) (lv_sync lm) (lv_now lm)
}.
Next Obligation.
  intros now lm b log ((c & logs & Hc & Hm & <-) & <- & Herr & Hio & Hsy & Hcp).
  destruct (RunRetention_inv c now now clean_delete (lv_mgr lm) logs Hm) as (Hm' & He & _).
  set (k := retention_count now (lv_mgr lm)) in *. exists (length (mjoin (take k logs))).
  assert (mjoin logs = mjoin (take k logs) ++ mjoin (drop k logs)) as Hj by (by rewrite <- join_app, take_drop).
  split; [rewrite Hj, length_app; lia|]. unfold svc_rep, manager_service_ok, live_rep. cbn [lv_mgr lv_io lv_sync lv_now].
  split_and!; try done.
  - exists c, (drop k logs). split_and!; [done|done|]. by rewrite Hj, drop_app_length.
  - intros a. rewrite (RunRetention_active c now now clean_delete (lv_mgr lm) logs Hm). apply Herr.
Qed.

(** ** [Reader]: a consumer's cursor over the whole log *)

Section Reader.
Context {M : Type} `{LogServiceOk M}.

(** The cursor; the service it reads from is an argument of each call. *)
Record Reader := mkRd { rd_offset : Z }.

Definition NewReader (m : M) : Reader := mkRd (svc_EarliestOffset m).
Definition Reader_ReadAt (offset : Z) (r : Reader) (m : M) : option (result (list byte)) :=
  svc_ReadAt offset m.

(** [Next]: the record at the cursor and its offset; the cursor advances on
    success only. *)
Definition Next (r : Reader) (m : M) : option (result (list byte) * Z * Reader) :=
  match svc_ReadAt (rd_offset r) m with
  | None => None
  | Some (Err e) => Some (Err e, rd_offset r, r)
  | Some (Ok data) => Some (Ok data, rd_offset r, mkRd (u64 (rd_offset r + 1)))
  end.

Definition ResetToEarliest (r : Reader) (m : M) : Z * Reader :=
  (svc_EarliestOffset m, mkRd (svc_EarliestOffset m)).
Definition Reader_Seek (offset : Z) (r : Reader) : Reader := mkRd offset.
Definition Reader_Offset (r : Reader) : Z := rd_offset r.

(** Call [Next] until it fails, at most [n] times: the records with their
    offsets, the error that ended it, and the cursor. *)
Fixpoint next_all (n : nat) (r : Reader) (m : M)
    : option (list (Z * list byte) * outcome * Reader) :=
  match n with
  | O => Some ([], None, r)
  | S n' =>
      match Next r m with
      | None => None
      | Some (Err e, _, r') => Some ([], Some e, r')
      | Some (Ok data, off, r') =>
          match next_all n' r' m with
          | None => None
          | Some (xs, e, r'') => Some ((off, data) :: xs, e, r'')
          end
      end
  end.

(** Records paired with their offsets. *)
Fixpoint number (o : Z) (log : list (list byte)) : list (Z * list byte) :=
  match log with
  | [] => []
  | x :: log' => (o, x) :: number (o + 1) log'
  end.

Lemma read_spec_hit b log i x :
  log !! i = Some x -> read_spec b log (b + Z.of_nat i) = Ok x.
Proof.
  intros Hx. unfold read_spec. destruct (Z.ltb_spec (b + Z.of_nat i) b); [lia|].
  replace (b + Z.of_nat i - b) with (Z.of_nat i) by lia. by rewrite Nat2Z.id, Hx.
Qed.

Lemma read_spec_head b log : read_spec b log (b + zlen log) = Err EOF.
Proof.
  unfold read_spec. pose proof (zlen_nonneg log).
  destruct (Z.ltb_spec (b + zlen log) b); [lia|].
  replace (b + zlen log - b) with (zlen log) by lia. by rewrite to_nat_zlen, lookup_ge_None_2.
Qed.

Lemma next_all_run m b log i n :
  svc_rep m b log -> (i <= length log)%nat -> (length log - i < n)%nat ->
  next_all n (mkRd (b + Z.of_nat i)) m =
  Some (number (b + Z.of_nat i) (drop i log), Some EOF, mkRd (b + zlen log)).
Proof.
  intros Hm. destruct (svc_range _ _ _ Hm) as [Hb0 Hb1].
  revert i. induction n as [|n IH]; intros i Hi Hn; [lia|].
  cbn [next_all]. unfold Next. cbn [rd_offset].
  rewrite (svc_read_ok _ _ _ _ Hm) by (unfold is_u64, zlen in *; lia).
  destruct (log !! i) as [x|] eqn:Hx.
  - rewrite (read_spec_hit _ _ _ _ Hx). pose proof (lookup_lt_Some _ _ _ Hx).
    rewrite u64_small by (unfold is_u64, zlen in *; lia).
    replace (b + Z.of_nat i + 1) with (b + Z.of_nat (S i)) by lia.
    rewrite IH by lia. rewrite (drop_S _ _ _ Hx). cbn [number].
    by replace (b + Z.of_nat i + 1) with (b + Z.of_nat (S i)) by lia.
  - apply lookup_ge_None in Hx. assert (i = length log) as -> by lia.
    change (Z.of_nat (length log)) with (zlen log). by rewrite read_spec_head, drop_ge.
Qed.

(** A consumer sees every record once, in order.  Starting at any offset
    still stored, [Next] returns each following record with its own offset,
    across segment boundaries and up to the head, then [io.EOF] with the
    cursor on the next offset to be written. *)
Theorem reader_sees_all m b log o
  (Hm : svc_rep m b log) (Ho : b <= o <= b + zlen log) :
  next_all (S (Z.to_nat (b + zlen log - o))) (Reader_Seek o (NewReader m)) m =
  Some (number o (drop (Z.to_nat (o - b)) log), Some EOF, mkRd (b + zlen log)).
Proof.
  unfold Reader_Seek.
  replace o with (b + Z.of_nat (Z.to_nat (o - b))) at 2 3 by lia.
  apply next_all_run; [done|unfold zlen in *; lia..].
Qed.

(** Falling out of retention is loud.  A cursor below the earliest offset
    gets the out-of-retention error naming both offsets and does not move;
    after [ResetToEarliest] it reads everything still stored. *)
Theorem reader_retention_reset m b log o
  (Hm : svc_rep m b log) (Ho : 0 <= o < b) :
  Next (mkRd o) m = Some (Err (OffsetOutOfRetentionError o b), o, mkRd o) /\
  ResetToEarliest (mkRd o) m = (b, mkRd b) /\
  next_all (S (length log)) (ResetToEarliest (mkRd o) m).2 m =
  Some (number b log, Some EOF, mkRd (b + zlen log)).
Proof.
  destruct (svc_range _ _ _ Hm) as [Hb0 Hb1]. pose proof (zlen_nonneg log).
  assert (ResetToEarliest (mkRd o) m = (b, mkRd b)) as Hreset
    by (unfold ResetToEarliest; by rewrite (svc_earliest_ok _ _ _ Hm)).
  split; [|split; [done|]].
  - unfold Next. cbn [rd_offset]. rewrite (svc_read_ok _ _ _ _ Hm) by (unfold is_u64; lia).
    unfold read_spec. destruct (Z.ltb_spec o b); [done|lia].
  - rewrite Hreset. cbn [snd]. pose proof (next_all_run m b log 0 (S (length log)) Hm) as Hrun.
    rewrite Z.add_0_r in Hrun. rewrite Hrun by lia. done.
Qed.
End Reader.

(** A live manager with three records, of which retention then drops two. *)
Definition ex_live (m : Manager) : LiveManager := mkLive m ex_sgio sync_io_ok 5.

Lemma ex_live_rep m logs :
  mgr_inv NewCRC32C m logs -> (forall a, active m = Some a -> syncErr (s_writer a) = None) ->
  svc_rep (ex_live m) (EarliestOffset m) (mjoin logs).
Proof.
  intros Hm Herr. split; [by exists NewCRC32C, logs; split; [apply _|]|]. split_and!; try done.
Qed.

Lemma ex_live_append m b log :
  svc_rep (ex_live m) b log -> b + zlen log + 1 < 2 ^ 64 ->
  svc_rep (ex_live (ex_append m)) b (log ++ [ex_data]).
Proof.
  intros Hm Hn. destruct (svc_append_ok _ _ _ ex_data Hm) as (m' & Hrun & Hm'); [done|done|].
  cbn in Hrun. unfold ex_append.
  destruct (Mgr_Append ex_sgio WOk sync_io_ok ex_data 5 m) as [[r m1]|]; [|done].
  by injection Hrun as _ <-.
Qed.

Lemma ex_live3 : svc_rep (ex_live ex_mgr3) 0 [ex_data; ex_data; ex_data].
Proof.
  destruct ex_mgr_ok as (Hm & He & Herr). pose proof (ex_live_rep _ _ Hm Herr) as H0.
  rewrite He in H0. change (mjoin [[]]) with (@nil (list byte)) in H0.
  pose proof (ex_live_append _ _ _ H0 ltac:(vm_compute; reflexivity)) as H1. cbn [app] in H1.
  pose proof (ex_live_append _ _ _ H1 ltac:(vm_compute; reflexivity)) as H2. cbn [app] in H2.
  pose proof (ex_live_append _ _ _ H2 ltac:(vm_compute; reflexivity)) as H3. cbn [app] in H3.
  unfold ex_mgr3. exact H3.
Qed.

Lemma reader_sees_all_witness :
  next_all 3 (Reader_Seek 1 (NewReader (ex_live ex_mgr3))) (ex_live ex_mgr3) =
  Some ([(1, ex_data); (2, ex_data)], Some EOF, mkRd 3).
Proof.
  apply (reader_sees_all (ex_live ex_mgr3) 0 [ex_data; ex_data; ex_data] 1 ex_live3).
  vm_compute. split; discriminate.
Defined.

(** Retention keeps the service contract. *)
Lemma live_retention m b log now1 now2 io :
  svc_rep (ex_live m) b log ->
  exists log', svc_rep (ex_live (RunRetention now1 now2 io m))
    (EarliestOffset (RunRetention now1 now2 io m)) log'.
Proof.
  intros ((c & logs & Hc & Hm & Hj) & He & Herr & Hio & Hsy & Hcp). cbn [lv_mgr ex_live] in *.
  destruct (RunRetention_inv c now1 now2 io m logs Hm) as (Hm' & _ & _).
  eexists. split; [exists c; eexists; split; [done|split; [exact Hm'|done]]|].
  split; [done|]. split; [|done]. intros a. cbn [lv_mgr ex_live].
  rewrite (RunRetention_active c now1 now2 io m logs Hm). apply Herr.
Qed.

Lemma reader_retention_reset_witness :
  let m := ex_live (RunRetention 9000 9000 ex_del ex_mgr3) in
  Next (mkRd 1) m = Some (Err (OffsetOutOfRetentionError 1 2), 1, mkRd 1).
Proof.
  intros m. destruct (live_retention _ _ _ 9000 9000 ex_del ex_live3) as [log Hm].
  assert (EarliestOffset (RunRetention 9000 9000 ex_del ex_mgr3) = 2) as He by (vm_compute; reflexivity).
  rewrite He in Hm. apply (reader_retention_reset m 2 log 1 Hm). lia.
Defined.
