(* ===== verification/ConsumerOffset.v ===== *)
(** * ConsumerOffset: a consumer's committed position ([internal/consumeroffset])

    [OffsetWriter] replaces the offset file by write-to-temporary, fsync,
    rename and directory fsync.  The file system state [ofs] keeps the two
    names of the protocol and which versions of the real name a crash may
    leave: a rename is visible at once but durable only after the directory
    fsync.  [writeLocked] returns the states it passes through, one per system
    call, so that a crash can be placed between any two. *)

From Stdlib Require Import ZArith Lia Strings.String.
From stdpp Require Import base list list_numbers numbers option gmap sorting.
From coqutil Require Import Byte.
From S2P Require Import Prelude Bytes Golib.

Local Open Scope Z_scope.

(** The offset file, the temporary file, and the versions of the offset file
    that may be found after a crash. *)
Record ofs := mkOfs {
  o_main : option file;
  o_tmp : option file;
  o_durable : list (option file)
}.

(** A directory in which the consumer never committed. *)
Definition ofs_empty : ofs := mkOfs None None [None].

Definition ofs_open (s : ofs) : ofs := mkOfs (o_main s) (Some empty_file) (o_durable s).
Definition ofs_set_tmp (f : file) (s : ofs) : ofs := mkOfs (o_main s) (Some f) (o_durable s).
Definition ofs_rename (f : file) (s : ofs) : ofs := mkOfs (Some f) None (o_durable s ++ [Some f]).
Definition ofs_dirsync (s : ofs) : ofs := mkOfs (o_main s) (o_tmp s) [o_main s].

(** What a crash leaves under the real name. *)
Definition ofs_crash (s : ofs) (f : option file) : Prop :=
  exists g, g ∈ o_durable s /\
    match g with
    | None => f = None
    | Some g => exists k, (f_synced g <= k)%nat /\ f = Some (mkFile (take k (f_data g)) (f_synced g))
    end.

(** Outcomes of the system calls of one write. *)
Record offset_io := mkOffIo {
  of_open : outcome;
  of_write : write_outcome;
  of_sync : outcome;
  of_close : outcome;
  of_rename : outcome;
  of_dir : outcome
}.
Definition offset_io_ok : offset_io := mkOffIo None WOk None None None None.

(** [writeLocked]: the error, and the file system after each system call, the
    last state last. *)
Definition writeLocked (io : offset_io) (offset : Z) (s : ofs) : outcome * list ofs :=
  match of_open io with
  | Some e => (Some (Wrap "offset: open tmp" e), [s])
  | None =>
      let s1 := ofs_open s in
      let buf := PutUint64 offset in
      let '(werr, f2) := f_append (of_write io) buf empty_file in
      let s2 := ofs_set_tmp f2 s1 in
      match werr with
      | Some e => (Some (Wrap "offset: write" e), [s; s1; s2])
      | None =>
          match of_sync io with
          | Some e => (Some (Wrap "offset: fsync" e), [s; s1; s2])
          | None =>
              let f3 := f_sync_upto (length (f_data f2)) f2 in
              let s3 := ofs_set_tmp f3 s2 in
              match of_close io with
              | Some e => (Some (Wrap "offset: close tmp" e), [s; s1; s2; s3])
              | None =>
                  match of_rename io with
                  | Some e => (Some (Wrap "offset: rename" e), [s; s1; s2; s3])
                  | None =>
                      let s4 := ofs_rename f3 s3 in
                      match of_dir io with
                      | Some e => (Some (Wrap "offset: fsync dir" e), [s; s1; s2; s3; s4])
                      | None => (None, [s; s1; s2; s3; s4; ofs_dirsync s4])
                      end
                  end
              end
          end
      end
  end.

Record OffsetWriter := mkOffsetWriter {
  nthOffset : Z;
  previousOffset : Z;
  ow_fs : ofs
}.

(** [NewOffsetWriter] over the given files. *)
Definition NewOffsetWriter (nth : Z) (s : ofs) : OffsetWriter := mkOffsetWriter nth 0 s.

Definition final (s : ofs) (trace : list ofs) : ofs := default s (last trace).

(** [Write] *)
Definition Off_Write (io : offset_io) (offset : Z) (w : OffsetWriter) : outcome * OffsetWriter :=
  let '(err, trace) := writeLocked io offset (ow_fs w) in
  (err, mkOffsetWriter (nthOffset w) (previousOffset w) (final (ow_fs w) trace)).

(** [BatchWrite] *)
Definition BatchWrite (io : offset_io) (offset : Z) (w : OffsetWriter) : outcome * OffsetWriter :=
  if offset <? u64 (previousOffset w + nthOffset w) then (None, w)
  else
    let '(err, trace) := writeLocked io offset (ow_fs w) in
    (err, mkOffsetWriter (nthOffset w) offset (final (ow_fs w) trace)).

(** [OffsetReader.Read] of what is under the real name. *)
Definition Off_Read (rd : outcome) (f : option file) : result Z :=
  match f with
  | None => Ok 0
  | Some f =>
      match rd with
      | Some e => Err (Wrap "offset: read" e)
      | None =>
          if zlen (f_data f) <? 8 then Err (Msg "offset: file too short")
          else Ok (Uint64 (take 8 (f_data f)))
      end
  end.

(** ** Specification *)

(** A version of the file that holds offset [v], all of it fsynced. *)
Definition holds_offset (f : option file) (v : Z) : Prop :=
  is_u64 v /\
  match f with
  | None => v = 0
  | Some f => f_data f = PutUint64 v /\ f_synced f = 8%nat
  end.

(** Every version a crash may leave is one of the offsets [vs], and the current
    one holds [v]. *)
Definition ofs_inv (s : ofs) (vs : list Z) (v : Z) : Prop :=
  Forall (fun f => exists x, x ∈ vs /\ holds_offset f x) (o_durable s) /\ o_durable s <> [] /\
  holds_offset (o_main s) v.

Lemma read_holds f v : holds_offset f v -> Off_Read None f = Ok v.
Proof.
  intros [Hv Hf]. destruct f as [f|]; cbn [Off_Read]; [|by subst].
  destruct Hf as [-> _]. unfold zlen. rewrite length_PutUint64.
  destruct (Z.ltb_spec (Z.of_nat 8) 8); [lia|]. f_equal.
  rewrite take_ge by by rewrite length_PutUint64. rewrite <- (app_nil_r (PutUint64 v)).
  by apply Uint64_Put.
Qed.

Lemma crash_holds f g v :
  holds_offset (Some g) v -> (exists k, (f_synced g <= k)%nat /\ f = Some (mkFile (take k (f_data g)) (f_synced g))) ->
  holds_offset f v.
Proof.
  intros [Hv [Hd Hs]] (k & Hk & ->). split; [done|]. cbn [f_data f_synced]. rewrite Hd.
  split; [|done]. apply take_ge. rewrite length_PutUint64. lia.
Qed.

Lemma ofs_crash_holds s vs v f :
  ofs_inv s vs v -> ofs_crash s f -> exists x, x ∈ vs /\ holds_offset f x.
Proof.
  intros (Hall & _ & _) (g & Hg & Hf). rewrite Forall_forall in Hall.
  destruct (Hall g Hg) as (x & Hx & Hhold). exists x. split; [done|].
  destruct g as [g|]; [by eapply crash_holds|]. by subst f.
Qed.

Lemma ofs_crash_read s vs v f :
  ofs_inv s vs v -> ofs_crash s f -> exists x, x ∈ vs /\ Off_Read None f = Ok x.
Proof.
  intros Hs Hf. destruct (ofs_crash_holds _ _ _ _ Hs Hf) as (x & Hx & Hh).
  exists x. split; [done|]. by apply read_holds.
Qed.

Lemma ofs_inv_weaken s vs vs' v : (forall x, x ∈ vs -> x ∈ vs') -> ofs_inv s vs v -> ofs_inv s vs' v.
Proof.
  intros Hsub (Hall & Hne & Hm). split_and!; try done.
  eapply Forall_impl; [exact Hall|]. intros f (x & Hx & ?). exists x. auto.
Qed.

(** Every state of a trace is the initial one, differs from it in the temporary
    file, or is known. *)
Ltac solve_trace H0 Htmp :=
  repeat (apply Forall_cons_2; [first [exact H0 | apply Htmp | done]|]); apply Forall_nil_2.

(** The states of a write: the old versions until the rename, then the new one
    as well, and the new one alone after the directory fsync. *)
Lemma writeLocked_trace io offset s vs v :
  ofs_inv s vs v -> is_u64 offset ->
  let r := writeLocked io offset s in
  Forall (fun s' => ofs_inv s' (vs ++ [offset]) v \/ ofs_inv s' (vs ++ [offset]) offset) r.2 /\
  (r.1 = None -> ofs_inv (final s r.2) [offset] offset).
Proof.
  intros Hs Ho. set (P := fun s' => ofs_inv s' (vs ++ [offset]) v \/ ofs_inv s' (vs ++ [offset]) offset).
  assert (ofs_inv s (vs ++ [offset]) v) as Hs'
    by (eapply ofs_inv_weaken; [|exact Hs]; intros x ?; apply elem_of_app; by left).
  assert (forall m, P (mkOfs (o_main s) m (o_durable s))) as Htmp by (intros m; left; apply Hs').
  assert (P s) as H0 by by left.
  set (new := mkFile (PutUint64 offset) 8).
  assert (holds_offset (Some new) offset) as Hnew by done.
  assert (P (mkOfs (Some new) None (o_durable s ++ [Some new]))) as Hren.
  { right. split; [|split; [by destruct (o_durable s)|done]]. cbn. apply Forall_app. split; [apply Hs'|].
    apply Forall_singleton. exists offset. split; [apply elem_of_app; right; by left|done]. }
  assert (ofs_inv (mkOfs (Some new) None [Some new]) [offset] offset) as Hdir.
  { split; [|by split]. apply Forall_singleton. exists offset. by split; [left|]. }
  assert (P (mkOfs (Some new) None [Some new])) as Hdir'.
  { right. eapply ofs_inv_weaken; [|exact Hdir]. intros x Hx. apply elem_of_app. by right. }
  unfold writeLocked. cbn zeta.
  destruct (of_open io); [by split; [solve_trace H0 Htmp|]|].
  destruct (of_write io) as [|k e]; cbn [f_append]; [|by split; [solve_trace H0 Htmp|]].
  destruct (of_sync io); [by split; [solve_trace H0 Htmp|]|].
  destruct (of_close io); [by split; [solve_trace H0 Htmp|]|].
  destruct (of_rename io); [by split; [solve_trace H0 Htmp|]|].
  assert (f_sync_upto (length (f_data (mkFile (f_data empty_file ++ PutUint64 offset) (f_synced empty_file))))
    (mkFile (f_data empty_file ++ PutUint64 offset) (f_synced empty_file)) = new) as ->.
  { unfold f_sync_upto, new, empty_file. cbn [f_data f_synced app]. by rewrite length_PutUint64. }
  destruct (of_dir io); (split; [solve_trace H0 Htmp|done]).
Qed.

(** ** Results *)

(** C30. Commit atomicity.  Take any state a [Write] passes through, whatever
    system calls fail, and crash there: reading the file back gives the offset
    committed before or the one being written, never an error and never
    anything else; and once [Write] has returned success, a crash can only
    leave the new offset, which is also what a read without crash returns. *)
Theorem offset_write_atomic io offset w vs v s' f
  (Hs : ofs_inv (ow_fs w) vs v) (Ho : is_u64 offset)
  (Hin : s' ∈ (writeLocked io offset (ow_fs w)).2) (Hcr : ofs_crash s' f) :
  (exists x, x ∈ vs ++ [offset] /\ Off_Read None f = Ok x) /\
  ((Off_Write io offset w).1 = None ->
     let w' := (Off_Write io offset w).2 in
     Off_Read None (o_main (ow_fs w')) = Ok offset /\
     forall g, ofs_crash (ow_fs w') g -> Off_Read None g = Ok offset).
Proof.
  destruct (writeLocked_trace io offset (ow_fs w) vs v Hs Ho) as [Htr Hfin].
  split.
  - rewrite Forall_forall in Htr. destruct (Htr s' Hin) as [H|H]; by eapply ofs_crash_read.
  - unfold Off_Write. destruct (writeLocked io offset (ow_fs w)) as [err trace]. cbn in *.
    intros Herr. specialize (Hfin Herr). split.
    + apply read_holds. apply Hfin.
    + intros g Hg. destruct (ofs_crash_read _ _ _ _ Hfin Hg) as (x & Hx & ->).
      by apply list_elem_of_singleton in Hx as ->.
Qed.

Lemma ofs_empty_inv : ofs_inv ofs_empty [0] 0.
Proof.
  split_and!; [|done|by split; [unfold is_u64; lia|]].
  apply Forall_singleton. exists 0. split; [by left|]. by split; [unfold is_u64; lia|].
Qed.

Lemma offset_write_atomic_witness :
  exists x, x ∈ [0; 42] /\ Off_Read None (Some (mkFile (PutUint64 42) 8)) = Ok x.
Proof.
  apply (offset_write_atomic offset_io_ok 42 (NewOffsetWriter 1 ofs_empty) [0] 0
           (mkOfs (Some (mkFile (PutUint64 42) 8)) None [None; Some (mkFile (PutUint64 42) 8)])).
  - exact ofs_empty_inv.
  - unfold is_u64. lia.
  - cbn. do 4 right. left.
  - exists (Some (mkFile (PutUint64 42) 8)). split; [right; left|]. exists 8%nat. split; [cbn; lia|reflexivity].
Defined.

(** A run of [BatchWrite] calls with a working disk. *)
Fixpoint batch_all (offs : list Z) (w : OffsetWriter) : OffsetWriter :=
  match offs with
  | [] => w
  | o :: offs' => batch_all offs' (BatchWrite offset_io_ok o w).2
  end.

(** The writer remembers the offset its file durably holds. *)
Definition batch_inv (w : OffsetWriter) : Prop :=
  ofs_inv (ow_fs w) [previousOffset w] (previousOffset w).

Lemma BatchWrite_inv o w :
  batch_inv w -> is_u64 o -> 0 <= nthOffset w -> o + nthOffset w < 2 ^ 64 -> previousOffset w <= o ->
  let w' := (BatchWrite offset_io_ok o w).2 in
  batch_inv w' /\ nthOffset w' = nthOffset w /\
  previousOffset w' <= o < previousOffset w' + Z.max 1 (nthOffset w).
Proof.
  intros Hs Ho Hn Hmax Hle. unfold BatchWrite.
  pose proof Hs as (_ & _ & [Hp _]). unfold is_u64 in Hp.
  rewrite u64_small by (unfold is_u64; lia).
  destruct (Z.ltb_spec o (previousOffset w + nthOffset w)); [cbn; split_and!; done || lia|].
  destruct (writeLocked_trace offset_io_ok o (ow_fs w) _ _ Hs Ho) as [_ Hfin].
  destruct (writeLocked offset_io_ok o (ow_fs w)) as [err trace] eqn:Hw. cbn in Hfin |- *.
  split_and!; try lia. apply Hfin. apply (f_equal fst) in Hw. cbn in Hw. by subst err.
Qed.

Lemma batch_all_app offs o w : batch_all (offs ++ [o]) w = (BatchWrite offset_io_ok o (batch_all offs w)).2.
Proof. revert w. induction offs as [|x offs IH]; intros w; [done|]. simpl. apply IH. Qed.

Lemma batch_all_inv offs o w :
  batch_inv w -> Forall is_u64 (offs ++ [o]) -> StronglySorted Z.le (offs ++ [o]) ->
  0 <= nthOffset w -> o + nthOffset w < 2 ^ 64 -> Forall (Z.le (previousOffset w)) (offs ++ [o]) ->
  let w' := batch_all offs w in
  batch_inv w' /\ nthOffset w' = nthOffset w /\ previousOffset w' <= o.
Proof.
  revert w. induction offs as [|x offs IH]; intros w Hw Hu Hs Hn Hmax Hle; cbn [app batch_all] in *.
  { cbn zeta. rewrite Forall_singleton in Hle. by split_and!. }
  apply Forall_cons in Hu as [Hx Hu]. apply StronglySorted_cons in Hs as [Hge Hs].
  apply Forall_cons in Hle as [Hle _].
  assert (x <= o) by (rewrite Forall_forall in Hge; apply Hge, elem_of_app; right; by left).
  destruct (BatchWrite_inv x w Hw Hx Hn) as (Hw' & Hn' & Hp'); [lia|done|].
  rewrite <- Hn' in *. apply IH; try done.
  eapply Forall_impl; [exact Hge|]. intros y Hy. simpl. lia.
Qed.

(** Bounded re-processing.  A consumer that reports non-decreasing offsets
    through [BatchWrite] on a working disk finds, after a crash at the end, a
    committed offset that is not ahead of the last one reported and less than
    [nthOffset] behind it (or equal to it). *)
Theorem batch_lag_bounded offs o nth f
  (Hu : Forall is_u64 (offs ++ [o])) (Hs : StronglySorted Z.le (offs ++ [o]))
  (Hn : 0 <= nth < 2 ^ 32) (Hmax : o + nth < 2 ^ 64)
  (Hcr : ofs_crash (ow_fs (batch_all (offs ++ [o]) (NewOffsetWriter nth ofs_empty))) f) :
  exists p, Off_Read None f = Ok p /\ p <= o < p + Z.max 1 nth.
Proof.
  destruct (batch_all_inv offs o (NewOffsetWriter nth ofs_empty)) as (Hw & Hnth & Hle); try done; try (cbn; lia).
  { exact ofs_empty_inv. }
  { eapply Forall_impl; [exact Hu|]. unfold is_u64. simpl. lia. }
  cbn in Hnth. rewrite batch_all_app in Hcr.
  destruct (BatchWrite_inv o _ Hw) as (Hw' & _ & Hp); try lia.
  { apply Forall_app in Hu as [_ Hu]. by rewrite Forall_singleton in Hu. }
  destruct (ofs_crash_read _ _ _ _ Hw' Hcr) as (p & Hp'%list_elem_of_singleton & Hrd).
  exists p. rewrite Hnth, <- Hp' in Hp. by split.
Qed.

Lemma batch_lag_bounded_witness :
  exists p, Off_Read None (Some (mkFile (PutUint64 5) 8)) = Ok p /\ p <= 7 < p + Z.max 1 5.
Proof.
  apply (batch_lag_bounded [2; 5] 7 5).
  - repeat constructor; unfold is_u64; lia.
  - repeat constructor; lia.
  - lia.
  - lia.
  - exists (Some (mkFile (PutUint64 5) 8)). split; [left|]. exists 8%nat. split; [cbn; lia|reflexivity].
Defined.

(** Defect: a failed [BatchWrite] counts as progress.  With [nthOffset] 5,
    the write of offset 5 fails and is reported, the next call, for offset 9,
    returns success without writing, and the file still says 0: the consumer
    is 9 behind, more than the documented bound of 4, with no error pending. *)
Theorem batch_failure_widens_lag :
  let w0 := NewOffsetWriter 5 ofs_empty in
  let '(e1, w1) := BatchWrite (mkOffIo None (WFail 0 (Errno 28)) None None None None) 5 w0 in
  let '(e2, w2) := BatchWrite offset_io_ok 9 w1 in
  e1 = Some (Wrap "offset: write" (Errno 28)) /\ e2 = None /\
  Off_Read None (o_main (ow_fs w2)) = Ok 0 /\ 0 + nthOffset w2 <= 9.
Proof. cbn. split_and!; done || lia. Qed.
