(* ===== verification/ConsumerApp.v ===== *)
(** * ConsumerApp: a consumer of the log ([cmd/concurrent])

    [runConsumer] ties the three consumer-side components together: it resumes
    from the offset file ([ConsumerOffset.v]), reads with a [Reader] over the
    log ([Service.v]) and commits after each event.  Its parts between two
    interactions with the rest of the program are [consumer_start],
    [consumer_next] and [consumer_commit]; [runConsumer] chains them for a log
    that does not change meanwhile, and [world_step] interleaves them with
    producers, retention and crashes of the consumer at any point, also in the
    middle of a commit.  The theorems: every event is delivered at least once
    and in order, a crash repeats at most one event, and a consumer that exits
    as drained has processed the whole log. *)

From Stdlib Require Import ZArith Lia Strings.String.
From stdpp Require Import base list list_numbers numbers option gmap sorting.
From coqutil Require Import Byte.
From S2P Require Import Prelude Bytes Golib WalFormat Crash MgrProps Service ConsumerOffset.

Local Open Scope Z_scope.

(** [numProducers], [eventsPerProducer] *)
Definition numProducers : Z := 3.
Definition eventsPerProducer : Z := 20.

(** Where a consumer is: before the offset file was read, at the top of its
    loop, with event [off] processed and not yet committed, or returned ([None]
    is the clean exit). *)
Inductive cphase :=
| CStart
| CReady
| CProcess (off : Z)
| CStop (why : outcome).

Record consumer := mkCons {
  c_phase : cphase;
  c_reader : Reader;
  c_writer : OffsetWriter;
  c_live : Z
}.

Definition set_phase (p : cphase) (s : consumer) : consumer :=
  mkCons p (c_reader s) (c_writer s) (c_live s).

Section App.
Context {M : Type} `{LogServiceOk M}.

(** The first lines of [runConsumer]: a fresh reader and an offset writer that
    would flush a batch every 20 records. *)
Definition consumer_new (s : ofs) (m : M) : consumer :=
  mkCons CStart (NewReader m) (NewOffsetWriter 20 s) 0.

(** Resume from the committed offset. *)
Definition consumer_start (rd : outcome) (s : consumer) : consumer :=
  match Off_Read rd (o_main (ow_fs (c_writer s))) with
  | Err e => set_phase (CStop (Some e)) s
  | Ok resume => mkCons CReady (Reader_Seek resume (c_reader s)) (c_writer s) resume
  end.

(** One iteration up to the commit: the event that was processed, if any.
    [done] says whether [doneProducing] is closed. *)
Definition consumer_next (done : bool) (m : M) (s : consumer)
    : option (consumer * list (Z * list byte)) :=
  match Next (c_reader s) m with
  | None => None
  | Some (Err EOF, _, r') =>
      if done && (svc_NextOffset m =? c_live s) then Some (set_phase (CStop None) s, [])
      else Some (mkCons CReady r' (c_writer s) (c_live s), [])
  | Some (Err e, _, _) => Some (set_phase (CStop (Some e)) s, [])
  | Some (Ok data, off, r') =>
      Some (mkCons (CProcess off) r' (c_writer s) (u64 (off + 1)), [(off, data)])
  end.

(** The commit of event [off]. *)
Definition consumer_commit (io : offset_io) (off : Z) (s : consumer) : consumer :=
  let '(err, w') := Off_Write io (u64 (off + 1)) (c_writer s) in
  match err with
  | Some e => mkCons (CStop (Some e)) (c_reader s) w' (c_live s)
  | None => mkCons CReady (c_reader s) w' (c_live s)
  end.

(** [runConsumer] with nothing else running, at most [fuel] parts of it. *)
Fixpoint runConsumer (fuel : nat) (done : bool) (m : M) (s : consumer)
    : option (consumer * list (Z * list byte)) :=
  match fuel with
  | O => None
  | S fuel' =>
      match c_phase s with
      | CStop _ => Some (s, [])
      | CStart => runConsumer fuel' done m (consumer_start None s)
      | CProcess off => runConsumer fuel' done m (consumer_commit offset_io_ok off s)
      | CReady =>
          match consumer_next done m s with
          | None => None
          | Some (s', evs) =>
              match runConsumer fuel' done m s' with
              | None => None
              | Some (s'', evs') => Some (s'', evs ++ evs')
              end
          end
      end
  end.

(** The lag [printMetrics] shows for a consumer, from the head it read first. *)
Definition metrics_lag (head off : Z) : Z := u64 (head - off).

(** ** The consumer and its surroundings *)

(** [seen] are the events processed so far, by this process and those before
    it; [crashes] counts the restarts. *)
Record world := mkWorld {
  wd_log : M;
  wd_done : bool;
  wd_cons : consumer;
  seen : list (Z * list byte);
  crashes : nat
}.

(** What a crash leaves of the offset file, as the next process finds it (a
    left-over temporary file is truncated when it is opened again). *)
Definition ofs_after (f : option file) : ofs := mkOfs f None [f].

(** The file system states in which the consumer may be stopped: between two
    system calls of a commit, or as it is. *)
Definition crash_points (s : consumer) (fs : ofs) : Prop :=
  fs = ow_fs (c_writer s) \/
  exists off io, c_phase s = CProcess off /\
    fs ∈ (writeLocked io (u64 (off + 1)) (ow_fs (c_writer s))).2.

Inductive world_step : world -> world -> Prop :=
| ws_append m s evs k data o m' :
    svc_Append data m = Some (Ok o, m') -> payload_ok data -> svc_NextOffset m + 1 < 2 ^ 64 ->
    world_step (mkWorld m false s evs k) (mkWorld m' false s evs k)
| ws_done m s evs k :
    world_step (mkWorld m false s evs k) (mkWorld m true s evs k)
| ws_retain m s evs k d m' b n log :
    svc_rep m b log -> svc_rep m' (b + Z.of_nat n) (drop n log) -> (n <= length log)%nat ->
    world_step (mkWorld m d s evs k) (mkWorld m' d s evs k)
| ws_start m d s evs k rd :
    c_phase s = CStart ->
    world_step (mkWorld m d s evs k) (mkWorld m d (consumer_start rd s) evs k)
| ws_next m d s evs k s' new :
    c_phase s = CReady -> consumer_next d m s = Some (s', new) ->
    world_step (mkWorld m d s evs k) (mkWorld m d s' (evs ++ new) k)
| ws_commit m d s evs k off io :
    c_phase s = CProcess off ->
    world_step (mkWorld m d s evs k) (mkWorld m d (consumer_commit io off s) evs k)
| ws_crash m d s evs k fs f :
    crash_points s fs -> ofs_crash fs f ->
    world_step (mkWorld m d s evs k) (mkWorld m d (consumer_new (ofs_after f) m) evs (S k)).

Inductive world_steps : world -> world -> Prop :=
| ws_refl x : world_steps x x
| ws_trans x y z : world_steps x y -> world_step y z -> world_steps x z.
End App.
Arguments world M : clear implicits.

(** ** Invariant *)

Section AppInv.
Context {M : Type} `{LogServiceOk M}.

(** The log holds the end of the history [hist], which starts at [h0]. *)
Definition log_hist (h0 : Z) (hist : list (list byte)) (m : M) : Prop :=
  exists b log, svc_rep m b log /\ h0 <= b /\ b + zlen log = h0 + zlen hist /\
    forall o, b <= o -> rec_at b log o = rec_at h0 hist o.

(** The processed events are records of the log, at their own offsets. *)
Definition genuine (h0 : Z) (hist : list (list byte)) (evs : list (Z * list byte)) : Prop :=
  forall o d, (o, d) ∈ evs -> rec_at h0 hist o = Some d.

(** No event is skipped: the first is number 0, and the offset after [o] is at
    most [o + 1]. *)
Definition in_order (evs : list (Z * list byte)) : Prop :=
  (forall e, evs !! 0%nat = Some e -> e.1 = 0) /\
  forall i e1 e2, evs !! i = Some e1 -> evs !! S i = Some e2 -> e2.1 <= e1.1 + 1.

(** The consumer may continue at [x]: everything before was processed, and at
    most [k] events were processed more than once. *)
Record may_resume (evs : list (Z * list byte)) (k x : Z) : Prop := {
  mr_pos : 0 <= x;
  mr_all : forall o, 0 <= o < x -> exists d, (o, d) ∈ evs;
  mr_next : match last evs with None => x = 0 | Some e => x <= e.1 + 1 end;
  mr_dup : zlen evs <= x + k
}.

Definition cons_inv (m : M) (done : bool) (s : consumer) (evs : list (Z * list byte)) (k : Z) : Prop :=
  let fs := ow_fs (c_writer s) in
  match c_phase s with
  | CStart => exists v, ofs_inv fs [v] v /\ may_resume evs k v
  | CReady => rd_offset (c_reader s) = c_live s /\ ofs_inv fs [c_live s] (c_live s) /\
      may_resume evs k (c_live s)
  | CProcess off => rd_offset (c_reader s) = off + 1 /\ c_live s = off + 1 /\ off + 1 < 2 ^ 64 /\
      ofs_inv fs [off] off /\ may_resume evs (k + 1) off /\ may_resume evs k (off + 1)
  | CStop why =>
      (exists vs v, ofs_inv fs vs v /\ forall x, x ∈ vs -> may_resume evs (k + 1) x) /\
      (why = None -> ofs_inv fs [c_live s] (c_live s) /\ may_resume evs k (c_live s) /\
         c_live s = svc_NextOffset m /\ done = true)
  end.

Record world_inv (h0 : Z) (hist : list (list byte)) (x : world M) : Prop := {
  wi_log : log_hist h0 hist (wd_log x);
  wi_seen : genuine h0 hist (seen x);
  wi_order : in_order (seen x);
  wi_cons : cons_inv (wd_log x) (wd_done x) (wd_cons x) (seen x) (Z.of_nat (crashes x))
}.

Lemma may_resume_weaken evs k k' x : k <= k' -> may_resume evs k x -> may_resume evs k' x.
Proof. intros Hk []. split; try done. lia. Qed.

(** Processing event [o] where the consumer could continue at [o]. *)
Lemma may_resume_step evs k o d :
  may_resume evs k o -> may_resume (evs ++ [(o, d)]) (k + 1) o /\ may_resume (evs ++ [(o, d)]) k (o + 1).
Proof.
  intros [Hp Hall Hn Hd]. assert (zlen (evs ++ [(o, d)]) = zlen evs + 1) as Hz by by rewrite zlen_app.
  split; (split; rewrite ?last_snoc, ?Hz; cbn; try lia).
  - intros o' Ho. destruct (Hall o' Ho) as [d' ?]. exists d'. apply elem_of_app. by left.
  - intros o' Ho. destruct (decide (o' = o)) as [->|].
    + exists d. apply elem_of_app. right. by left.
    + destruct (Hall o') as [d' ?]; [lia|]. exists d'. apply elem_of_app. by left.
Qed.

Lemma in_order_step evs k o d : in_order evs -> may_resume evs k o -> in_order (evs ++ [(o, d)]).
Proof.
  intros [Hfst Hs] [_ _ Hn _]. split.
  - intros e. destruct evs as [|e0 evs]; cbn; [|by apply Hfst]. intros [= <-]. exact Hn.
  - intros i e1 e2 He1 He2. destruct (decide (S i < length evs)%nat).
    + rewrite lookup_app_l in He1, He2 by lia. by eapply Hs.
    + pose proof (lookup_lt_Some _ _ _ He2) as Hl. rewrite length_app in Hl. simpl in Hl.
      assert (S i = length evs) as Hi by lia.
      rewrite lookup_app_r, Hi, Nat.sub_diag in He2 by lia. injection He2 as <-.
      rewrite lookup_app_l in He1 by lia. rewrite last_lookup, <- Hi in Hn. cbn in Hn.
      rewrite He1 in Hn. exact Hn.
Qed.

(** Every version of the offset file a crash may leave is one the consumer may
    resume from. *)
Lemma crash_points_inv m d s evs k fs :
  cons_inv m d s evs k -> crash_points s fs ->
  exists vs v, ofs_inv fs vs v /\ forall x, x ∈ vs -> may_resume evs (k + 1) x.
Proof.
  assert (forall fs' v, ofs_inv fs' [v] v -> may_resume evs k v ->
    exists vs v, ofs_inv fs' vs v /\ forall x, x ∈ vs -> may_resume evs (k + 1) x) as Hone.
  { intros fs' v Hf Hv. exists [v], v. split; [done|]. intros x ->%list_elem_of_singleton.
    eapply may_resume_weaken; [|done]. lia. }
  intros Hinv [-> |(off & io & Hph & Hin)]; unfold cons_inv in Hinv.
  - destruct (c_phase s) as [| |off|why]; [destruct Hinv as (v & ? & ?); by eapply Hone|
      destruct Hinv as (_ & ? & ?); by eapply Hone| |by destruct Hinv].
    destruct Hinv as (_ & _ & _ & Hf & Hv & _). exists [off], off. split; [done|].
    by intros x ->%list_elem_of_singleton.
  - rewrite Hph in Hinv. destruct Hinv as (_ & _ & Hlt & Hf & Hv & Hv').
    pose proof (mr_pos _ _ _ Hv). rewrite u64_small in Hin by (unfold is_u64; lia).
    destruct (writeLocked_trace io (off + 1) _ _ _ Hf) as [Htr _]; [unfold is_u64; lia|].
    assert (forall x, x ∈ [off] ++ [off + 1] -> may_resume evs (k + 1) x) as Hx.
    { intros x [-> |[-> |?%not_elem_of_nil]%elem_of_cons]%elem_of_cons; try done.
      eapply may_resume_weaken; [|done]. lia. }
    rewrite Forall_forall in Htr. destruct (Htr fs Hin) as [?|?]; by eauto.
Qed.

Lemma ofs_after_inv f x : holds_offset f x -> ofs_inv (ofs_after f) [x] x.
Proof.
  intros Hx. split_and!; try done. apply Forall_singleton. exists x. by split; [left|].
Qed.

Lemma log_next h0 hist m : log_hist h0 hist m -> svc_NextOffset m = h0 + zlen hist.
Proof. intros (b & log & Hm & _ & Hn & _). by rewrite (svc_next_ok _ _ _ Hm). Qed.

(** What the loop's [Next] can return. *)
Lemma next_cases h0 hist m o :
  log_hist h0 hist m -> is_u64 o ->
  (exists d, rec_at h0 hist o = Some d /\ o + 1 < 2 ^ 64 /\
     Next (mkRd o) m = Some (Ok d, o, mkRd (o + 1))) \/
  (h0 + zlen hist <= o /\ Next (mkRd o) m = Some (Err EOF, o, mkRd o)) \/
  (exists b, o < b /\ Next (mkRd o) m = Some (Err (OffsetOutOfRetentionError o b), o, mkRd o)).
Proof.
  intros (b & log & Hm & Hb & Hn & Hrec) Ho. destruct (svc_range _ _ _ Hm).
  unfold Next. cbn [rd_offset]. rewrite (svc_read_ok _ _ _ _ Hm Ho). unfold read_spec.
  destruct (Z.ltb_spec o b) as [Hlt|Hge]; [right; right; by exists b|].
  specialize (Hrec o Hge). unfold rec_at at 1 in Hrec. destruct (Z.ltb_spec o b); [lia|].
  destruct (log !! Z.to_nat (o - b)) as [d|] eqn:Hd.
  - left. exists d. pose proof (lookup_lt_Some _ _ _ Hd). unfold zlen, is_u64 in *.
    rewrite u64_small by (unfold is_u64; lia). split_and!; done || lia.
  - right. left. apply lookup_ge_None in Hd. unfold zlen in *. split; [lia|done].
Qed.

Lemma consumer_start_inv m d s evs k rd :
  c_phase s = CStart -> cons_inv m d s evs k -> cons_inv m d (consumer_start rd s) evs k.
Proof.
  unfold cons_inv. intros ->. intros (v & Hf & Hv). unfold consumer_start.
  pose proof Hf as (_ & _ & Hmain).
  destruct (Off_Read rd (o_main (ow_fs (c_writer s)))) as [r|e] eqn:Hrd; cbn.
  - assert (r = v) as ->; [|by split_and!].
    pose proof (read_holds _ _ Hmain) as Hr. unfold Off_Read in *.
    destruct (o_main (ow_fs (c_writer s))) as [g|]; [|congruence]. destruct rd; [done|].
    rewrite Hrd in Hr. congruence.
  - split; [|done]. exists [v], v. split; [done|]. intros x ->%list_elem_of_singleton.
    eapply may_resume_weaken; [|done]. lia.
Qed.

Lemma consumer_next_inv h0 hist m d s evs k s' new :
  log_hist h0 hist m -> genuine h0 hist evs -> in_order evs -> c_phase s = CReady ->
  cons_inv m d s evs k -> consumer_next d m s = Some (s', new) ->
  genuine h0 hist (evs ++ new) /\ in_order (evs ++ new) /\ cons_inv m d s' (evs ++ new) k.
Proof.
  intros Hlog Hg Ho Hph Hinv Hrun. unfold cons_inv in Hinv. rewrite Hph in Hinv.
  destruct Hinv as (Hrd & Hf & Hv). pose proof Hf as (_ & _ & [Hu _]).
  unfold consumer_next in Hrun. destruct (c_reader s) as [o]. cbn in Hrd. subst o.
  assert (forall why, (why = None -> c_live s = svc_NextOffset m /\ d = true) ->
    cons_inv m d (set_phase (CStop why) s) (evs ++ []) k) as Hstop.
  { intros why Hw. rewrite app_nil_r. cbn. split; [|by intros ?%Hw].
    exists [c_live s], (c_live s). split; [done|]. intros x ->%list_elem_of_singleton.
    eapply may_resume_weaken; [|done]. lia. }
  destruct (next_cases h0 hist m (c_live s) Hlog Hu) as [(x & Hx & Hlt & Hn)|[[Hge Hn]|(b & Hb & Hn)]];
    rewrite Hn in Hrun.
  - injection Hrun as <- <-. destruct (may_resume_step evs k (c_live s) x Hv) as [Hv1 Hv2].
    split_and!; [|by eapply in_order_step|].
    + intros o' d' [?|[[= -> ->] |?%not_elem_of_nil]%elem_of_cons]%elem_of_app; by auto.
    + cbn. rewrite u64_small by (unfold is_u64 in *; lia). by split_and!.
  - case_if_in Hrun; injection Hrun as <- <-.
    + bprop. rewrite app_nil_r in *. split_and!; try done. by apply Hstop.
    + rewrite app_nil_r. by split_and!.
  - injection Hrun as <- <-. split_and!; [by rewrite app_nil_r..|]. by apply Hstop.
Qed.

Lemma consumer_commit_inv m d s evs k off io :
  c_phase s = CProcess off -> cons_inv m d s evs k -> cons_inv m d (consumer_commit io off s) evs k.
Proof.
  intros Hph Hinv. pose proof Hinv as Hinv0. unfold cons_inv in Hinv. rewrite Hph in Hinv.
  destruct Hinv as (Hrd & Hl & Hlt & Hf & Hv & Hv').
  pose proof (mr_pos _ _ _ Hv). unfold consumer_commit, Off_Write.
  rewrite u64_small by (unfold is_u64; lia).
  destruct (writeLocked_trace io (off + 1) _ _ _ Hf) as [Htr Hfin]; [unfold is_u64; lia|].
  assert (final (ow_fs (c_writer s)) (writeLocked io (off + 1) (ow_fs (c_writer s))).2 ∈
    ow_fs (c_writer s) :: (writeLocked io (off + 1) (ow_fs (c_writer s))).2) as Hin.
  { unfold final. destruct (last _) as [fs|] eqn:Hlast; cbn; [|by left].
    right. apply last_Some in Hlast as [l ->]. apply elem_of_app. right. by left. }
  destruct (writeLocked io (off + 1) (ow_fs (c_writer s))) as [[e|] trace] eqn:Hw;
    unfold cons_inv; cbn [fst snd c_phase c_reader c_live c_writer ow_fs] in *.
  - split; [|done]. apply (crash_points_inv m d s evs k _ Hinv0).
    apply elem_of_cons in Hin as [-> |Hin]; [by left|]. right. exists off, io. split; [done|].
    rewrite u64_small by (unfold is_u64; lia). by rewrite Hw.
  - rewrite Hl. split_and!; try done. by apply Hfin.
Qed.

Lemma log_hist_append h0 hist m data o m' :
  log_hist h0 hist m -> svc_Append data m = Some (Ok o, m') -> payload_ok data ->
  svc_NextOffset m + 1 < 2 ^ 64 -> log_hist h0 (hist ++ [data]) m'.
Proof.
  intros (b & log & Hm & Hb & Hn & Hrec) Hrun Hp Hmax. rewrite (svc_next_ok _ _ _ Hm) in Hmax.
  destruct (svc_append_ok _ _ _ data Hm Hp Hmax) as (m2 & Hrun2 & Hm2).
  rewrite Hrun in Hrun2. injection Hrun2 as _ <-. exists b, (log ++ [data]). rewrite !zlen_app.
  split_and!; try done; [lia|]. intros o' Ho'. unfold zlen in *.
  destruct (decide (o' < b + Z.of_nat (length log))).
  - rewrite !rec_at_grow by (unfold zlen; lia). by apply Hrec.
  - unfold rec_at. destruct (Z.ltb_spec o' b), (Z.ltb_spec o' h0); try lia.
    rewrite !lookup_app_r by lia. f_equal. lia.
Qed.

Lemma log_hist_retain h0 hist m m' b n log :
  log_hist h0 hist m -> svc_rep m b log -> svc_rep m' (b + Z.of_nat n) (drop n log) -> (n <= length log)%nat ->
  log_hist h0 hist m' /\ svc_NextOffset m' = svc_NextOffset m.
Proof.
  intros (b' & log' & Hm & Hb & Hn & Hrec) Hm1 Hm2 Hle.
  destruct (svc_rep_unique _ _ _ _ _ Hm Hm1) as [-> ->].
  rewrite (svc_next_ok _ _ _ Hm), (svc_next_ok _ _ _ Hm2).
  assert (zlen (drop n log) = zlen log - Z.of_nat n) as Hz by (unfold zlen; rewrite length_drop; lia).
  split; [|lia]. exists (b + Z.of_nat n), (drop n log). split_and!; try done; try lia.
  intros o Ho. rewrite <- Hrec by lia. unfold rec_at.
  destruct (Z.ltb_spec o b), (Z.ltb_spec o (b + Z.of_nat n)); try lia.
  rewrite lookup_drop. f_equal. lia.
Qed.

Lemma cons_inv_log m m' d s evs k :
  svc_NextOffset m' = svc_NextOffset m \/ d = false ->
  cons_inv m d s evs k -> cons_inv m' d s evs k.
Proof.
  intros Hm. unfold cons_inv. destruct (c_phase s) as [| | |why]; try done.
  intros [? Hw]. split; [done|]. intros ->. destruct (Hw eq_refl) as (? & ? & ? & ?).
  destruct Hm; [|congruence]. split_and!; try done. congruence.
Qed.

Lemma genuine_app h0 hist l evs : genuine h0 hist evs -> genuine h0 (hist ++ l) evs.
Proof. intros Hg o d Hin. by apply rec_at_app, Hg. Qed.

Lemma world_step_inv h0 hist x y :
  world_inv h0 hist x -> world_step x y -> exists ext, world_inv h0 (hist ++ ext) y.
Proof.
  intros [Hlog Hg Ho Hc] Hstep.
  destruct Hstep as [m s evs k data o m' Hrun Hp Hmax|m s evs k|m s evs k d m' b n log Hm1 Hm2 Hle|
    m d s evs k rd Hph|m d s evs k s' new Hph Hrun|m d s evs k off io Hph|m d s evs k fs f Hfs Hf]; cbn in *.
  - exists [data]. split; cbn; try done; [by eapply log_hist_append|by apply genuine_app|].
    by apply (cons_inv_log m); [right|].
  - exists []. rewrite app_nil_r. split; cbn; try done. unfold cons_inv in *. destruct (c_phase s); try done.
    destruct Hc as [? Hw]. split; [done|]. intros ->. by destruct (Hw eq_refl) as (? & ? & ? & ?).
  - exists []. rewrite app_nil_r. destruct (log_hist_retain _ _ _ _ _ _ _ Hlog Hm1 Hm2 Hle).
    split; cbn; try done. by apply (cons_inv_log m); [left|].
  - exists []. rewrite app_nil_r. split; cbn; try done. by apply consumer_start_inv.
  - exists []. rewrite app_nil_r.
    destruct (consumer_next_inv _ _ _ _ _ _ _ _ _ Hlog Hg Ho Hph Hc Hrun) as (? & ? & ?). by split.
  - exists []. rewrite app_nil_r. split; cbn; try done. by apply consumer_commit_inv.
  - exists []. rewrite app_nil_r. split; cbn; try done.
    destruct (crash_points_inv _ _ _ _ _ _ Hc Hfs) as (vs & v & Hv & Hall).
    destruct (ofs_crash_holds _ _ _ _ Hv Hf) as (z & Hz & Hh). exists z. cbn.
    split; [by apply ofs_after_inv|]. replace (Z.of_nat (S k)) with (Z.of_nat k + 1) by lia. by apply Hall.
Qed.

(** A fresh consumer. *)
Lemma world_inv_init m b log :
  svc_rep m b log -> world_inv b log (mkWorld m false (consumer_new ofs_empty m) [] 0).
Proof.
  intros Hm. split; cbn.
  - by exists b, log.
  - by intros o d ?%not_elem_of_nil.
  - by split.
  - exists 0. split; [exact ofs_empty_inv|]. split; cbn; try lia; done.
Qed.

Lemma world_steps_inv h0 hist x y :
  world_steps x y -> world_inv h0 hist x -> exists ext, world_inv h0 (hist ++ ext) y.
Proof.
  induction 1 as [x|x y z _ IH Hyz]; intros Hx.
  - exists []. by rewrite app_nil_r.
  - destruct (IH Hx) as [e1 Hy]. destruct (world_step_inv _ _ _ _ Hy Hyz) as [e2 Hz].
    exists (e1 ++ e2). by rewrite app_assoc.
Qed.
End AppInv.

(** ** The sequential consumer *)

Section Sequential.
Context {M : Type} `{LogServiceOk M}.

Lemma world_cons (x y z : world M) : world_step x y -> world_steps y z -> world_steps x z.
Proof.
  intros Hxy Hyz. induction Hyz as [y|y u v _ IH Huv]; [by eapply ws_trans; [apply ws_refl|]|].
  eapply ws_trans; [by apply IH|done].
Qed.

(** [runConsumer] is one of the interleavings. *)
Lemma runConsumer_steps fuel (m : M) d s evs k s' new :
  runConsumer fuel d m s = Some (s', new) ->
  world_steps (mkWorld m d s evs k) (mkWorld m d s' (evs ++ new) k).
Proof.
  revert s evs new. induction fuel as [|fuel IH]; intros s evs new Hrun; [done|].
  cbn [runConsumer] in Hrun. destruct (c_phase s) as [| |off|why] eqn:Hph.
  - eapply world_cons; [by apply (ws_start _ _ _ _ _ None)|]. by apply IH.
  - destruct (consumer_next d m s) as [[s1 ev]|] eqn:Hn; [|done].
    destruct (runConsumer fuel d m s1) as [[s2 evs']|] eqn:Hr; [|done]. injection Hrun as <- <-.
    eapply world_cons; [by apply (ws_next _ _ _ _ _ s1 ev)|]. rewrite app_assoc. by apply IH.
  - eapply world_cons; [by apply (ws_commit _ _ _ _ _ off offset_io_ok)|]. by apply IH.
  - injection Hrun as <- <-. rewrite app_nil_r. apply ws_refl.
Qed.

Lemma commit_run s off :
  c_phase s = CProcess off -> is_u64 (off + 1) -> ofs_inv (ow_fs (c_writer s)) [off] off ->
  exists w', consumer_commit offset_io_ok off s = mkCons CReady (c_reader s) w' (c_live s) /\
    ofs_inv (ow_fs w') [off + 1] (off + 1).
Proof.
  intros Hph Hu Hf. destruct (writeLocked_trace offset_io_ok (off + 1) _ _ _ Hf Hu) as [_ Hfin].
  unfold consumer_commit, Off_Write. rewrite u64_small by done.
  destruct (writeLocked offset_io_ok (off + 1) (ow_fs (c_writer s))) as [err tr] eqn:Hw.
  assert (err = None) as -> by (apply (f_equal fst) in Hw; cbn in Hw; congruence).
  eexists. split; [done|]. by apply Hfin.
Qed.

(** From the top of its loop, with the producers done. *)
Lemma runConsumer_loop (m : M) b log n i s :
  svc_rep m b log -> (i + n = length log)%nat -> c_phase s = CReady ->
  c_reader s = mkRd (b + Z.of_nat i) -> c_live s = b + Z.of_nat i ->
  ofs_inv (ow_fs (c_writer s)) [c_live s] (c_live s) ->
  exists s', runConsumer (2 * n + 2) true m s = Some (s', number (b + Z.of_nat i) (drop i log)) /\
    c_phase s' = CStop None /\ ofs_inv (ow_fs (c_writer s')) [b + zlen log] (b + zlen log).
Proof.
  intros Hm. destruct (svc_range _ _ _ Hm) as [Hb0 Hb1].
  assert (forall j, (j <= length log)%nat -> b + Z.of_nat j < 2 ^ 64) as Hsm by (unfold zlen in *; lia).
  revert i s. induction n as [|n IH]; intros i s Hi Hph Hr Hl Hf.
  - assert (i = length log) as -> by lia. change (Z.of_nat (length log)) with (zlen log) in *.
    cbn. rewrite Hph. unfold consumer_next, Next. rewrite Hr. cbn [rd_offset].
    rewrite (svc_read_ok _ _ _ _ Hm), read_spec_head by (unfold is_u64, zlen in *; lia).
    rewrite (svc_next_ok _ _ _ Hm), Hl, Z.eqb_refl. cbn. rewrite drop_ge by lia.
    eexists. split; [done|]. by rewrite <- Hl.
  - destruct (lookup_lt_is_Some_2 log i) as [x Hx]; [lia|]. pose proof (Hsm (S i) ltac:(lia)) as Hlt.
    replace (2 * S n + 2)%nat with (S (S (2 * n + 2))) by lia.
    cbn [runConsumer]. rewrite Hph. unfold consumer_next, Next. rewrite Hr. cbn [rd_offset].
    rewrite (svc_read_ok _ _ _ _ Hm), (read_spec_hit _ _ _ _ Hx) by (unfold is_u64; lia).
    rewrite u64_small by (unfold is_u64; lia). cbn [c_phase].
    set (s1 := mkCons _ _ _ _).
    destruct (commit_run s1 (b + Z.of_nat i)) as (w' & -> & Hf'); [done|unfold is_u64; lia|by rewrite Hl in Hf|].
    subst s1. cbn [c_reader c_live].
    replace (b + Z.of_nat i + 1) with (b + Z.of_nat (S i)) in * by lia.
    destruct (IH (S i) (mkCons CReady (mkRd (b + Z.of_nat (S i))) w' (b + Z.of_nat (S i))))
      as (s' & Hrun & Hph' & Hf2); try done; [lia|].
    rewrite Hrun. exists s'. split_and!; try done. rewrite (drop_S _ _ _ Hx). cbn [number app].
    by replace (b + Z.of_nat i + 1) with (b + Z.of_nat (S i)) by lia.
Qed.
End Sequential.

(** ** Results *)

Section Results.
Context {M : Type} `{LogServiceOk M}.

(** C10. At-least-once delivery.  A consumer that starts fresh on a log, with
    producers appending, retention running and the consumer crashing at any
    point, also between two system calls of a commit: every event it
    processed is the log's record at that offset; it never skips forward over
    an offset; whatever a further crash leaves in the offset file reads as an
    offset below which everything was processed, so at most one event per
    crash is processed again; and when it exits as drained it has processed
    every record of the log. *)
Theorem consumer_at_least_once m b log (x : world M)
  (Hm : svc_rep m b log)
  (Hrun : world_steps (mkWorld m false (consumer_new ofs_empty m) [] 0) x) :
  exists ext, let hist := log ++ ext in
    genuine b hist (seen x) /\ in_order (seen x) /\
    (forall fs f, crash_points (wd_cons x) fs -> ofs_crash fs f ->
       exists v, Off_Read None f = Ok v /\ (forall o, 0 <= o < v -> exists d, (o, d) ∈ seen x) /\
         zlen (seen x) <= v + Z.of_nat (crashes x) + 1) /\
    (c_phase (wd_cons x) = CStop None -> forall o d, rec_at b hist o = Some d -> (o, d) ∈ seen x).
Proof.
  destruct (world_steps_inv _ _ _ _ Hrun (world_inv_init m b log Hm)) as [ext [Hlog Hg Ho Hc]]. exists ext. cbn zeta.
  split_and!; try done.
  - intros fs f Hfs Hf. destruct (crash_points_inv _ _ _ _ _ _ Hc Hfs) as (vs & v & Hv & Hall).
    destruct (ofs_crash_read _ _ _ _ Hv Hf) as (z & Hz & Hread). exists z.
    destruct (Hall z Hz). split_and!; try done. lia.
  - intros Hph o d Hrec. unfold cons_inv in Hc. rewrite Hph in Hc.
    destruct Hc as [_ Hw]. destruct (Hw eq_refl) as (_ & [_ Hall _ _] & Hl & _).
    rewrite (log_next _ _ _ Hlog) in Hl. pose proof (rec_at_lt _ _ _ _ Hrec) as Hlt.
    destruct (svc_range _ _ _ Hm). destruct (Hall o) as [d' Hd']; [lia|].
    by rewrite (Hg _ _ Hd') in Hrec; injection Hrec as ->.
Qed.

(** A consumer left alone with a log whose producers are done processes
    exactly the records from its committed offset to the head, each with its
    own offset and in order, commits the head and exits; two parts of the
    loop per record and three more are enough. *)
Theorem runConsumer_drains m b log v fs
  (Hm : svc_rep m b log) (Hf : ofs_inv fs [v] v) (Hv : b <= v <= b + zlen log) :
  exists s', runConsumer (2 * Z.to_nat (b + zlen log - v) + 3) true m (consumer_new fs m) =
      Some (s', number v (drop (Z.to_nat (v - b)) log)) /\
    c_phase s' = CStop None /\ Off_Read None (o_main (ow_fs (c_writer s'))) = Ok (b + zlen log).
Proof.
  set (n := Z.to_nat (b + zlen log - v)). set (i := Z.to_nat (v - b)).
  replace (2 * n + 3)%nat with (S (2 * n + 2)) by lia. cbn [runConsumer c_phase consumer_new].
  unfold consumer_start. cbn [c_writer c_reader consumer_new NewOffsetWriter ow_fs].
  rewrite (read_holds (o_main fs) v) by apply Hf.
  set (s1 := mkCons _ _ _ _). assert (v = b + Z.of_nat i) as Hvi by lia.
  destruct (runConsumer_loop m b log n i s1) as (s' & Hrun & Hph & Hf'); try done.
  - unfold zlen in *. lia.
  - cbn. by rewrite <- Hvi.
  - exists s'. rewrite <- Hvi in Hrun. split_and!; try done. apply read_holds. apply Hf'.
Qed.
End Results.

(** The whole run over a log of three records in two segments. *)
Lemma runConsumer_drains_witness :
  exists s', runConsumer 9 true (ex_live ex_mgr3) (consumer_new ofs_empty (ex_live ex_mgr3)) =
      Some (s', [(0, ex_data); (1, ex_data); (2, ex_data)]) /\ c_phase s' = CStop None.
Proof.
  destruct (runConsumer_drains (ex_live ex_mgr3) 0 _ 0 ofs_empty ex_live3 ofs_empty_inv) as (s' & Hrun & Hph & _).
  { vm_compute. split; discriminate. }
  exists s'. split; [exact Hrun|exact Hph].
Defined.

(** The same run as an interleaving, after the producers are done. *)
Lemma drained_run {M} `{LogServiceOk M} (m : M) log :
  svc_rep m 0 log ->
  exists s', world_steps (mkWorld m false (consumer_new ofs_empty m) [] 0)
      (mkWorld m true s' (number 0 log) 0) /\ c_phase s' = CStop None.
Proof.
  intros Hm. destruct (runConsumer_loop m 0 log (length log) 0
    (consumer_start None (consumer_new ofs_empty m)) Hm) as (s' & Hrun & Hph & _); try done.
  { exact ofs_empty_inv. }
  exists s'. split; [|done].
  eapply world_cons; [apply ws_done|]. eapply world_cons; [apply (ws_start _ _ _ _ _ None); done|].
  by apply (runConsumer_steps _ _ _ _ [] 0 _ _ Hrun).
Qed.

Lemma consumer_at_least_once_witness :
  exists x : world LiveManager, c_phase (wd_cons x) = CStop None /\ (2, ex_data) ∈ seen x.
Proof.
  destruct (drained_run _ _ ex_live3) as (s' & Hrun & Hph).
  exists (mkWorld (ex_live ex_mgr3) true s' (number 0 [ex_data; ex_data; ex_data]) 0). split; [exact Hph|].
  destruct (consumer_at_least_once (ex_live ex_mgr3) 0 _ _ ex_live3 Hrun) as (ext & _ & _ & _ & Hall).
  apply (Hall Hph 2 ex_data). reflexivity.
Defined.

(** ** Limits *)

(** [printMetrics] reads the head before the consumers' offsets; when an event
    is appended and consumed in between, the unsigned lag wraps around. *)
Theorem metrics_lag_wraps head : is_u64 head -> is_u64 (head + 1) -> metrics_lag head (head + 1) = 2 ^ 64 - 1.
Proof. intros. unfold metrics_lag. replace (head - (head + 1)) with (-1) by lia. reflexivity. Qed.
