(* ===== verification/Protocol.v ===== *)
(** * Protocol: the wire format ([internal/protocol]) and connections

    A [conn] is one end of a TCP connection: the bytes that will still arrive
    and the error that ends them, the bytes sent, and the outcomes the next
    writes and deadline calls will meet (success once the lists run out). *)

From Stdlib Require Import ZArith Lia Strings.String.
From stdpp Require Import base list list_numbers numbers option gmap sorting.
From coqutil Require Import Byte.
From S2P Require Import Prelude Bytes.

Local Open Scope Z_scope.

(** ** Connections *)

Record conn := mkConn {
  c_in : list byte;
  c_end : error;
  c_out : list byte;
  c_writes : list write_outcome;
  c_deadlines : list outcome
}.

(** [net.ErrClosed] *)
Definition ErrNetClosed : error := Msg "use of closed network connection".

(** One [Write] call. *)
Definition conn_write (b : list byte) (c : conn) : outcome * conn :=
  let rest := drop 1 (c_writes c) in
  match default WOk (head (c_writes c)) with
  | WOk => (None, mkConn (c_in c) (c_end c) (c_out c ++ b) rest (c_deadlines c))
  | WFail k e => (Some e, mkConn (c_in c) (c_end c) (c_out c ++ take k b) rest (c_deadlines c))
  end.

(** [SetReadDeadline], [SetWriteDeadline] *)
Definition conn_deadline (c : conn) : outcome * conn :=
  (default None (head (c_deadlines c)),
   mkConn (c_in c) (c_end c) (c_out c) (c_writes c) (drop 1 (c_deadlines c))).

Definition set_in (bs : list byte) (c : conn) : conn :=
  mkConn bs (c_end c) (c_out c) (c_writes c) (c_deadlines c).

(** [io.ReadFull] of [n] bytes: an end of file after some bytes is
    [io.ErrUnexpectedEOF]; what was read before the failure is gone. *)
Definition read_full (n : nat) (c : conn) : result (list byte) * conn :=
  if (n <=? length (c_in c))%nat then (Ok (take n (c_in c)), set_in (drop n (c_in c)) c)
  else
    (Err match c_end c, c_in c with
         | EOF, _ :: _ => UnexpectedEOF
         | e, _ => e
         end, set_in [] c).

(** ** Messages *)

Definition OpProduce : byte := byte.of_Z 1.
Definition OpRead : byte := byte.of_Z 2.
Definition OpNextOffset : byte := byte.of_Z 3.
Definition OpEarliestOffset : byte := byte.of_Z 4.
Definition OpStreamRead : byte := byte.of_Z 5.
Definition StatusOK : byte := byte.of_Z 0.
Definition StatusError : byte := byte.of_Z 1.
Definition StatusStreamEnd : byte := byte.of_Z 2.
Definition MaxPayloadSize : Z := 64 * 1024 * 1024.

Record Request := mkRequest { Op : byte; req_Payload : list byte }.
Record Response := mkResponse { Status : byte; resp_Payload : list byte }.

(** The five header bytes. *)
Definition frame_header (tag : byte) (payload : list byte) : list byte :=
  tag :: PutUint32 (u32 (zlen payload)).

(** The body of [WriteRequest] and [WriteResponse], which differ in the error
    texts only. *)
Definition write_frame (ctxHeader ctxPayload : string) (tag : byte) (payload : list byte) (c : conn)
    : outcome * conn :=
  match conn_write (frame_header tag payload) c with
  | (Some e, c1) => (Some (Wrap ctxHeader e), c1)
  | (None, c1) =>
      if 0 <? zlen payload then
        match conn_write payload c1 with
        | (Some e, c2) => (Some (Wrap ctxPayload e), c2)
        | (None, c2) => (None, c2)
        end
      else (None, c1)
  end.

(** The body of [ReadRequest] and [ReadResponse]. *)
Definition read_frame (tooLarge ctxPayload : string) (c : conn) : result (byte * list byte) * conn :=
  match read_full 5 c with
  | (Err e, c1) => (Err e, c1)
  | (Ok header, c1) =>
      let length_ := Uint32 (drop 1 header) in
      if MaxPayloadSize <? length_ then (Err (Msg tooLarge), c1)
      else
        let tag := nth 0 header (byte.of_Z 0) in
        if 0 <? length_ then
          match read_full (Z.to_nat length_) c1 with
          | (Err e, c2) => (Err (Wrap ctxPayload e), c2)
          | (Ok payload, c2) => (Ok (tag, payload), c2)
          end
        else (Ok (tag, []), c1)
  end.

Definition WriteRequest (req : Request) (c : conn) : outcome * conn :=
  write_frame "write request header" "write request payload" (Op req) (req_Payload req) c.
Definition ReadRequest (c : conn) : result Request * conn :=
  match read_frame "request payload too large" "read request payload" c with
  | (Err e, c1) => (Err e, c1)
  | (Ok (op, payload), c1) => (Ok (mkRequest op payload), c1)
  end.
Definition WriteResponse (resp : Response) (c : conn) : outcome * conn :=
  write_frame "write response header" "write response payload" (Status resp) (resp_Payload resp) c.
Definition ReadResponse (c : conn) : result Response * conn :=
  match read_frame "response payload too large" "read response payload" c with
  | (Err e, c1) => (Err e, c1)
  | (Ok (st, payload), c1) => (Ok (mkResponse st payload), c1)
  end.

(** ** Lemmas *)

(** The bytes of one frame. *)
Definition encode_frame (tag : byte) (payload : list byte) : list byte :=
  frame_header tag payload ++ payload.
Definition encode_request (r : Request) : list byte := encode_frame (Op r) (req_Payload r).
Definition encode_response (r : Response) : list byte := encode_frame (Status r) (resp_Payload r).

(** A payload the reading side accepts. *)
Definition frame_ok (payload : list byte) : Prop := zlen payload <= MaxPayloadSize.

(** A connection on which writes and deadline calls succeed. *)
Definition clean (c : conn) : Prop := c_writes c = [] /\ c_deadlines c = [].

Definition sent (bs : list byte) (c : conn) : conn :=
  mkConn (c_in c) (c_end c) (c_out c ++ bs) [] [].

Lemma conn_write_clean b c : clean c -> conn_write b c = (None, sent b c).
Proof. intros [Hw Hd]. unfold conn_write, sent. by rewrite Hw, Hd. Qed.

Lemma sent_clean b c : clean (sent b c).
Proof. done. Qed.

Lemma sent_sent a b c : sent b (sent a c) = sent (a ++ b) c.
Proof. unfold sent. cbn. by rewrite app_assoc. Qed.

Lemma conn_deadline_clean c : clean c -> conn_deadline c = (None, c).
Proof. intros [Hw Hd]. unfold conn_deadline. destruct c. cbn in *. by subst. Qed.

Lemma write_frame_clean a b tag payload c :
  clean c -> write_frame a b tag payload c = (None, sent (encode_frame tag payload) c).
Proof.
  intros Hc. unfold write_frame. rewrite conn_write_clean by done.
  destruct (Z.ltb_spec 0 (zlen payload)).
  - rewrite conn_write_clean by apply sent_clean. by rewrite sent_sent.
  - assert (payload = []) as -> by (destruct payload; [done|unfold zlen in *; simpl in *; lia]).
    unfold encode_frame. by rewrite app_nil_r.
Qed.

Lemma length_frame_header tag payload : length (frame_header tag payload) = 5%nat.
Proof. unfold frame_header. cbn [length]. by rewrite length_PutUint32. Qed.

Lemma read_full_app n a b c :
  length a = n -> c_in c = a ++ b -> read_full n c = (Ok a, set_in b c).
Proof.
  intros Hn Hin. unfold read_full. rewrite Hin, length_app.
  destruct (Nat.leb_spec n (length a + length b)); [|lia].
  by rewrite take_app_length', drop_app_length' by done.
Qed.

Lemma frame_length tag payload :
  frame_ok payload -> Uint32 (drop 1 (frame_header tag payload)) = zlen payload.
Proof.
  unfold frame_ok, MaxPayloadSize. intros H. pose proof (zlen_nonneg payload).
  unfold frame_header. cbn [drop].
  rewrite u32_small by (unfold is_u32; lia). rewrite <- (app_nil_r (PutUint32 _)).
  apply Uint32_Put. unfold is_u32. lia.
Qed.

(** Reading back a frame leaves exactly what follows it. *)
Lemma read_frame_app a b tag payload rest c :
  frame_ok payload -> c_in c = encode_frame tag payload ++ rest ->
  read_frame a b c = (Ok (tag, payload), set_in rest c).
Proof.
  intros Hok Hin. unfold read_frame. unfold encode_frame in Hin. rewrite <- app_assoc in Hin.
  rewrite (read_full_app _ _ _ _ (length_frame_header tag payload) Hin).
  rewrite frame_length by done. unfold frame_ok in Hok.
  destruct (Z.ltb_spec MaxPayloadSize (zlen payload)); [lia|].
  destruct (Z.ltb_spec 0 (zlen payload)).
  - rewrite (read_full_app _ payload rest); [done|by rewrite to_nat_zlen|done].
  - assert (payload = []) as -> by (destruct payload; [done|unfold zlen in *; simpl in *; lia]). done.
Qed.

(** ** Results *)

(** C38. Wire round trip.  What one side writes with [WriteRequest] or
    [WriteResponse] the other side reads back, whatever the tag byte and for
    every payload up to 64 MB, and the reader is left exactly at the next
    frame. *)
Theorem frames_roundtrip (req : Request) (resp : Response) cw cr rest
  (Hc : clean cw) (Hreq : frame_ok (req_Payload req)) (Hresp : frame_ok (resp_Payload resp)) :
  (let '(err, cw') := WriteRequest req cw in
   exists bs, err = None /\ c_out cw' = c_out cw ++ bs /\
     ReadRequest (set_in (bs ++ rest) cr) = (Ok req, set_in rest cr)) /\
  (let '(err, cw') := WriteResponse resp cw in
   exists bs, err = None /\ c_out cw' = c_out cw ++ bs /\
     ReadResponse (set_in (bs ++ rest) cr) = (Ok resp, set_in rest cr)).
Proof.
  destruct req as [op p], resp as [st q]. cbn in Hreq, Hresp.
  unfold WriteRequest, WriteResponse, ReadRequest, ReadResponse. cbn [Op req_Payload Status resp_Payload].
  rewrite !write_frame_clean by done. split.
  - exists (encode_frame op p). split_and!; [done..|].
    by rewrite (read_frame_app _ _ op p rest) by done.
  - exists (encode_frame st q). split_and!; [done..|].
    by rewrite (read_frame_app _ _ st q rest) by done.
Qed.

Lemma frames_roundtrip_witness :
  let c := mkConn [] EOF [] [] [] in
  let '(err, cw') := WriteRequest (mkRequest OpProduce [byte.of_Z 9]) c in
  exists bs, err = None /\ c_out cw' = c_out c ++ bs /\
    ReadRequest (set_in (bs ++ []) c) = (Ok (mkRequest OpProduce [byte.of_Z 9]), set_in [] c).
Proof.
  apply (frames_roundtrip (mkRequest OpProduce [byte.of_Z 9]) (mkResponse StatusOK [])
           (mkConn [] EOF [] [] []) (mkConn [] EOF [] [] []) []);
    [split; reflexivity | vm_compute; discriminate | vm_compute; discriminate].
Defined.

(** What is read has the size a frame can carry. *)
Lemma read_full_length n c x c' : read_full n c = (Ok x, c') -> length x = n.
Proof.
  unfold read_full. destruct (Nat.leb_spec n (length (c_in c))); [|done]. intros [= <- _]. rewrite length_take. lia.
Qed.

Lemma ReadRequest_frame_ok c req c' : ReadRequest c = (Ok req, c') -> frame_ok (req_Payload req).
Proof.
  unfold ReadRequest, read_frame. destruct (read_full 5 c) as [[h|e] c1]; [|done].
  destruct (Z.ltb_spec MaxPayloadSize (Uint32 (drop 1 h))) as [|Hle]; [done|].
  destruct (Z.ltb_spec 0 (Uint32 (drop 1 h))).
  - destruct (read_full _ c1) as [[p|e] c2] eqn:Hr; [|done]. intros [= <- _].
    apply read_full_length in Hr. unfold frame_ok, zlen. cbn. lia.
  - intros [= <- _]. vm_compute. discriminate.
Qed.

(** Reading sends nothing. *)
Lemma read_full_same n c r c' :
  read_full n c = (r, c') -> c_out c' = c_out c /\ c_writes c' = c_writes c /\ c_deadlines c' = c_deadlines c.
Proof. unfold read_full. destruct (_ <=? _)%nat; by intros [= <- <-]. Qed.

Lemma ReadRequest_out c r c' : ReadRequest c = (r, c') -> c_out c' = c_out c.
Proof.
  unfold ReadRequest, read_frame. destruct (read_full 5 c) as [[h|e] c1] eqn:H5; apply read_full_same in H5 as [H5 _].
  2:{ by intros [= _ <-]. }
  destruct (MaxPayloadSize <? _); [by intros [= _ <-]|]. destruct (0 <? _); [|by intros [= _ <-]].
  destruct (read_full _ c1) as [[p|e] c2] eqn:Hp; apply read_full_same in Hp as [Hp _]; intros [= _ <-]; congruence.
Qed.

(** What was read is what was at the front of the stream. *)
Lemma ReadRequest_encode c req c' :
  ReadRequest c = (Ok req, c') -> c_in c = encode_request req ++ c_in c'.
Proof.
  unfold ReadRequest, read_frame. destruct (read_full 5 c) as [[h|e] c1] eqn:H5; [|done].
  pose proof (read_full_length _ _ _ _ H5) as Hl.
  assert (c_in c = h ++ c_in c1) as Hin.
  { unfold read_full in H5. destruct (_ <=? _)%nat; [|done]. injection H5 as <- <-. cbn. by rewrite take_drop. }
  destruct h as [|tag bs]; [done|]. injection Hl as Hl. change (drop 1 (tag :: bs)) with bs.
  assert (PutUint32 (Uint32 bs) = bs) as Hput.
  { unfold PutUint32, Uint32. rewrite take_ge by lia. rewrite <- Hl at 1. apply be_encode_decode. }
  pose proof (Uint32_range bs) as Hr.
  assert (forall p c2, zlen p = Uint32 bs -> c_in c1 = p ++ c_in c2 -> c_in c = encode_request (mkRequest tag p) ++ c_in c2) as Hfin.
  { intros p c2 Hp Hc2. unfold encode_request, encode_frame, frame_header. cbn [Op req_Payload].
    rewrite Hp, u32_small, Hput, Hin, Hc2 by done. by rewrite <- app_assoc. }
  destruct (MaxPayloadSize <? _); [done|]. destruct (Z.ltb_spec 0 (Uint32 bs)).
  - destruct (read_full _ c1) as [[p|e] c2] eqn:Hp; [|done]. intros [= <- <-].
    apply Hfin; [apply read_full_length in Hp; unfold zlen; lia|].
    unfold read_full in Hp. destruct (_ <=? _)%nat; [|done]. injection Hp as <- <-. cbn. by rewrite take_drop.
  - intros [= <- <-]. apply (Hfin [] c1); [|done]. unfold is_u32 in Hr. unfold zlen. cbn. lia.
Qed.

(** A cut connection is never mistaken for a message.  If the stream ends
    inside a frame (after any strict prefix of its bytes), [ReadRequest]
    returns an error: [io.EOF] if nothing arrived, otherwise one saying that
    the frame is incomplete. *)
Theorem cut_frame_is_error (req : Request) c k
  (Hreq : frame_ok (req_Payload req)) (Hk : (k < length (encode_request req))%nat)
  (Hin : c_in c = take k (encode_request req)) (Hend : c_end c = EOF) :
  (ReadRequest c).1 =
    if (k =? 0)%nat then Err EOF
    else if (k <? 5)%nat then Err UnexpectedEOF
    else Err (Wrap "read request payload" (if (k =? 5)%nat then EOF else UnexpectedEOF)).
Proof.
  destruct req as [op p]. unfold ReadRequest, read_frame.
  unfold encode_request, encode_frame in *. cbn [Op req_Payload] in *.
  rewrite length_app, length_frame_header in Hk.
  destruct (Nat.lt_ge_cases k 5) as [H5|H5].
  - assert (length (c_in c) = k) as Hlen
      by (rewrite Hin, length_take, length_app, length_frame_header; lia).
    unfold read_full. destruct (Nat.leb_spec 5 (length (c_in c))); [lia|]. rewrite Hend.
    destruct (Nat.eqb_spec k 0) as [->|Hk0].
    + by destruct (c_in c).
    + destruct (c_in c); [simpl in Hlen; lia|]. destruct (Nat.ltb_spec k 5); [done|lia].
  - destruct (Nat.eqb_spec k 0); [lia|]. destruct (Nat.ltb_spec k 5); [lia|].
    rewrite take_app_ge in Hin by (rewrite length_frame_header; lia).
    rewrite length_frame_header in Hin.
    rewrite (read_full_app _ _ _ _ (length_frame_header op p) Hin), frame_length by done.
    unfold frame_ok in Hreq. destruct (Z.ltb_spec MaxPayloadSize (zlen p)); [lia|].
    destruct (Z.ltb_spec 0 (zlen p)); [|unfold zlen in *; lia].
    unfold read_full at 1. cbn [c_in set_in c_end]. rewrite to_nat_zlen, length_take.
    destruct (Nat.leb_spec (length p) (Nat.min (k - 5) (length p))); [lia|]. cbn [fst]. do 2 f_equal.
    rewrite Hend. destruct (Nat.eqb_spec k 5) as [->|].
    + by rewrite Nat.sub_diag, take_0.
    + destruct (take (k - 5) p) eqn:Ht; [|done]. apply (f_equal length) in Ht.
      rewrite length_take in Ht. simpl in Ht. lia.
Qed.

Lemma cut_frame_is_error_witness :
  (ReadRequest (mkConn (take 6 (encode_request (mkRequest OpProduce [byte.of_Z 9; byte.of_Z 9]))) EOF [] [] [])).1 =
  Err (Wrap "read request payload" UnexpectedEOF).
Proof.
  apply (cut_frame_is_error (mkRequest OpProduce [byte.of_Z 9; byte.of_Z 9])
    (mkConn (take 6 (encode_request (mkRequest OpProduce [byte.of_Z 9; byte.of_Z 9]))) EOF [] [] []) 6);
    [vm_compute; discriminate | vm_compute; lia | reflexivity | reflexivity].
Defined.
