(* ===== verification/Server.v ===== *)
(** * Server: the TCP front end ([internal/network/server.go]) and its client
    ([client/client.go])

    Both are written against [LogService] and [conn].  One connection is
    handled by [handleConn]; the abstract server [serve] says which responses
    one request must produce and how it changes the log.  The text of an
    error ([err.Error()]) is the parameter [render]. *)

From Stdlib Require Import ZArith Lia Strings.String.
From stdpp Require Import base list list_numbers numbers option gmap sorting.
From coqutil Require Import Byte.
From S2P Require Import Prelude Bytes Wal WalFormat Crash MgrProps Service Protocol.

Local Open Scope Z_scope.

Record ServerConfig := mkServerConfig { IdleTimeout : Z; WriteTimeout : Z }.

(** [DefaultServerConfig]: ten minutes and thirty seconds, in nanoseconds. *)
Definition DefaultServerConfig : ServerConfig :=
  mkServerConfig (10 * 60 * 1000000000) (30 * 1000000000).

Definition bytes_of (s : string) : list byte := String.list_byte_of_string s.

(** The decimal digits of a byte ([%d]). *)
Definition dec_byte (b : byte) : list byte :=
  let n := byte.unsigned b in
  let digit d := byte.of_Z (48 + d) in
  if n <? 10 then [digit n]
  else if n <? 100 then [digit (n / 10); digit (n mod 10)]
  else [digit (n / 100); digit (n / 10 mod 10); digit (n mod 10)].

Definition errorResponse (msg : list byte) : Response := mkResponse StatusError msg.

Section Server.
Context {M : Type} `{LogService M}.
Context (render : error -> list byte).

(** ** Handlers *)

Definition handleProduce (data : list byte) (m : M) : option (Response * M) :=
  if zlen data =? 0 then Some (errorResponse (bytes_of "empty payload"), m)
  else
    match svc_Append data m with
    | None => None
    | Some (Err e, m') => Some (errorResponse (render e), m')
    | Some (Ok offset, m') => Some (mkResponse StatusOK (PutUint64 offset), m')
    end.

Definition handleRead (payload : list byte) (m : M) : option Response :=
  if negb (zlen payload =? 8) then Some (errorResponse (bytes_of "read requires 8-byte offset"))
  else
    match svc_ReadAt (Uint64 payload) m with
    | None => None
    | Some (Err e) => Some (errorResponse (render e))
    | Some (Ok data) => Some (mkResponse StatusOK data)
    end.

Definition handleNextOffset (m : M) : Response := mkResponse StatusOK (PutUint64 (svc_NextOffset m)).
Definition handleEarliestOffset (m : M) : Response :=
  mkResponse StatusOK (PutUint64 (svc_EarliestOffset m)).

Definition dispatch (req : Request) (m : M) : option (Response * M) :=
  if decide (Op req = OpProduce) then handleProduce (req_Payload req) m
  else if decide (Op req = OpRead) then (fun r => (r, m)) <$> handleRead (req_Payload req) m
  else if decide (Op req = OpNextOffset) then Some (handleNextOffset m, m)
  else if decide (Op req = OpEarliestOffset) then Some (handleEarliestOffset m, m)
  else Some (errorResponse (bytes_of "unknown opcode: " ++ dec_byte (Op req)), m).

Definition writeResponse (cfg : ServerConfig) (resp : Response) (c : conn) : outcome * conn :=
  let '(derr, c1) := if 0 <? WriteTimeout cfg then conn_deadline c else (None, c) in
  match derr with
  | Some e => (Some e, c1)
  | None => WriteResponse resp c1
  end.

(** The loop of [handleStreamRead]; [None] is out of fuel. *)
Fixpoint stream_loop (fuel : nat) (cfg : ServerConfig) (offset : Z) (m : M) (c : conn)
    : option (outcome * conn) :=
  match fuel with
  | O => None
  | S fuel' =>
      match svc_ReadAt offset m with
      | None => None
      | Some (Err e) =>
          if is_EOF e then Some (writeResponse cfg (mkResponse StatusStreamEnd []) c)
          else Some (writeResponse cfg (errorResponse (render e)) c)
      | Some (Ok data) =>
          match writeResponse cfg (mkResponse StatusOK data) c with
          | (Some e, c1) => Some (Some e, c1)
          | (None, c1) => stream_loop fuel' cfg (u64 (offset + 1)) m c1
          end
      end
  end.

(** One round per record up to the head, and one to find the head. *)
Definition stream_fuel (offset : Z) (m : M) : nat := S (Z.to_nat (svc_NextOffset m - offset)).

Definition handleStreamRead (cfg : ServerConfig) (payload : list byte) (m : M) (c : conn)
    : option (outcome * conn) :=
  if negb (zlen payload =? 8) then
    Some (writeResponse cfg (errorResponse (bytes_of "stream-read requires 8-byte offset")) c)
  else
    let offset := Uint64 payload in
    stream_loop (stream_fuel offset m) cfg offset m c.

(** [handleConn], until the connection ends; [None] is out of fuel. *)
Fixpoint handleConn (fuel : nat) (cfg : ServerConfig) (m : M) (c : conn) : option (M * conn) :=
  match fuel with
  | O => None
  | S fuel' =>
      let '(derr, c0) := if 0 <? IdleTimeout cfg then conn_deadline c else (None, c) in
      match derr with
      | Some _ => Some (m, c0)
      | None =>
          match ReadRequest c0 with
          | (Err _, c1) => Some (m, c1)
          | (Ok req, c1) =>
              if decide (Op req = OpStreamRead) then
                match handleStreamRead cfg (req_Payload req) m c1 with
                | None => None
                | Some (Some _, c2) => Some (m, c2)
                | Some (None, c2) => handleConn fuel' cfg m c2
                end
              else
                match dispatch req m with
                | None => None
                | Some (resp, m') =>
                    match writeResponse cfg resp c1 with
                    | (Some _, c2) => Some (m', c2)
                    | (None, c2) => handleConn fuel' cfg m' c2
                    end
                end
          end
      end
  end.

(** A request is at least five bytes long. *)
Definition conn_fuel (c : conn) : nat := S (length (c_in c)).

(** ** The abstract server *)

(** Responses to one request on a log [log] starting at [b], and the log after. *)
Definition serve (b : Z) (log : list (list byte)) (req : Request) : list Response * list (list byte) :=
  let p := req_Payload req in
  let reply r := match r with
                 | Ok data => mkResponse StatusOK data
                 | Err e => errorResponse (render e)
                 end in
  if decide (Op req = OpStreamRead) then
    (if negb (zlen p =? 8) then [errorResponse (bytes_of "stream-read requires 8-byte offset")]
     else if Uint64 p <? b then [reply (read_spec b log (Uint64 p))]
     else (mkResponse StatusOK <$> drop (Z.to_nat (Uint64 p - b)) log) ++ [mkResponse StatusStreamEnd []],
     log)
  else if decide (Op req = OpProduce) then
    match p with
    | [] => ([errorResponse (bytes_of "empty payload")], log)
    | _ => ([mkResponse StatusOK (PutUint64 (b + zlen log))], log ++ [p])
    end
  else if decide (Op req = OpRead) then
    (if negb (zlen p =? 8) then [errorResponse (bytes_of "read requires 8-byte offset")]
     else [reply (read_spec b log (Uint64 p))], log)
  else if decide (Op req = OpNextOffset) then ([mkResponse StatusOK (PutUint64 (b + zlen log))], log)
  else if decide (Op req = OpEarliestOffset) then ([mkResponse StatusOK (PutUint64 b)], log)
  else ([errorResponse (bytes_of "unknown opcode: " ++ dec_byte (Op req))], log).

(** A whole conversation. *)
Fixpoint serve_all (b : Z) (log : list (list byte)) (reqs : list Request)
    : list Response * list (list byte) :=
  match reqs with
  | [] => ([], log)
  | req :: reqs' =>
      let '(rs, log') := serve b log req in
      let '(rs', log'') := serve_all b log' reqs' in
      (rs ++ rs', log'')
  end.

Definition encode_responses (rs : list Response) : list byte := mjoin (encode_response <$> rs).
Definition encode_requests (rs : list Request) : list byte := mjoin (encode_request <$> rs).
End Server.

Section ServerProofs.
Context {M : Type} {HL : LogService M} {Hok : LogServiceOk M}.
Context (render : error -> list byte).

Lemma writeResponse_clean cfg r c :
  clean c -> writeResponse cfg r c = (None, sent (encode_response r) c).
Proof.
  intros Hc. unfold writeResponse.
  assert ((if 0 <? WriteTimeout cfg then conn_deadline c else (None, c)) = (None, c)) as ->
    by (case_if; [by apply conn_deadline_clean|done]).
  by apply write_frame_clean.
Qed.

Lemma encode_responses_cons r rs : encode_responses (r :: rs) = encode_response r ++ encode_responses rs.
Proof. done. Qed.

Lemma encode_responses_app rs rs' :
  encode_responses (rs ++ rs') = encode_responses rs ++ encode_responses rs'.
Proof. unfold encode_responses. by rewrite fmap_app, join_app. Qed.

Lemma encode_responses_one r : encode_responses [r] = encode_response r.
Proof. apply app_nil_r. Qed.

(** From record [i] on, the stream is the records and the end marker. *)
Lemma stream_loop_run cfg m b log i fuel c :
  svc_rep m b log -> clean c -> (i <= length log)%nat -> (length log - i < fuel)%nat ->
  stream_loop render fuel cfg (b + Z.of_nat i) m c =
  Some (None, sent (encode_responses ((mkResponse StatusOK <$> drop i log) ++ [mkResponse StatusStreamEnd []])) c).
Proof.
  intros Hm. destruct (svc_range _ _ _ Hm) as [Hb0 Hb1].
  revert i c. induction fuel as [|fuel IH]; intros i c Hc Hi Hf; [lia|]. cbn [stream_loop].
  rewrite (svc_read_ok _ _ _ _ Hm) by (unfold is_u64, zlen in *; lia).
  destruct (log !! i) as [x|] eqn:Hx.
  - rewrite (read_spec_hit _ _ _ _ Hx), writeResponse_clean by done.
    pose proof (lookup_lt_Some _ _ _ Hx). rewrite u64_small by (unfold is_u64, zlen in *; lia).
    replace (b + Z.of_nat i + 1) with (b + Z.of_nat (S i)) by lia.
    rewrite IH by (apply sent_clean || lia). rewrite sent_sent, (drop_S _ _ _ Hx). done.
  - apply lookup_ge_None in Hx. assert (i = length log) as -> by lia.
    change (Z.of_nat (length log)) with (zlen log). rewrite read_spec_head, drop_ge by done.
    cbn [is_EOF fmap list_fmap app]. by rewrite writeResponse_clean, encode_responses_one by done.
Qed.

Lemma handleStreamRead_run cfg m b log req c :
  svc_rep m b log -> clean c -> Op req = OpStreamRead ->
  handleStreamRead render cfg (req_Payload req) m c =
  Some (None, sent (encode_responses (serve render b log req).1) c).
Proof.
  intros Hm Hc Hop. unfold handleStreamRead, serve. rewrite Hop, decide_True by done.
  set (p := req_Payload req). destruct (zlen p =? 8); cbn [negb fst].
  2:{ by rewrite writeResponse_clean, encode_responses_one by done. }
  destruct (svc_range _ _ _ Hm) as [Hb0 Hb1]. pose proof (Uint64_range p) as Hu.
  unfold stream_fuel. rewrite (svc_next_ok _ _ _ Hm).
  destruct (Z.ltb_spec (Uint64 p) b) as [Hlt|Hge].
  { cbn [stream_loop]. rewrite (svc_read_ok _ _ _ _ Hm) by done. unfold read_spec.
    destruct (Z.ltb_spec (Uint64 p) b); [|lia]. cbn [is_EOF].
    by rewrite writeResponse_clean, encode_responses_one by done. }
  destruct (Z.le_gt_cases (Uint64 p) (b + zlen log)) as [Hle|Hgt].
  - pose proof (stream_loop_run cfg m b log (Z.to_nat (Uint64 p - b))
      (S (Z.to_nat (b + zlen log - Uint64 p))) c Hm Hc) as Hrun.
    replace (b + Z.of_nat (Z.to_nat (Uint64 p - b))) with (Uint64 p) in Hrun by lia.
    apply Hrun; unfold zlen in *; lia.
  - cbn [stream_loop]. rewrite (svc_read_ok _ _ _ _ Hm) by done. unfold read_spec.
    destruct (Z.ltb_spec (Uint64 p) b); [lia|].
    rewrite lookup_ge_None_2 by (unfold zlen in *; lia). cbn [is_EOF].
    rewrite drop_ge by (unfold zlen in *; lia). cbn [fmap list_fmap app].
    by rewrite writeResponse_clean, encode_responses_one by done.
Qed.

Lemma dispatch_run m b log req :
  svc_rep m b log -> Op req <> OpStreamRead -> frame_ok (req_Payload req) -> b + zlen log + 1 < 2 ^ 64 ->
  exists resp m', dispatch render req m = Some (resp, m') /\
    (serve render b log req).1 = [resp] /\ svc_rep m' b (serve render b log req).2.
Proof.
  intros Hm Hop Hp Hn. unfold dispatch, serve. rewrite (decide_False (P := Op req = OpStreamRead)) by done.
  destruct (decide (Op req = OpProduce)).
  { unfold handleProduce. destruct (req_Payload req) as [|x p] eqn:Hpay.
    - cbn. by eexists _, m.
    - destruct (Z.eqb_spec (zlen (x :: p)) 0); [unfold zlen in *; simpl in *; lia|].
      destruct (svc_append_ok m b log (x :: p) Hm) as (m' & -> & Hm'); [done|done|].
      by eexists _, m'. }
  destruct (decide (Op req = OpRead)).
  { unfold handleRead. destruct (zlen (req_Payload req) =? 8); cbn [negb].
    - rewrite (svc_read_ok _ _ _ _ Hm) by apply Uint64_range.
      destruct (read_spec b log _); by eexists _, m.
    - by eexists _, m. }
  destruct (decide (Op req = OpNextOffset)).
  { eexists _, m. split; [done|]. unfold handleNextOffset. by rewrite (svc_next_ok _ _ _ Hm). }
  destruct (decide (Op req = OpEarliestOffset)); [|by eexists _, m].
  eexists _, m. split; [done|]. unfold handleEarliestOffset. by rewrite (svc_earliest_ok _ _ _ Hm).
Qed.

Lemma serve_grows b log req : zlen (serve render b log req).2 <= zlen log + 1.
Proof.
  unfold serve. repeat (destruct (decide _); [try (cbn; lia)|]); try (cbn; lia).
  destruct (req_Payload req); cbn [snd]; [lia|]. rewrite zlen_app. unfold zlen. simpl. lia.
Qed.

(** Handling one request that has been read. *)
Lemma handle_step cfg fuel m b log req c :
  svc_rep m b log -> clean c -> frame_ok (req_Payload req) -> b + zlen log + 1 < 2 ^ 64 ->
  exists m1, (if decide (Op req = OpStreamRead)
      then match handleStreamRead render cfg (req_Payload req) m c with
           | None => None
           | Some (Some _, c2) => Some (m, c2)
           | Some (None, c2) => handleConn render fuel cfg m c2
           end
      else match dispatch render req m with
           | None => None
           | Some (resp, m') =>
               match writeResponse cfg resp c with
               | (Some _, c2) => Some (m', c2)
               | (None, c2) => handleConn render fuel cfg m' c2
               end
           end) = handleConn render fuel cfg m1 (sent (encode_responses (serve render b log req).1) c) /\
    svc_rep m1 b (serve render b log req).2.
Proof.
  intros Hm Hc Hp Hn. destruct (decide (Op req = OpStreamRead)) as [Hop|Hop].
  - exists m. rewrite (handleStreamRead_run cfg m b log req c Hm Hc Hop). split; [done|].
    unfold serve. by rewrite decide_True.
  - destruct (dispatch_run m b log req Hm Hop Hp Hn) as (resp & m' & -> & -> & Hm').
    exists m'. by rewrite writeResponse_clean, encode_responses_one by done.
Qed.

(** One connection serving the requests [reqs] and then closed by the client. *)
Lemma handleConn_run cfg reqs m b log c fuel :
  svc_rep m b log -> clean c -> c_in c = encode_requests reqs -> c_end c = EOF ->
  Forall (fun r => frame_ok (req_Payload r)) reqs -> b + zlen log + zlen reqs < 2 ^ 64 ->
  (length (c_in c) < fuel)%nat ->
  exists m' c', handleConn render fuel cfg m c = Some (m', c') /\
    svc_rep m' b (serve_all render b log reqs).2 /\
    c_out c' = c_out c ++ encode_responses (serve_all render b log reqs).1.
Proof.
  revert m log c fuel. induction reqs as [|req reqs IH]; intros m log c fuel Hm Hc Hin Hend Hall Hn Hf.
  all: destruct fuel as [|fuel]; [lia|]; cbn [handleConn].
  all: assert ((if 0 <? IdleTimeout cfg then conn_deadline c else (None, c)) = (None, c)) as ->
    by (case_if; [by apply conn_deadline_clean|done]).
  { unfold ReadRequest, read_frame, read_full. rewrite Hin. cbn.
    eexists m, _. split; [done|]. cbn. by rewrite app_nil_r. }
  apply Forall_cons in Hall as [Hreq Hall].
  assert (c_in c = encode_request req ++ encode_requests reqs) as Hin' by done.
  unfold ReadRequest. unfold encode_request in Hin'.
  rewrite (read_frame_app _ _ _ _ _ _ Hreq Hin'). destruct req as [op p]. cbn [Op req_Payload] in *.
  set (req := mkRequest op p) in *. set (c1 := set_in (encode_requests reqs) c).
  assert (clean c1) as Hc1 by done.
  assert (length (encode_requests reqs) < fuel)%nat as Hf'.
  { rewrite Hin', length_app in Hf. unfold encode_frame in Hf.
    rewrite length_app, length_frame_header in Hf. lia. }
  assert (zlen (req :: reqs) = zlen reqs + 1) as Hz by (unfold zlen; simpl; lia).
  pose proof (serve_grows b log req) as Hgrow. pose proof (zlen_nonneg reqs).
  destruct (handle_step cfg fuel m b log req c1 Hm Hc1 Hreq) as (m1 & Hstep & Hm1); [lia|].
  cbn [Op req_Payload req] in Hstep. rewrite Hstep.
  cbn [serve_all]. destruct (serve render b log req) as [rs log'] eqn:Hsrv. cbn [fst snd] in *.
  destruct (IH m1 log' (sent (encode_responses rs) c1) fuel) as (m' & c' & Hrun & Hm' & Hout); try done; [lia|].
  exists m', c'. rewrite Hrun. destruct (serve_all render b log' reqs) as [rs' log'']. cbn [fst snd] in *.
  split_and!; try done. rewrite Hout, encode_responses_app. cbn [sent c_out c1 set_in]. by rewrite app_assoc.
Qed.
End ServerProofs.

(** C22. The server refines the abstract log server.  For any log service, any
    sequence of requests sent over one connection (any opcodes, any payloads up
    to 64 MB) is answered, in order, with exactly the responses of [serve],
    streams included, and leaves the service with exactly the records the
    accepted produce requests appended; the handler returns when the client
    closes the connection. *)
Theorem server_refines {M} (HL : LogService M) (Hok : LogServiceOk M) render cfg reqs m b log c
  (Hm : svc_rep m b log) (Hc : clean c) (Hin : c_in c = encode_requests reqs) (Hend : c_end c = EOF)
  (Hreqs : Forall (fun r => frame_ok (req_Payload r)) reqs) (Hn : b + zlen log + zlen reqs < 2 ^ 64) :
  exists m' c', handleConn render (conn_fuel c) cfg m c = Some (m', c') /\
    svc_rep m' b (serve_all render b log reqs).2 /\
    c_out c' = c_out c ++ encode_responses (serve_all render b log reqs).1.
Proof. apply handleConn_run; try done. unfold conn_fuel. lia. Qed.

(** Error texts for concrete runs. *)
Definition ex_render (e : error) : list byte :=
  match e with
  | OffsetOutOfRetentionError _ _ => bytes_of "out of retention"
  | EOF => bytes_of "EOF"
  | _ => bytes_of "error"
  end.

(** A client that asks for record 1, produces one, and streams from 2. *)
Definition ex_requests : list Request :=
  [mkRequest OpRead (PutUint64 1); mkRequest OpProduce [byte.of_Z 5]; mkRequest OpStreamRead (PutUint64 2)].

Lemma server_refines_witness :
  let c := mkConn (encode_requests ex_requests) EOF [] [] [] in
  exists m' c', handleConn ex_render (conn_fuel c) DefaultServerConfig (ex_live ex_mgr3) c = Some (m', c') /\
    c_out c' = encode_responses
      [mkResponse StatusOK ex_data; mkResponse StatusOK (PutUint64 3);
       mkResponse StatusOK ex_data; mkResponse StatusOK [byte.of_Z 5]; mkResponse StatusStreamEnd []].
Proof.
  intros c.
  destruct (server_refines manager_service manager_service_ok ex_render DefaultServerConfig ex_requests
              (ex_live ex_mgr3) 0 [ex_data; ex_data; ex_data] c ex_live3)
    as (m' & c' & Hrun & _ & Hout).
  - split; reflexivity.
  - reflexivity.
  - reflexivity.
  - repeat constructor; vm_compute; discriminate.
  - vm_compute. reflexivity.
  - exists m', c'. split; [exact Hrun|]. rewrite Hout. vm_compute. reflexivity.
Defined.
