(* ===== verification/Concurrent.v ===== *)
(** * Concurrent: the whole program of [cmd/concurrent]

    [main] starts [numProducers] goroutines that append their events, a
    goroutine that closes [doneProducing] when they have all returned, and the
    consumers of [ConsumerApp.v], each with its own reader and offset file.
    [prog_step] executes one step of one of them, on a working disk and with
    nothing old enough for retention.  When all consumers have returned, every
    one of them has processed every event exactly once and in order; and from
    every state the program can run to that end. *)

From Stdlib Require Import ZArith Lia Strings.String.
From stdpp Require Import base list list_numbers numbers option gmap sorting.
From coqutil Require Import Byte.
From S2P Require Import Prelude Bytes Golib WalFormat Crash MgrProps Service ConsumerOffset ConsumerApp Server.

Local Open Scope Z_scope.

(** A producer goroutine: [i] events appended and running, or returned. *)
Inductive producer :=
| PRun (i : nat)
| PEnd (i : nat).

Definition made (p : producer) : nat := match p with PRun i | PEnd i => i end.

(** [fmt.Sprintf("p%d-event-%d", producerID, i)], for numbers below 256. *)
Definition event_msg (p i : nat) : list byte :=
  bytes_of "p" ++ dec_byte (byte.of_Z (Z.of_nat p)) ++ bytes_of "-event-" ++ dec_byte (byte.of_Z (Z.of_nat i)).

Record program (M : Type) := mkProg {
  pg_log : M;
  pg_prods : list producer;
  pg_produced : Z;
  pg_done : bool;
  pg_cons : list (consumer * list (Z * list byte))
}.
Arguments mkProg {M}.
Arguments pg_log {M}.
Arguments pg_prods {M}.
Arguments pg_produced {M}.
Arguments pg_done {M}.
Arguments pg_cons {M}.

Inductive prog_event :=
| GProduce (p : nat)
| GExit (p : nat)
| GClose
| GConsume (k : nat).

Section Prog.
Context {M : Type} `{LogServiceOk M}.

(** The program just after its goroutines were started, with [n] consumers. *)
Definition prog_start (n : nat) (m : M) : program M :=
  mkProg m (replicate (Z.to_nat numProducers) (PRun 0)) 0 false (replicate n (consumer_new ofs_empty m, [])).

(** The next part of a consumer, and the event it processed. *)
Definition consume (done : bool) (m : M) (s : consumer) : option (consumer * list (Z * list byte)) :=
  match c_phase s with
  | CStart => Some (consumer_start None s, [])
  | CReady => consumer_next done m s
  | CProcess off => Some (consumer_commit offset_io_ok off s, [])
  | CStop _ => None
  end.

Definition is_end (p : producer) : bool := match p with PEnd _ => true | PRun _ => false end.

Definition prog_step (e : prog_event) (x : program M) : option (program M) :=
  match e with
  | GProduce p =>
      match pg_prods x !! p with
      | Some (PRun i) =>
          if Z.of_nat i <? eventsPerProducer then
            match svc_Append (event_msg p i) (pg_log x) with
            | None => None
            | Some (Err _, m') => Some (mkProg m' (<[p := PEnd i]> (pg_prods x)) (pg_produced x) (pg_done x) (pg_cons x))
            | Some (Ok _, m') =>
                Some (mkProg m' (<[p := PRun (S i)]> (pg_prods x)) (pg_produced x + 1) (pg_done x) (pg_cons x))
            end
          else None
      | _ => None
      end
  | GExit p =>
      match pg_prods x !! p with
      | Some (PRun i) =>
          if Z.of_nat i <? eventsPerProducer then None
          else Some (mkProg (pg_log x) (<[p := PEnd i]> (pg_prods x)) (pg_produced x) (pg_done x) (pg_cons x))
      | _ => None
      end
  | GClose =>
      if forallb is_end (pg_prods x) && negb (pg_done x)
      then Some (mkProg (pg_log x) (pg_prods x) (pg_produced x) true (pg_cons x)) else None
  | GConsume k =>
      match pg_cons x !! k with
      | None => None
      | Some (s, evs) =>
          match consume (pg_done x) (pg_log x) s with
          | None => None
          | Some (s', new) =>
              Some (mkProg (pg_log x) (pg_prods x) (pg_produced x) (pg_done x) (<[k := (s', evs ++ new)]> (pg_cons x)))
          end
      end
  end.

Fixpoint prog_run (es : list prog_event) (x : program M) : option (program M) :=
  match es with
  | [] => Some x
  | e :: es' => match prog_step e x with Some y => prog_run es' y | None => None end
  end.

(** ** Invariant *)

(** [tags]: which event of which producer each record of the log is. *)
Definition tag_msg (t : nat * nat) : list byte := event_msg t.1 t.2.
Definition of_producer (p : nat) (tags : list (nat * nat)) : list nat := snd <$> filter (fun t => t.1 = p) tags.

Definition cons_run (m0 : M) (x : program M) (c : consumer * list (Z * list byte)) : Prop :=
  world_steps (mkWorld m0 false (consumer_new ofs_empty m0) [] 0)
    (mkWorld (pg_log x) (pg_done x) c.1 c.2 0).

Record prog_inv (m0 : M) (tags : list (nat * nat)) (x : program M) : Prop := {
  pv_log : svc_rep (pg_log x) 0 (tag_msg <$> tags);
  pv_order : forall p st, pg_prods x !! p = Some st -> of_producer p tags = seq 0 (made st);
  pv_len : length (pg_prods x) = Z.to_nat numProducers;
  pv_sum : length tags = sum_list (made <$> pg_prods x);
  pv_made : Forall (fun st => (made st <= 20)%nat /\ (is_end st = true -> made st = 20%nat)) (pg_prods x);
  pv_produced : pg_produced x = zlen tags;
  pv_done : pg_done x = true -> forallb is_end (pg_prods x) = true;
  pv_cons : Forall (cons_run m0 x) (pg_cons x)
}.

Lemma event_msg_ok p i : payload_ok (event_msg p i).
Proof.
  assert (forall b, (length (dec_byte b) <= 3)%nat) as Hd by (intros b; unfold dec_byte; repeat case_if; simpl; lia).
  unfold payload_ok, event_msg, zlen. rewrite !length_app.
  pose proof (Hd (byte.of_Z (Z.of_nat p))). pose proof (Hd (byte.of_Z (Z.of_nat i))).
  change (length (bytes_of "p")) with 1%nat. change (length (bytes_of "-event-")) with 7%nat.
  unfold Wal.MaxRecordSize. lia.
Qed.

Lemma sum_insert (l : list nat) p a b : l !! p = Some a -> sum_list (<[p := b]> l) = (sum_list l + b - a)%nat.
Proof.
  revert p. induction l as [|x l IH]; intros [|p] Hp; simpl in *; try done.
  - injection Hp as ->. lia.
  - rewrite (IH _ Hp). assert (a <= sum_list l)%nat; [|lia].
    clear -Hp. revert p Hp. induction l as [|y l IH]; intros [|p] Hp; simpl in *; try done.
    + injection Hp as ->. lia.
    + specialize (IH _ Hp). lia.
Qed.

Lemma sum_const (l : list producer) k :
  (forall p st, l !! p = Some st -> made st = k) -> sum_list (made <$> l) = (k * length l)%nat.
Proof.
  induction l as [|st l IH]; intros Hk; [simpl; lia|].
  change (sum_list (made <$> st :: l)) with (made st + sum_list (made <$> l))%nat. cbn [length].
  rewrite (Hk 0%nat st eq_refl), IH; [lia|]. intros p. apply (Hk (S p)).
Qed.

Lemma sum_bound (l : list producer) : Forall (fun st => (made st <= 20)%nat) l -> (sum_list (made <$> l) <= 20 * length l)%nat.
Proof.
  induction 1 as [|st l Hst _ IH]; [done|].
  change (sum_list (made <$> st :: l)) with (made st + sum_list (made <$> l))%nat. cbn [length]. lia.
Qed.

Lemma prog_bound m0 tags x : prog_inv m0 tags x -> (length tags <= 60)%nat.
Proof.
  intros Hi. rewrite (pv_sum _ _ _ Hi). etransitivity; [apply sum_bound|].
  - eapply Forall_impl; [exact (pv_made _ _ _ Hi)|]. by intros st [].
  - rewrite (pv_len _ _ _ Hi). done.
Qed.

(** A producer still running: [doneProducing] is open. *)
Lemma prog_not_done m0 tags x p i : prog_inv m0 tags x -> pg_prods x !! p = Some (PRun i) -> pg_done x = false.
Proof.
  intros Hi Hp. destruct (pg_done x) eqn:Hd; [|done]. pose proof (pv_done _ _ _ Hi Hd) as Hall.
  rewrite forallb_forall in Hall. by specialize (Hall _ (proj1 (list_elem_of_In _ _) (list_elem_of_lookup_2 _ _ _ Hp))).
Qed.

Lemma of_producer_snoc q p i tags :
  of_producer q (tags ++ [(p, i)]) = of_producer q tags ++ (if decide (p = q) then [i] else []).
Proof.
  unfold of_producer. rewrite filter_app, fmap_app. f_equal. rewrite filter_cons, filter_nil. cbn.
  by case_decide.
Qed.

Lemma produce_inv m0 tags x p y :
  prog_inv m0 tags x -> prog_step (GProduce p) x = Some y ->
  exists i, pg_prods x !! p = Some (PRun i) /\ prog_inv m0 (tags ++ [(p, i)]) y.
Proof.
  intros Hi Hs. pose proof Hi as [Hm Ho Hl Hsum Hmade Hpr Hd Hc]. cbn [prog_step] in Hs.
  destruct (pg_prods x !! p) as [[i|i]|] eqn:Hp; try done.
  destruct (Z.ltb_spec (Z.of_nat i) eventsPerProducer) as [Hlt|]; [|done]. unfold eventsPerProducer in Hlt.
  pose proof (prog_bound _ _ _ Hi) as Hb60. pose proof (prog_not_done _ _ _ _ _ Hi Hp) as Hnd.
  assert (zlen (tag_msg <$> tags) <= 60) as Hz by (unfold zlen; rewrite length_fmap; lia).
  destruct (svc_append_ok (pg_log x) 0 _ (event_msg p i) Hm (event_msg_ok p i)) as (m' & Ha & Hm'); [lia|].
  rewrite Ha in Hs. injection Hs as <-. exists i. split; [done|]. split; cbn [pg_log pg_prods pg_produced pg_done pg_cons].
  - by rewrite fmap_app.
  - intros q st Hq. rewrite of_producer_snoc. destruct (decide (p = q)) as [->|Hne].
    + rewrite list_lookup_insert_eq in Hq by (by eapply lookup_lt_Some). injection Hq as <-.
      rewrite (Ho _ _ Hp). cbn [made]. by rewrite seq_S.
    + rewrite list_lookup_insert_ne in Hq by done. by rewrite app_nil_r, (Ho _ _ Hq).
  - by rewrite length_insert.
  - rewrite length_app, Hsum, list_fmap_insert.
    rewrite (sum_insert _ p i) by (by rewrite list_lookup_fmap, Hp). simpl. lia.
  - apply Forall_insert; [done|]. cbn. split; [lia|done].
  - rewrite Hpr, zlen_app. done.
  - by rewrite Hnd.
  - eapply Forall_impl; [exact Hc|]. intros [s evs] Hw. unfold cons_run in *. cbn [pg_log pg_done fst snd] in *.
    rewrite Hnd in *. eapply ws_trans; [exact Hw|]. eapply ws_append; [exact Ha|apply event_msg_ok|].
    rewrite (svc_next_ok _ _ _ Hm). lia.
Qed.

Lemma prog_step_inv m0 tags e x y :
  prog_inv m0 tags x -> prog_step e x = Some y -> exists tags', prog_inv m0 tags' y.
Proof.
  intros Hi Hs. destruct e as [p|p| |k].
  { destruct (produce_inv _ _ _ _ _ Hi Hs) as (i & _ & Hy). by eexists. }
  all: pose proof Hi as [Hm Ho Hl Hsum Hmade Hpr Hd Hc]; cbn [prog_step] in Hs; exists tags.
  - destruct (pg_prods x !! p) as [[i|i]|] eqn:Hp; try done.
    destruct (Z.ltb_spec (Z.of_nat i) eventsPerProducer) as [|Hge]; [done|]. unfold eventsPerProducer in Hge.
    pose proof (prog_not_done _ _ _ _ _ Hi Hp) as Hnd. injection Hs as <-.
    destruct (Forall_lookup_1 _ _ _ _ Hmade Hp) as [Hle _]. cbn in Hle. assert (i = 20%nat) as -> by lia.
    split; cbn; try done.
    + intros q st Hq. destruct (decide (p = q)) as [->|Hne].
      * rewrite list_lookup_insert_eq in Hq by (by eapply lookup_lt_Some). injection Hq as <-. by rewrite (Ho _ _ Hp).
      * rewrite list_lookup_insert_ne in Hq by done. by apply Ho.
    + by rewrite length_insert.
    + rewrite list_fmap_insert, (sum_insert _ p 20%nat) by (by rewrite list_lookup_fmap, Hp). rewrite Hsum. simpl. lia.
    + apply Forall_insert; [done|]. cbn. split; [lia|done].
    + by rewrite Hnd.
  - destruct (forallb is_end (pg_prods x)) eqn:Hall; [|done]. destruct (pg_done x) eqn:Hnd; [done|].
    injection Hs as <-. split; cbn; try done. eapply Forall_impl; [exact Hc|]. intros [s evs] Hw.
    unfold cons_run in *. cbn in *. rewrite Hnd in Hw. eapply ws_trans; [exact Hw|apply ws_done].
  - destruct (pg_cons x !! k) as [[s evs]|] eqn:Hk; [|done].
    destruct (consume (pg_done x) (pg_log x) s) as [[s' new]|] eqn:Hcs; [|done]. injection Hs as <-.
    split; cbn; try done. apply Forall_insert; [done|].
    pose proof (Forall_lookup_1 _ _ _ _ Hc Hk) as Hw. unfold cons_run in *. cbn [pg_log pg_done fst snd] in *.
    eapply ws_trans; [exact Hw|]. unfold consume in Hcs. destruct (c_phase s) as [| |off|why] eqn:Hph; [| | |done].
    + injection Hcs as <- <-. rewrite app_nil_r. by apply ws_start.
    + by apply ws_next.
    + injection Hcs as <- <-. rewrite app_nil_r. by apply ws_commit.
Qed.

Lemma prog_run_inv m0 tags es x y : prog_inv m0 tags x -> prog_run es x = Some y -> exists tags', prog_inv m0 tags' y.
Proof.
  revert tags x. induction es as [|e es IH]; intros tags x Hi Hr; [injection Hr as <-; by eexists|].
  cbn [prog_run] in Hr. destruct (prog_step e x) as [x1|] eqn:Hs; [|done].
  destruct (prog_step_inv _ _ _ _ _ Hi Hs) as [tags1 Hi1]. by eapply IH.
Qed.

Lemma prog_run_length es (x y : program M) : prog_run es x = Some y -> length (pg_cons y) = length (pg_cons x).
Proof.
  revert x. induction es as [|e es IH]; intros x Hr; [by injection Hr as <-|].
  cbn [prog_run] in Hr. destruct (prog_step e x) as [x1|] eqn:Hs; [|done]. rewrite (IH _ Hr).
  destruct e; cbn [prog_step] in Hs; repeat case_match; simplify_eq; try done. apply length_insert.
Qed.

Lemma prog_start_inv n m : svc_rep m 0 [] -> prog_inv m [] (prog_start n m).
Proof.
  intros Hm. split; cbn [prog_start pg_log pg_prods pg_produced pg_done pg_cons]; try done.
  - intros p st Hp. apply lookup_replicate in Hp as [-> _]. done.
  - by repeat constructor; simpl; lia.
  - apply Forall_replicate. apply ws_refl.
Qed.

(** ** Exactly once, in order *)

Lemma number_lookup b log i : number b log !! i = (fun x => (b + Z.of_nat i, x)) <$> log !! i.
Proof.
  revert b i. induction log as [|x log IH]; intros b [|i]; try done.
  - cbn. by rewrite Z.add_0_r.
  - cbn [number]. change (((b, x) :: number (b + 1) log) !! S i) with (number (b + 1) log !! i).
    rewrite IH. cbn. f_equal. f_equal. lia.
Qed.

(** At most [n] events that never run ahead and cover [0 .. n-1]. *)
Lemma ordered_exact (n : nat) (evs : list (Z * list byte)) :
  (length evs <= n)%nat -> (forall i e, evs !! i = Some e -> e.1 <= Z.of_nat i) ->
  (forall o, 0 <= o < Z.of_nat n -> exists d, (o, d) ∈ evs) ->
  forall i, (i < n)%nat -> exists d, evs !! i = Some (Z.of_nat i, d).
Proof.
  revert evs. induction n as [|n IH]; intros evs Hlen Hord Hcov i Hi; [lia|].
  destruct (Hcov (Z.of_nat n)) as [d Hd]; [lia|]. apply list_elem_of_lookup in Hd as [j Hj].
  pose proof (Hord _ _ Hj) as Hle. pose proof (lookup_lt_Some _ _ _ Hj) as Hlt. cbn in Hle.
  assert (j = n) as -> by lia. destruct (decide (i = n)) as [->|Hne]; [by exists d|].
  destruct (IH (take n evs)) with (i := i) as [d' Hd']; try lia.
  - rewrite length_take. lia.
  - intros k e He. apply lookup_take_Some in He as [He _]. by apply Hord.
  - intros o Ho. destruct (Hcov o) as [d' Hd']; [lia|]. exists d'.
    apply list_elem_of_lookup in Hd' as [k Hk]. pose proof (lookup_lt_Some _ _ _ Hk) as Hkl.
    destruct (decide (k = n)) as [->|Hkn]; [rewrite Hj in Hk; injection Hk; lia|].
    apply (list_elem_of_lookup_2 _ k). rewrite lookup_take_lt by lia. done.
  - exists d'. by apply lookup_take_Some in Hd' as [? _].
Qed.

Lemma in_order_le evs i e : in_order evs -> evs !! i = Some e -> e.1 <= Z.of_nat i.
Proof.
  intros [H1 H2]. revert e. induction i as [|i IH]; intros e He.
  - rewrite (H1 _ He). done.
  - destruct (lookup_lt_is_Some_2 evs i) as [e' He']; [apply lookup_lt_Some in He; lia|].
    pose proof (H2 _ _ _ He' He). pose proof (IH _ He'). lia.
Qed.

(** What a consumer that returned has done. *)
Lemma drained_exact m0 (x : program M) log s evs :
  svc_rep m0 0 [] -> svc_rep (pg_log x) 0 log -> cons_run m0 x (s, evs) -> c_phase s = CStop None ->
  pg_done x = true /\ c_live s = zlen log /\ evs = number 0 log.
Proof.
  intros Hm0 Hm Hw Hph. unfold cons_run in Hw. cbn [fst snd] in Hw.
  destruct (world_steps_inv _ _ _ _ Hw (world_inv_init m0 0 [] Hm0)) as [hist [Hlog Hg Ho Hc]].
  cbn in Hlog, Hg, Ho, Hc. unfold cons_inv in Hc. rewrite Hph in Hc.
  destruct Hc as [_ Hend]. destruct (Hend eq_refl) as (_ & [_ Hall _ Hdup] & Hlive & Hdone).
  rewrite (svc_next_ok _ _ _ Hm) in Hlive. rewrite Hlive in Hall, Hdup. split_and!; [done|lia|].
  destruct Hlog as (b & log' & Hm' & _ & _ & Hrec). destruct (svc_rep_unique _ _ _ _ _ Hm Hm') as [<- <-].
  assert (length evs <= length log)%nat as Hlen by (unfold zlen in Hdup; lia).
  assert (forall i, (i < length log)%nat -> exists d, evs !! i = Some (Z.of_nat i, d)) as Hex.
  { apply ordered_exact; [done|by intros i e; apply in_order_le|]. intros o Hoo. apply Hall. unfold zlen. lia. }
  apply list_eq. intros i. rewrite number_lookup. destruct (log !! i) as [y|] eqn:Hy.
  - destruct (Hex i) as [d Hd]; [by eapply lookup_lt_Some|]. rewrite Hd. cbn.
    pose proof (Hg _ _ (list_elem_of_lookup_2 _ _ _ Hd)) as Hr. rewrite <- Hrec in Hr by lia.
    unfold rec_at in Hr. destruct (Z.ltb_spec (Z.of_nat i) 0); [lia|].
    rewrite Z.sub_0_r, Nat2Z.id, Hy in Hr. by injection Hr as ->.
  - apply lookup_ge_None in Hy. cbn. apply lookup_ge_None. lia.
Qed.

(** ** The program can always finish *)

Definition no_failure (c : consumer * list (Z * list byte)) : Prop := forall e, c_phase c.1 <> CStop (Some e).

(** What the invariant of a running consumer gives. *)
Lemma cons_run_inv m0 (x : program M) log s evs :
  svc_rep m0 0 [] -> svc_rep (pg_log x) 0 log -> cons_run m0 x (s, evs) ->
  match c_phase s with
  | CStart => exists v, 0 <= v <= zlen log /\ ofs_inv (ow_fs (c_writer s)) [v] v
  | CReady => 0 <= c_live s <= zlen log /\ c_reader s = mkRd (c_live s) /\
      ofs_inv (ow_fs (c_writer s)) [c_live s] (c_live s)
  | CProcess off => 0 <= off /\ off + 1 <= zlen log /\ c_reader s = mkRd (off + 1) /\ c_live s = off + 1 /\
      ofs_inv (ow_fs (c_writer s)) [off] off
  | CStop _ => True
  end.
Proof.
  intros Hm0 Hm Hw. unfold cons_run in Hw. cbn [fst snd] in Hw.
  destruct (world_steps_inv _ _ _ _ Hw (world_inv_init m0 0 [] Hm0)) as [hist [Hlog Hg Ho Hc]].
  cbn in Hlog, Hg, Ho, Hc. destruct Hlog as (b & log' & Hm' & _ & Hlen & _).
  destruct (svc_rep_unique _ _ _ _ _ Hm Hm') as [<- <-].
  assert (forall k v, may_resume evs k v -> 0 <= v <= zlen log) as Hle.
  { intros k v [Hp Hall _ _]. split; [done|]. destruct (Z.le_gt_cases v (zlen log)) as [|Hgt]; [done|].
    pose proof (zlen_nonneg log). destruct (Hall (zlen log)) as [d Hd]; [lia|].
    apply Hg, rec_at_lt in Hd. lia. }
  unfold cons_inv in Hc. destruct (c_phase s) as [| |off|why]; [| | |done].
  - destruct Hc as (v & Hf & Hr). exists v. split; [by eapply Hle|done].
  - destruct Hc as (Hrd & Hf & Hr). split_and!; try done; [by eapply Hle|by eapply Hle|].
    destruct (c_reader s). cbn in Hrd. by subst.
  - destruct Hc as (Hrd & Hl & _ & Hf & Hr & Hr'). apply Hle in Hr, Hr'. split_and!; try done; [lia|lia|].
    destruct (c_reader s). cbn in Hrd. by subst.
Qed.

(** A consumer that has not returned has a next step, and never fails. *)
Lemma consume_progress m0 (x : program M) log s evs :
  svc_rep m0 0 [] -> svc_rep (pg_log x) 0 log -> cons_run m0 x (s, evs) -> no_failure (s, evs) ->
  c_phase s = CStop None \/
  exists s' new, consume (pg_done x) (pg_log x) s = Some (s', new) /\ no_failure (s', evs ++ new) /\
    (c_phase s = CStart \/ (exists off, c_phase s = CProcess off) -> c_phase s' = CReady).
Proof.
  intros Hm0 Hm Hw Hnf. pose proof (cons_run_inv _ _ _ _ _ Hm0 Hm Hw) as Hi. destruct (svc_range _ _ _ Hm).
  unfold consume, no_failure in *. cbn [fst] in *. destruct (c_phase s) as [| |off|[e|]] eqn:Hph.
  - right. destruct Hi as (v & Hv & (_ & _ & Hf)). eexists _, []. split; [done|].
    unfold consumer_start. rewrite (read_holds _ _ Hf). done.
  - right. destruct Hi as (Hv & Hr & _). unfold consumer_next, Next. rewrite Hr. cbn [rd_offset].
    rewrite (svc_read_ok _ _ _ _ Hm) by (unfold is_u64; lia). unfold read_spec.
    destruct (Z.ltb_spec (c_live s) 0); [lia|].
    destruct (log !! _) as [d|]; [|destruct (pg_done x && _)]; eexists _, _;
      (split; [reflexivity|]); (split; [done|]); intros [?|[? ?]]; done.
  - right. destruct Hi as (Hv & Hle & Hr & Hl & Hf).
    destruct (commit_run s off Hph) as (w' & Hcm & _); [unfold is_u64; lia|done|].
    eexists _, []. split; [done|]. rewrite Hcm. done.
  - by destruct (Hnf e).
  - by left.
Qed.

Lemma prog_run_app es es' (x y z : program M) :
  prog_run es x = Some y -> prog_run es' y = Some z -> prog_run (es ++ es') x = Some z.
Proof.
  revert x. induction es as [|e es IH]; intros x Hr; [by injection Hr as <-|].
  cbn in *. destruct (prog_step e x); [|done]. by apply IH.
Qed.

(** [x] reaches a state with property [P]. *)
Definition reaches (x : program M) (P : program M -> Prop) : Prop := exists es y, prog_run es x = Some y /\ P y.

Lemma reaches_here (x : program M) (P : program M -> Prop) : P x -> reaches x P.
Proof. intros Hx. by exists [], x. Qed.

Lemma reaches_step e (x y : program M) P : prog_step e x = Some y -> reaches y P -> reaches x P.
Proof. intros Hs (es & z & Hr & Hz). exists (e :: es), z. cbn. by rewrite Hs. Qed.

Lemma reaches_trans (x : program M) (P Q : program M -> Prop) :
  reaches x P -> (forall y, P y -> reaches y Q) -> reaches x Q.
Proof.
  intros (es & y & Hr & Hy) Hpq. destruct (Hpq y Hy) as (es' & z & Hr' & Hz).
  exists (es ++ es'), z. split; [by eapply prog_run_app|done].
Qed.

Definition good (m0 : M) (x : program M) : Prop := (exists tags, prog_inv m0 tags x) /\ Forall no_failure (pg_cons x).

Lemma good_step m0 e x y : svc_rep m0 0 [] -> good m0 x -> prog_step e x = Some y -> good m0 y.
Proof.
  intros Hm0 [[tags Hi] Hnf] Hs. split; [by eapply prog_step_inv|].
  destruct e as [p|p| |k]; cbn [prog_step] in Hs.
  1-3: repeat case_match; simplify_eq; done.
  destruct (pg_cons x !! k) as [[s evs]|] eqn:Hk; [|done].
  pose proof (Forall_lookup_1 _ _ _ _ Hnf Hk) as Hf. pose proof (Forall_lookup_1 _ _ _ _ (pv_cons _ _ _ Hi) Hk) as Hw.
  destruct (consume_progress m0 x _ s evs Hm0 (pv_log _ _ _ Hi) Hw Hf) as [Hst|(s' & new & Hc & Hf' & _)].
  - unfold consume in Hs. by rewrite Hst in Hs.
  - rewrite Hc in Hs. injection Hs as <-. cbn. by apply Forall_insert.
Qed.

Lemma good_run m0 es x y : svc_rep m0 0 [] -> good m0 x -> prog_run es x = Some y -> good m0 y.
Proof.
  intros Hm0. revert x. induction es as [|e es IH]; intros x Hg Hr; [by injection Hr as <-|].
  cbn in Hr. destruct (prog_step e x) eqn:Hs; [|done]. by eapply IH; [eapply good_step|].
Qed.

Lemma good_start n m : svc_rep m 0 [] -> good m (prog_start n m).
Proof.
  intros Hm. split; [exists []; by apply prog_start_inv|]. cbn. apply Forall_replicate. by intros e.
Qed.

(** One producer runs to its end. *)
Lemma producer_finishes m0 x p st :
  svc_rep m0 0 [] -> good m0 x -> pg_prods x !! p = Some st ->
  reaches x (fun y => good m0 y /\ pg_prods y = <[p := PEnd 20]> (pg_prods x) /\ pg_done y = pg_done x).
Proof.
  intros Hm0. remember (20 - made st)%nat as n eqn:Hn. revert x st Hn.
  induction n as [|n IH]; intros x st Hn Hg Hp; pose proof Hg as [[tags Hi] _];
    destruct (Forall_lookup_1 _ _ _ _ (pv_made _ _ _ Hi) Hp) as [Hle He]; destruct st as [i|i]; cbn [made is_end] in *.
  2,4: apply reaches_here; rewrite list_insert_id by (rewrite He in Hp by done; done); done.
  - assert (i = 20%nat) as -> by lia.
    assert (prog_step (GExit p) x = Some (mkProg (pg_log x) (<[p := PEnd 20]> (pg_prods x)) (pg_produced x)
      (pg_done x) (pg_cons x))) as Hs by (cbn [prog_step]; by rewrite Hp).
    eapply reaches_step; [exact Hs|]. apply reaches_here. split; [by eapply good_step|done].
  - pose proof (prog_bound _ _ _ Hi) as Hb.
    destruct (svc_append_ok (pg_log x) 0 _ (event_msg p i) (pv_log _ _ _ Hi) (event_msg_ok p i)) as (m' & Ha & _).
    { unfold zlen. rewrite length_fmap. lia. }
    assert (prog_step (GProduce p) x = Some (mkProg m' (<[p := PRun (S i)]> (pg_prods x)) (pg_produced x + 1)
      (pg_done x) (pg_cons x))) as Hs.
    { cbn [prog_step]. rewrite Hp. destruct (Z.ltb_spec (Z.of_nat i) eventsPerProducer) as [|Hge];
        [by rewrite Ha|unfold eventsPerProducer in Hge; lia]. }
    eapply reaches_step; [exact Hs|]. eapply reaches_trans.
    + apply (IH _ (PRun (S i))); [cbn; lia|by eapply good_step|].
      cbn. by rewrite list_lookup_insert_eq by (by eapply lookup_lt_Some).
    + intros y (Hgy & Hpy & Hdy). apply reaches_here. split_and!; [done| |done].
      rewrite Hpy. cbn. by rewrite list_insert_insert_eq.
Qed.

Lemma producers_finish m0 x k :
  svc_rep m0 0 [] -> good m0 x -> (k <= length (pg_prods x))%nat ->
  reaches x (fun y => good m0 y /\ pg_done y = pg_done x /\ length (pg_prods y) = length (pg_prods x) /\
    forall q, (q < k)%nat -> pg_prods y !! q = Some (PEnd 20)).
Proof.
  intros Hm0 Hg. induction k as [|k IH]; intros Hk; [apply reaches_here; split_and!; try done; lia|].
  eapply reaches_trans; [apply IH; lia|]. intros y (Hgy & Hdy & Hly & Hq).
  destruct (lookup_lt_is_Some_2 (pg_prods y) k) as [st Hst]; [lia|].
  eapply reaches_trans; [by eapply producer_finishes|]. intros z (Hgz & Hpz & Hdz). apply reaches_here.
  split_and!; [done|congruence|by rewrite Hpz, length_insert|]. intros q Hqk. rewrite Hpz.
  destruct (decide (q = k)) as [->|Hne]; [by rewrite list_lookup_insert_eq by lia|].
  rewrite list_lookup_insert_ne by done. apply Hq. lia.
Qed.

(** From any point a consumer drains the log once the producers are done. *)
Lemma consumer_terminates m0 (x : program M) log s evs :
  svc_rep m0 0 [] -> svc_rep (pg_log x) 0 log -> cons_run m0 x (s, evs) -> no_failure (s, evs) ->
  exists fuel s' new, runConsumer fuel true (pg_log x) s = Some (s', new) /\ c_phase s' = CStop None.
Proof.
  intros Hm0 Hm Hw Hnf. pose proof (cons_run_inv _ _ _ _ _ Hm0 Hm Hw) as Hi. destruct (svc_range _ _ _ Hm).
  assert (forall r, c_phase r = CReady -> 0 <= c_live r <= zlen log -> c_reader r = mkRd (c_live r) ->
    ofs_inv (ow_fs (c_writer r)) [c_live r] (c_live r) ->
    exists fuel s' new, runConsumer fuel true (pg_log x) r = Some (s', new) /\ c_phase s' = CStop None) as Hready.
  { intros r Hph Hl Hr Hf.
    destruct (runConsumer_loop (pg_log x) 0 log (length log - Z.to_nat (c_live r)) (Z.to_nat (c_live r)) r Hm)
      as (s' & Hrun & Hend & _); try done; [unfold zlen in *; lia|rewrite Hr; f_equal; lia|lia|].
    eexists _, s', _. split; [exact Hrun|exact Hend]. }
  destruct (c_phase s) as [| |off|[e|]] eqn:Hph.
  - destruct Hi as (v & Hv & Hf). destruct (Hready (consumer_start None s)) as (fuel & s' & new & Hrun & Hend).
    1-4: unfold consumer_start; rewrite (read_holds _ _ (proj2 (proj2 Hf))); done.
    exists (S fuel), s', new. cbn [runConsumer]. rewrite Hph. done.
  - destruct Hi as (Hv & Hr & Hf). by apply Hready.
  - destruct Hi as (Hv & Hle & Hr & Hl & Hf).
    destruct (commit_run s off Hph) as (w' & Hcm & Hf'); [unfold is_u64; lia|done|].
    destruct (Hready (consumer_commit offset_io_ok off s)) as (fuel & s' & new & Hrun & Hend).
    1-4: rewrite Hcm; cbn; rewrite ?Hl; (done || lia).
    exists (S fuel), s', new. cbn [runConsumer]. rewrite Hph. done.
  - by destruct (Hnf e).
  - exists 1%nat, s, []. cbn. by rewrite Hph.
Qed.

Lemma runConsumer_prog fuel m pr c cs k s evs s' new :
  (k < length cs)%nat -> runConsumer fuel true m s = Some (s', new) ->
  reaches (mkProg m pr c true (<[k := (s, evs)]> cs))
    (fun y => y = mkProg m pr c true (<[k := (s', evs ++ new)]> cs)).
Proof.
  intros Hk. revert s evs new. induction fuel as [|fuel IH]; intros s evs new Hrun; [done|].
  assert (forall s1 ev, consume true m s = Some (s1, ev) ->
    prog_step (GConsume k) (mkProg m pr c true (<[k := (s, evs)]> cs)) =
    Some (mkProg m pr c true (<[k := (s1, evs ++ ev)]> cs))) as Hstep.
  { intros s1 ev Hc. cbn [prog_step pg_cons pg_done pg_log pg_prods pg_produced].
    rewrite list_lookup_insert_eq by done. by rewrite Hc, list_insert_insert_eq. }
  unfold consume in Hstep. cbn [runConsumer] in Hrun. destruct (c_phase s) as [| |off|why].
  - eapply reaches_step; [by apply Hstep|]. rewrite app_nil_r. by apply IH.
  - destruct (consumer_next true m s) as [[s1 ev]|]; [|done].
    destruct (runConsumer fuel true m s1) as [[s2 evs']|] eqn:Hr; [|done]. injection Hrun as <- <-.
    eapply reaches_step; [by apply Hstep|]. rewrite app_assoc. by apply IH.
  - eapply reaches_step; [by apply Hstep|]. rewrite app_nil_r. by apply IH.
  - injection Hrun as <- <-. rewrite app_nil_r. by apply reaches_here.
Qed.

Lemma consumers_finish m0 x k :
  svc_rep m0 0 [] -> good m0 x -> pg_done x = true -> (k <= length (pg_cons x))%nat ->
  reaches x (fun y => good m0 y /\ pg_done y = true /\ length (pg_cons y) = length (pg_cons x) /\
    forall q c, (q < k)%nat -> pg_cons y !! q = Some c -> c_phase c.1 = CStop None).
Proof.
  intros Hm0 Hg Hd. induction k as [|k IH]; intros Hk; [apply reaches_here; split_and!; try done; lia|].
  eapply reaches_trans; [apply IH; lia|]. intros y (Hgy & Hdy & Hly & Hq).
  destruct (lookup_lt_is_Some_2 (pg_cons y) k) as [[s evs] Hs]; [lia|].
  pose proof Hgy as [[tags Hi] Hnf].
  destruct (consumer_terminates m0 y _ s evs Hm0 (pv_log _ _ _ Hi)) as (fuel & s' & new & Hrun & Hend).
  { by apply (Forall_lookup_1 _ _ _ _ (pv_cons _ _ _ Hi) Hs). } { by apply (Forall_lookup_1 _ _ _ _ Hnf Hs). }
  assert (y = mkProg (pg_log y) (pg_prods y) (pg_produced y) true (<[k := (s, evs)]> (pg_cons y))) as Hy.
  { rewrite list_insert_id by done. destruct y. cbn in *. by subst. }
  destruct (runConsumer_prog fuel (pg_log y) (pg_prods y) (pg_produced y) (pg_cons y) k s evs s' new)
    as (es & z & Hr & Hz); [lia|done|]. rewrite <- Hy in Hr.
  exists es, z. split; [done|]. split; [by eapply good_run|]. subst z. cbn. rewrite length_insert.
  split_and!; [done|done|]. intros q c Hqk Hc. destruct (decide (q = k)) as [->|Hne].
  - rewrite list_lookup_insert_eq in Hc by lia. by injection Hc as <-.
  - rewrite list_lookup_insert_ne in Hc by done. eapply Hq, Hc. lia.
Qed.
End Prog.

Lemma prog_exact {M} (HL : LogService M) (Hok : LogServiceOk M) n m es x
  (Hm : svc_rep m 0 []) (Hn : (0 < n)%nat) (Hrun : prog_run es (prog_start n m) = Some x)
  (Hend : forall s evs, (s, evs) ∈ pg_cons x -> c_phase s = CStop None) :
  exists tags, svc_rep (pg_log x) 0 (tag_msg <$> tags) /\
    pg_produced x = numProducers * eventsPerProducer /\
    svc_NextOffset (pg_log x) = numProducers * eventsPerProducer /\
    (forall p, (p < Z.to_nat numProducers)%nat -> of_producer p tags = seq 0 (Z.to_nat eventsPerProducer)) /\
    (forall s evs, (s, evs) ∈ pg_cons x ->
       evs = number 0 (tag_msg <$> tags) /\ c_live s = numProducers * eventsPerProducer).
Proof.
  destruct (prog_run_inv m [] es _ _ (prog_start_inv n m Hm) Hrun) as [tags Hi].
  pose proof Hi as [Hl Ho Hlen Hsum Hmade Hpr Hd Hc]. exists tags.
  assert (forall s evs, (s, evs) ∈ pg_cons x ->
    pg_done x = true /\ c_live s = zlen (tag_msg <$> tags) /\ evs = number 0 (tag_msg <$> tags)) as Hall.
  { intros s evs Hin. eapply drained_exact; [exact Hm|exact Hl| |by eapply Hend].
    rewrite Forall_forall in Hc. by apply Hc. }
  assert (length (pg_cons x) = n) as Hcn by (rewrite (prog_run_length _ _ _ Hrun); apply length_replicate).
  destruct (pg_cons x) as [|[s0 evs0] cs] eqn:Hcs; [simpl in Hcn; lia|].
  destruct (Hall s0 evs0) as (Hdone & _ & _); [by left|].
  assert (forall p st, pg_prods x !! p = Some st -> made st = 20%nat) as H20.
  { intros p st Hp. apply (Forall_lookup_1 _ _ _ _ Hmade Hp).
    pose proof (Hd Hdone) as Hf. rewrite forallb_forall in Hf.
    by apply Hf, list_elem_of_In, (list_elem_of_lookup_2 _ _ _ Hp). }
  assert (zlen tags = 60) as Hz.
  { unfold zlen. rewrite Hsum, (sum_const _ 20); [|intros p st Hp; by eapply H20]. rewrite Hlen. done. }
  assert (zlen (tag_msg <$> tags) = 60) as Hz' by (unfold zlen in *; by rewrite length_fmap).
  split_and!; [done|by rewrite Hpr, Hz|by rewrite (svc_next_ok _ _ _ Hl), Hz'| |].
  - intros p Hp. destruct (lookup_lt_is_Some_2 (pg_prods x) p) as [st Hst]; [lia|].
    by rewrite (Ho _ _ Hst), (H20 _ _ Hst).
  - intros s evs Hin. destruct (Hall s evs Hin) as (_ & Hlive & ->). split; [done|]. by rewrite Hlive, Hz'.
Qed.

Lemma prog_finishes {M} (HL : LogService M) (Hok : LogServiceOk M) n m es x
  (Hm : svc_rep m 0 []) (Hrun : prog_run es (prog_start n m) = Some x) :
  (forall s evs e, (s, evs) ∈ pg_cons x -> c_phase s <> CStop (Some e)) /\
  exists es' y, prog_run es' x = Some y /\ forall s evs, (s, evs) ∈ pg_cons y -> c_phase s = CStop None.
Proof.
  pose proof (good_run m es _ _ Hm (good_start n m Hm) Hrun) as Hg. split.
  { intros s evs e Hin. destruct Hg as [_ Hnf]. rewrite Forall_forall in Hnf. by apply (Hnf _ Hin). }
  assert (reaches x (fun y => good m y /\ pg_done y = true)) as Hdone.
  { eapply reaches_trans; [apply (producers_finish m x (length (pg_prods x)) Hm Hg); lia|].
    intros y (Hgy & _ & Hly & Hq). destruct (pg_done y) eqn:Hd; [by apply reaches_here|].
    assert (prog_step GClose y = Some (mkProg (pg_log y) (pg_prods y) (pg_produced y) true (pg_cons y))) as Hs.
    { cbn. rewrite Hd. replace (forallb is_end (pg_prods y)) with true; [done|]. symmetry.
      apply forallb_forall. intros st (q & Hst)%list_elem_of_In%list_elem_of_lookup.
      rewrite Hq in Hst by (apply lookup_lt_Some in Hst; lia). by injection Hst as <-. }
    eapply reaches_step; [exact Hs|]. apply reaches_here. split; [by eapply good_step|done]. }
  destruct (reaches_trans x _ (fun y => forall s evs, (s, evs) ∈ pg_cons y -> c_phase s = CStop None) Hdone)
    as (es' & y & Hr & Hy); [|by exists es', y].
  intros y [Hgy Hd]. eapply reaches_trans; [apply (consumers_finish m y (length (pg_cons y)) Hm Hgy Hd); lia|].
  intros z (_ & _ & Hlz & Hq). apply reaches_here. intros s evs (q & Hs)%list_elem_of_lookup.
  apply (Hq q (s, evs)); [apply lookup_lt_Some in Hs; lia|done].
Qed.

(** The concurrent demonstration is correct.  Run the three producers and
    any number of consumers in any interleaving on a fresh log until every
    consumer has returned.  Then all 60 events were appended and counted, the
    head is 60, the events of each producer are in the log in the order it
    produced them, and every consumer has processed exactly the whole log: each
    record once, in order, with its own offset, up to the head. *)
Theorem concurrent_main_correct {M} (HL : LogService M) (Hok : LogServiceOk M) n m es x
  (Hm : svc_rep m 0 []) (Hn : (0 < n)%nat) (Hrun : prog_run es (prog_start n m) = Some x)
  (Hend : forall s evs, (s, evs) ∈ pg_cons x -> c_phase s = CStop None) :
  exists tags, svc_rep (pg_log x) 0 (tag_msg <$> tags) /\
    pg_produced x = numProducers * eventsPerProducer /\
    svc_NextOffset (pg_log x) = numProducers * eventsPerProducer /\
    (forall p, (p < Z.to_nat numProducers)%nat -> of_producer p tags = seq 0 (Z.to_nat eventsPerProducer)) /\
    (forall s evs, (s, evs) ∈ pg_cons x ->
       evs = number 0 (tag_msg <$> tags) /\ c_live s = numProducers * eventsPerProducer).
Proof. by apply (prog_exact HL Hok n m es). Qed.

(** The concurrent demonstration can always finish.  In every interleaving of
    producers and consumers on a fresh log, no consumer ever fails, and from
    every state that can be reached the goroutines can run on to the end, in
    which every consumer has returned cleanly: there is no deadlock and no
    point of no return. *)
Theorem concurrent_main_finishes {M} (HL : LogService M) (Hok : LogServiceOk M) n m es x
  (Hm : svc_rep m 0 []) (Hrun : prog_run es (prog_start n m) = Some x) :
  (forall s evs e, (s, evs) ∈ pg_cons x -> c_phase s <> CStop (Some e)) /\
  exists es' y, prog_run es' x = Some y /\ forall s evs, (s, evs) ∈ pg_cons y -> c_phase s = CStop None.
Proof. by apply (prog_finishes HL Hok n m es). Qed.

(** A fresh log and two consumers; one producer has appended twice. *)
Lemma ex_live0 : svc_rep (ex_live ex_mgr) 0 [].
Proof.
  destruct ex_mgr_ok as (Hm & He & Herr). pose proof (ex_live_rep _ _ Hm Herr) as H0. by rewrite He in H0.
Qed.

Lemma concurrent_main_finishes_witness :
  exists es y, prog_run es (prog_start 2 (ex_live ex_mgr)) = Some y /\
    forall s evs, (s, evs) ∈ pg_cons y -> c_phase s = CStop None.
Proof.
  exact (proj2 (concurrent_main_finishes manager_service manager_service_ok 2 (ex_live ex_mgr) [] _ ex_live0 eq_refl)).
Defined.

Lemma concurrent_main_correct_witness :
  exists es x, prog_run es (prog_start 2 (ex_live ex_mgr)) = Some x /\ pg_produced x = 60.
Proof.
  destruct (proj2 (prog_finishes _ _ 2 (ex_live ex_mgr) [] _ ex_live0 eq_refl)) as (es & y & Hrun & Hend). exists es, y. split; [exact Hrun|].
  destruct (concurrent_main_correct manager_service manager_service_ok 2 (ex_live ex_mgr) es y ex_live0
    ltac:(lia) Hrun Hend) as (tags & _ & Hp & _). exact Hp.
Defined.
