(* ===== verification/ConcurrentMain.v ===== *)
(** * ConcurrentMain: [main] of [cmd/concurrent] around its goroutines

    The log it opens, the metrics goroutine that prints a line at every tick
    and once more when the consumers have returned, and the summary at the
    end.  [printMetrics] reads the head, the counter and each consumer's offset
    one after the other while the program of [Concurrent.v] goes on. *)

From Stdlib Require Import ZArith Lia Strings.String.
From stdpp Require Import base list list_numbers numbers option gmap sorting.
From coqutil Require Import Byte.
From S2P Require Import Prelude Bytes Golib Checksum Wal WalFormat WalInv Crash Segment Manager MgrInv MgrOpen MgrProps Service ConsumerOffset ConsumerApp Server Concurrent.

Local Open Scope Z_scope.

(** [segment.Config{Dir: dir, MaxSegmentBytes: 256}] in a new directory. *)
Definition concurrent_cfg : Config := mkConfig 256 0 0 0 false None.

Definition concurrent_open (mkdirTemp : outcome) (oio : Z -> segment_io) : option (result Manager) :=
  match mkdirTemp with
  | Some e => Some (Err e)
  | None => Open None None oio concurrent_cfg (mkDir ∅ [])
  end.

(** [consumers]: name and processing time of each. *)
Definition consumer_specs : list (string * Z) := [("fast"%string, 2 * 1000000); ("slow"%string, 25 * 1000000)].

(** One printed line: produced, head, and offset and lag of each consumer. *)
Record metrics_line := mkLine { ml_produced : Z; ml_head : Z; ml_consumers : list (Z * Z) }.

(** The metrics goroutine: in its [select]; in [printMetrics] after the head
    was read, then reading the offsets; returned.  [final] is the call made
    because the consumers have finished. *)
Inductive metrics_phase :=
| XSelect
| XHead (final : bool) (head : Z)
| XOffsets (final : bool) (head produced : Z) (acc : list (Z * Z))
| XReturned.

(** What [main] prints last: produced, head, each consumer's offset. *)
Record summary_text := mkSummary { sm_produced : Z; sm_head : Z; sm_offsets : list Z }.

Record cmain (M : Type) := mkCMain {
  cm_prog : program M;
  cm_metrics : metrics_phase;
  cm_lines : list metrics_line;
  cm_summary : option summary_text
}.
Arguments mkCMain {M}.
Arguments cm_prog {M}.
Arguments cm_metrics {M}.
Arguments cm_lines {M}.
Arguments cm_summary {M}.

Inductive cmain_event :=
| XProg (e : prog_event)
| XTick
| XFinished
| XLoad
| XMain.

Definition stopped (c : consumer) : bool := match c_phase c with CStop _ => true | _ => false end.

Section CMain.
Context {M : Type} `{LogServiceOk M}.

Definition cmain_start (m : M) : cmain M :=
  mkCMain (prog_start (length consumer_specs) m) XSelect [] None.

(** [consumerWg.Wait()] has returned. *)
Definition all_stopped (x : program M) : bool := forallb (fun c => stopped c.1) (pg_cons x).

(** The next atomic read of [printMetrics], or the line. *)
Definition metrics_load (x : cmain M) : option (cmain M) :=
  let pg := cm_prog x in
  match cm_metrics x with
  | XHead final head => Some (mkCMain pg (XOffsets final head (pg_produced pg) []) (cm_lines x) (cm_summary x))
  | XOffsets final head produced acc =>
      match pg_cons pg !! length acc with
      | Some c =>
          let off := c_live c.1 in
          Some (mkCMain pg (XOffsets final head produced (acc ++ [(off, metrics_lag head off)])) (cm_lines x) (cm_summary x))
      | None =>
          Some (mkCMain pg (if final then XReturned else XSelect) (cm_lines x ++ [mkLine produced head acc]) (cm_summary x))
      end
  | _ => None
  end.

Definition cmain_step (e : cmain_event) (x : cmain M) : option (cmain M) :=
  let pg := cm_prog x in
  match e with
  | XProg e =>
      match prog_step e pg with
      | Some pg' => Some (mkCMain pg' (cm_metrics x) (cm_lines x) (cm_summary x))
      | None => None
      end
  | XTick =>
      match cm_metrics x with
      | XSelect => Some (mkCMain pg (XHead false (svc_NextOffset (pg_log pg))) (cm_lines x) (cm_summary x))
      | _ => None
      end
  | XFinished =>
      match cm_metrics x with
      | XSelect =>
          if all_stopped pg
          then Some (mkCMain pg (XHead true (svc_NextOffset (pg_log pg))) (cm_lines x) (cm_summary x)) else None
      | _ => None
      end
  | XLoad => metrics_load x
  | XMain =>
      match cm_metrics x, cm_summary x with
      | XReturned, None =>
          if all_stopped pg
          then Some (mkCMain pg XReturned (cm_lines x)
                 (Some (mkSummary (pg_produced pg) (svc_NextOffset (pg_log pg)) ((fun c => c_live c.1) <$> pg_cons pg))))
          else None
      | _, _ => None
      end
  end.

Fixpoint cmain_run (es : list cmain_event) (x : cmain M) : option (cmain M) :=
  match es with
  | [] => Some x
  | e :: es' => match cmain_step e x with Some y => cmain_run es' y | None => None end
  end.
End CMain.

(** ** When the consumers have returned *)

Definition total : Z := numProducers * eventsPerProducer.

Section CMainInv.
Context {M : Type} {HL : LogService M} {Hok : LogServiceOk M}.
Variable m0 : M.
Hypothesis Hm0 : svc_rep m0 0 [].

Definition reached (x : program M) : Prop := exists es, prog_run es (prog_start (length consumer_specs) m0) = Some x.

Lemma reached_step e x y : reached x -> prog_step e x = Some y -> reached y.
Proof. intros [es Hr] Hs. exists (es ++ [e]). eapply prog_run_app; [exact Hr|]. cbn. by rewrite Hs. Qed.

Lemma reached_cons x : reached x -> length (pg_cons x) = 2%nat.
Proof. intros [es Hr]. by rewrite (prog_run_length _ _ _ Hr). Qed.

(** Nothing is left to do, and every number is the total. *)
Lemma ended x :
  reached x -> all_stopped x = true ->
  pg_produced x = total /\ svc_NextOffset (pg_log x) = total /\ Forall (fun c => c_live c.1 = total) (pg_cons x) /\
  forall e, prog_step e x = None.
Proof.
  intros [es Hr] Hst.
  assert (forall s evs, (s, evs) ∈ pg_cons x -> c_phase s = CStop None) as Hend.
  { intros s evs Hin. unfold all_stopped in Hst. rewrite forallb_forall in Hst.
    pose proof (Hst (s, evs) (proj1 (list_elem_of_In _ _) Hin)) as Hs. unfold stopped in Hs. cbn in Hs.
    destruct (c_phase s) as [| | |[e|]] eqn:Hph; try done.
    by destruct (proj1 (prog_finishes HL Hok 2 m0 es x Hm0 Hr) s evs e Hin). }
  destruct (prog_exact HL Hok 2 m0 es x Hm0 ltac:(lia) Hr Hend) as (tags & _ & Hp & Hh & _ & Hall).
  split_and!; [done|done| |].
  { apply Forall_forall. intros [s evs] Hin. by destruct (Hall s evs Hin). }
  destruct (prog_run_inv m0 [] es _ _ (prog_start_inv 2 m0 Hm0) Hr) as [tags' Hi].
  assert (pg_done x = true) as Hd.
  { destruct (lookup_lt_is_Some_2 (pg_cons x) 0) as [[s evs] Hc]; [by rewrite (prog_run_length _ _ _ Hr); cbn; lia|].
    apply (drained_exact m0 x _ s evs Hm0 (pv_log _ _ _ Hi)).
    - by apply (Forall_lookup_1 _ _ _ _ (pv_cons _ _ _ Hi) Hc).
    - by eapply Hend, list_elem_of_lookup_2. }
  pose proof (pv_done _ _ _ Hi Hd) as Hpe.
  intros [p|p| |k]; cbn [prog_step].
  1,2: destruct (pg_prods x !! p) as [[i|i]|] eqn:Hpx; [|done|done];
    rewrite forallb_forall in Hpe;
    by specialize (Hpe _ (proj1 (list_elem_of_In _ _) (list_elem_of_lookup_2 _ _ _ Hpx))).
  - by rewrite Hd, andb_false_r.
  - destruct (pg_cons x !! k) as [[s evs]|] eqn:Hk; [|done]. unfold consume.
    by rewrite (Hend s evs (list_elem_of_lookup_2 _ _ _ Hk)).
Qed.

(** ** Invariant of [main] *)

Definition final_line : metrics_line := mkLine total total [(total, 0); (total, 0)].
Definition final_summary : summary_text := mkSummary total total [total; total].

Definition metrics_inv (x : cmain M) : Prop :=
  match cm_metrics x with
  | XSelect | XHead false _ => True
  | XHead true h => all_stopped (cm_prog x) = true /\ h = total
  | XOffsets final h p acc =>
      (length acc <= 2)%nat /\
      (final = true -> all_stopped (cm_prog x) = true /\ h = total /\ p = total /\ acc = replicate (length acc) (total, 0))
  | XReturned => all_stopped (cm_prog x) = true /\ last (cm_lines x) = Some final_line
  end.

Record cmain_inv (x : cmain M) : Prop := {
  cmv_prog : reached (cm_prog x);
  cmv_metrics : metrics_inv x;
  cmv_summary : forall s, cm_summary x = Some s -> s = final_summary /\ cm_metrics x = XReturned
}.

Lemma cmain_start_inv : cmain_inv (cmain_start m0).
Proof. split; [by exists []|done|done]. Qed.

Lemma lag_zero : metrics_lag total total = 0.
Proof. reflexivity. Qed.

Lemma two_totals (cs : list (consumer * list (Z * list byte))) :
  length cs = 2%nat -> Forall (fun c => c_live c.1 = total) cs -> (fun c => c_live c.1) <$> cs = [total; total].
Proof.
  destruct cs as [|a [|b [|]]]; try done. intros _ Hall. inversion Hall as [|? ? Ha Hb]; subst.
  inversion Hb as [|? ? Hb' _]; subst. cbn. by rewrite Ha, Hb'.
Qed.

Lemma cmain_load_inv x y : cmain_inv x -> metrics_load x = Some y -> cmain_inv y.
Proof.
  intros [Hr Hm Hs] Hl. unfold metrics_load in Hl. unfold metrics_inv in Hm.
  assert (cm_metrics x <> XReturned -> cm_summary x = None) as Hnone.
  { intros Hne. destruct (cm_summary x) as [s|] eqn:E; [|done]. by destruct (Hs s eq_refl). }
  destruct (cm_metrics x) as [|final h|final h p acc|] eqn:Hph; [done| | |done].
  - injection Hl as <-. rewrite Hnone by done. split; cbn; [done| |done]. unfold metrics_inv. cbn. split; [lia|].
    intros ->. destruct Hm as [Hst ->]. destruct (ended _ Hr Hst) as (-> & _). done.
  - rewrite Hnone in Hl by done. destruct Hm as [Hlen Hm].
    destruct (pg_cons (cm_prog x) !! length acc) as [c|] eqn:Hc; injection Hl as <-; (split; cbn; [done| |done]); unfold metrics_inv; cbn.
    + pose proof (lookup_lt_Some _ _ _ Hc) as Hlt. rewrite (reached_cons _ Hr) in Hlt. rewrite length_app. cbn [length].
      split; [lia|]. intros Hf. destruct (Hm Hf) as (Hst & -> & -> & Hacc). split_and!; [done..|].
      destruct (ended _ Hr Hst) as (_ & _ & Hall & _). rewrite (Forall_lookup_1 _ _ _ _ Hall Hc), lag_zero.
      rewrite Nat.add_1_r, replicate_S_end. by rewrite <- Hacc.
    + apply lookup_ge_None in Hc. rewrite (reached_cons _ Hr) in Hc. destruct final; [|done].
      destruct (Hm eq_refl) as (Hst & -> & -> & ->). split; [done|]. rewrite last_snoc.
      by replace (length acc) with 2%nat by lia.
Qed.

Lemma cmain_step_inv e x y : cmain_inv x -> cmain_step e x = Some y -> cmain_inv y.
Proof.
  intros Hi Hs. pose proof Hi as [Hr Hm Hsm]. destruct e as [e| | | |]; cbn [cmain_step] in Hs.
  - destruct (prog_step e (cm_prog x)) as [pg|] eqn:Hp; [|done]. injection Hs as <-.
    assert (all_stopped (cm_prog x) = true -> False) as Hno.
    { intros Hst. destruct (ended _ Hr Hst) as (_ & _ & _ & Hq). by rewrite Hq in Hp. }
    split; cbn; [by eapply reached_step| |done]. unfold metrics_inv in *. cbn.
    destruct (cm_metrics x) as [|[] h|[] h p acc|]; try done; destruct Hm as [Hst Hm].
    + by destruct (Hno Hst).
    + by destruct (Hno (proj1 (Hm eq_refl))).
    + by split.
    + by destruct (Hno Hst).
  - destruct (cm_metrics x) eqn:Hph; try done. injection Hs as <-. split; cbn; [done|done|].
    intros s Hs0. by destruct (Hsm s Hs0).
  - destruct (cm_metrics x) eqn:Hph; try done. destruct (all_stopped (cm_prog x)) eqn:Hst; [|done]. injection Hs as <-.
    split; cbn; [done| |intros s Hs0; by destruct (Hsm s Hs0)]. split; [done|]. by destruct (ended _ Hr Hst) as (_ & -> & _).
  - by eapply cmain_load_inv.
  - destruct (cm_metrics x) eqn:Hph; try done. destruct (cm_summary x); [done|].
    destruct (all_stopped (cm_prog x)) eqn:Hst; [|done]. injection Hs as <-. unfold metrics_inv in Hm. rewrite Hph in Hm.
    split; cbn; [done|done|]. intros s [= <-]. split; [|done]. destruct (ended _ Hr Hst) as (-> & -> & Hall & _).
    unfold final_summary. by rewrite (two_totals _ (reached_cons _ Hr) Hall).
Qed.

Lemma cmain_run_inv es x y : cmain_inv x -> cmain_run es x = Some y -> cmain_inv y.
Proof.
  revert x. induction es as [|e es IH]; intros x Hi Hr; [by injection Hr as <-|]. cbn [cmain_run] in Hr.
  destruct (cmain_step e x) as [x1|] eqn:Hs; [|done]. eapply IH; [by eapply cmain_step_inv|done].
Qed.

(** ** It returns *)

Definition cm_leads (x : cmain M) (P : cmain M -> Prop) : Prop := exists es y, cmain_run es x = Some y /\ P y.

Lemma cm_leads_here (x : cmain M) (P : cmain M -> Prop) : P x -> cm_leads x P.
Proof. by exists [], x. Qed.

Lemma cm_leads_step e (x y : cmain M) P : cmain_step e x = Some y -> cm_leads y P -> cm_leads x P.
Proof. intros Hs (es & z & Hr & Hz). exists (e :: es), z. cbn [cmain_run]. by rewrite Hs. Qed.

Lemma cmain_run_app es es' (x y : cmain M) : cmain_run es x = Some y -> cmain_run (es ++ es') x = cmain_run es' y.
Proof.
  revert x. induction es as [|e es IH]; intros x Hr; [by injection Hr as <-|]. cbn [cmain_run app] in *.
  destruct (cmain_step e x) as [x1|]; [|done]. by apply IH.
Qed.

Lemma cm_leads_trans (x : cmain M) (P Q : cmain M -> Prop) : cm_leads x P -> (forall y, P y -> cm_leads y Q) -> cm_leads x Q.
Proof.
  intros (es & y & Hr & Hy) Hpq. destruct (Hpq y Hy) as (es' & z & Hr' & Hz). exists (es ++ es'), z.
  by rewrite (cmain_run_app _ _ _ _ Hr).
Qed.

(** The goroutines under [main] run on their own. *)
Lemma cm_leads_prog es x pg :
  prog_run es (cm_prog x) = Some pg -> cm_leads x (fun y => y = mkCMain pg (cm_metrics x) (cm_lines x) (cm_summary x)).
Proof.
  revert x. induction es as [|e es IH]; intros x Hr.
  { injection Hr as <-. apply cm_leads_here. by destruct x. }
  cbn [prog_run] in Hr. destruct (prog_step e (cm_prog x)) as [pg1|] eqn:Hs; [|done].
  eapply (cm_leads_step (XProg e)); [cbn [cmain_step]; by rewrite Hs|]. by apply (IH (mkCMain pg1 _ _ _)).
Qed.

Definition settled (x : cmain M) : Prop := cmain_inv x /\ all_stopped (cm_prog x) = true.

Lemma settled_load x y : settled x -> metrics_load x = Some y -> settled y.
Proof.
  intros [Hi Hst] Hl. split; [by eapply cmain_load_inv|]. unfold metrics_load in Hl.
  repeat case_match; simplify_eq; done.
Qed.

(** A line that was begun gets printed. *)
Lemma cm_leads_offsets n final h p acc x :
  settled x -> cm_metrics x = XOffsets final h p acc -> (2 - length acc = n)%nat ->
  cm_leads x (fun y => settled y /\ cm_metrics y = if final then XReturned else XSelect).
Proof.
  revert x acc. induction n as [|n IH]; intros x acc Hx Hph Hn; pose proof Hx as [Hi Hst];
    pose proof (cmv_metrics _ Hi) as Hm; unfold metrics_inv in Hm; rewrite Hph in Hm; destruct Hm as [Hle _];
    pose proof (reached_cons _ (cmv_prog _ Hi)) as Hc2.
  - assert (metrics_load x = Some (mkCMain (cm_prog x) (if final then XReturned else XSelect)
      (cm_lines x ++ [mkLine p h acc]) (cm_summary x))) as Hl.
    { unfold metrics_load. rewrite Hph, lookup_ge_None_2; [done|lia]. }
    eapply (cm_leads_step XLoad); [exact Hl|]. apply cm_leads_here. split; [by eapply settled_load|done].
  - destruct (lookup_lt_is_Some_2 (pg_cons (cm_prog x)) (length acc)) as [c Hc]; [lia|].
    assert (metrics_load x = Some (mkCMain (cm_prog x) (XOffsets final h p (acc ++ [(c_live c.1, metrics_lag h (c_live c.1))]))
      (cm_lines x) (cm_summary x))) as Hl by (unfold metrics_load; by rewrite Hph, Hc).
    eapply (cm_leads_step XLoad); [exact Hl|]. eapply IH; [by eapply settled_load|done|]. rewrite length_app. cbn. lia.
Qed.

Lemma cm_leads_head final h x :
  settled x -> cm_metrics x = XHead final h ->
  cm_leads x (fun y => settled y /\ cm_metrics y = if final then XReturned else XSelect).
Proof.
  intros Hx Hph. assert (metrics_load x = Some (mkCMain (cm_prog x) (XOffsets final h (pg_produced (cm_prog x)) [])
    (cm_lines x) (cm_summary x))) as Hl by (unfold metrics_load; by rewrite Hph).
  eapply (cm_leads_step XLoad); [exact Hl|]. by eapply cm_leads_offsets; [by eapply settled_load| |].
Qed.

Lemma cm_leads_returned x : settled x -> cm_leads x (fun y => settled y /\ cm_metrics y = XReturned).
Proof.
  intros Hx. assert (forall y, settled y /\ cm_metrics y = XSelect -> cm_leads y (fun z => settled z /\ cm_metrics z = XReturned)) as Hsel.
  { intros y [[Hi Hst] Hph].
    assert (cmain_step XFinished y = Some (mkCMain (cm_prog y) (XHead true (svc_NextOffset (pg_log (cm_prog y)))) (cm_lines y) (cm_summary y))) as Hs
      by (cbn [cmain_step]; by rewrite Hph, Hst).
    eapply cm_leads_step; [exact Hs|]. eapply (cm_leads_head true); [split; [by eapply cmain_step_inv|done]|done]. }
  destruct (cm_metrics x) as [|final h|final h p acc|] eqn:Hph.
  - by apply Hsel.
  - eapply cm_leads_trans; [by eapply cm_leads_head|]. intros y [Hy Hm]. destruct final; [by apply cm_leads_here|by apply Hsel].
  - eapply cm_leads_trans; [by eapply cm_leads_offsets|]. intros y [Hy Hm]. destruct final; [by apply cm_leads_here|by apply Hsel].
  - by apply cm_leads_here.
Qed.

Lemma cmain_returns x : cmain_inv x -> cm_leads x (fun y => is_Some (cm_summary y)).
Proof.
  intros Hi. pose proof (cmv_prog _ Hi) as [es Hr].
  destruct (proj2 (prog_finishes HL Hok 2 m0 es _ Hm0 Hr)) as (es' & pg & Hr' & Hend).
  destruct (cm_leads_prog es' x pg Hr') as (fs & y & Hf & ->). assert (settled (mkCMain pg (cm_metrics x) (cm_lines x) (cm_summary x))) as Hy.
  { split; [by eapply cmain_run_inv|]. cbn. apply forallb_forall. intros [s evs] Hin%list_elem_of_In.
    unfold stopped. cbn. by rewrite (Hend s evs Hin). }
  assert (cm_leads x settled) as Hx by (by exists fs; eexists). eapply cm_leads_trans; [exact Hx|]. intros y Hs.
  eapply cm_leads_trans; [by apply cm_leads_returned|]. intros z [[Hz Hst] Hph].
  destruct (cm_summary z) as [sm|] eqn:Hsm; [apply cm_leads_here; by rewrite Hsm|].
  eapply (cm_leads_step XMain); [cbn [cmain_step]; by rewrite Hph, Hsm, Hst|]. by apply cm_leads_here.
Qed.
End CMainInv.

(** C29. The concurrent demonstration reports what happened.  On the log it
    opens (segments of 256 bytes), with its three producers and two consumers
    and the metrics goroutine reading their counters while they run, in every
    interleaving: when [main] prints its summary, the summary and the last
    metrics line show all 60 events produced, the head at 60 and both consumers
    at offset 60 with no lag; and from every state [main] can go on to that
    point, so neither the metrics goroutine nor the waits can block it. *)
Theorem concurrent_main_reports oio t (Hio : forall b, sg_ok (oio b)) :
  exists m, concurrent_open None oio = Some (Ok m) /\
    forall es x, cmain_run es (cmain_start (mkLive m (oio 0) sync_io_ok t)) = Some x ->
      (forall s, cm_summary x = Some s -> s = final_summary /\ last (cm_lines x) = Some final_line) /\
      exists es' y, cmain_run es' x = Some y /\ is_Some (cm_summary y).
Proof.
  destruct (Open_fresh NewCRC32C oio concurrent_cfg (mkDir ∅ [])) as (m & Hopen & Hm & He & _ & Herr); try done.
  { intros n [f Hf]. cbn in Hf. by apply lookup_empty_Some in Hf. }
  assert (svc_rep (mkLive m (oio 0) sync_io_ok t) 0 []) as Hrep.
  { split; [exists NewCRC32C, [[]]; split; [apply _|by split]|]. split_and!; try done. apply Hio. }
  exists m. split; [done|]. intros es x Hr.
  pose proof (cmain_run_inv _ Hrep es _ _ (cmain_start_inv _) Hr) as Hi. split.
  - intros s Hs. destruct (cmv_summary _ _ Hi s Hs) as [-> Hph]. split; [done|].
    pose proof (cmv_metrics _ _ Hi) as Hmx. unfold metrics_inv in Hmx. rewrite Hph in Hmx. apply Hmx.
  - by eapply cmain_returns.
Qed.

Lemma concurrent_main_reports_witness :
  exists m es y, concurrent_open None (fun _ => ex_sgio) = Some (Ok m) /\
    cmain_run es (cmain_start (mkLive m ex_sgio sync_io_ok 5)) = Some y /\ is_Some (cm_summary y).
Proof.
  destruct (concurrent_main_reports (fun _ => ex_sgio) 5) as (m & Ho & Hall); [done|].
  destruct (proj2 (Hall [] _ eq_refl)) as (es & y & Hr & Hs). exists m, es, y. split; [exact Ho|]. split; [exact Hr|exact Hs].
Defined.
