(* ===== verification/ServerNet.v ===== *)
(** * ServerNet: many connections at once

    [internal/network/server.go] handles each connection in a goroutine of its
    own.  [conn_step] is the part of [handleConn] between two interactions
    with the shared log: one request, or one record of a stream.  [net_step]
    interleaves the connections.  The abstract server [abs_step] serves whole
    requests and stream records against one list of records; the concrete one
    refines it. *)

From Stdlib Require Import ZArith Lia Strings.String.
From stdpp Require Import base list list_numbers numbers option gmap sorting.
From coqutil Require Import Byte.
From S2P Require Import Prelude Bytes Wal WalFormat Crash MgrProps Service Protocol Server.

Local Open Scope Z_scope.

(** Where a handler is: waiting for a request, streaming from [o], returned. *)
Inductive hpc :=
| HIdle
| HStream (o : Z)
| HClosed.

Definition after_write (r : outcome * conn) (h : hpc) : hpc * conn :=
  match r with
  | (Some _, c) => (HClosed, c)
  | (None, c) => (h, c)
  end.

Section Net.
Context {M : Type} `{LogServiceOk M}.
Context (render : error -> list byte) (cfg : ServerConfig).

Definition conn_step (m : M) (h : hpc) (c : conn) : option (M * (hpc * conn)) :=
  match h with
  | HClosed => None
  | HIdle =>
      let '(derr, c0) := if 0 <? IdleTimeout cfg then conn_deadline c else (None, c) in
      match derr with
      | Some _ => Some (m, (HClosed, c0))
      | None =>
          match ReadRequest c0 with
          | (Err _, c1) => Some (m, (HClosed, c1))
          | (Ok req, c1) =>
              if decide (Op req = OpStreamRead) then
                if negb (zlen (req_Payload req) =? 8) then
                  Some (m, after_write
                    (writeResponse cfg (errorResponse (bytes_of "stream-read requires 8-byte offset")) c1) HIdle)
                else Some (m, (HStream (Uint64 (req_Payload req)), c1))
              else
                match dispatch render req m with
                | None => None
                | Some (resp, m') => Some (m', after_write (writeResponse cfg resp c1) HIdle)
                end
          end
      end
  | HStream offset =>
      match svc_ReadAt offset m with
      | None => None
      | Some (Err e) =>
          Some (m, after_write
            (writeResponse cfg (if is_EOF e then mkResponse StatusStreamEnd [] else errorResponse (render e)) c) HIdle)
      | Some (Ok data) =>
          Some (m, after_write (writeResponse cfg (mkResponse StatusOK data) c) (HStream (u64 (offset + 1))))
      end
  end.

(** Run one handler alone until it returns. *)
Fixpoint conn_run (fuel : nat) (m : M) (h : hpc) (c : conn) : option (M * conn) :=
  match fuel with
  | O => None
  | S fuel' =>
      match h with
      | HClosed => Some (m, c)
      | _ =>
          match conn_step m h c with
          | None => None
          | Some (m', (h', c')) => conn_run fuel' m' h' c'
          end
      end
  end.

(** ** Connections side by side *)

Record net := mkNet { nt_log : M; nt_conns : gmap nat (hpc * conn) }.

(** A client that sends [reqs] and closes its side. *)
Definition client_conn (reqs : list Request) : conn := mkConn (encode_requests reqs) EOF [] [] [].

Inductive net_step : net -> net -> Prop :=
| nt_accept m cs k reqs :
    cs !! k = None -> Forall (fun r => frame_ok (req_Payload r)) reqs ->
    net_step (mkNet m cs) (mkNet m (<[k := (HIdle, client_conn reqs)]> cs))
| nt_handle m cs k h c m' h' c' :
    cs !! k = Some (h, c) -> conn_step m h c = Some (m', (h', c')) -> svc_NextOffset m + 1 < 2 ^ 64 ->
    net_step (mkNet m cs) (mkNet m' (<[k := (h', c')]> cs))
| nt_retain m cs m' b n log :
    svc_rep m b log -> svc_rep m' (b + Z.of_nat n) (drop n log) -> (n <= length log)%nat ->
    net_step (mkNet m cs) (mkNet m' cs).

Inductive net_steps : net -> net -> Prop :=
| nt_refl x : net_steps x x
| nt_trans x y z : net_steps x y -> net_step y z -> net_steps x z.

(** ** The abstract server *)

(** A connection: the requests to come, the offset of the stream being sent,
    the responses so far. *)
Record aconn := mkAconn {
  ac_reqs : list Request;
  ac_stream : option Z;
  ac_out : list Response;
  ac_open : bool
}.

Record aserver := mkAserver {
  as_base : Z;
  as_log : list (list byte);
  as_conns : gmap nat aconn
}.

(** One request, or one record of a stream. *)
Definition abs_conn (b : Z) (log : list (list byte)) (a : aconn) : aconn * list (list byte) :=
  match ac_stream a with
  | Some o =>
      (match read_spec b log o with
       | Ok d => mkAconn (ac_reqs a) (Some (u64 (o + 1))) (ac_out a ++ [mkResponse StatusOK d]) true
       | Err e => mkAconn (ac_reqs a) None
                    (ac_out a ++ [if is_EOF e then mkResponse StatusStreamEnd [] else errorResponse (render e)]) true
       end, log)
  | None =>
      match ac_reqs a with
      | [] => (mkAconn [] None (ac_out a) false, log)
      | req :: reqs =>
          if bool_decide (Op req = OpStreamRead) && (zlen (req_Payload req) =? 8) then
            (mkAconn reqs (Some (Uint64 (req_Payload req))) (ac_out a) true, log)
          else
            let '(rs, log') := serve render b log req in
            (mkAconn reqs None (ac_out a ++ rs) true, log')
      end
  end.

Inductive abs_step : aserver -> aserver -> Prop :=
| ab_accept b log cs k reqs :
    cs !! k = None ->
    abs_step (mkAserver b log cs) (mkAserver b log (<[k := mkAconn reqs None [] true]> cs))
| ab_handle b log cs k a a' log' :
    cs !! k = Some a -> ac_open a = true -> abs_conn b log a = (a', log') ->
    abs_step (mkAserver b log cs) (mkAserver b log' (<[k := a']> cs))
| ab_retain b log cs n :
    (n <= length log)%nat ->
    abs_step (mkAserver b log cs) (mkAserver (b + Z.of_nat n) (drop n log) cs).

Inductive abs_steps : aserver -> aserver -> Prop :=
| ab_refl x : abs_steps x x
| ab_trans x y z : abs_steps x y -> abs_step y z -> abs_steps x z.

(** ** Simulation *)

Record conn_rel (hc : hpc * conn) (a : aconn) : Prop := {
  cr_clean : clean hc.2;
  cr_end : c_end hc.2 = EOF;
  cr_in : c_in hc.2 = encode_requests (ac_reqs a);
  cr_ok : Forall (fun r => frame_ok (req_Payload r)) (ac_reqs a);
  cr_out : c_out hc.2 = encode_responses (ac_out a);
  cr_pc : match hc.1 with
          | HIdle => ac_open a = true /\ ac_stream a = None
          | HStream o => ac_open a = true /\ ac_stream a = Some o /\ is_u64 o
          | HClosed => ac_open a = false /\ ac_stream a = None /\ ac_reqs a = []
          end
}.

Definition sim (x : net) (a : aserver) : Prop :=
  svc_rep (nt_log x) (as_base a) (as_log a) /\
  forall k, match nt_conns x !! k, as_conns a !! k with
            | Some hc, Some ac => conn_rel hc ac
            | None, None => True
            | _, _ => False
            end.

Lemma sim_init m b log : svc_rep m b log -> sim (mkNet m ∅) (mkAserver b log ∅).
Proof. intros Hm. split; [done|]. intros k. cbn. by rewrite !lookup_empty. Qed.

Lemma sim_conns x m b log a k hc ac :
  sim x a -> svc_rep m b log -> conn_rel hc ac ->
  sim (mkNet m (<[k := hc]> (nt_conns x))) (mkAserver b log (<[k := ac]> (as_conns a))).
Proof.
  intros [_ Hc] Hm Hr. split; [done|]. intros k'. cbn. destruct (decide (k = k')) as [->|Hne].
  - by rewrite !lookup_insert_eq.
  - rewrite !lookup_insert_ne by done. apply Hc.
Qed.

(** Sending a response keeps the connections related. *)
Lemma conn_rel_sent c reqs out stream h rs :
  clean c -> c_end c = EOF -> c_in c = encode_requests reqs ->
  Forall (fun r => frame_ok (req_Payload r)) reqs -> c_out c = encode_responses out ->
  match h with
  | HIdle => stream = None
  | HStream o => stream = Some o /\ is_u64 o
  | HClosed => False
  end ->
  conn_rel (h, sent (encode_responses rs) c) (mkAconn reqs stream (out ++ rs) true).
Proof.
  intros Hc He Hi Hf Ho Hh. split; try done.
  - cbn [snd sent c_out ac_out]. by rewrite Ho, encode_responses_app.
  - cbn. destruct h; [done|by destruct Hh|done].
Qed.

(** What [ReadRequest] finds. *)
Lemma read_request_cons c req reqs :
  c_in c = encode_requests (req :: reqs) -> frame_ok (req_Payload req) ->
  ReadRequest c = (Ok req, set_in (encode_requests reqs) c).
Proof.
  intros Hin Hok. assert (c_in c = encode_request req ++ encode_requests reqs) as Hin' by done.
  unfold ReadRequest, encode_request in *. rewrite (read_frame_app _ _ _ _ _ _ Hok Hin'). by destruct req.
Qed.

(** One step of a handler is one step of the abstract connection. *)
Lemma conn_step_sim m b log h c a m' h' c' :
  svc_rep m b log -> conn_rel (h, c) a -> b + zlen log + 1 < 2 ^ 64 ->
  conn_step m h c = Some (m', (h', c')) ->
  ac_open a = true /\ conn_rel (h', c') (abs_conn b log a).1 /\ svc_rep m' b (abs_conn b log a).2.
Proof.
  intros Hm [Hc He Hi Hf Ho Hpc] Hn Hrun. cbn [fst snd] in *.
  destruct (svc_range _ _ _ Hm) as [Hb0 Hb1]. destruct h as [|o|]; [| |done].
  - destruct Hpc as [Hop Hst]. split; [done|]. unfold abs_conn. rewrite Hst.
    unfold conn_step in Hrun.
    assert ((if 0 <? IdleTimeout cfg then conn_deadline c else (None, c)) = (None, c)) as Hdl
      by (case_if; [by apply conn_deadline_clean|done]).
    rewrite Hdl in Hrun. destruct (ac_reqs a) as [|req reqs].
    { unfold ReadRequest, read_frame, read_full in Hrun. rewrite Hi in Hrun. cbn in Hrun.
      injection Hrun as <- <- <-. split; [|done]. by split. }
    apply Forall_cons in Hf as [Hreq Hf]. rewrite (read_request_cons c req reqs Hi Hreq) in Hrun.
    set (c1 := set_in (encode_requests reqs) c) in *.
    destruct (decide (Op req = OpStreamRead)) as [Hs|Hs].
    + rewrite bool_decide_true by done. destruct (zlen (req_Payload req) =? 8) eqn:Hl; cbn [negb andb] in *.
      * injection Hrun as <- <- <-. split; [|done]. split; try done. cbn. split_and!; try done. apply Uint64_range.
      * rewrite writeResponse_clean in Hrun by done. injection Hrun as <- <- <-.
        unfold serve. rewrite decide_True by done. rewrite Hl. cbn [negb fst snd].
        split; [|done]. rewrite <- encode_responses_one. by apply conn_rel_sent.
    + rewrite bool_decide_false by done. cbn [andb].
      destruct (dispatch_run render m b log req Hm Hs Hreq Hn) as (resp & m1 & Hd & Hr & Hm1).
      rewrite Hd, writeResponse_clean in Hrun by done. injection Hrun as <- <- <-.
      destruct (serve render b log req) as [rs log']. cbn [fst snd] in *. subst rs.
      split; [|done]. rewrite <- encode_responses_one. by apply conn_rel_sent.
  - destruct Hpc as (Hop & Hst & Hu). split; [done|]. unfold abs_conn. rewrite Hst.
    unfold conn_step in Hrun. rewrite (svc_read_ok _ _ _ _ Hm Hu) in Hrun.
    destruct (read_spec b log o) as [d|e] eqn:Hrd;
      rewrite writeResponse_clean in Hrun by done; injection Hrun as <- <- <-;
      (split; [|done]); cbn [fst]; rewrite <- encode_responses_one; apply conn_rel_sent; try done.
    split; [done|]. apply u64_range.
Qed.

Lemma net_step_sim x y a : sim x a -> net_step x y -> exists a', abs_step a a' /\ sim y a'.
Proof.
  intros [Hm Hc] Hstep. destruct a as [b log acs]. cbn [nt_log as_base as_log] in Hm.
  destruct Hstep as [m cs k reqs Hk Hr|m cs k h c m' h' c' Hk Hrun Hn|m cs m' b' n log' Hm1 Hm2 Hle];
    cbn [nt_log] in *.
  - eexists. split; [apply (ab_accept b log acs k reqs)|].
    + specialize (Hc k). cbn in Hc. rewrite Hk in Hc. by destruct (acs !! k).
    + apply (sim_conns (mkNet m cs) m b log (mkAserver b log acs)); [by split|done|]. by split.
  - pose proof (Hc k) as Hck. cbn in Hck. rewrite Hk in Hck. destruct (acs !! k) as [ac|] eqn:Hac; [|done].
    rewrite (svc_next_ok _ _ _ Hm) in Hn.
    destruct (conn_step_sim m b log h c ac m' h' c' Hm Hck Hn Hrun) as (Hop & Hr & Hm').
    destruct (abs_conn b log ac) as [ac' log'] eqn:Ha. cbn [fst snd] in *.
    eexists. split; [by apply (ab_handle b log acs k ac ac' log')|].
    by apply (sim_conns (mkNet m cs) m' b log' (mkAserver b log acs)).
  - destruct (svc_rep_unique _ _ _ _ _ Hm Hm1) as [-> ->].
    eexists. split; [by apply (ab_retain b' log' acs n)|]. by split.
Qed.

(** ** One handler alone *)

Lemma conn_run_mono n m h c r : conn_run n m h c = Some r -> conn_run (S n) m h c = Some r.
Proof.
  revert m h c. induction n as [|n IH]; intros m h c Hrun; [done|].
  cbn [conn_run] in Hrun. change (conn_run (S (S n)) m h c) with
    (match h with HClosed => Some (m, c) | _ => match conn_step m h c with None => None
       | Some (m', (h', c')) => conn_run (S n) m' h' c' end end).
  destruct h; try done; destruct (conn_step m _ c) as [[m' [h' c']]|]; try done; by apply IH.
Qed.

Lemma conn_run_closed m c : conn_run 1 m HClosed c = Some (m, c).
Proof. done. Qed.

(** A step, then the rest of the run. *)
Lemma conn_run_cons n m h c m' h' c' r :
  conn_step m h c = Some (m', (h', c')) -> conn_run n m' h' c' = Some r -> conn_run (S n) m h c = Some r.
Proof. intros Hs Hr. cbn [conn_run]. destruct h; try done; by rewrite Hs. Qed.

(** The stream loop in steps: it ends at the next request, or with the
    connection. *)
Lemma stream_loop_steps fuel offset m c err c' :
  stream_loop render fuel cfg offset m c = Some (err, c') ->
  forall n r, conn_run n m (match err with None => HIdle | Some _ => HClosed end) c' = Some r ->
  exists n', conn_run n' m (HStream offset) c = Some r.
Proof.
  revert offset c. induction fuel as [|fuel IH]; intros offset c Hrun n r Hr; [done|].
  cbn [stream_loop] in Hrun. destruct (svc_ReadAt offset m) as [[data|e]|] eqn:Hrd; [| |done].
  - destruct (writeResponse cfg (mkResponse StatusOK data) c) as [[e|] c1] eqn:Hw.
    + injection Hrun as <- <-. exists (S n). eapply conn_run_cons; [|done]. cbn. by rewrite Hrd, Hw.
    + destruct (IH _ _ Hrun n r Hr) as [n' Hn']. exists (S n'). eapply conn_run_cons; [|done].
      cbn. by rewrite Hrd, Hw.
  - exists (S n). destruct (is_EOF e) eqn:He; injection Hrun as Hw; destruct err;
      (eapply conn_run_cons; [unfold conn_step; rewrite Hrd, He, Hw; reflexivity|done]).
Qed.

Lemma handleConn_steps fuel m c m' c' :
  handleConn render fuel cfg m c = Some (m', c') -> exists n, conn_run n m HIdle c = Some (m', c').
Proof.
  revert m c. induction fuel as [|fuel IH]; intros m c Hrun; [done|]. cbn [handleConn] in Hrun.
  destruct (if 0 <? IdleTimeout cfg then conn_deadline c else (None, c)) as [derr c0] eqn:Hd.
  assert (forall n r x, conn_step m HIdle c = Some x -> conn_run n x.1 x.2.1 x.2.2 = Some r ->
    exists n', conn_run n' m HIdle c = Some r) as Hcons.
  { intros n r [m1 [h1 c1]] Hs Hr. exists (S n). by eapply conn_run_cons. }
  destruct derr as [e|].
  { injection Hrun as <- <-. eapply (Hcons 1%nat); [unfold conn_step; by rewrite Hd|done]. }
  destruct (ReadRequest c0) as [[req|e] c1] eqn:Hrq.
  2:{ injection Hrun as <- <-. eapply (Hcons 1%nat); [unfold conn_step; by rewrite Hd, Hrq|done]. }
  destruct (decide (Op req = OpStreamRead)) as [Hs|Hs].
  - destruct (handleStreamRead render cfg (req_Payload req) m c1) as [[err c2]|] eqn:Hst; [|done].
    assert (exists n, conn_run n m (match err with None => HIdle | Some _ => HClosed end) c2 = Some (m', c'))
      as [n Hn] by (destruct err; [injection Hrun as <- <-; by exists 1%nat|by apply IH]).
    unfold handleStreamRead in Hst. destruct (negb (zlen (req_Payload req) =? 8)) eqn:Hl.
    + injection Hst as Hw. destruct err;
        (eapply (Hcons n); [unfold conn_step; rewrite Hd, Hrq, decide_True, Hl, Hw by done; reflexivity|done]).
    + destruct (stream_loop_steps _ _ _ _ _ _ Hst n _ Hn) as [n' Hn'].
      eapply (Hcons n'); [unfold conn_step; rewrite Hd, Hrq, decide_True, Hl by done; reflexivity|done].
  - destruct (dispatch render req m) as [[resp m1]|] eqn:Hdis; [|done].
    destruct (writeResponse cfg resp c1) as [[e|] c2] eqn:Hw.
    + injection Hrun as <- <-.
      eapply (Hcons 1%nat); [unfold conn_step; rewrite Hd, Hrq, decide_False, Hdis, Hw by done; reflexivity|done].
    + destruct (IH _ _ Hrun) as [n Hn].
      eapply (Hcons n); [unfold conn_step; rewrite Hd, Hrq, decide_False, Hdis, Hw by done; reflexivity|done].
Qed.

Lemma net_steps_sim x y a : sim x a -> net_steps x y -> exists a', abs_steps a a' /\ sim y a'.
Proof.
  intros Hs Hsteps. induction Hsteps as [x|x y z _ IH Hstep]; [exists a; split; [constructor|done]|].
  destruct (IH Hs) as (a1 & Ha1 & Hs1). destruct (net_step_sim _ _ _ Hs1 Hstep) as (a2 & Ha2 & Hs2).
  exists a2. split; [by eapply ab_trans|done].
Qed.

(** ** A stream among other connections *)

(** The records sent so far by a stream from [o]: [n] consecutive ones of the
    history [hist], whose first record has offset [b]. *)
Definition stream_sent (b : Z) (hist : list (list byte)) (o : Z) (n : nat) : list Response :=
  mkResponse StatusOK <$> take n (drop (Z.to_nat (o - b)) hist).

(** The last request of connection [a] was a stream from [o], sent when the
    head was [hd] and [out] had been answered. *)
Definition stream_ok (b : Z) (hist : list (list byte)) (o hd : Z) (out : list Response) (a : aconn) : Prop :=
  ac_reqs a = [] /\ exists n tl, ac_out a = out ++ stream_sent b hist o n ++ tl /\
    (n = 0%nat \/ (b <= o /\ (Z.to_nat (o - b) + n <= length hist)%nat)) /\
    match ac_stream a with
    | Some p => p = o + Z.of_nat n /\ tl = []
    | None => (tl = [mkResponse StatusStreamEnd []] /\ hd <= o + Z.of_nat n) \/
              (exists b', tl = [errorResponse (render (OffsetOutOfRetentionError (o + Z.of_nat n) b'))])
    end.

(** The log is what retention left of the history. *)
Definition log_of (b : Z) (hist : list (list byte)) (b' : Z) (log : list (list byte)) : Prop :=
  exists d, (d <= length hist)%nat /\ b' = b + Z.of_nat d /\ log = drop d hist.

Lemma stream_sent_grow b hist l o n :
  (Z.to_nat (o - b) + n <= length hist)%nat -> stream_sent b (hist ++ l) o n = stream_sent b hist o n.
Proof.
  intros Hn. unfold stream_sent. rewrite drop_app_le, take_app_le by (rewrite ?length_drop; lia). done.
Qed.

Lemma stream_ok_grow b hist l o hd out a : stream_ok b hist o hd out a -> stream_ok b (hist ++ l) o hd out a.
Proof.
  intros (Hr & n & tl & Ho & Hn & Hs). split; [done|]. exists n, tl. split_and!; try done.
  - rewrite Ho. destruct Hn as [->|[Hb Hn]]; [done|]. by rewrite stream_sent_grow.
  - rewrite length_app. destruct Hn as [?|[??]]; [by left|right; lia].
Qed.

(** A request appends at most one record. *)
Lemma serve_log b log req : exists l, (serve render b log req).2 = log ++ l.
Proof.
  unfold serve. repeat (destruct (decide _); [try by exists []; rewrite app_nil_r|]);
    try by exists []; rewrite app_nil_r.
  destruct (req_Payload req) as [|x p]; [by exists []; rewrite app_nil_r|by exists [x :: p]].
Qed.

Lemma abs_conn_log b log a : exists l, (abs_conn b log a).2 = log ++ l.
Proof.
  unfold abs_conn. destruct (ac_stream a) as [o|]; [by exists []; rewrite app_nil_r|].
  destruct (ac_reqs a) as [|req reqs]; [by exists []; rewrite app_nil_r|].
  case_match; [by exists []; rewrite app_nil_r|].
  destruct (serve_log b log req) as [l Hl]. exists l. by destruct (serve render b log req).
Qed.

(** The next step of the streaming connection itself. *)
Lemma stream_ok_step b hist b' log o hd out a :
  stream_ok b hist o hd out a -> log_of b hist b' log -> hd <= b + zlen hist ->
  0 <= b -> 0 <= o -> b + zlen hist < 2 ^ 64 ->
  stream_ok b hist o hd out (abs_conn b' log a).1.
Proof.
  intros (Hr & n & tl & Ho & Hn & Hs) (d & Hd & -> & ->) Hhd Hb Hob Hmax.
  unfold abs_conn. destruct (ac_stream a) as [p|] eqn:Hst.
  2:{ rewrite Hr. split; [done|]. by exists n, tl. }
  destruct Hs as [-> ->]. rewrite app_nil_r in Ho. unfold read_spec.
  destruct (Z.ltb_spec (o + Z.of_nat n) (b + Z.of_nat d)) as [Hlt|Hge].
  { split; [done|]. eexists n, _. cbn [fst ac_out ac_stream is_EOF]. rewrite Ho, <- app_assoc.
    split_and!; [done|done|]. right. by eexists. }
  rewrite lookup_drop. destruct (hist !! _) as [x|] eqn:Hx.
  - pose proof (lookup_lt_Some _ _ _ Hx) as Hlt. split; [done|]. exists (S n), [].
    cbn [fst ac_out ac_stream].
    assert (b <= o) by (destruct Hn as [->|[??]]; lia).
    replace (d + Z.to_nat _)%nat with (Z.to_nat (o - b) + n)%nat in * by lia.
    rewrite app_nil_r, Ho, <- app_assoc. split_and!; [|right; lia| |done].
    + f_equal. unfold stream_sent. rewrite (take_S_r _ _ x) by (by rewrite lookup_drop).
      by rewrite fmap_app.
    + rewrite u64_small by (unfold is_u64, zlen in *; lia). lia.
  - apply lookup_ge_None in Hx. split; [done|]. eexists n, _. cbn [fst ac_out ac_stream is_EOF].
    rewrite Ho, <- app_assoc. split_and!; [done|done|]. left. split; [done|]. unfold zlen in *. lia.
Qed.

(** Any step of the server. *)
Lemma abs_step_stream k b hist o hd out x y :
  abs_step x y -> log_of b hist (as_base x) (as_log x) -> hd <= b + zlen hist ->
  0 <= b -> 0 <= o -> b + zlen hist < 2 ^ 64 ->
  (exists a, as_conns x !! k = Some a /\ stream_ok b hist o hd out a) ->
  exists l, log_of b (hist ++ l) (as_base y) (as_log y) /\
    exists a, as_conns y !! k = Some a /\ stream_ok b (hist ++ l) o hd out a.
Proof.
  intros Hstep Hl Hhd Hb Ho Hmax (a & Ha & Hok).
  destruct Hstep as [b' log cs k' reqs Hk'|b' log cs k' a1 a1' log' Hk' Hop Hc|b' log cs n Hn];
    cbn [as_base as_log as_conns] in *.
  - exists []. rewrite app_nil_r. split; [done|]. exists a. split; [|done].
    rewrite lookup_insert_ne by congruence. done.
  - destruct (abs_conn_log b' log a1) as [l Hlog]. rewrite Hc in Hlog. cbn [snd] in Hlog. subst log'.
    exists l. split.
    + destruct Hl as (d & Hd & -> & ->). exists d. rewrite length_app, drop_app_le by lia.
      split_and!; [lia|done|done].
    + destruct (decide (k' = k)) as [->|Hne].
      * rewrite Ha in Hk'. injection Hk' as <-. exists a1'. rewrite lookup_insert_eq. split; [done|]. apply stream_ok_grow.
        replace a1' with (abs_conn b' log a).1 by (by rewrite Hc). by apply stream_ok_step.
      * exists a. rewrite lookup_insert_ne by done. split; [done|]. by apply stream_ok_grow.
  - exists []. rewrite app_nil_r. split; [|by exists a].
    destruct Hl as (d & Hd & -> & ->). rewrite length_drop in Hn. exists (d + n)%nat.
    rewrite drop_drop. split_and!; [lia|lia|f_equal; lia].
Qed.

(** The connection of a stream along a run. *)
Definition streaming (k : nat) (b : Z) (log : list (list byte)) (o : Z) (out : list Response) (y : net) : Prop :=
  exists a hist, sim y a /\ log `prefix_of` hist /\ log_of b hist (as_base a) (as_log a) /\
    exists ak, as_conns a !! k = Some ak /\ stream_ok b hist o (b + zlen log) out ak.

Lemma streaming_steps k b log o out x y :
  0 <= b -> 0 <= o -> net_steps x y -> streaming k b log o out x -> streaming k b log o out y.
Proof.
  intros Hb Ho Hsteps Hx. induction Hsteps as [x|x y z _ IH Hstep]; [done|].
  destruct (IH Hx) as (a & hist & Hs & [l0 ->] & Hl & Hk).
  destruct (net_step_sim _ _ _ Hs Hstep) as (a' & Ha & Hs').
  destruct (svc_range _ _ _ (proj1 Hs)) as [_ Hmax].
  assert (as_base a + zlen (as_log a) = b + zlen (log ++ l0)) as Heq.
  { destruct Hl as (d & Hd & -> & ->). unfold zlen. rewrite length_drop. lia. }
  destruct (abs_step_stream k b (log ++ l0) o (b + zlen log) out a a' Ha Hl) as (l & Hl' & Hk'); try done.
  - rewrite zlen_app. pose proof (zlen_nonneg l0). lia.
  - lia.
  - exists a', ((log ++ l0) ++ l). split_and!; try done. rewrite <- app_assoc. by eexists.
Qed.

(** No handler is stuck: an open connection always has a next step. *)
Lemma conn_step_total m b log h c a :
  svc_rep m b log -> conn_rel (h, c) a -> b + zlen log + 1 < 2 ^ 64 -> h <> HClosed ->
  is_Some (conn_step m h c).
Proof.
  intros Hm [Hc He Hi Hf Ho Hpc] Hn Hh. cbn [fst snd] in *. destruct h as [|o|]; [| |done].
  - unfold conn_step.
    assert ((if 0 <? IdleTimeout cfg then conn_deadline c else (None, c)) = (None, c)) as Hdl
      by (case_if; [by apply conn_deadline_clean|done]).
    rewrite Hdl. destruct (ac_reqs a) as [|req reqs].
    { unfold ReadRequest, read_frame, read_full. rewrite Hi. by eexists. }
    apply Forall_cons in Hf as [Hreq Hf]. rewrite (read_request_cons _ req reqs Hi Hreq).
    case_decide as Hop; [by case_if; eexists|].
    destruct (dispatch_run render m b log req Hm Hop Hreq Hn) as (resp & m1 & -> & _). by eexists.
  - destruct Hpc as (_ & _ & Hu). unfold conn_step. rewrite (svc_read_ok _ _ _ _ Hm Hu).
    case_match; by eexists.
Qed.
End Net.
Arguments net M : clear implicits.

(** C9. Serving many connections at once is linearizable.  Start from a log
    service and accept any number of connections, each with its own requests;
    let their handlers take turns in any order, one request or one stream
    record at a time, with retention in between.  Every such run is a run of
    the abstract server, which answers whole requests from a single list of
    records: the service holds exactly the abstract records and every
    connection has been sent exactly the abstract answers; and every handler
    that has not returned can always continue. *)
Theorem server_concurrent_refines {M} (HL : LogService M) (Hok : LogServiceOk M) render cfg m b log y
  (Hm : svc_rep m b log) (Hsteps : net_steps render cfg (mkNet m ∅) y) :
  exists a, abs_steps render (mkAserver b log ∅) a /\
    svc_rep (nt_log y) (as_base a) (as_log a) /\
    forall k h c, nt_conns y !! k = Some (h, c) ->
      (exists ac, as_conns a !! k = Some ac /\ c_out c = encode_responses (ac_out ac) /\
        ac_open ac = match h with HClosed => false | _ => true end) /\
      (h <> HClosed -> svc_NextOffset (nt_log y) + 1 < 2 ^ 64 -> is_Some (conn_step render cfg (nt_log y) h c)).
Proof.
  destruct (net_steps_sim render cfg _ _ _ (sim_init m b log Hm) Hsteps) as (a & Ha & Hm' & Hc).
  exists a. split_and!; [done|done|]. intros k h c Hk. specialize (Hc k). rewrite Hk in Hc.
  destruct (as_conns a !! k) as [ac|]; [|done]. split.
  - exists ac. destruct Hc as [_ _ _ _ Ho Hpc]. split_and!; [done|done|]. cbn in Hpc. by destruct h; destruct_and?.
  - intros Hh Hn. rewrite (svc_next_ok _ _ _ Hm') in Hn. by eapply conn_step_total.
Qed.

(** Any service: two clients connect, one asks for a stream from 2. *)
Lemma ex_net_run {M} `{LogServiceOk M} (m : M) :
  svc_NextOffset m + 1 < 2 ^ 64 ->
  net_steps ex_render DefaultServerConfig (mkNet m ∅)
    (mkNet m (<[0%nat := (HStream 2, client_conn [])]>
      (<[1%nat := (HIdle, client_conn [mkRequest OpNextOffset []])]>
      (<[0%nat := (HIdle, client_conn [mkRequest OpStreamRead (PutUint64 2)])]> ∅)))).
Proof.
  intros Hn. eapply nt_trans; [eapply nt_trans; [eapply nt_trans; [apply nt_refl|]|]|].
  - apply (nt_accept _ _ m ∅ 0 [mkRequest OpStreamRead (PutUint64 2)]); [done|]. repeat constructor; vm_compute; discriminate.
  - apply (nt_accept _ _ m _ 1 [mkRequest OpNextOffset []]); [by rewrite lookup_insert_ne|]. repeat constructor; vm_compute; discriminate.
  - apply (nt_handle _ _ m _ 0 HIdle (client_conn [mkRequest OpStreamRead (PutUint64 2)]) m);
      [done|vm_compute; reflexivity|done].
Qed.

Lemma ex_live3_next : svc_NextOffset (ex_live ex_mgr3) + 1 < 2 ^ 64.
Proof. vm_compute. reflexivity. Qed.

Lemma server_concurrent_refines_witness :
  exists a ac, abs_steps ex_render (mkAserver 0 [ex_data; ex_data; ex_data] ∅) a /\
    as_conns a !! 0%nat = Some ac /\ ac_open ac = true.
Proof.
  destruct (server_concurrent_refines manager_service manager_service_ok ex_render DefaultServerConfig
              (ex_live ex_mgr3) 0 [ex_data; ex_data; ex_data] _ ex_live3 (ex_net_run _ ex_live3_next))
    as (a & Ha & _ & Hc).
  destruct (Hc 0%nat (HStream 2) (client_conn [])) as [(ac & Hac & _ & Hop) _].
  - reflexivity.
  - exists a, ac. exact (conj Ha (conj Hac Hop)).
Defined.

(** C17. A stream is a contiguous run of the log, whatever else the server
    does.  A connection whose last request is a stream from offset [o] has at
    every later moment been sent, after what it had received before, exactly
    the records at [o], [o + 1], ..., [o + n - 1] of the history of the log,
    with no gap and no repetition, while other connections append and
    retention deletes; and if the stream has ended, it ended either with the
    end marker, having passed every record that was in the log when it
    started, or with the out-of-retention error for exactly the next offset. *)
Theorem server_stream_contiguous {M} (HL : LogService M) (Hok : LogServiceOk M) render cfg x y a k o c ac
  (Hs : sim x a) (Hk : nt_conns x !! k = Some (HStream o, c))
  (Hac : as_conns a !! k = Some ac) (Hlast : ac_reqs ac = []) (Hsteps : net_steps render cfg x y) :
  exists hist b' log' h c' n tl,
    as_log a `prefix_of` hist /\ svc_rep (nt_log y) b' log' /\ log_of (as_base a) hist b' log' /\
    nt_conns y !! k = Some (h, c') /\
    c_out c' = encode_responses (ac_out ac ++ stream_sent (as_base a) hist o n ++ tl) /\
    length (stream_sent (as_base a) hist o n) = n /\
    match h with
    | HStream p => p = o + Z.of_nat n /\ tl = []
    | _ => (tl = [mkResponse StatusStreamEnd []] /\ as_base a + zlen (as_log a) <= o + Z.of_nat n) \/
           (exists b'', tl = [errorResponse (render (OffsetOutOfRetentionError (o + Z.of_nat n) b''))])
    end.
Proof.
  pose proof (proj2 Hs k) as Hc. rewrite Hk, Hac in Hc. destruct Hc as [_ _ _ _ _ (_ & Hst & [Ho _])].
  destruct (svc_range _ _ _ (proj1 Hs)) as [Hb _].
  destruct (streaming_steps render cfg k (as_base a) (as_log a) o (ac_out ac) x y Hb Ho Hsteps)
    as (a' & hist & Hs' & Hp & Hl & ak & Hak & _ & n & tl & Hout & Hn & Htl).
  { exists a, (as_log a). split_and!; [done|done| |].
    - exists 0%nat. split_and!; [lia|lia|done].
    - exists ac. split; [done|]. split; [done|]. exists 0%nat, [].
      split_and!; [by rewrite app_nil_r|by left|]. rewrite Hst. split; [lia|done]. }
  pose proof (proj2 Hs' k) as Hc. rewrite Hak in Hc. destruct (nt_conns y !! k) as [[h c']|] eqn:Hy; [|done].
  destruct Hc as [_ _ _ _ Hco Hpc]. cbn [fst snd] in *.
  exists hist, (as_base a'), (as_log a'), h, c', n, tl. split_and!; try done.
  - apply Hs'.
  - by rewrite Hco, Hout.
  - unfold stream_sent. rewrite length_fmap, length_take, length_drop. destruct Hn as [->|[? ?]]; lia.
  - destruct h as [|p|].
    + by rewrite (proj2 Hpc) in Htl.
    + destruct Hpc as (_ & Hpc & _). by rewrite Hpc in Htl.
    + by rewrite (proj1 (proj2 Hpc)) in Htl.
Qed.

Lemma ex_sim {M} `{LogServiceOk M} (m : M) b log o :
  svc_rep m b log -> is_u64 o ->
  sim (mkNet m {[0%nat := (HStream o, client_conn [])]}) (mkAserver b log {[0%nat := mkAconn [] (Some o) [] true]}).
Proof.
  intros Hm Ho. split; [done|]. intros k. cbn. destruct (decide (k = 0%nat)) as [->|Hk].
  - rewrite !lookup_singleton_eq. by split.
  - by rewrite !lookup_singleton_ne.
Qed.

(** The stream sends one record. *)
Lemma ex_stream_step {M} `{LogServiceOk M} (m : M) b log o d :
  svc_rep m b log -> is_u64 o -> read_spec b log o = Ok d -> svc_NextOffset m + 1 < 2 ^ 64 ->
  net_steps ex_render DefaultServerConfig (mkNet m {[0%nat := (HStream o, client_conn [])]})
    (mkNet m {[0%nat := (HStream (u64 (o + 1)), sent (encode_response (mkResponse StatusOK d)) (client_conn []))]}).
Proof.
  intros Hm Ho Hd Hn. eapply nt_trans; [apply nt_refl|]. set (hc := (HStream (u64 _), _)).
  rewrite <- (insert_singleton_eq 0%nat hc (HStream o, client_conn [])).
  eapply nt_handle; [apply lookup_singleton_eq| |done].
  unfold conn_step. rewrite (svc_read_ok _ _ _ _ Hm Ho), Hd, writeResponse_clean by (split; reflexivity). reflexivity.
Qed.

Lemma server_stream_contiguous_witness :
  exists hist, sent (encode_response (mkResponse StatusOK ex_data)) (client_conn []) =
    sent (encode_responses (stream_sent 0 hist 2 1)) (client_conn []) /\ [ex_data; ex_data; ex_data] `prefix_of` hist.
Proof.
  assert (is_u64 2) as H2 by (split; vm_compute; [discriminate|reflexivity]).
  destruct (server_stream_contiguous manager_service manager_service_ok ex_render DefaultServerConfig
    (mkNet (ex_live ex_mgr3) {[0%nat := (HStream 2, client_conn [])]}) _
    (mkAserver 0 [ex_data; ex_data; ex_data] {[0%nat := mkAconn [] (Some 2) [] true]})
    0%nat 2 (client_conn []) (mkAconn [] (Some 2) [] true)
    (ex_sim _ _ _ _ ex_live3 H2) (lookup_singleton_eq _ _) (lookup_singleton_eq _ _) eq_refl
    (ex_stream_step _ _ _ 2 ex_data ex_live3 H2 eq_refl ex_live3_next))
    as (hist & b' & log' & h & c' & n & tl & Hp & _ & _ & Hc & Hout & Hn & Hh).
  exists hist. split; [|exact Hp].
  cbn [nt_conns] in Hc. rewrite lookup_singleton_eq in Hc. injection Hc as <- <-.
  change (u64 (2 + 1)) with 3 in Hh. destruct Hh as [Hh ->]. assert (n = 1%nat) as -> by lia.
  rewrite app_nil_r in Hout. cbn [ac_out app as_base] in Hout. unfold sent. cbn [c_out client_conn app] in *.
  unfold sent in Hout. cbn [c_out client_conn app] in Hout. rewrite <- Hout. reflexivity.
Defined.

(** The whole-request handler and the steps of the concurrent server are
    the same code: whenever [handleConn], run alone to the end of the
    connection, returns a service state and a connection (normally, or on any
    read, write or deadline error), executing its steps one at a time returns
    the same, with any larger bound on the steps too. *)
Theorem handleConn_is_run {M} (HL : LogService M) (Hok : LogServiceOk M) render cfg fuel m c m' c'
  (Hrun : handleConn render fuel cfg m c = Some (m', c')) :
  exists n, forall extra, conn_run render cfg (extra + n) m HIdle c = Some (m', c').
Proof.
  destruct (handleConn_steps render cfg fuel m c m' c' Hrun) as [n Hn]. exists n.
  intros extra. induction extra as [|e IH]; [done|]. by apply conn_run_mono.
Qed.

Lemma handleConn_is_run_witness :
  let c := mkConn [byte.of_Z 0; byte.of_Z 0] EOF [] [] [] in
  exists c' n, conn_run ex_render DefaultServerConfig n (ex_live ex_mgr3) HIdle c = Some (ex_live ex_mgr3, c').
Proof.
  intros c. destruct (handleConn_is_run manager_service manager_service_ok ex_render DefaultServerConfig 1
    (ex_live ex_mgr3) c (ex_live ex_mgr3) (mkConn [] EOF [] [] []) eq_refl) as [n Hn].
  exists (mkConn [] EOF [] [] []), n. exact (Hn 0%nat).
Defined.
