(* ===== verification/ServerLife.v ===== *)
(** * ServerLife: starting, accepting and shutting down

    The goroutines of a running [Server] ([internal/network/server.go]): the
    accept loop [Serve], one handler per connection, and calls of [Close].
    They share the quit channel, the listener and the wait group.  [life_step]
    executes one atomic action of one of them; what a handler does is
    [conn_step] of [ServerNet]. *)

From Stdlib Require Import ZArith Lia Strings.String.
From stdpp Require Import base list list_numbers numbers option gmap sorting.
From coqutil Require Import Byte.
From S2P Require Import Prelude Bytes Wal WalFormat Crash MgrProps Service Protocol Server ServerNet.

Local Open Scope Z_scope.

(** ** Configuration *)

Definition ServerOption := ServerConfig -> ServerConfig.

Definition WithIdleTimeout (d : Z) : ServerOption := fun c => mkServerConfig d (WriteTimeout c).
Definition WithWriteTimeout (d : Z) : ServerOption := fun c => mkServerConfig (IdleTimeout c) d.

(** [opt(&cfg)] for each option in turn. *)
Definition server_config (opts : list ServerOption) : ServerConfig :=
  foldl (fun cfg opt => opt cfg) DefaultServerConfig opts.

(** ** State *)

(** The accept loop: in [Accept]; [Accept] returned a connection; the wait
    group is incremented; [Accept] failed; returned. *)
Inductive apc :=
| AAccept
| AGot (k : nat) (reqs : list Request)
| AGo (k : nat) (reqs : list Request)
| AErr
| ADone.

(** A call of [Close]: quit closed; listener closed; returned. *)
Inductive cpc :=
| CQuit
| CDrain (err : outcome)
| CReturned (err : outcome).

Record ServerState (M : Type) := mkSrv {
  sv_cfg : ServerConfig;
  sv_net : net M;
  sv_live : gset nat;
  sv_wg : Z;
  sv_quit : bool;
  sv_listening : bool;
  sv_accept : apc;
  sv_close : gmap nat cpc
}.
Arguments mkSrv {M}.
Arguments sv_cfg {M}.
Arguments sv_net {M}.
Arguments sv_live {M}.
Arguments sv_wg {M}.
Arguments sv_quit {M}.
Arguments sv_listening {M}.
Arguments sv_accept {M}.
Arguments sv_close {M}.

(** [NewServer]; [lerr] is the outcome of [net.Listen]. *)
Definition NewServer {M} (m : M) (lerr : outcome) (opts : list ServerOption) : result (ServerState M) :=
  let cfg := server_config opts in
  match lerr with
  | Some e => Err (Wrap "network: listen" e)
  | None => Ok (mkSrv cfg (mkNet m ∅) ∅ 0 false true AAccept ∅)
  end.

(** ** Steps *)

Inductive sv_event :=
| EvConn (k : nat) (reqs : list Request)
| EvErr
| EvSelect
| EvAdd
| EvGo
| EvHandle (k : nat)
| EvRetain (now : Z)
| EvDone (k : nat)
| EvClose (j : nat)
| EvListener (j : nat)
| EvWait (j : nat).

Section Life.
Context {M : Type} `{LogRetention M}.
Context (render : error -> list byte).

Definition set_accept (a : apc) (s : ServerState M) : ServerState M :=
  mkSrv (sv_cfg s) (sv_net s) (sv_live s) (sv_wg s) (sv_quit s) (sv_listening s) a (sv_close s).
Definition set_close (j : nat) (c : cpc) (s : ServerState M) : ServerState M :=
  mkSrv (sv_cfg s) (sv_net s) (sv_live s) (sv_wg s) (sv_quit s) (sv_listening s) (sv_accept s)
    (<[j := c]> (sv_close s)).
Definition set_wg (n : Z) (s : ServerState M) : ServerState M :=
  mkSrv (sv_cfg s) (sv_net s) (sv_live s) n (sv_quit s) (sv_listening s) (sv_accept s) (sv_close s).
Definition set_handlers (nt : net M) (live : gset nat) (s : ServerState M) : ServerState M :=
  mkSrv (sv_cfg s) nt live (sv_wg s) (sv_quit s) (sv_listening s) (sv_accept s) (sv_close s).

(** One action; [None] is an action that is not possible in [s]. *)
Definition life_step (e : sv_event) (s : ServerState M) : option (ServerState M) :=
  match e with
  | EvConn k reqs =>
      match sv_accept s, nt_conns (sv_net s) !! k with
      | AAccept, None =>
          if sv_listening s && forallb (fun r => zlen (req_Payload r) <=? MaxPayloadSize) reqs
          then Some (set_accept (AGot k reqs) s) else None
      | _, _ => None
      end
  | EvErr => match sv_accept s with AAccept => Some (set_accept AErr s) | _ => None end
  | EvSelect =>
      match sv_accept s with
      | AErr => Some (set_accept (if sv_quit s then ADone else AAccept) s)
      | _ => None
      end
  | EvAdd =>
      match sv_accept s with
      | AGot k reqs => Some (set_accept (AGo k reqs) (set_wg (sv_wg s + 1) s))
      | _ => None
      end
  | EvGo =>
      match sv_accept s with
      | AGo k reqs =>
          Some (set_accept AAccept (set_handlers
            (mkNet (nt_log (sv_net s)) (<[k := (HIdle, client_conn reqs)]> (nt_conns (sv_net s))))
            ({[k]} ∪ sv_live s) s))
      | _ => None
      end
  | EvHandle k =>
      match nt_conns (sv_net s) !! k with
      | Some (h, c) =>
          if svc_NextOffset (nt_log (sv_net s)) + 1 <? 2 ^ 64 then
            match conn_step render (sv_cfg s) (nt_log (sv_net s)) h c with
            | Some (m', hc) => Some (set_handlers (mkNet m' (<[k := hc]> (nt_conns (sv_net s)))) (sv_live s) s)
            | None => None
            end
          else None
      | None => None
      end
  | EvRetain now =>
      Some (set_handlers (mkNet (svc_retain now (nt_log (sv_net s))) (nt_conns (sv_net s))) (sv_live s) s)
  | EvDone k =>
      match nt_conns (sv_net s) !! k with
      | Some (HClosed, _) =>
          if decide (k ∈ sv_live s)
          then Some (set_wg (sv_wg s - 1) (set_handlers (sv_net s) (sv_live s ∖ {[k]}) s))
          else None
      | _ => None
      end
  | EvClose j =>
      match sv_close s !! j with
      | None => Some (set_close j CQuit (mkSrv (sv_cfg s) (sv_net s) (sv_live s) (sv_wg s) true
                        (sv_listening s) (sv_accept s) (sv_close s)))
      | Some _ => None
      end
  | EvListener j =>
      match sv_close s !! j with
      | Some CQuit =>
          Some (set_close j (CDrain (if sv_listening s then None else Some ErrNetClosed))
                 (mkSrv (sv_cfg s) (sv_net s) (sv_live s) (sv_wg s) (sv_quit s) false
                    (sv_accept s) (sv_close s)))
      | _ => None
      end
  | EvWait j =>
      match sv_close s !! j with
      | Some (CDrain err) => if sv_wg s =? 0 then Some (set_close j (CReturned err) s) else None
      | _ => None
      end
  end.

Fixpoint life_run (es : list sv_event) (s : ServerState M) : option (ServerState M) :=
  match es with
  | [] => Some s
  | e :: es' => match life_step e s with Some s' => life_run es' s' | None => None end
  end.

(** ** The invariant *)

Definition accepted (a : apc) : Z := match a with AGo _ _ => 1 | _ => 0 end.

Record life_inv (m0 : M) (s : ServerState M) : Prop := {
  li_net : net_steps render (sv_cfg s) (mkNet m0 ∅) (sv_net s);
  li_wg : sv_wg s = Z.of_nat (size (sv_live s)) + accepted (sv_accept s);
  li_live : forall k h c, nt_conns (sv_net s) !! k = Some (h, c) -> k ∈ sv_live s \/ h = HClosed;
  li_conns : forall k, k ∈ sv_live s -> is_Some (nt_conns (sv_net s) !! k);
  li_fresh : match sv_accept s with
             | AGot k reqs | AGo k reqs =>
                 nt_conns (sv_net s) !! k = None /\ Forall (fun r => frame_ok (req_Payload r)) reqs
             | ADone => sv_quit s = true
             | _ => True
             end;
  li_close : forall j c, sv_close s !! j = Some c ->
    sv_quit s = true /\ match c with CQuit => True | _ => sv_listening s = false end
}.

Lemma life_inv_init m opts s : NewServer m None opts = Ok s -> life_inv m s.
Proof.
  intros [= <-]. split; cbn; try done; [constructor|..]; intros *; by rewrite ?lookup_empty.
Qed.

(** The accept loop and [Close] leave the handlers alone. *)
Lemma life_inv_control m0 s s' :
  life_inv m0 s -> sv_cfg s' = sv_cfg s -> sv_net s' = sv_net s -> sv_live s' = sv_live s ->
  sv_wg s' - accepted (sv_accept s') = sv_wg s - accepted (sv_accept s) ->
  match sv_accept s' with
  | AGot k reqs | AGo k reqs =>
      nt_conns (sv_net s) !! k = None /\ Forall (fun r => frame_ok (req_Payload r)) reqs
  | ADone => sv_quit s' = true
  | _ => True
  end ->
  (forall j c, sv_close s' !! j = Some c ->
    sv_quit s' = true /\ match c with CQuit => True | _ => sv_listening s' = false end) ->
  life_inv m0 s'.
Proof.
  intros [Hn Hw Hl Hc Hf Hcl] E1 E2 E3 E4 Hf' Hcl'.
  split; rewrite ?E1, ?E2, ?E3; try done. lia.
Qed.

(** [Close] only ever sets the flags. *)
Lemma close_flags (s : ServerState M) j c (q ln : bool) :
  (forall j c, sv_close s !! j = Some c ->
    sv_quit s = true /\ match c with CQuit => True | _ => sv_listening s = false end) ->
  q = true -> (sv_listening s = false -> ln = false) -> match c with CQuit => True | _ => ln = false end ->
  forall j' c', <[j := c]> (sv_close s) !! j' = Some c' ->
    q = true /\ match c' with CQuit => True | _ => ln = false end.
Proof.
  intros Hcl -> Hln Hc j' c' Hj. split; [done|]. destruct (decide (j = j')) as [->|Hne].
  - rewrite lookup_insert_eq in Hj. by injection Hj as <-.
  - rewrite lookup_insert_ne in Hj by done. destruct (Hcl _ _ Hj) as [_ ?]. destruct c'; auto.
Qed.

Lemma life_step_accept_inv m0 e s s' :
  life_inv m0 s -> life_step e s = Some s' ->
  match e with EvConn _ _ | EvErr | EvSelect | EvAdd => True | _ => False end -> life_inv m0 s'.
Proof.
  intros Hi Hstep He. pose proof (li_fresh _ _ Hi) as Hf. pose proof (li_close _ _ Hi) as Hcl.
  destruct e; try done; cbn [life_step] in Hstep; destruct (sv_accept s) eqn:Ha; try done.
  - destruct (nt_conns _ !! k) eqn:Hk; [done|]. case_match eqn:Hg; [|done]. injection Hstep as <-.
    apply andb_prop in Hg as [_ Hg].
    eapply life_inv_control; try done; cbn [set_accept sv_accept sv_wg accepted]; [by rewrite Ha|].
    split; [done|]. apply Forall_forall. intros r Hr%list_elem_of_In. unfold frame_ok.
    apply Z.leb_le. by apply (proj1 (forallb_forall _ _) Hg).
  - injection Hstep as <-. eapply life_inv_control; try done. cbn. by rewrite Ha.
  - injection Hstep as <-. eapply life_inv_control; try done; cbn; destruct (sv_quit s) eqn:Hq; try done;
      by rewrite Ha.
  - injection Hstep as <-. eapply life_inv_control; try done. cbn. rewrite Ha. cbn. lia.
Qed.

Lemma life_step_close_inv m0 e s s' :
  life_inv m0 s -> life_step e s = Some s' ->
  match e with EvClose _ | EvListener _ | EvWait _ => True | _ => False end -> life_inv m0 s'.
Proof.
  intros Hi Hstep He. pose proof (li_fresh _ _ Hi) as Hf. pose proof (li_close _ _ Hi) as Hcl.
  assert (forall c, match sv_accept s with
             | AGot k reqs | AGo k reqs =>
                 nt_conns (sv_net s) !! k = None /\ Forall (fun r => frame_ok (req_Payload r)) reqs
             | ADone => sv_quit s || c = true
             | _ => True
             end) as Hf' by (intros c; destruct (sv_accept s); try done; by rewrite Hf).
  destruct e; try done; cbn [life_step] in Hstep; destruct (sv_close s !! j) as [c|] eqn:Hj; try done.
  - injection Hstep as <-. eapply life_inv_control; try done; cbn.
    + specialize (Hf' true). by destruct (sv_accept s).
    + by apply close_flags.
  - destruct c; try done. injection Hstep as <-. destruct (Hcl _ _ Hj) as [Hq _].
    eapply life_inv_control; try done; cbn. by apply close_flags.
  - destruct c as [|err|]; try done. destruct (sv_wg s =? 0); [|done]. injection Hstep as <-.
    destruct (Hcl _ _ Hj) as [Hq Hln]. eapply life_inv_control; try done; cbn. by apply close_flags.
Qed.

Lemma life_step_inv m0 b log e s s' : svc_rep m0 b log -> life_inv m0 s -> life_step e s = Some s' -> life_inv m0 s'.
Proof.
  intros Hm0 Hi Hstep. destruct e as [k reqs| | | | |k|now|k|j|j|j].
  1-4: by eapply life_step_accept_inv. 5-7: by eapply life_step_close_inv.
  all: pose proof Hi as [Hn Hw Hl Hc Hf Hcl]; cbn [life_step] in Hstep.
  - destruct (sv_accept s) as [|k reqs|k reqs| |] eqn:Ha; try done. destruct Hf as [Hk Hr].
    injection Hstep as <-. assert (k ∉ sv_live s) as Hnl.
    { intros Hin. destruct (Hc _ Hin) as [x Hx]. by rewrite Hk in Hx. }
    split; cbn; try done.
    + eapply nt_trans; [exact Hn|]. destruct (sv_net s). by apply nt_accept.
    + rewrite size_union, size_singleton by set_solver. rewrite Hw. cbn. lia.
    + intros k' h c. destruct (decide (k = k')) as [->|Hne]; [set_solver|].
      rewrite lookup_insert_ne by done. intros Hk'. destruct (Hl _ _ _ Hk'); set_solver.
    + intros k' [->%elem_of_singleton|Hin]%elem_of_union; [by rewrite lookup_insert_eq|].
      destruct (decide (k = k')) as [->|Hne]; [done|]. rewrite lookup_insert_ne by done. by apply Hc.
  - destruct (nt_conns (sv_net s) !! k) as [[h c]|] eqn:Hk; [|done].
    destruct (Z.ltb_spec (svc_NextOffset (nt_log (sv_net s)) + 1) (2 ^ 64)) as [Hlt|]; [|done].
    destruct (conn_step render (sv_cfg s) (nt_log (sv_net s)) h c) as [[m' [h' c']]|] eqn:Hs; [|done].
    injection Hstep as <-. split; cbn; try done.
    + eapply nt_trans; [exact Hn|]. destruct (sv_net s). by eapply nt_handle.
    + intros k' h1 c1. destruct (decide (k = k')) as [->|Hne].
      * intros _. destruct (Hl _ _ _ Hk) as [?| ->]; [by left|done].
      * rewrite lookup_insert_ne by done. apply Hl.
    + intros k' Hin. destruct (decide (k = k')) as [->|Hne]; [by rewrite lookup_insert_eq|].
      rewrite lookup_insert_ne by done. by apply Hc.
    + destruct (sv_accept s); try done; destruct Hf; (split; [|done]); by rewrite lookup_insert_ne by congruence.
  - injection Hstep as <-. split; cbn; try done. eapply nt_trans; [exact Hn|].
    destruct (net_steps_sim render (sv_cfg s) _ _ _ (sim_init m0 b log Hm0) Hn) as (a & _ & Hs & _).
    destruct (svc_retain_ok now _ _ _ Hs) as (n & Hle & Hr). destruct (sv_net s). by eapply nt_retain.
  - destruct (nt_conns (sv_net s) !! k) as [[h c]|] eqn:Hk; [|done]. destruct h; try done.
    case_decide as Hin; [|done]. injection Hstep as <-. split; cbn; try done.
    + rewrite size_difference, size_singleton by set_solver.
      assert (size (sv_live s) <> 0%nat) by (intros ?%size_empty_inv; set_solver). lia.
    + intros k' h' c' Hk'. destruct (decide (k' = k)) as [->|Hne]; [right; congruence|].
      destruct (Hl _ _ _ Hk'); set_solver.
    + intros k' Hk'. apply Hc. set_solver.
Qed.

Lemma life_run_inv m0 b log es s s' : svc_rep m0 b log -> life_inv m0 s -> life_run es s = Some s' -> life_inv m0 s'.
Proof.
  intros Hm0. revert s. induction es as [|e es IH]; intros s Hi Hrun; [by injection Hrun as <-|].
  cbn in Hrun. destruct (life_step e s) as [s1|] eqn:Hs; [|done]. by eapply IH, Hrun; eapply life_step_inv.
Qed.

(** ** What the server does not touch *)

(** A property of the log that appending (of what a frame can carry, below the
    last offset) and retention keep is kept by the whole server. *)
Section Keeps.
Context (P : M -> Prop).
Context (Happ : forall data m r m', P m -> payload_ok data -> svc_NextOffset m + 1 < 2 ^ 64 ->
  svc_Append data m = Some (r, m') -> P m').
Context (Hret : forall now m, P m -> P (svc_retain now m)).

Lemma conn_step_keeps cfg m h c m' hc :
  P m -> svc_NextOffset m + 1 < 2 ^ 64 -> conn_step render cfg m h c = Some (m', hc) -> P m'.
Proof.
  intros Hm Hn Hs. unfold conn_step in Hs. destruct h as [|o|]; [| |done].
  - destruct (if 0 <? IdleTimeout cfg then _ else _) as [[e|] c0]; [by injection Hs as <- _|].
    destruct (ReadRequest c0) as [[req|e] c1] eqn:Hreq; [|by injection Hs as <- _].
    apply ReadRequest_frame_ok in Hreq.
    destruct (decide (Op req = OpStreamRead)); [by destruct (negb _); injection Hs as <- _|].
    destruct (dispatch render req m) as [[resp m1]|] eqn:Hd; [|done]. injection Hs as <- _.
    unfold dispatch in Hd. repeat destruct (decide _); try (by injection Hd as _ <-).
    + unfold handleProduce in Hd. destruct (_ =? 0); [by injection Hd as _ <-|].
      destruct (svc_Append (req_Payload req) m) as [[[o|er] m2]|] eqn:Ha; [| |done];
        injection Hd as _ <-; by eapply Happ.
    + destruct (handleRead render (req_Payload req) m); [by injection Hd as _ <-|done].
  - destruct (svc_ReadAt o m) as [[d|e]|]; [by injection Hs as <- _|by injection Hs as <- _|done].
Qed.

Lemma life_step_keeps e s s' :
  P (nt_log (sv_net s)) -> life_step e s = Some s' -> P (nt_log (sv_net s')).
Proof.
  intros Hp Hs. destruct e; cbn [life_step] in Hs.
  1-5: destruct (sv_accept s); try done; try (by injection Hs as <-).
  - destruct (nt_conns _ !! k); [done|]. destruct (_ && _); [by injection Hs as <-|done].
  - destruct (nt_conns _ !! k) as [[h c]|]; [|done]. destruct (Z.ltb_spec (svc_NextOffset (nt_log (sv_net s)) + 1) (2 ^ 64)); [|done].
    destruct (conn_step _ _ _ _ _) as [[m' hc]|] eqn:Hc; [|done]. injection Hs as <-. by eapply conn_step_keeps.
  - injection Hs as <-. by apply Hret.
  - destruct (nt_conns _ !! k) as [[[] c]|]; try done. case_decide; [by injection Hs as <-|done].
  - destruct (sv_close s !! j); [done|]. by injection Hs as <-.
  - destruct (sv_close s !! j) as [[]|]; try done. by injection Hs as <-.
  - destruct (sv_close s !! j) as [[]|]; try done. destruct (_ =? _); [by injection Hs as <-|done].
Qed.

Lemma life_run_keeps es s s' : P (nt_log (sv_net s)) -> life_run es s = Some s' -> P (nt_log (sv_net s')).
Proof.
  revert s. induction es as [|e es IH]; intros s Hp Hrun; [by injection Hrun as <-|].
  cbn [life_run] in Hrun. destruct (life_step e s) as [s1|] eqn:Hs; [|done].
  eapply IH, Hrun. by eapply life_step_keeps.
Qed.
End Keeps.

(** ** After the listener is closed *)

Definition is_accept (e : sv_event) : bool :=
  match e with EvConn _ _ | EvErr | EvSelect | EvAdd | EvGo => true | _ => false end.

(** How many more actions the accept loop can take. *)
Definition accept_rank (a : apc) : nat :=
  match a with
  | AGot _ _ => 4
  | AGo _ _ => 3
  | AAccept => 2
  | AErr => 1
  | ADone => 0
  end.

Lemma stopped_step e s s' :
  sv_quit s = true -> sv_listening s = false -> life_step e s = Some s' ->
  sv_quit s' = true /\ sv_listening s' = false /\
  (if is_accept e then (accept_rank (sv_accept s') + 1 = accept_rank (sv_accept s))%nat
   else sv_accept s' = sv_accept s).
Proof.
  intros Hq Hln Hstep. destruct e; cbn [life_step is_accept] in *.
  1-5: destruct (sv_accept s) eqn:Ha; try done.
  - destruct (nt_conns _ !! k); [done|]. by rewrite Hln in Hstep.
  - by injection Hstep as <-.
  - injection Hstep as <-. cbn. by rewrite Hq.
  - by injection Hstep as <-.
  - by injection Hstep as <-.
  - destruct (nt_conns _ !! k) as [[h c]|]; [|done]. destruct (_ <? _); [|done].
    destruct (conn_step _ _ _ _ _) as [[m' hc]|]; [|done]. by injection Hstep as <-.
  - by injection Hstep as <-.
  - destruct (nt_conns _ !! k) as [[[] c]|]; try done. case_decide; [|done]. by injection Hstep as <-.
  - destruct (sv_close s !! j); [done|]. by injection Hstep as <-.
  - destruct (sv_close s !! j) as [[]|]; try done. by injection Hstep as <-.
  - destruct (sv_close s !! j) as [[]|]; try done. destruct (_ =? _); [|done]. by injection Hstep as <-.
Qed.

Lemma stopped_run es s s' :
  sv_quit s = true -> sv_listening s = false -> life_run es s = Some s' ->
  sv_quit s' = true /\ sv_listening s' = false /\
  (length (List.filter is_accept es) + accept_rank (sv_accept s') = accept_rank (sv_accept s))%nat.
Proof.
  revert s. induction es as [|e es IH]; intros s Hq Hln Hrun; [by injection Hrun as <-|].
  cbn [life_run] in Hrun. destruct (life_step e s) as [s1|] eqn:Hs; [|done].
  destruct (stopped_step e s s1 Hq Hln Hs) as (Hq1 & Hln1 & Hr).
  destruct (IH s1 Hq1 Hln1 Hrun) as (Hq' & Hln' & Hlen). split_and!; try done.
  cbn [List.filter]. destruct (is_accept e); cbn [length]; [lia|]. by rewrite Hr in Hlen.
Qed.

(** Connections reach a handler only through the accept loop. *)
Lemma stopped_conns_step e s s' k :
  sv_listening s = false -> life_step e s = Some s' -> is_Some (nt_conns (sv_net s') !! k) ->
  is_Some (nt_conns (sv_net s) !! k) \/
  match sv_accept s with AGo k' _ => k = k' | _ => False end.
Proof.
  intros Hln Hstep Hk. destruct e; cbn [life_step] in *.
  1-5: destruct (sv_accept s) eqn:Ha; try done.
  - destruct (nt_conns _ !! _); [done|]. by rewrite Hln in Hstep.
  - injection Hstep as <-. by left.
  - injection Hstep as <-. by left.
  - injection Hstep as <-. by left.
  - injection Hstep as <-. cbn in *. destruct (decide (k0 = k)) as [->|Hne]; [by right|].
    rewrite lookup_insert_ne in Hk by done. by left.
  - destruct (nt_conns _ !! k0) as [[h c]|] eqn:Hk0; [|done]. destruct (_ <? _); [|done].
    destruct (conn_step _ _ _ _ _) as [[m' hc]|]; [|done]. injection Hstep as <-. cbn in Hk.
    destruct (decide (k0 = k)) as [->|Hne]; [left; by eexists|]. rewrite lookup_insert_ne in Hk by done. by left.
  - injection Hstep as <-. by left.
  - destruct (nt_conns _ !! k0) as [[[] c]|]; try done. case_decide; [|done]. injection Hstep as <-. by left.
  - destruct (sv_close s !! j); [done|]. injection Hstep as <-. by left.
  - destruct (sv_close s !! j) as [[]|]; try done. injection Hstep as <-. by left.
  - destruct (sv_close s !! j) as [[]|]; try done. destruct (_ =? _); [|done]. injection Hstep as <-. by left.
Qed.

(** Which connection the accept loop holds. *)
Definition held (a : apc) (k : nat) : Prop := match a with AGot k' _ | AGo k' _ => k = k' | _ => False end.

Lemma stopped_held e s s' k :
  sv_quit s = true -> sv_listening s = false -> life_step e s = Some s' -> held (sv_accept s') k -> held (sv_accept s) k.
Proof.
  intros Hq Hln Hstep Hh. destruct (stopped_step e s s' Hq Hln Hstep) as (_ & _ & Hr).
  destruct (is_accept e) eqn:He; [|by rewrite Hr in Hh].
  destruct e; try done; cbn [life_step] in Hstep; destruct (sv_accept s) eqn:Ha; try done.
  - destruct (nt_conns _ !! _); [done|]. by rewrite Hln in Hstep.
  - by injection Hstep as <-.
  - injection Hstep as <-. cbn in Hh. by rewrite Hq in Hh.
  - by injection Hstep as <-.
  - by injection Hstep as <-.
Qed.

Lemma stopped_conns es s s' :
  sv_quit s = true -> sv_listening s = false -> life_run es s = Some s' ->
  forall k, is_Some (nt_conns (sv_net s') !! k) -> is_Some (nt_conns (sv_net s) !! k) \/ held (sv_accept s) k.
Proof.
  revert s. induction es as [|e es IH]; intros s Hq Hln Hrun k Hk; [injection Hrun as <-; by left|].
  cbn [life_run] in Hrun. destruct (life_step e s) as [s1|] eqn:Hs; [|done].
  destruct (stopped_step e s s1 Hq Hln Hs) as (Hq1 & Hln1 & _).
  destruct (IH s1 Hq1 Hln1 Hrun k Hk) as [Hk1|Hh].
  - destruct (stopped_conns_step e s s1 k Hln Hs Hk1) as [?|Hh]; [by left|right].
    by destruct (sv_accept s).
  - right. by eapply stopped_held.
Qed.

(** The accept loop never blocks once the listener is closed. *)
Lemma stopped_progress s :
  sv_accept s <> ADone -> exists e, is_accept e = true /\ is_Some (life_step e s).
Proof.
  intros Ha. destruct (sv_accept s) as [|k reqs|k reqs| |] eqn:E; try done.
  - exists EvErr. cbn. rewrite E. by split; [|eexists].
  - exists EvAdd. cbn. rewrite E. by split; [|eexists].
  - exists EvGo. cbn. rewrite E. by split; [|eexists].
  - exists EvSelect. cbn. rewrite E. by split; [|eexists].
Qed.
End Life.


(** One client sends a malformed stream request, the server is told to stop
    while the handler runs. *)
Definition ex_events : list sv_event :=
  [EvConn 0 [mkRequest OpStreamRead []]; EvAdd; EvGo; EvHandle 0; EvClose 7; EvListener 7; EvHandle 0;
   EvDone 0; EvErr; EvSelect].

Lemma life_run_cons {M} `{LogRetention M} render e es (s s1 s' : ServerState M) :
  life_step render e s = Some s1 -> life_run render es s1 = Some s' -> life_run render (e :: es) s = Some s'.
Proof. intros He Hes. cbn. by rewrite He. Qed.

Lemma handle_event {M} `{LogRetention M} render (s : ServerState M) k h c hc :
  nt_conns (sv_net s) !! k = Some (h, c) -> (svc_NextOffset (nt_log (sv_net s)) + 1 <? 2 ^ 64) = true ->
  conn_step render (sv_cfg s) (nt_log (sv_net s)) h c = Some (nt_log (sv_net s), hc) ->
  life_step render (EvHandle k) s =
    Some (set_handlers (mkNet (nt_log (sv_net s)) (<[k := hc]> (nt_conns (sv_net s)))) (sv_live s) s).
Proof. intros Hk Hn Hs. unfold life_step. by rewrite Hk, Hn, Hs. Qed.

Lemma ex_life_run {M} `{LogRetention M} (m : M) :
  (svc_NextOffset m + 1 <? 2 ^ 64) = true ->
  exists s0 s s', NewServer m None [] = Ok s0 /\ life_run ex_render ex_events s0 = Some s /\
    life_step ex_render (EvWait 7) s = Some s' /\
    is_Some (nt_conns (sv_net s') !! 0%nat) /\ sv_accept s' = ADone.
Proof.
  intros Hn. set (c1 := client_conn [mkRequest OpStreamRead []]).
  set (c2 := sent (encode_response (errorResponse (bytes_of "stream-read requires 8-byte offset"))) (client_conn [])).
  assert (conn_step ex_render DefaultServerConfig m HIdle c1 = Some (m, (HIdle, c2))) as Hc1
    by (vm_compute; reflexivity).
  assert (conn_step ex_render DefaultServerConfig m HIdle c2 = Some (m, (HClosed, c2))) as Hc2
    by (vm_compute; reflexivity).
  set (st conns live wg q ln a cl := mkSrv DefaultServerConfig (mkNet m conns) live wg q ln a cl).
  set (reqs := [mkRequest OpStreamRead []]). set (n1 := {[0%nat := (HIdle, c1)]} : gmap nat (hpc * conn)).
  set (n2 := {[0%nat := (HIdle, c2)]} : gmap nat (hpc * conn)).
  set (n3 := {[0%nat := (HClosed, c2)]} : gmap nat (hpc * conn)).
  set (lv := {[0%nat]} : gset nat). set (k1 := {[7%nat := CQuit]} : gmap nat cpc).
  set (k2 := {[7%nat := CDrain None]} : gmap nat cpc). set (k3 := {[7%nat := CReturned None]} : gmap nat cpc).
  exists (st ∅ ∅ 0 false true AAccept ∅), (st n3 ∅ 0 true false ADone k2), (st n3 ∅ 0 true false ADone k3).
  split_and!; [reflexivity| |reflexivity|by exists (HClosed, c2)|reflexivity].
  apply (life_run_cons _ _ _ _ (st ∅ ∅ 0 false true (AGot 0 reqs) ∅)); [reflexivity|].
  apply (life_run_cons _ _ _ _ (st ∅ ∅ 1 false true (AGo 0 reqs) ∅)); [reflexivity|].
  apply (life_run_cons _ _ _ _ (st n1 lv 1 false true AAccept ∅)); [reflexivity|].
  apply (life_run_cons _ _ _ _ (st n2 lv 1 false true AAccept ∅)); 
    [by rewrite (handle_event _ _ _ HIdle c1 (HIdle, c2))|].
  apply (life_run_cons _ _ _ _ (st n2 lv 1 true true AAccept k1)); [reflexivity|].
  apply (life_run_cons _ _ _ _ (st n2 lv 1 true false AAccept k2)); [reflexivity|].
  apply (life_run_cons _ _ _ _ (st n3 lv 1 true false AAccept k2)); 
    [by rewrite (handle_event _ _ _ HIdle c2 (HClosed, c2))|].
  apply (life_run_cons _ _ _ _ (st n3 ∅ 0 true false AAccept k2)); [reflexivity|].
  apply (life_run_cons _ _ _ _ (st n3 ∅ 0 true false AErr k2)); reflexivity.
Qed.


(** The accept loop ends.  Once a call of [Close] has set the quit flag
    and closed the listener, then in every continuation the accept loop takes
    at most four more actions, never blocks until it has returned, and hands
    at most one further connection to a handler: the one, if any, that
    [Accept] had already returned. *)
Theorem accept_loop_exits {M} (HL : LogService M) (Hok : LogServiceOk M) (HR : LogRetention M)
  render es (s s' : ServerState M)
  (Hq : sv_quit s = true) (Hln : sv_listening s = false) (Hrun : life_run render es s = Some s') :
  (length (List.filter is_accept es) + accept_rank (sv_accept s') = accept_rank (sv_accept s))%nat /\
  (accept_rank (sv_accept s) <= 4)%nat /\
  (sv_accept s' = ADone \/ exists e, is_accept e = true /\ is_Some (life_step render e s')) /\
  (forall k, is_Some (nt_conns (sv_net s') !! k) ->
     is_Some (nt_conns (sv_net s) !! k) \/ held (sv_accept s) k).
Proof.
  destruct (stopped_run render es s s' Hq Hln Hrun) as (_ & _ & Hr). split_and!; [done|by destruct (sv_accept s); cbn; lia| |].
  - destruct (sv_accept s') eqn:Ha; [right|right|right|right|by left];
      apply stopped_progress; congruence.
  - by apply (stopped_conns render es).
Qed.

(** [Accept] has returned a connection when [Close] closes the listener. *)
Definition ex_stopped {M} (m : M) (a : apc) (cl : gmap nat cpc) : ServerState M :=
  mkSrv DefaultServerConfig (mkNet m ∅) ∅ 0 true false a cl.

Lemma accept_loop_exits_witness :
  exists s' : ServerState LiveManager,
    life_run ex_render [EvAdd; EvGo; EvErr; EvSelect] (ex_stopped (ex_live ex_mgr3) (AGot 0 []) ∅) = Some s' /\
    accept_rank (sv_accept s') = 0%nat.
Proof.
  eexists. assert (Hrun : life_run ex_render [EvAdd; EvGo; EvErr; EvSelect]
    (ex_stopped (ex_live ex_mgr3) (AGot 0 []) ∅) = Some _) by reflexivity.
  split; [exact Hrun|].
  destruct (accept_loop_exits manager_service manager_service_ok manager_retention ex_render
    [EvAdd; EvGo; EvErr; EvSelect] (ex_stopped (ex_live ex_mgr3) (AGot 0 []) ∅) _ eq_refl eq_refl Hrun) as [Hr _].
  exact (proj1 (Nat.add_cancel_l _ 0 4) Hr).
Defined.

(** The wait group counts exactly the running handlers, plus one between
    [wg.Add] and [go]; it is never negative ([wg.Done] cannot panic), and every
    connection handed to a handler is either still counted or closed. *)
Theorem wait_group_counts {M} (HL : LogService M) (Hok : LogServiceOk M) (HR : LogRetention M)
  render (m : M) b log opts s0 es s
  (Hm : svc_rep m b log) (Hnew : NewServer m None opts = Ok s0) (Hrun : life_run render es s0 = Some s) :
  sv_wg s = Z.of_nat (size (sv_live s)) + accepted (sv_accept s) /\ 0 <= sv_wg s /\
  (forall k h c, nt_conns (sv_net s) !! k = Some (h, c) -> k ∈ sv_live s \/ h = HClosed) /\
  (forall k, k ∈ sv_live s -> is_Some (nt_conns (sv_net s) !! k)).
Proof.
  destruct (life_run_inv render m b log es s0 s Hm (life_inv_init render m opts s0 Hnew) Hrun)
    as [_ Hw Hl Hc _ _].
  assert (0 <= accepted (sv_accept s)) by (by destruct (sv_accept s)). split_and!; try done. lia.
Qed.

Lemma wait_group_counts_witness : exists s : ServerState LiveManager, sv_wg s = 1 /\ size (sv_live s) = 1%nat.
Proof.
  destruct (wait_group_counts manager_service manager_service_ok manager_retention ex_render (ex_live ex_mgr3)
    0 [ex_data; ex_data; ex_data] [] _ [EvConn 0 []; EvAdd; EvGo] _ ex_live3 eq_refl eq_refl) as [Hw _].
  eexists. split; [exact Hw|]. reflexivity.
Defined.

(** [Close] can return before the last handler has even started: when
    [Accept] has returned a connection but [wg.Add] has not run yet, the wait
    group is zero, [Close] returns, and the handler is started afterwards on a
    server (and, in [cmd/server], a log) that its owner believes closed. *)
Theorem Close_late_handler {M} (HL : LogService M) (Hok : LogServiceOk M) (HR : LogRetention M) render (m : M) :
  exists s0 s, NewServer m None [] = Ok s0 /\
    life_run render [EvConn 0 []; EvClose 7; EvListener 7; EvWait 7; EvAdd; EvGo] s0 = Some s /\
    sv_close s !! 7%nat = Some (CReturned None) /\ sv_live s = {[0%nat]} /\
    nt_conns (sv_net s) !! 0%nat = Some (HIdle, client_conn []).
Proof. eexists _, _. split; [reflexivity|]. split; [reflexivity|]. split_and!; reflexivity. Qed.

(** Options are applied in order over the defaults. *)
Lemma server_config_options d1 d2 :
  server_config [WithIdleTimeout d1; WithWriteTimeout d2] = mkServerConfig d1 d2 /\
  server_config [] = DefaultServerConfig.
Proof. done. Qed.
