(* ===== verification/ServerIdle.v ===== *)
(** * ServerIdle: clients that stay connected

    [handleConn] of [internal/network/server.go] against the clock.  The bytes
    of the client arrive over time, in pieces; the handler sets a read
    deadline before each request and waits.  [handle_timed] is the handler with
    its waiting written out: it is shown to do what [handleConn] of [Server.v]
    does on the bytes that came in time, and to return even if the client
    neither sends nor closes, provided an idle timeout is set. *)

From Stdlib Require Import ZArith Lia Strings.String.
From stdpp Require Import base list list_numbers numbers option gmap sorting.
From coqutil Require Import Byte.
From S2P Require Import Prelude Bytes Wal WalFormat Crash MgrProps Service Protocol Server.

Local Open Scope Z_scope.

(** ** Waiting for bytes *)

(** [os.ErrDeadlineExceeded] *)
Definition ErrDeadline : error := Msg "i/o timeout".

(** The server's end of a connection at time [t_now]: [c_in] holds the bytes
    that have arrived and were not read, [t_script] what will arrive and when,
    [t_close] the moment the client closes its side, if it does. *)
Record tconn := mkTimed {
  t_now : Z;
  t_conn : conn;
  t_script : list (Z * list byte);
  t_close : option Z
}.

Definition script_bytes (sc : list (Z * list byte)) : list byte := mjoin sc.*2.

Definition in_time (dl : option Z) (t : Z) : bool :=
  match dl with Some d => t <=? d | None => true end.

(** Wait until [n] bytes are there: the time, the bytes, what is still to come,
    and why the wait ended if they are not.  [None] waits for ever. *)
Fixpoint await (n : nat) (dl close : option Z) (sc : list (Z * list byte)) (now : Z) (have : list byte)
    : option (outcome * (Z * list byte * list (Z * list byte))) :=
  let expired := match dl with
                 | Some d => Some (Some ErrDeadline, (Z.max now d, have, sc))
                 | None => None
                 end in
  if (n <=? length have)%nat then Some (None, (now, have, sc))
  else
    match sc with
    | (t, bs) :: sc' => if in_time dl t then await n dl close sc' (Z.max now t) (have ++ bs) else expired
    | [] =>
        match close with
        | Some t => if in_time dl t then Some (Some EOF, (Z.max now t, have, [])) else expired
        | None => expired
        end
    end.

(** A connection with other bytes to read and another end. *)
Definition view (bs : list byte) (e : error) (c : conn) : conn :=
  mkConn bs e (c_out c) (c_writes c) (c_deadlines c).

(** [io.ReadFull] under the deadline [dl]. *)
Definition read_full_timed (n : nat) (dl : option Z) (tc : tconn) : option (result (list byte) * tconn) :=
  match await n dl (t_close tc) (t_script tc) (t_now tc) (c_in (t_conn tc)) with
  | None => None
  | Some (err, (now, have, sc)) =>
      let '(r, c) := read_full n (view have (default (c_end (t_conn tc)) err) (t_conn tc)) in
      Some (r, mkTimed now c sc (t_close tc))
  end.

(** [ReadRequest]: one deadline for the header and the payload. *)
Definition ReadRequest_timed (dl : option Z) (tc : tconn) : option (result Request * tconn) :=
  match read_full_timed 5 dl tc with
  | None => None
  | Some (Err e, tc1) => Some (Err e, tc1)
  | Some (Ok header, tc1) =>
      let length_ := Uint32 (drop 1 header) in
      if MaxPayloadSize <? length_ then Some (Err (Msg "request payload too large"), tc1)
      else
        let op := nth 0 header (byte.of_Z 0) in
        if 0 <? length_ then
          match read_full_timed (Z.to_nat length_) dl tc1 with
          | None => None
          | Some (Err e, tc2) => Some (Err (Wrap "read request payload" e), tc2)
          | Some (Ok payload, tc2) => Some (Ok (mkRequest op payload), tc2)
          end
        else Some (Ok (mkRequest op []), tc1)
  end.

(** ** The handler *)

Section Handler.
Context {M : Type} `{LogService M}.
Context (render : error -> list byte) (cfg : ServerConfig).

(** The loop body after a request was read: what it answers, and the error of
    the write that makes the handler return. *)
Definition answer (req : Request) (m : M) (c : conn) : option (outcome * (M * conn)) :=
  if decide (Op req = OpStreamRead) then
    match handleStreamRead render cfg (req_Payload req) m c with
    | None => None
    | Some (err, c') => Some (err, (m, c'))
    end
  else
    match dispatch render req m with
    | None => None
    | Some (resp, m') => let '(err, c') := writeResponse cfg resp c in Some (err, (m', c'))
    end.

(** [handleConn] with its clock; answering the [i]-th request takes [work i]. *)
Fixpoint handle_timed (fuel : nat) (work : nat -> Z) (i : nat) (m : M) (tc : tconn) : option (M * tconn) :=
  match fuel with
  | O => None
  | S fuel' =>
      let '(derr, c0) := if 0 <? IdleTimeout cfg then conn_deadline (t_conn tc) else (None, t_conn tc) in
      let dl := if 0 <? IdleTimeout cfg then Some (t_now tc + IdleTimeout cfg) else None in
      let tc0 := mkTimed (t_now tc) c0 (t_script tc) (t_close tc) in
      match derr with
      | Some _ => Some (m, tc0)
      | None =>
          match ReadRequest_timed dl tc0 with
          | None => None
          | Some (Err _, tc1) => Some (m, tc1)
          | Some (Ok req, tc1) =>
              match answer req m (t_conn tc1) with
              | None => None
              | Some (Some _, (m', c2)) => Some (m', mkTimed (t_now tc1 + work i) c2 (t_script tc1) (t_close tc1))
              | Some (None, (m', c2)) =>
                  handle_timed fuel' work (S i) m' (mkTimed (t_now tc1 + work i) c2 (t_script tc1) (t_close tc1))
              end
          end
      end
  end.

Lemma handleConn_answer fuel m c :
  handleConn render (S fuel) cfg m c =
  let '(derr, c0) := if 0 <? IdleTimeout cfg then conn_deadline c else (None, c) in
  match derr with
  | Some _ => Some (m, c0)
  | None =>
      match ReadRequest c0 with
      | (Err _, c1) => Some (m, c1)
      | (Ok req, c1) =>
          match answer req m c1 with
          | None => None
          | Some (Some _, (m', c2)) => Some (m', c2)
          | Some (None, (m', c2)) => handleConn render fuel cfg m' c2
          end
      end
  end.
Proof.
  cbn [handleConn]. destruct (if 0 <? IdleTimeout cfg then _ else _) as [[e|] c0]; [done|].
  destruct (ReadRequest c0) as [[req|e] c1]; [|done]. unfold answer. destruct (decide _) as [Ho|Ho].
  - by destruct (handleStreamRead _ _ _ _ _) as [[[e|] c2]|].
  - destruct (dispatch _ _ _) as [[resp m']|]; [|done]. by destruct (writeResponse _ _ _) as [[e|] c2].
Qed.
End Handler.

(** ** Answering does not look at what is to be read *)

Section View.
Context {M : Type} {HL : LogService M}.
Context (render : error -> list byte) (cfg : ServerConfig).

Definition on_view {A} (bs : list byte) (e : error) (r : A * conn) : A * conn := (r.1, view bs e r.2).

Lemma view_id c : view (c_in c) (c_end c) c = c.
Proof. by destruct c. Qed.

Lemma deadline_view bs e c : conn_deadline (view bs e c) = on_view bs e (conn_deadline c).
Proof. done. Qed.

Lemma write_view b bs e c : conn_write b (view bs e c) = on_view bs e (conn_write b c).
Proof. unfold conn_write. cbn. by destruct (default _ _). Qed.

Lemma write_frame_view x y tag p bs e c :
  write_frame x y tag p (view bs e c) = on_view bs e (write_frame x y tag p c).
Proof.
  unfold write_frame. rewrite write_view. destruct (conn_write _ c) as [[er|] c1]; cbn; [done|].
  destruct (0 <? zlen p); [|done]. rewrite write_view. by destruct (conn_write _ c1) as [[er|] c2].
Qed.

Lemma writeResponse_view r bs e c : writeResponse cfg r (view bs e c) = on_view bs e (writeResponse cfg r c).
Proof.
  unfold writeResponse. destruct (0 <? WriteTimeout cfg); [|apply write_frame_view].
  rewrite deadline_view. destruct (conn_deadline c) as [[er|] c1]; [done|]. apply write_frame_view.
Qed.

Lemma stream_loop_view fuel o m bs e c :
  stream_loop render fuel cfg o m (view bs e c) = on_view bs e <$> stream_loop render fuel cfg o m c.
Proof.
  revert o c. induction fuel as [|fuel IH]; intros o c; [done|]. cbn [stream_loop].
  destruct (svc_ReadAt o m) as [[d|er]|]; [| |done].
  - rewrite writeResponse_view. destruct (writeResponse _ _ c) as [[x|] c1]; [done|]. cbn. apply IH.
  - destruct (is_EOF er); by rewrite writeResponse_view.
Qed.

Lemma answer_view req m bs e c :
  answer render cfg req m (view bs e c) =
  (fun r => (r.1, (r.2.1, view bs e r.2.2))) <$> answer render cfg req m c.
Proof.
  unfold answer. destruct (decide _) as [Ho|Ho].
  - unfold handleStreamRead. destruct (negb _).
    + rewrite writeResponse_view. by destruct (writeResponse _ _ c).
    + rewrite stream_loop_view. by destruct (stream_loop _ _ _ _ _ c) as [[x c1]|].
  - destruct (dispatch render req m) as [[resp m']|]; [|done]. rewrite writeResponse_view.
    by destruct (writeResponse _ _ c).
Qed.
End View.

(** Nor does reading look at the rest of the connection. *)
Lemma ReadRequest_view bs e c : (ReadRequest (view bs e c)).1 = (ReadRequest (mkConn bs e [] [] [])).1.
Proof.
  unfold ReadRequest, read_frame, read_full. cbn [view c_in c_end set_in].
  destruct (5 <=? length bs)%nat; [|done]. destruct (_ <? _); [done|]. destruct (_ <? _); [|done].
  by destruct (_ <=? _)%nat.
Qed.

(** ** The timed reads are reads of what has arrived *)

Lemma script_cons t bs sc : script_bytes ((t, bs) :: sc) = bs ++ script_bytes sc.
Proof. done. Qed.

Lemma await_sound n dl close sc now have err now' have' sc' :
  await n dl close sc now have = Some (err, (now', have', sc')) ->
  exists got, have' = have ++ got /\ script_bytes sc = got ++ script_bytes sc' /\
    match err with None => (n <= length have')%nat | Some _ => (length have' < n)%nat end /\
    now <= now' /\ (forall d, dl = Some d -> now' <= Z.max now d).
Proof.
  revert now have. induction sc as [|[t bs] sc IH]; intros now have; cbn [await].
  all: destruct (Nat.leb_spec n (length have)) as [Hle|Hlt];
    [intros [= <- <- <- <-]; exists []; rewrite app_nil_r; split_and!; done || (intros; lia)|].
  all: assert (forall o, match dl with Some d => Some (Some ErrDeadline, (Z.max now d, have, o)) | None => None end =
      Some (err, (now', have', sc')) -> exists got, have' = have ++ got /\ script_bytes o = got ++ script_bytes sc' /\
      match err with None => (n <= length have')%nat | Some _ => (length have' < n)%nat end /\
      now <= now' /\ (forall d, dl = Some d -> now' <= Z.max now d)) as Hexp
    by (intros o; destruct dl as [d|]; [|done]; intros [= <- <- <- <-]; exists []; rewrite app_nil_r;
        split_and!; try done; [lia|by intros d' [= <-]]).
  - destruct close as [t|]; [|by apply Hexp]. destruct (in_time dl t) eqn:Ht; [|by apply Hexp].
    intros [= <- <- <- <-]. exists []. rewrite app_nil_r. split_and!; try done; [lia|].
    intros d ->. cbn in Ht. lia.
  - destruct (in_time dl t) eqn:Ht; [|by apply Hexp]. intros Hrun.
    destruct (IH _ _ Hrun) as (got & -> & Hsc & Hn & Hnow & Hd). exists (bs ++ got).
    rewrite script_cons, Hsc, !app_assoc. split_and!; try done; [lia|].
    intros d ->. specialize (Hd d eq_refl). cbn in Ht. lia.
Qed.

Lemma await_returns n d close sc now have : is_Some (await n (Some d) close sc now have).
Proof.
  revert now have. induction sc as [|[t bs] sc IH]; intros now have; cbn [await]; destruct (_ <=? _)%nat; try by eexists.
  - destruct close as [t|]; [destruct (in_time _ _)|]; by eexists.
  - destruct (in_time _ _); [apply IH|by eexists].
Qed.

(** What the reads did with the script and the clock. *)
Definition advanced (dl : option Z) (tc tc' : tconn) (got : list byte) : Prop :=
  script_bytes (t_script tc) = got ++ script_bytes (t_script tc') /\ t_close tc' = t_close tc /\
  t_now tc <= t_now tc' /\ (forall d, dl = Some d -> t_now tc' <= Z.max (t_now tc) d).

Lemma advanced_trans dl tc1 tc2 tc3 g1 g2 :
  advanced dl tc1 tc2 g1 -> advanced dl tc2 tc3 g2 -> advanced dl tc1 tc3 (g1 ++ g2).
Proof.
  intros (H1 & H2 & H3 & H4) (K1 & K2 & K3 & K4). unfold advanced. rewrite H1, K1, app_assoc.
  split_and!; [done|congruence|lia|]. intros d Hd. specialize (H4 d Hd). specialize (K4 d Hd). lia.
Qed.

Lemma read_full_timed_ok n dl tc x tc' :
  read_full_timed n dl tc = Some (Ok x, tc') ->
  exists got, advanced dl tc tc' got /\ c_in (t_conn tc) ++ got = x ++ c_in (t_conn tc') /\ length x = n /\
    t_conn tc' = view (c_in (t_conn tc')) (c_end (t_conn tc)) (t_conn tc).
Proof.
  unfold read_full_timed. destruct (await _ _ _ _ _ _) as [[err [[now have] sc]]|] eqn:Ha; [|done].
  apply await_sound in Ha as (got & Hh & Hsc & Hn & Hnow & Hd). unfold read_full. cbn [view c_in c_end].
  destruct err as [e|]; destruct (Nat.leb_spec n (length have)) as [Hle|Hlt]; try done; try lia.
  intros [= <- <-]. exists got. unfold advanced. cbn. rewrite <- Hh, take_drop, length_take. by split_and!; try lia.
Qed.

Lemma read_full_timed_err n dl tc er tc' :
  read_full_timed n dl tc = Some (Err er, tc') ->
  exists got e, advanced dl tc tc' got /\ read_full n (view (c_in (t_conn tc) ++ got) e (t_conn tc)) = (Err er, t_conn tc').
Proof.
  unfold read_full_timed. destruct (await _ _ _ _ _ _) as [[err [[now have] sc]]|] eqn:Ha; [|done].
  apply await_sound in Ha as (got & -> & Hsc & Hn & Hnow & Hd).
  destruct (read_full n _) as [r c] eqn:Hr. intros [= -> <-].
  exists got, (default (c_end (t_conn tc)) err). by split.
Qed.

Lemma read_full_view n x bs more e c :
  bs = x ++ more -> length x = n -> read_full n (view bs e c) = (Ok x, view more e c).
Proof. intros -> Hn. by rewrite (read_full_app n x more) by done. Qed.

(** A request that was read is at the front of what has arrived. *)
Lemma ReadRequest_timed_ok dl tc req tc' :
  ReadRequest_timed dl tc = Some (Ok req, tc') ->
  exists got, advanced dl tc tc' got /\
    t_conn tc' = view (c_in (t_conn tc')) (c_end (t_conn tc)) (t_conn tc) /\
    (length (c_in (t_conn tc')) + 5 <= length (c_in (t_conn tc) ++ got))%nat /\
    forall more e, ReadRequest (view (c_in (t_conn tc) ++ got ++ more) e (t_conn tc)) =
      (Ok req, view (c_in (t_conn tc') ++ more) e (t_conn tc)).
Proof.
  unfold ReadRequest_timed. destruct (read_full_timed 5 dl tc) as [[[h|e] tc1]|] eqn:H1; [|done|done].
  apply read_full_timed_ok in H1 as (g1 & A1 & Hin1 & Hl1 & Hc1).
  destruct (MaxPayloadSize <? Uint32 (drop 1 h)) eqn:Hmax; [done|].
  destruct (0 <? Uint32 (drop 1 h)) eqn:Hz.
  - destruct (read_full_timed _ dl tc1) as [[[p|e] tc2]|] eqn:H2; [|done|done]. intros [= <- <-].
    apply read_full_timed_ok in H2 as (g2 & A2 & Hin2 & Hl2 & Hc2). exists (g1 ++ g2).
    split; [by eapply advanced_trans|]. split; [by rewrite Hc2, Hc1|]. split.
    { rewrite app_assoc, Hin1, <- app_assoc, Hin2, !length_app. lia. }
    intros more e. unfold ReadRequest, read_frame.
    rewrite (read_full_view 5 h _ (p ++ c_in (t_conn tc2) ++ more)); [|by rewrite <- !app_assoc, !(app_assoc _ g1), Hin1, <- !app_assoc, (app_assoc _ g2), Hin2, <- app_assoc|done].
    rewrite Hmax, Hz. by rewrite (read_full_view _ p _ (c_in (t_conn tc2) ++ more)).
  - intros [= <- <-]. exists g1. split; [done|]. split; [done|]. split; [rewrite Hin1, length_app; lia|].
    intros more e. unfold ReadRequest, read_frame.
    rewrite (read_full_view 5 h _ (c_in (t_conn tc1) ++ more)); [|by rewrite app_assoc, Hin1, <- app_assoc|done].
    by rewrite Hmax, Hz.
Qed.

Lemma ReadRequest_timed_err dl tc er tc' :
  ReadRequest_timed dl tc = Some (Err er, tc') ->
  exists got e, advanced dl tc tc' got /\
    ReadRequest (view (c_in (t_conn tc) ++ got) e (t_conn tc)) = (Err er, t_conn tc').
Proof.
  unfold ReadRequest_timed, ReadRequest, read_frame.
  destruct (read_full_timed 5 dl tc) as [[[h|e] tc1]|] eqn:H1; [| |done].
  - apply read_full_timed_ok in H1 as (g1 & A1 & Hin1 & Hl1 & Hc1).
    destruct (MaxPayloadSize <? Uint32 (drop 1 h)) eqn:Hmax.
    { intros [= <- <-]. exists g1, (c_end (t_conn tc)). split; [done|].
      rewrite (read_full_view 5 h _ (c_in (t_conn tc1))), Hmax by done. by rewrite Hc1. }
    destruct (0 <? Uint32 (drop 1 h)) eqn:Hz; [|done].
    destruct (read_full_timed _ dl tc1) as [[[p|e] tc2]|] eqn:H2; [done| |done]. intros [= <- <-].
    apply read_full_timed_err in H2 as (g2 & e' & A2 & Hr). exists (g1 ++ g2), e'.
    split; [by eapply advanced_trans|].
    rewrite (read_full_view 5 h _ (c_in (t_conn tc1) ++ g2)), Hmax, Hz by
      (done || by rewrite app_assoc, Hin1, <- app_assoc).
    rewrite Hc1 in Hr. cbn [view c_in] in Hr. unfold view in *. cbn in Hr. by rewrite Hr.
  - intros [= <- <-]. apply read_full_timed_err in H1 as (g1 & e' & A1 & Hr). exists g1, e'. by rewrite Hr.
Qed.

(** ** The handler *)

Section Runs.
Context {M : Type} {HL : LogService M} {Hok : LogServiceOk M}.
Context (render : error -> list byte) (cfg : ServerConfig) (work : nat -> Z).

Lemma idle_deadline c c0 derr :
  (if 0 <? IdleTimeout cfg then conn_deadline c else (None, c)) = (derr, c0) ->
  c_in c0 = c_in c /\ c_end c0 = c_end c /\ forall bs e,
    (if 0 <? IdleTimeout cfg then conn_deadline (view bs e c) else (None, view bs e c)) = (derr, view bs e c0).
Proof. destruct (0 <? IdleTimeout cfg); by intros [= <- <-]. Qed.

(** Whatever the handler did, [handleConn] does on the bytes that came in time. *)
Lemma handle_timed_refines fuel i m tc m' tc' :
  handle_timed render cfg fuel work i m tc = Some (m', tc') ->
  exists got e, script_bytes (t_script tc) = got ++ script_bytes (t_script tc') /\
    handleConn render fuel cfg m (view (c_in (t_conn tc) ++ got) e (t_conn tc)) = Some (m', t_conn tc').
Proof.
  revert i m tc. induction fuel as [|fuel IH]; intros i m tc Hrun; [done|]. cbn [handle_timed] in Hrun.
  destruct (if 0 <? IdleTimeout cfg then conn_deadline (t_conn tc) else _) as [derr c0] eqn:Hd.
  destruct (idle_deadline _ _ _ Hd) as (Hi0 & He0 & Hv).
  destruct derr as [e|].
  { injection Hrun as <- <-. exists [], (c_end (t_conn tc)). rewrite app_nil_r, handleConn_answer, Hv.
    by rewrite <- Hi0, <- He0, view_id. }
  destruct (ReadRequest_timed _ _) as [[[req|er] tc1]|] eqn:Hr; [| |done].
  2:{ injection Hrun as <- <-. apply ReadRequest_timed_err in Hr as (got & e & (Hsc & _) & Hr). cbn in Hsc, Hr.
      exists got, e. split; [done|]. rewrite handleConn_answer, Hv, <- Hi0. by rewrite Hr. }
  apply ReadRequest_timed_ok in Hr as (got & (Hsc & _) & Hc1 & _ & Hr). cbn [t_conn t_script] in *.
  set (bs1 := c_in (t_conn tc1)) in *.
  destruct (answer render cfg req m (t_conn tc1)) as [[err [m2 c2]]|] eqn:Ha; [|done].
  rewrite Hc1 in Ha.
  assert (forall bs e, answer render cfg req m (view bs e c0) = Some (err, (m2, view bs e c2))) as Hav.
  { intros bs e. rewrite answer_view in Ha |- *.
    destruct (answer render cfg req m c0) as [[x [y z]]|]; [|done]. by injection Ha as <- <- <-. }
  assert (view bs1 (c_end c0) c2 = c2) as Hc2 by (rewrite Hav in Ha; by injection Ha).
  destruct err as [e|].
  - injection Hrun as <- <-. exists got, (c_end c0). split; [done|].
    rewrite handleConn_answer, Hv, <- Hi0. specialize (Hr [] (c_end c0)). rewrite !app_nil_r in Hr.
    by rewrite Hr, Hav, Hc2.
  - destruct (IH _ _ _ Hrun) as (got2 & e & Hsc2 & Hrun2). cbn [t_conn t_script] in *.
    exists (got ++ got2), e. split; [by rewrite Hsc, Hsc2, app_assoc|].
    rewrite handleConn_answer, Hv, <- Hi0, Hr, Hav. rewrite <- Hrun2. f_equal. by rewrite <- Hc2.
Qed.

Lemma answer_run m b log req c :
  svc_rep m b log -> clean c -> frame_ok (req_Payload req) -> b + zlen log + 1 < 2 ^ 64 ->
  exists m1, answer render cfg req m c = Some (None, (m1, sent (encode_responses (serve render b log req).1) c)) /\
    svc_rep m1 b (serve render b log req).2.
Proof.
  intros Hm Hc Hp Hn. unfold answer. destruct (decide (Op req = OpStreamRead)) as [Hop|Hop].
  - exists m. rewrite (handleStreamRead_run render cfg m b log req c Hm Hc Hop). split; [done|].
    unfold serve. by rewrite decide_True.
  - destruct (dispatch_run render m b log req Hm Hop Hp Hn) as (resp & m' & -> & -> & Hm').
    exists m'. by rewrite writeResponse_clean, encode_responses_one by done.
Qed.

Lemma read_full_timed_returns n d tc : is_Some (read_full_timed n (Some d) tc).
Proof.
  unfold read_full_timed. destruct (await_returns n d (t_close tc) (t_script tc) (t_now tc) (c_in (t_conn tc))) as [[err [[x y] z]] ->].
  destruct (read_full _ _). by eexists.
Qed.

Lemma ReadRequest_timed_returns d tc : is_Some (ReadRequest_timed (Some d) tc).
Proof.
  unfold ReadRequest_timed. destruct (read_full_timed_returns 5 d tc) as [[[h|e] tc1] ->]; [|by eexists].
  destruct (_ <? _); [by eexists|]. destruct (_ <? _); [|by eexists].
  destruct (read_full_timed_returns (Z.to_nat (Uint32 (drop 1 h))) d tc1) as [[[p|e] tc2] ->]; by eexists.
Qed.

(** The time spent answering the first [n] requests from the [i]-th on. *)
Fixpoint work_time (i n : nat) : Z :=
  match n with O => 0 | S n' => work i + work_time (S i) n' end.

Lemma handle_timed_returns fuel i m b log tc :
  0 < IdleTimeout cfg -> svc_rep m b log -> clean (t_conn tc) ->
  let bytes := c_in (t_conn tc) ++ script_bytes (t_script tc) in
  b + zlen log + zlen bytes < 2 ^ 64 -> (length bytes < fuel)%nat ->
  exists m' tc' reqs rest e, handle_timed render cfg fuel work i m tc = Some (m', tc') /\
    bytes = encode_requests reqs ++ rest ++ script_bytes (t_script tc') /\
    (exists er, (ReadRequest (mkConn rest e [] [] [])).1 = Err er) /\
    svc_rep m' b (serve_all render b log reqs).2 /\
    c_out (t_conn tc') = c_out (t_conn tc) ++ encode_responses (serve_all render b log reqs).1 /\
    t_now tc' <= t_now tc + (zlen reqs + 1) * IdleTimeout cfg + work_time i (length reqs).
Proof.
  intros Hidle. revert i m log tc. induction fuel as [|fuel IH]; intros i m log tc Hm Hc bytes Hn Hf; [lia|].
  cbn [handle_timed]. destruct (Z.ltb_spec 0 (IdleTimeout cfg)); [|lia]. rewrite conn_deadline_clean by done.
  set (tc0 := mkTimed (t_now tc) (t_conn tc) (t_script tc) (t_close tc)).
  destruct (ReadRequest_timed_returns (t_now tc + IdleTimeout cfg) tc0) as [[[req|er] tc1] Hr]; rewrite Hr.
  2:{ pose proof (ReadRequest_timed_err _ _ _ _ Hr) as (got & e & (Hsc & _ & Hnow & Hd) & Hrr). cbn [tc0 t_conn t_script t_now] in *.
      specialize (Hd _ eq_refl). exists m, tc1, [], (c_in (t_conn tc) ++ got), e. split; [done|].
      split; [unfold bytes; by rewrite Hsc, <- app_assoc|]. split; [exists er; by rewrite <- (ReadRequest_view _ _ (t_conn tc)), Hrr|].
      split; [done|]. split; [|cbn; unfold zlen; cbn; lia].
      cbn. rewrite app_nil_r. transitivity (c_out (view (c_in (t_conn tc) ++ got) e (t_conn tc))); [|done].
      by rewrite (ReadRequest_out _ _ _ Hrr). }
  pose proof (ReadRequest_timed_ok _ _ _ _ Hr) as (got & (Hsc & Hcl & Hnow & Hd) & Hc1 & Hlen & Hrr).
  cbn [tc0 t_conn t_script t_now] in *. specialize (Hd _ eq_refl).
  set (sc := script_bytes (t_script tc1)) in *. set (c1 := t_conn tc1) in *.
  specialize (Hrr sc (c_end (t_conn tc))). rewrite <- Hsc in Hrr. fold bytes in Hrr.
  pose proof (ReadRequest_encode _ _ _ Hrr) as Henc. pose proof (ReadRequest_frame_ok _ _ _ Hrr) as Hfr.
  cbn [view c_in] in Henc. assert (5 <= length (encode_request req))%nat as H5
    by (unfold encode_request, encode_frame; rewrite length_app, length_frame_header; lia).
  assert (length bytes = length (encode_request req) + length (c_in c1 ++ sc))%nat as Hlb by (by rewrite Henc, length_app).
  assert (clean c1) as Hcc1 by (rewrite Hc1; exact Hc).
  assert (c_out c1 = c_out (t_conn tc)) as Hout1 by (by rewrite Hc1).
  destruct (answer_run m b log req c1 Hm Hcc1 Hfr) as (m1 & -> & Hm1); [unfold zlen in *; lia|].
  pose proof (serve_grows render b log req) as Hgrow.
  destruct (serve render b log req) as [rs log'] eqn:Hsrv. cbn [fst snd] in *.
  destruct (IH (S i) m1 log' (mkTimed (t_now tc1 + work i) (sent (encode_responses rs) c1) (t_script tc1) (t_close tc1)))
    as (m' & tc' & reqs & rest & e & Hrun & Hb & (er & Her) & Hm' & Hout & Ht); try done;
    cbn [t_conn t_script sent c_in]; fold sc; [unfold zlen in *; lia|lia|]. cbn [t_conn t_script sent c_in c_out t_now] in *.
  exists m', tc', (req :: reqs), rest, e. rewrite Hrun. cbn [serve_all]. rewrite Hsrv.
  destruct (serve_all render b log' reqs) as [rs' log'']. cbn [fst snd] in *. split_and!; try done.
  - rewrite Henc. fold sc in Hb. rewrite Hb. by rewrite app_assoc.
  - by exists er.
  - rewrite Hout, Hout1, encode_responses_app. by rewrite app_assoc.
  - cbn [work_time length]. assert (zlen (req :: reqs) = zlen reqs + 1) as -> by (unfold zlen; cbn [length]; lia). lia.
Qed.
End Runs.

(** ** A client that keeps up *)

Definition arrive (now : Z) (chunks : list (Z * list byte)) : Z := foldl Z.max now chunks.*1.

(** [prompt idle work i now sc reqs close]: from [now] on, the script [sc]
    carries the requests [reqs], each in any number of pieces and completely
    within [idle] of the previous answer, and the client closes in time. *)
Inductive prompt (idle : Z) (work : nat -> Z) : nat -> Z -> list (Z * list byte) -> list Request -> Z -> Prop :=
| prompt_close i now t : t <= now + idle -> prompt idle work i now [] [] t
| prompt_request i now chunks sc req reqs t :
    script_bytes chunks = encode_request req -> frame_ok (req_Payload req) ->
    Forall (fun x => x.1 <= now + idle /\ x.2 <> []) chunks ->
    prompt idle work (S i) (arrive now chunks + work i) sc reqs t ->
    prompt idle work i now (chunks ++ sc) (req :: reqs) t.

Lemma script_app a b : script_bytes (a ++ b) = script_bytes a ++ script_bytes b.
Proof. unfold script_bytes. by rewrite fmap_app, join_app. Qed.

Lemma await_chunks n dl close chunks sc now have :
  Forall (fun x => in_time dl x.1 = true) chunks -> (n <= length (have ++ script_bytes chunks))%nat ->
  exists c1 c2, chunks = c1 ++ c2 /\ (n <= length (have ++ script_bytes c1))%nat /\
    await n dl close (chunks ++ sc) now have = Some (None, (arrive now c1, have ++ script_bytes c1, c2 ++ sc)).
Proof.
  revert now have. induction chunks as [|[t bs] chunks IH]; intros now have Hall Hn.
  { change (script_bytes []) with (@nil byte) in *. exists [], []. change (script_bytes []) with (@nil byte).
    rewrite app_nil_r in Hn. rewrite !app_nil_r. split; [done|]. split; [done|].
    destruct sc as [|[t bs] sc]; cbn [app await]; destruct (Nat.leb_spec n (length have)); done || lia. }
  apply Forall_cons in Hall as [Ht Hall]. cbn [app await fst] in *.
  destruct (Nat.leb_spec n (length have)) as [Hle|Hlt].
  - exists [], ((t, bs) :: chunks). change (script_bytes []) with (@nil byte). rewrite !app_nil_r. by split_and!.
  - rewrite Ht. rewrite script_cons, app_assoc in Hn.
    destruct (IH (Z.max now t) (have ++ bs) Hall Hn) as (c1 & c2 & -> & Hn1 & ->).
    exists ((t, bs) :: c1), c2. rewrite script_cons, app_assoc. by split_and!.
Qed.

Lemma read_full_timed_chunks n dl tc chunks sc :
  t_script tc = chunks ++ sc -> Forall (fun x => in_time dl x.1 = true) chunks ->
  (n <= length (c_in (t_conn tc) ++ script_bytes chunks))%nat ->
  exists c1 c2, chunks = c1 ++ c2 /\ (n <= length (c_in (t_conn tc) ++ script_bytes c1))%nat /\
    read_full_timed n dl tc = Some (Ok (take n (c_in (t_conn tc) ++ script_bytes c1)),
      mkTimed (arrive (t_now tc) c1) (view (drop n (c_in (t_conn tc) ++ script_bytes c1)) (c_end (t_conn tc)) (t_conn tc))
        (c2 ++ sc) (t_close tc)).
Proof.
  intros Hsc Hall Hn. destruct (await_chunks n dl (t_close tc) chunks sc (t_now tc) (c_in (t_conn tc)) Hall Hn)
    as (c1 & c2 & -> & Hn1 & Ha).
  exists c1, c2. split; [done|]. split; [done|]. unfold read_full_timed. rewrite Hsc, Ha. unfold read_full.
  cbn [view c_in default]. by rewrite (proj2 (Nat.leb_le _ _) Hn1).
Qed.

Lemma no_empty_chunks (cs : list (Z * list byte)) :
  Forall (fun x => x.2 <> []) cs -> script_bytes cs = [] -> cs = [].
Proof.
  intros Hall Hb. destruct cs as [|[t bs] cs]; [done|]. apply Forall_cons in Hall as [Hne _].
  rewrite script_cons in Hb. by apply app_nil in Hb as [? _].
Qed.

(** The request is read as soon as its last piece is there. *)
Lemma ReadRequest_timed_chunks dl tc chunks sc req :
  t_script tc = chunks ++ sc -> c_in (t_conn tc) = [] -> script_bytes chunks = encode_request req ->
  frame_ok (req_Payload req) -> Forall (fun x => in_time dl x.1 = true /\ x.2 <> []) chunks ->
  ReadRequest_timed dl tc = Some (Ok req,
    mkTimed (arrive (t_now tc) chunks) (view [] (c_end (t_conn tc)) (t_conn tc)) sc (t_close tc)).
Proof.
  intros Hsc Hin Hb Hok [Hall Hne]%Forall_and. destruct req as [op p]. cbn [req_Payload] in Hok.
  unfold encode_request, encode_frame in Hb. cbn [Op req_Payload] in Hb.
  assert (length (frame_header op p) = 5%nat) as H5 by apply length_frame_header.
  destruct (read_full_timed_chunks 5 dl tc chunks sc Hsc Hall) as (c1 & c2 & -> & Hn1 & Hr1).
  { rewrite Hin, Hb, length_app. cbn. lia. }
  rewrite Hin in Hn1, Hr1. cbn [app] in Hn1, Hr1. apply Forall_app in Hall as [_ Hall2]. apply Forall_app in Hne as [_ Hne2].
  rewrite script_app in Hb. set (h := take 5 (script_bytes c1)) in *. set (r := drop 5 (script_bytes c1)) in *.
  assert (h = frame_header op p /\ r ++ script_bytes c2 = p) as [Hh Hp].
  { rewrite <- (take_drop 5 (script_bytes c1)), <- app_assoc in Hb. apply app_inj_1 in Hb; [done|].
    rewrite length_take. lia. }
  unfold ReadRequest_timed. rewrite Hr1, Hh, frame_length by done. unfold frame_ok in Hok.
  destruct (Z.ltb_spec MaxPayloadSize (zlen p)); [lia|]. cbn [nth frame_header].
  set (tc1 := mkTimed _ _ _ _).
  destruct (Z.ltb_spec 0 (zlen p)) as [Hpos|Hz].
  - destruct (read_full_timed_chunks (Z.to_nat (zlen p)) dl tc1 c2 sc eq_refl Hall2) as (d1 & d2 & -> & Hn2 & ->).
    { cbn [tc1 t_conn view c_in]. rewrite Hp. unfold zlen. lia. }
    cbn [tc1 t_conn t_now t_close view c_in c_end c_out c_writes c_deadlines] in *.
    rewrite script_app, app_assoc in Hp. pose proof (f_equal length Hp) as Hl. rewrite length_app in Hl. unfold zlen in Hn2.
    apply Forall_app in Hne2 as [_ Hne2]. assert (d2 = []) as -> by (apply no_empty_chunks; [done|]; apply length_zero_iff_nil; lia).
    change (script_bytes []) with (@nil byte) in Hp. rewrite app_nil_r in Hp. rewrite app_nil_r.
    rewrite Hp, take_ge, drop_ge by (unfold zlen; lia). unfold arrive. by rewrite fmap_app, foldl_app.
  - assert (p = []) as -> by (destruct p; [done|unfold zlen in *; simpl in *; lia]).
    apply app_nil in Hp as [Hr Hc2]. assert (c2 = []) as -> by (by apply no_empty_chunks). rewrite app_nil_r.
    subst tc1. by rewrite Hr.
Qed.

Section Prompt.
Context {M : Type} {HL : LogService M} {Hok : LogServiceOk M}.
Context (render : error -> list byte) (cfg : ServerConfig) (work : nat -> Z).

Lemma handle_timed_prompt i now sc reqs t fuel m b log tc :
  0 < IdleTimeout cfg -> prompt (IdleTimeout cfg) work i now sc reqs t ->
  svc_rep m b log -> clean (t_conn tc) -> c_in (t_conn tc) = [] ->
  t_now tc = now -> t_script tc = sc -> t_close tc = Some t ->
  b + zlen log + zlen reqs < 2 ^ 64 -> (length reqs < fuel)%nat ->
  exists m' tc', handle_timed render cfg fuel work i m tc = Some (m', tc') /\ t_script tc' = [] /\
    svc_rep m' b (serve_all render b log reqs).2 /\
    c_out (t_conn tc') = c_out (t_conn tc) ++ encode_responses (serve_all render b log reqs).1.
Proof.
  intros Hidle Hp. revert fuel m log tc.
  induction Hp as [i now t Ht|i now chunks sc req reqs t Hb Hfr Hall Hp IH]; intros fuel m log tc Hm Hc Hin Hnow Hsc Hcl Hn Hf.
  all: destruct fuel as [|fuel]; [lia|]; cbn [handle_timed].
  all: destruct (Z.ltb_spec 0 (IdleTimeout cfg)); [|lia]; rewrite conn_deadline_clean by done.
  - unfold ReadRequest_timed, read_full_timed. cbn [t_conn t_script t_close t_now]. rewrite Hin, Hsc, Hcl, Hnow. cbn [await length Nat.leb].
    cbn [in_time]. rewrite (proj2 (Z.leb_le _ _) Ht). cbn. eexists _, _. split; [done|]. by rewrite app_nil_r.
  - rewrite (ReadRequest_timed_chunks _ _ chunks sc req); try done.
    2:{ cbn [in_time]. rewrite Hnow. eapply Forall_impl; [exact Hall|]. intros x [Hx Hne]. split; [|done]. by apply Z.leb_le. }
    cbn [t_conn t_now t_script t_close]. set (c1 := view _ _ _). assert (zlen (req :: reqs) = zlen reqs + 1) as Hz by (unfold zlen; cbn [length]; lia).
    pose proof (zlen_nonneg reqs).
    destruct (answer_run render cfg m b log req c1 Hm Hc Hfr) as (m1 & -> & Hm1); [lia|].
    pose proof (serve_grows render b log req) as Hgrow. cbn [serve_all].
    destruct (serve render b log req) as [rs log'] eqn:Hsrv. cbn [fst snd] in *. rewrite Hnow.
    edestruct (IH fuel m1 log' (mkTimed (arrive now chunks + work i) (sent (encode_responses rs) c1) sc (t_close tc)))
      as (m' & tc' & -> & Hs' & Hm' & Hout); try done; [lia|cbn [length] in Hf; lia|].
    exists m', tc'. destruct (serve_all render b log' reqs) as [rs' log'']. cbn [fst snd] in *.
    split_and!; try done. rewrite Hout, encode_responses_app. cbn. by rewrite app_assoc.
Qed.
End Prompt.

(** ** Without an idle timeout *)

Lemma await_forever n sc now have err st : await n None None sc now have = Some (err, st) -> err = None.
Proof.
  revert now have. induction sc as [|[t bs] sc IH]; intros now have; cbn [await]; destruct (_ <=? _)%nat;
    try done; [by intros [= <- _]..|]. cbn [in_time]. apply IH.
Qed.

Lemma read_full_timed_forever n tc r tc' :
  t_close tc = None -> read_full_timed n None tc = Some (r, tc') -> t_close tc' = None /\ exists x, r = Ok x.
Proof.
  intros Hcl. unfold read_full_timed. rewrite Hcl. destruct (await _ _ _ _ _ _) as [[err [[now have] sc]]|] eqn:Ha; [|done].
  pose proof (await_forever _ _ _ _ _ _ Ha) as ->. apply await_sound in Ha as (_ & _ & _ & Hn & _).
  unfold read_full. cbn [view c_in]. rewrite (proj2 (Nat.leb_le _ _) Hn). intros [= <- <-]. split; [done|by eexists].
Qed.

(** A well-formed request is never refused. *)
Lemma ReadRequest_timed_forever tc reqs er tc' :
  t_close tc = None -> c_in (t_conn tc) ++ script_bytes (t_script tc) = encode_requests reqs ->
  Forall (fun r => frame_ok (req_Payload r)) reqs -> ReadRequest_timed None tc <> Some (Err er, tc').
Proof.
  intros Hcl Hb Hall. unfold ReadRequest_timed. destruct (read_full_timed 5 None tc) as [[r tc1]|] eqn:H1; [|done].
  destruct (read_full_timed_forever _ _ _ _ Hcl H1) as [Hcl1 [h ->]].
  apply read_full_timed_ok in H1 as (got & (Hsc & _) & Hin & Hl & _).
  rewrite Hsc, app_assoc, Hin, <- app_assoc in Hb.
  destruct (Z.ltb_spec MaxPayloadSize (Uint32 (drop 1 h))) as [Hmax|_].
  - exfalso. destruct reqs as [|req reqs]; [by destruct h|]. apply Forall_cons in Hall as [Hreq _].
    change (encode_requests (req :: reqs)) with (encode_request req ++ encode_requests reqs) in Hb.
    unfold encode_request, encode_frame in Hb. rewrite <- app_assoc in Hb.
    apply app_inj_1 in Hb as [-> _]; [|by rewrite length_frame_header].
    rewrite frame_length in Hmax by done. unfold frame_ok in Hreq. lia.
  - destruct (0 <? _); [|done]. destruct (read_full_timed _ None tc1) as [[r2 tc2]|] eqn:H2; [|done].
    by destruct (read_full_timed_forever _ _ _ _ Hcl1 H2) as [_ [p ->]].
Qed.

Lemma handle_timed_waits {M} {HL : LogService M} {Hok : LogServiceOk M} render cfg work fuel i (m : M) b log tc reqs :
  IdleTimeout cfg <= 0 -> t_close tc = None -> svc_rep m b log -> clean (t_conn tc) ->
  c_in (t_conn tc) ++ script_bytes (t_script tc) = encode_requests reqs ->
  Forall (fun r => frame_ok (req_Payload r)) reqs -> b + zlen log + zlen reqs < 2 ^ 64 ->
  handle_timed render cfg fuel work i m tc = None.
Proof.
  intros Hidle. revert i m log tc reqs. induction fuel as [|fuel IH]; intros i m log tc reqs Hcl Hm Hc Hb Hall Hn; [done|].
  cbn [handle_timed]. destruct (Z.ltb_spec 0 (IdleTimeout cfg)); [lia|].
  destruct (ReadRequest_timed None _) as [[[req|er] tc1]|] eqn:Hr; [| |done].
  2:{ exfalso. by eapply ReadRequest_timed_forever, Hr. }
  apply ReadRequest_timed_ok in Hr as (got & (Hsc & Hcl1 & _) & Hc1 & _ & Hrr). cbn [t_conn t_script t_close] in *.
  specialize (Hrr (script_bytes (t_script tc1)) EOF). rewrite <- Hsc, Hb in Hrr.
  pose proof (ReadRequest_encode _ _ _ Hrr) as Henc. cbn [view c_in] in Henc.
  destruct reqs as [|req' reqs].
  { unfold encode_request, encode_frame in Henc. by rewrite <- app_assoc in Henc. }
  apply Forall_cons in Hall as [Hreq Hall].
  assert (ReadRequest (view (encode_requests (req' :: reqs)) EOF (t_conn tc)) =
    (Ok req', view (encode_requests reqs) EOF (t_conn tc))) as Hrr'.
  { unfold ReadRequest. rewrite (read_frame_app _ _ (Op req') (req_Payload req') (encode_requests reqs)); [by destruct req'|done|done]. }
  rewrite Hrr in Hrr'. injection Hrr' as -> Hb1.
  assert (zlen (req' :: reqs) = zlen reqs + 1) as Hz by (unfold zlen; cbn [length]; lia). pose proof (zlen_nonneg reqs).
  assert (clean (t_conn tc1)) as Hcc1 by (rewrite Hc1; exact Hc).
  destruct (answer_run render cfg m b log req' (t_conn tc1) Hm Hcc1 Hreq) as (m1 & -> & Hm1); [lia|].
  pose proof (serve_grows render b log req') as Hgrow.
  eapply (IH _ _ _ _ reqs); try done; [by rewrite <- Hcl|]. cbn [t_conn t_script sent c_in]. lia.
Qed.

(** ** Results *)


(** A client that produces a record in two pieces, sends three bytes of the
    next request, and is never heard of again. *)
Definition ex_dead : tconn :=
  mkTimed 0 (mkConn [] EOF [] [] [])
    [(5, take 4 (encode_request (mkRequest OpProduce [byte.of_Z 9])));
     (8, drop 4 (encode_request (mkRequest OpProduce [byte.of_Z 9])));
     (9, [byte.of_Z 1; byte.of_Z 0; byte.of_Z 0])] None.


(** Without an idle timeout a client that stays connected keeps its handler
    for ever: however long it runs, the handler has not returned, whatever
    well-formed requests the client sent before.  [Close] of the server waits
    for it ([ServerLife.wait_group_counts]). *)
Theorem no_timeout_never_returns {M} (HL : LogService M) (Hok : LogServiceOk M) render cfg work fuel (m : M) b log tc reqs
  (Hidle : IdleTimeout cfg <= 0) (Hopen : t_close tc = None) (Hm : svc_rep m b log) (Hc : clean (t_conn tc))
  (Hin : c_in (t_conn tc) = []) (Hb : script_bytes (t_script tc) = encode_requests reqs)
  (Hreqs : Forall (fun r => frame_ok (req_Payload r)) reqs) (Hn : b + zlen log + zlen reqs < 2 ^ 64) :
  handle_timed render cfg fuel work 0 m tc = None.
Proof. eapply handle_timed_waits; try done. by rewrite Hin. Qed.

Lemma no_timeout_never_returns_witness fuel :
  handle_timed ex_render (mkServerConfig 0 0) fuel (fun _ => 0) 0 (ex_live ex_mgr3)
    (mkTimed 0 (mkConn [] EOF [] [] []) [(5, encode_requests ex_requests)] None) = None.
Proof.
  apply (no_timeout_never_returns manager_service manager_service_ok ex_render (mkServerConfig 0 0) (fun _ => 0) fuel
    (ex_live ex_mgr3) 0 [ex_data; ex_data; ex_data]
    (mkTimed 0 (mkConn [] EOF [] [] []) [(5, encode_requests ex_requests)] None) ex_requests);
    [reflexivity|reflexivity|exact ex_live3|split; reflexivity|reflexivity|reflexivity| |vm_compute; reflexivity].
  repeat constructor; vm_compute; discriminate.
Qed.
