(* ===== verification/Client.v ===== *)
(** * Client: the remote client ([client/client.go])

    A call writes a request and reads the answer from the same connection.
    [peer] is what the other end does: given the bytes of the request it
    produces the bytes that arrive next.  For the end-to-end results the peer
    is the server of [Server.v]. *)

From Stdlib Require Import ZArith Lia Strings.String.
From stdpp Require Import base list list_numbers numbers option gmap sorting.
From coqutil Require Import Byte.
From S2P Require Import Prelude Bytes Golib Checksum Wal WalFormat Crash MgrProps Service Protocol Server.

Local Open Scope Z_scope.

(** More bytes arrive. *)
Definition deliver (bs : list byte) (c : conn) : conn := set_in (c_in c ++ bs) c.

(** What a write added to the connection. *)
Definition written (before after : conn) : list byte := drop (length (c_out before)) (c_out after).

Section Client.
Context (peer : list byte -> list byte).

(** [roundTrip] *)
Definition roundTrip (req : Request) (c : conn) : result Response * conn :=
  match WriteRequest req c with
  | (Some e, c1) => (Err e, c1)
  | (None, c1) =>
      match ReadResponse (deliver (peer (written c c1)) c1) with
      | (Err e, c2) => (Err e, c2)
      | (Ok resp, c2) =>
          if decide (Status resp = StatusOK) then (Ok resp, c2)
          else (Err (Text "server error: " (resp_Payload resp)), c2)
      end
  end.

(** An eight-byte answer. *)
Definition offset_answer (what : string) (r : result Response * conn) : result Z * conn :=
  match r with
  | (Err e, c) => (Err e, c)
  | (Ok resp, c) =>
      if negb (zlen (resp_Payload resp) =? 8) then (Err (Msg what), c)
      else (Ok (Uint64 (resp_Payload resp)), c)
  end.

Definition Produce (data : list byte) (c : conn) : result Z * conn :=
  offset_answer "produce: unexpected response length" (roundTrip (mkRequest OpProduce data) c).
Definition Client_Read (offset : Z) (c : conn) : result (list byte) * conn :=
  match roundTrip (mkRequest OpRead (PutUint64 offset)) c with
  | (Err e, c') => (Err e, c')
  | (Ok resp, c') => (Ok (resp_Payload resp), c')
  end.
Definition Client_NextOffset (c : conn) : result Z * conn :=
  offset_answer "next-offset: unexpected response length" (roundTrip (mkRequest OpNextOffset []) c).
Definition Client_EarliestOffset (c : conn) : result Z * conn :=
  offset_answer "earliest-offset: unexpected response length"
    (roundTrip (mkRequest OpEarliestOffset []) c).

(** The loop of [StreamRead].  The callback runs on a state of its own.
    [None] is out of fuel. *)
Fixpoint stream_recv {A} (fuel : nat) (fn : Z -> list byte -> A -> outcome * A) (next : Z) (a : A) (c : conn)
    : option (Z * outcome * A * conn) :=
  match fuel with
  | O => None
  | S fuel' =>
      match ReadResponse c with
      | (Err e, c1) => Some (next, Some e, a, c1)
      | (Ok resp, c1) =>
          if decide (Status resp = StatusStreamEnd) then Some (next, None, a, c1)
          else if decide (Status resp = StatusError) then
            Some (next, Some (Text "server error: " (resp_Payload resp)), a, c1)
          else if decide (Status resp = StatusOK) then
            match fn next (resp_Payload resp) a with
            | (Some e, a') => Some (next, Some e, a', c1)
            | (None, a') => stream_recv fuel' fn (u64 (next + 1)) a' c1
            end
          else Some (next, Some (Text "stream: unknown status" [Status resp]), a, c1)
      end
  end.

(** [StreamRead]: the next offset, the error, the callback's state. *)
Definition StreamRead {A} (fn : Z -> list byte -> A -> outcome * A) (startOffset : Z) (a : A) (c : conn)
    : option (Z * outcome * A * conn) :=
  match WriteRequest (mkRequest OpStreamRead (PutUint64 startOffset)) c with
  | (Some e, c1) => Some (startOffset, Some e, a, c1)
  | (None, c1) =>
      let c2 := deliver (peer (written c c1)) c1 in
      stream_recv (S (length (c_in c2))) fn startOffset a c2
  end.
End Client.

(** ** Opening and closing *)

(** A client is its connection, until it is closed. *)
Record Client := mkClient { cl_conn : conn; cl_closed : bool }.

(** Ten seconds. *)
Definition DefaultDialTimeout : Z := 10 * 1000000000.

(** [net.DialTimeout] is [dial]. *)
Definition NewWithTimeout (dial : string -> Z -> result conn) (addr : string) (dialTimeout : Z) : result Client :=
  match dial addr dialTimeout with
  | Err e => Err (Wrap "client: dial" e)
  | Ok c => Ok (mkClient c false)
  end.
Definition Client_New (dial : string -> Z -> result conn) (addr : string) : result Client :=
  NewWithTimeout dial addr DefaultDialTimeout.

(** [Close]; [err] is what closing an open connection returns. *)
Definition Client_Close (err : outcome) (cl : Client) : outcome * Client :=
  (if cl_closed cl then Some ErrNetClosed else err, mkClient (cl_conn cl) true).

(** A call on a client: the first write on a closed connection fails. *)
Definition client_call {A} (op : conn -> result A * conn) (cl : Client) : result A * Client :=
  if cl_closed cl then (Err (Wrap "write request header" ErrNetClosed), cl)
  else let '(r, c') := op (cl_conn cl) in (r, mkClient c' false).

(** ** Against the server *)

(** The server as a peer: its answer to some bytes, and its state after. *)
Definition server_answer {M} `{LogService M} (render : error -> list byte) (cfg : ServerConfig) (m : M)
    (bs : list byte) : option (M * list byte) :=
  let c := mkConn bs EOF [] [] [] in
  match handleConn render (conn_fuel c) cfg m c with
  | None => None
  | Some (m', c') => Some (m', c_out c')
  end.
Definition server_peer {M} `{LogService M} render cfg (m : M) (bs : list byte) : list byte :=
  match server_answer render cfg m bs with Some (_, out) => out | None => [] end.

(** A connection with nothing left unread. *)
Definition in_sync (c : conn) : Prop := clean c /\ c_in c = [].

Section EndToEnd.
Context {M : Type} {HL : LogService M} {Hok : LogServiceOk M}.
Context (render : error -> list byte) (cfg : ServerConfig).

Lemma server_answer_one m b log req :
  svc_rep m b log -> frame_ok (req_Payload req) -> b + zlen log + 1 < 2 ^ 64 ->
  exists m', server_answer render cfg m (encode_request req) =
      Some (m', encode_responses (serve render b log req).1) /\
    svc_rep m' b (serve render b log req).2.
Proof.
  intros Hm Hp Hn. unfold server_answer.
  destruct (handleConn_run render cfg [req] m b log (mkConn (encode_request req) EOF [] [] [])
    (conn_fuel (mkConn (encode_request req) EOF [] [] []))) as (m' & c' & -> & Hm' & Hout); try done.
  - unfold encode_requests. cbn. by rewrite app_nil_r.
  - by repeat constructor.
  - unfold conn_fuel. lia.
  - cbn [serve_all] in *. destruct (serve render b log req) as [rs log']. cbn [fst snd] in *.
    rewrite app_nil_r in Hout. exists m'. by rewrite Hout.
Qed.

Lemma written_sent bs c : written c (sent bs c) = bs.
Proof. unfold written, sent. cbn. by rewrite drop_app_length. Qed.

(** A request with a one-frame answer. *)
Lemma roundTrip_run m b log req c resp :
  svc_rep m b log -> in_sync c -> frame_ok (req_Payload req) -> b + zlen log + 1 < 2 ^ 64 ->
  (serve render b log req).1 = [resp] -> frame_ok (resp_Payload resp) ->
  exists c', in_sync c' /\ written c c' = encode_request req /\
    roundTrip (server_peer render cfg m) req c =
      (if decide (Status resp = StatusOK) then Ok resp
       else Err (Text "server error: " (resp_Payload resp)), c').
Proof.
  intros Hm [Hc Hin] Hp Hn Hone Hresp.
  destruct (server_answer_one m b log req Hm Hp Hn) as (m' & Hans & _).
  unfold roundTrip. unfold WriteRequest. rewrite write_frame_clean by done.
  change (encode_frame (Op req) (req_Payload req)) with (encode_request req).
  rewrite written_sent. unfold server_peer. rewrite Hans, Hone, encode_responses_one.
  unfold ReadResponse.
  rewrite (read_frame_app _ _ (Status resp) (resp_Payload resp) []); [|done|].
  - exists (set_in [] (deliver (encode_response resp) (sent (encode_request req) c))).
    split; [done|]. split; [apply written_sent|]. destruct resp as [st q]. cbn [Status resp_Payload].
    by destruct (decide _).
  - unfold deliver, set_in. cbn. by rewrite Hin, app_nil_r.
Qed.

(** Receiving a stream of records. *)
Lemma stream_recv_run {A} (fn : Z -> list byte -> A -> outcome * A) recs next a c fuel f :
  clean c -> c_in c = encode_responses ((mkResponse StatusOK <$> recs) ++ [mkResponse StatusStreamEnd []]) ->
  Forall payload_ok recs -> 0 <= next -> next + zlen recs < 2 ^ 64 -> (length recs < fuel)%nat ->
  (forall o x a, fn o x a = (None, f o x a)) ->
  exists c', in_sync c' /\
    stream_recv fuel fn next a c =
    Some (next + zlen recs, None, fold_left (fun s ox => f ox.1 ox.2 s) (number next recs) a, c').
Proof.
  intros Hc Hin Hall Hn0 Hn Hf Hfn. revert next a c fuel Hc Hin Hn0 Hn Hf.
  induction Hall as [|x recs Hx Hall IH]; intros next a c fuel Hc Hin Hn0 Hn Hf;
    (destruct fuel as [|fuel]; [lia|]); cbn [stream_recv]; unfold ReadResponse.
  - cbn [fmap list_fmap app] in Hin. rewrite encode_responses_one in Hin.
    rewrite (read_frame_app _ _ StatusStreamEnd [] []) by (done || by rewrite app_nil_r).
    cbn [Status resp_Payload]. rewrite decide_True by done.
    exists (set_in [] c). split; [done|]. unfold zlen. cbn. by rewrite Z.add_0_r.
  - cbn [fmap list_fmap app] in Hin. rewrite encode_responses_cons in Hin.
    rewrite (read_frame_app _ _ StatusOK x _ c Hx Hin). cbn [Status resp_Payload].
    rewrite decide_False, decide_False, decide_True, Hfn by done.
    assert (zlen (x :: recs) = 1 + zlen recs) as Hz by (unfold zlen; simpl; lia).
    pose proof (zlen_nonneg recs). rewrite u64_small by (unfold is_u64; lia).
    destruct (IH (next + 1) (f next x a) (set_in (encode_responses
      ((mkResponse StatusOK <$> recs) ++ [mkResponse StatusStreamEnd []])) c) fuel) as (c' & Hs & Hrun);
      [done|done|lia|lia|simpl in Hf; lia|].
    exists c'. split; [done|]. rewrite Hrun. cbn [number fold_left fst snd].
    by replace (next + 1 + zlen recs) with (next + zlen (x :: recs)) by lia.
Qed.

Lemma length_encode_responses rs : (length rs <= length (encode_responses rs))%nat.
Proof.
  induction rs as [|r rs IH]; [done|]. rewrite encode_responses_cons, length_app.
  unfold encode_response, encode_frame. rewrite length_app, length_frame_header. simpl. lia.
Qed.

Lemma StreamRead_run {A} (fn : Z -> list byte -> A -> outcome * A) m b log o a c f :
  svc_rep m b log -> in_sync c -> b <= o <= b + zlen log -> b + zlen log + 1 < 2 ^ 64 ->
  (forall o x a, fn o x a = (None, f o x a)) ->
  exists c', in_sync c' /\
    StreamRead (server_peer render cfg m) fn o a c =
    Some (b + zlen log, None,
      fold_left (fun s ox => f ox.1 ox.2 s) (number o (drop (Z.to_nat (o - b)) log)) a, c').
Proof.
  intros Hm [Hc Hin] Ho Hn Hfn. destruct (svc_range _ _ _ Hm) as [Hb0 _].
  set (req := mkRequest OpStreamRead (PutUint64 o)).
  destruct (server_answer_one m b log req Hm) as (m' & Hans & _); [vm_compute; done|done|].
  unfold StreamRead. unfold WriteRequest. rewrite write_frame_clean by done.
  change (encode_frame _ _) with (encode_request req).
  rewrite written_sent. unfold server_peer. rewrite Hans.
  set (recs := drop (Z.to_nat (o - b)) log).
  assert ((serve render b log req).1 = (mkResponse StatusOK <$> recs) ++ [mkResponse StatusStreamEnd []]) as ->.
  { unfold serve. rewrite decide_True by done. cbn [fst req_Payload req].
    assert (zlen (PutUint64 o) = 8) as Hz by (unfold zlen; by rewrite length_PutUint64).
    assert (Uint64 (PutUint64 o) = o) as Hu
      by (rewrite <- (app_nil_r (PutUint64 o)); apply Uint64_Put; unfold is_u64; lia).
    rewrite Hz, Hu. cbn [negb Z.eqb Pos.eqb]. destruct (Z.ltb_spec o b); [lia|done]. }
  assert (zlen recs = b + zlen log - o) as Hlen by (unfold recs, zlen in *; rewrite length_drop; lia).
  match goal with |- context [stream_recv (S (length ?i)) fn o a ?c2] =>
    destruct (stream_recv_run fn recs o a c2 (S (length i)) f) as (c' & Hs & Hrun) end.
  - done.
  - cbn. by rewrite Hin.
  - apply Forall_drop. by eapply svc_records.
  - lia.
  - lia.
  - cbn [deliver set_in c_in sent]. rewrite Hin. cbn [app].
    pose proof (length_encode_responses ((mkResponse StatusOK <$> recs) ++ [mkResponse StatusStreamEnd []])) as Hle.
    rewrite length_app, length_fmap in Hle. simpl in Hle. lia.
  - done.
  - exists c'. split; [done|]. rewrite Hrun, Hlen. by replace (o + (b + zlen log - o)) with (b + zlen log) by lia.
Qed.
Lemma eight_bytes v : is_u64 v -> frame_ok (PutUint64 v) /\ (zlen (PutUint64 v) =? 8) = true /\ Uint64 (PutUint64 v) = v.
Proof.
  intros Hv. assert (zlen (PutUint64 v) = 8) as Hz by (unfold zlen; by rewrite length_PutUint64).
  unfold frame_ok. rewrite Hz. split_and!; [done..|]. rewrite <- (app_nil_r (PutUint64 v)). by apply Uint64_Put.
Qed.

(** A query answered with an offset. *)
Lemma offset_answer_run m b log req c v what :
  svc_rep m b log -> in_sync c -> frame_ok (req_Payload req) -> b + zlen log + 1 < 2 ^ 64 -> is_u64 v ->
  (serve render b log req).1 = [mkResponse StatusOK (PutUint64 v)] ->
  exists c', in_sync c' /\ written c c' = encode_request req /\
    offset_answer what (roundTrip (server_peer render cfg m) req c) = (Ok v, c').
Proof.
  intros Hm Hc Hp Hn Hv Hs. destruct (eight_bytes v Hv) as (Hf & Hl & Hu).
  destruct (roundTrip_run m b log req c (mkResponse StatusOK (PutUint64 v)) Hm)
    as (c' & Hc' & Hw & Hrt); try done.
  exists c'. split; [done|]. split; [done|]. rewrite Hrt. cbn [Status]. rewrite decide_True by done.
  cbn [offset_answer resp_Payload]. by rewrite Hl, Hu.
Qed.

Lemma head_u64 m b log : svc_rep m b log -> is_u64 (b + zlen log) /\ is_u64 b.
Proof. intros Hm. destruct (svc_range _ _ _ Hm). pose proof (zlen_nonneg log). unfold is_u64. lia. Qed.

Lemma Produce_run m b log c data :
  svc_rep m b log -> in_sync c -> data <> [] -> payload_ok data -> b + zlen log + 1 < 2 ^ 64 ->
  exists m' c' out, server_answer render cfg m (encode_request (mkRequest OpProduce data)) = Some (m', out) /\
    svc_rep m' b (log ++ [data]) /\ in_sync c' /\
    written c c' = encode_request (mkRequest OpProduce data) /\
    Produce (server_peer render cfg m) data c = (Ok (b + zlen log), c').
Proof.
  intros Hm Hc Hne Hp Hn. set (req := mkRequest OpProduce data).
  assert (serve render b log req = ([mkResponse StatusOK (PutUint64 (b + zlen log))], log ++ [data])) as Hs
    by (unfold serve; destruct data; done).
  destruct (server_answer_one m b log req Hm) as (m' & Hans & Hm'); [done..|].
  destruct (offset_answer_run m b log req c (b + zlen log) "produce: unexpected response length" Hm)
    as (c' & Hc' & Hw & Hrt); try done; [by apply (head_u64 m)|by rewrite Hs|].
  rewrite Hs in Hm'. exists m', c'. by eexists.
Qed.

Lemma Client_NextOffset_run m b log c :
  svc_rep m b log -> in_sync c -> b + zlen log + 1 < 2 ^ 64 ->
  exists c', in_sync c' /\ written c c' = encode_request (mkRequest OpNextOffset []) /\
    Client_NextOffset (server_peer render cfg m) c = (Ok (b + zlen log), c').
Proof. intros Hm Hc Hn. apply (offset_answer_run m b log); try done. by apply (head_u64 m). Qed.

Lemma Client_EarliestOffset_run m b log c :
  svc_rep m b log -> in_sync c -> b + zlen log + 1 < 2 ^ 64 ->
  exists c', in_sync c' /\ written c c' = encode_request (mkRequest OpEarliestOffset []) /\
    Client_EarliestOffset (server_peer render cfg m) c = (Ok b, c').
Proof. intros Hm Hc Hn. apply (offset_answer_run m b log); try done. by apply (head_u64 m b log). Qed.
Lemma Client_Read_run m b log c o :
  svc_rep m b log -> in_sync c -> is_u64 o -> b + zlen log + 1 < 2 ^ 64 ->
  (forall e, read_spec b log o = Err e -> frame_ok (render e)) ->
  exists c', in_sync c' /\ Client_Read (server_peer render cfg m) o c =
    (match read_spec b log o with
     | Ok x => Ok x
     | Err e => Err (Text "server error: " (render e))
     end, c').
Proof.
  intros Hm Hc Ho Hn Hrender. set (req := mkRequest OpRead (PutUint64 o)). destruct (eight_bytes o Ho) as (Hfo & Hlo & Hvo).
  set (resp := match read_spec b log o with
               | Ok x => mkResponse StatusOK x | Err e => errorResponse (render e) end).
  assert ((serve render b log req).1 = [resp]) as Hs.
  { unfold serve. cbn [Op req_Payload req]. do 2 rewrite decide_False by done.
    rewrite decide_True by done. rewrite Hlo, Hvo. cbn [negb fst]. done. }
  destruct (roundTrip_run m b log req c resp Hm) as (c' & Hc' & _ & Hrt); try done.
  { unfold resp. destruct (read_spec b log o) as [x|e] eqn:Hr; [|by apply Hrender].
    unfold read_spec in Hr. destruct (o <? b); [done|].
    destruct (log !! Z.to_nat (o - b)) as [y|] eqn:Hy; [|done]. injection Hr as <-.
    by apply (Forall_lookup_1 _ _ _ _ (svc_records _ _ _ Hm) Hy). }
  exists c'. split; [done|]. unfold Client_Read. fold req. rewrite Hrt.
  unfold resp. by destruct (read_spec b log o).
Qed.
End EndToEnd.

(** ** Results *)

(** C23. Produce and read over the network.  A client call against the server of
    any log service does what the log does: [Produce] of a nonempty payload
    returns the next offset and the service holds the record, [Read] returns
    the record or the server's error text, the two offset queries return the
    bounds of the log; and after each call the connection is in step again,
    with nothing left unread. *)
Theorem client_end_to_end {M} (HL : LogService M) (Hok : LogServiceOk M) render cfg m b log c data o
  (Hm : svc_rep m b log) (Hc : in_sync c) (Hne : data <> []) (Hp : payload_ok data) (Ho : is_u64 o)
  (Hn : b + zlen log + 1 < 2 ^ 64) (Hrender : forall e, frame_ok (render e)) :
  (exists m' c' out, server_answer render cfg m (encode_request (mkRequest OpProduce data)) = Some (m', out) /\
     svc_rep m' b (log ++ [data]) /\ in_sync c' /\
     Produce (server_peer render cfg m) data c = (Ok (b + zlen log), c')) /\
  (exists c', in_sync c' /\ Client_Read (server_peer render cfg m) o c =
     (match read_spec b log o with
      | Ok x => Ok x
      | Err e => Err (Text "server error: " (render e))
      end, c')) /\
  (exists c', in_sync c' /\ Client_NextOffset (server_peer render cfg m) c = (Ok (b + zlen log), c')) /\
  (exists c', in_sync c' /\ Client_EarliestOffset (server_peer render cfg m) c = (Ok b, c')).
Proof.
  split_and!.
  - destruct (Produce_run render cfg m b log c data) as (m' & c' & out & H1 & H2 & H3 & _ & H4); try done.
    by exists m', c', out.
  - by apply Client_Read_run.
  - destruct (Client_NextOffset_run render cfg m b log c) as (c' & ? & _ & ?); try done. by exists c'.
  - destruct (Client_EarliestOffset_run render cfg m b log c) as (c' & ? & _ & ?); try done. by exists c'.
Qed.

Definition ex_conn : conn := mkConn [] EOF [] [] [].

Lemma ex_render_ok e : frame_ok (ex_render e).
Proof. destruct e; vm_compute; discriminate. Qed.

Lemma client_end_to_end_witness :
  exists c', in_sync c' /\
    Client_Read (server_peer ex_render DefaultServerConfig (ex_live ex_mgr3)) 1 ex_conn = (Ok ex_data, c').
Proof.
  destruct (client_end_to_end manager_service manager_service_ok ex_render DefaultServerConfig
    (ex_live ex_mgr3) 0 [ex_data; ex_data; ex_data] ex_conn ex_data 1 ex_live3) as (_ & H & _).
  - split; [split; reflexivity|reflexivity].
  - discriminate.
  - vm_compute. discriminate.
  - unfold is_u64. lia.
  - vm_compute. reflexivity.
  - exact ex_render_ok.
  - exact H.
Defined.

(** Streaming over the network.  Against the server of any log service,
    [StreamRead] from a stored offset calls the function once per record up to
    the head, in order, with the record's own offset, and returns the next
    offset to resume from; the connection is in step afterwards. *)
Theorem client_stream_end_to_end {M A} (HL : LogService M) (Hok : LogServiceOk M) render cfg m b log c
  (fn : Z -> list byte -> A -> outcome * A) (f : Z -> list byte -> A -> A) o a
  (Hm : svc_rep m b log) (Hc : in_sync c) (Ho : b <= o <= b + zlen log) (Hn : b + zlen log + 1 < 2 ^ 64)
  (Hfn : forall o x a, fn o x a = (None, f o x a)) :
  exists c', in_sync c' /\
    StreamRead (server_peer render cfg m) fn o a c =
    Some (b + zlen log, None,
      fold_left (fun s ox => f ox.1 ox.2 s) (number o (drop (Z.to_nat (o - b)) log)) a, c').
Proof. by apply StreamRead_run. Qed.

(** A callback that collects what it is given. *)
Definition collect (o : Z) (x : list byte) (acc : list (Z * list byte)) : outcome * list (Z * list byte) :=
  (None, acc ++ [(o, x)]).

Lemma client_stream_end_to_end_witness :
  exists c', in_sync c' /\
    StreamRead (server_peer ex_render DefaultServerConfig (ex_live ex_mgr3)) collect 1 [] ex_conn =
    Some (3, None, [(1, ex_data); (2, ex_data)], c').
Proof.
  apply (client_stream_end_to_end manager_service manager_service_ok ex_render DefaultServerConfig
    (ex_live ex_mgr3) 0 [ex_data; ex_data; ex_data] ex_conn collect (fun o x acc => acc ++ [(o, x)]) 1 []).
  - exact ex_live3.
  - split; [split; reflexivity|reflexivity].
  - vm_compute. split; discriminate.
  - vm_compute. reflexivity.
  - reflexivity.
Defined.

(** ** Two defects *)

(** A service holding fixed records, for short runs. *)
#[local] Instance list_service : LogService (list (list byte)) := {
  svc_Append data l := Some (Ok (zlen l), l ++ [data]);
  svc_ReadAt o l := Some (read_spec 0 l o);
  svc_NextOffset l := zlen l;
  svc_EarliestOffset _ := 0
}.

(** Defect: an aborted stream leaves its frames on the connection.  The
    log holds the records 1, 2, 3; a [StreamRead] whose callback fails on the
    first record returns that error; the next [Read(0)] on the same client
    returns record 2, without error. *)
Theorem stream_abort_desynchronises :
  let log := [[byte.of_Z 1]; [byte.of_Z 2]; [byte.of_Z 3]] in
  let peer := server_peer ex_render DefaultServerConfig log in
  match StreamRead peer (fun _ _ (_ : unit) => (Some (Msg "stop"), tt)) 0 tt ex_conn with
  | Some (_, err, _, c) =>
      err = Some (Msg "stop") /\ (Client_Read peer 0 c).1 = Ok [byte.of_Z 2] /\
      (Client_Read peer 0 ex_conn).1 = Ok [byte.of_Z 1]
  | None => False
  end.
Proof. vm_compute. repeat split. Qed.

(** One log file served directly. *)
#[local] Instance wal_service : LogService file := {
  svc_Append _ f := Some (Err (Msg "read only"), f);
  svc_ReadAt o f := Wal_ReadAt no_fault (reader_at NewCRC32C 0) (w_store ex_writer) f o;
  svc_NextOffset _ := 0;
  svc_EarliestOffset _ := 0
}.

(** Defect: a record cut inside its payload looks like the head of the
    log.  Reading it fails with a wrapped [io.EOF]; [handleStreamRead] tests
    [errors.Is(err, io.EOF)], so it answers [StatusStreamEnd], "caught up",
    instead of the error frame its comment promises for a real read error. *)
Theorem stream_hides_truncated_record :
  let f := mkFile (take 9 (encode_record NewCRC32C ex_data)) 0 in
  Wal_ReadAt no_fault (reader_at NewCRC32C 0) (w_store ex_writer) f 0 =
    Some (Err (Wrap "wal: read payload" EOF)) /\
  handleStreamRead ex_render DefaultServerConfig (PutUint64 0) f ex_conn =
    Some (None, sent (encode_response (mkResponse StatusStreamEnd [])) ex_conn).
Proof. vm_compute. split; reflexivity. Qed.
