(* ===== verification/Programs.v ===== *)
(** * Programs: the command-line programs ([cmd/server], [cmd/client],
    [cmd/main.go], [cmd/retention])

    Each [main] composes the components: the server program opens the log,
    serves it and closes both; the client program produces over the network
    and streams the log back; the two demonstrations run in one process.
    Flags are arguments, what is printed is the result, and [log.Fatal] is an
    error result.  The consumer program [cmd/concurrent] is in
    [ConsumerApp.v]. *)

From Stdlib Require Import ZArith Lia Strings.String.
From stdpp Require Import base list list_numbers numbers option gmap sorting.
From coqutil Require Import Byte.
From S2P Require Import Prelude Bytes Golib Index Checksum Wal WalFormat WalInv Crash Segment Manager MgrInv MgrOpen MgrProps Service ConsumerOffset Protocol Server ServerNet ServerLife Client.

Local Open Scope Z_scope.

(** ** [cmd/server] *)

(** The flags. *)
Record server_flags := mkFlags { fl_max_bytes : Z; fl_idle : Z; fl_write : Z }.

Definition default_flags : server_flags := mkFlags (2 ^ 30) (10 * 60 * 1000000000) (30 * 1000000000).

(** [segment.Config{Dir, MaxSegmentBytes}] *)
Definition server_cfg (fl : server_flags) : Config := mkConfig (fl_max_bytes fl) 0 0 0 false None.

(** Up to [go srv.Serve()]: open the log in [d] and listen; when listening
    fails the log is closed again, with the outcomes [cio].  [env] holds the
    outcomes the manager's later file operations meet.  The directory is
    returned without the files of open segments. *)
Definition server_start (fl : server_flags) (oio : Z -> segment_io) (lerr : outcome) (cio : nat -> close_io)
    (env : Manager -> LiveManager) (d : dir) : option (result (ServerState LiveManager) * dir) :=
  match Open None None oio (server_cfg fl) d with
  | None => None
  | Some (Err e) => Some (Err (Wrap "open log" e), d)
  | Some (Ok mgr) =>
      match NewServer (env mgr) lerr [WithIdleTimeout (fl_idle fl); WithWriteTimeout (fl_write fl)] with
      | Err e => Some (Err (Wrap "start server" e), (Mgr_Close cio mgr).2)
      | Ok srv => Some (Ok srv, m_dir mgr)
      end
  end.

(** After the signal and [srv.Close()]: [mgr.Close()] leaves the directory. *)
Definition server_stop (cio : nat -> close_io) (s : ServerState LiveManager) : outcome * dir :=
  Mgr_Close cio (lv_mgr (nt_log (sv_net s))).

(** *** Nothing of a deleted segment stays behind *)

Definition dir_le (d d' : dir) : Prop := forall n, is_Some (d_files d' !! n) -> is_Some (d_files d !! n).

Lemma dir_le_refl d : dir_le d d.
Proof. by intros n. Qed.
#[local] Hint Resolve dir_le_refl : core.

Lemma dir_le_trans d1 d2 d3 : dir_le d1 d2 -> dir_le d2 d3 -> dir_le d1 d3.
Proof. unfold dir_le. auto. Qed.

Lemma take_file_le n d : dir_le d (take_file n d).
Proof. intros k [f Hf]. cbn in Hf. apply lookup_delete_Some in Hf as [_ Hf]. by exists f. Qed.

Lemma NewSegment_dir io base csum d r d' : NewSegment io base csum d = Some (r, d') -> dir_le d d'.
Proof.
  unfold NewSegment. destruct (NewInMemoryStore _ _ _); [|by intros [= _ <-]].
  destruct (NewWalWriter _ _ _ _ _) as [[w|e]|]; [|by intros [= _ <-]|done].
  destruct (NewWALReader _ _); intros [= _ <-]; [|done]. eapply dir_le_trans; apply take_file_le.
Qed.

(** Appending only takes files out of the directory. *)
Definition same_log (m m' : Manager) : Prop := dir_le (m_dir m) (m_dir m') /\ m_csum m' = m_csum m.

Lemma append_reserve_same io wo data now m r m' :
  append_reserve io wo data now m = Some (r, m') -> same_log m m'.
Proof.
  unfold append_reserve, same_log. destruct (active m) as [a|] eqn:Ha; [|done].
  assert (forall x m1, (if MaxSegmentBytes (m_cfg m) <=? Seg_Size a then roll io m else Some (None, m)) = Some (x, m1) ->
    dir_le (m_dir m) (m_dir m1) /\ m_csum m1 = m_csum m) as Hroll.
  { intros x m1. destruct (_ <=? _); [|by intros [= _ <-]]. unfold roll. rewrite Ha.
    destruct (NewSegment _ _ _ _) as [[[s|e] d]|] eqn:Hn; [| |done]; intros [= _ <-];
      (split; [by eapply NewSegment_dir|done]). }
  destruct (if _ <=? _ then _ else _) as [[[e|] m1]|]; [| |done].
  - intros [= _ <-]. by eapply Hroll.
  - destruct (active m1) as [s|]; [|done]. specialize (Hroll _ _ eq_refl).
    destruct (reserve wo data now s) as [[[lo q]|e] s']; by intros [= _ <-].
Qed.

Lemma Mgr_Append_same io wo sio data now m r m' :
  Mgr_Append io wo sio data now m = Some (r, m') -> same_log m m'.
Proof.
  unfold Mgr_Append. destruct (append_reserve io wo data now m) as [[[[[b lo] q]|e] m1]|] eqn:Hr; [| |done].
  - apply append_reserve_same in Hr. unfold append_commit. destruct (segments m1 !! _) as [s|]; [|done].
    destruct (commit sio q s) as [[[e|] s']|]; [| |done]; by intros [= _ <-].
  - intros [= _ <-]. by apply append_reserve_same in Hr.
Qed.

Lemma Seg_Close_clean s : (Seg_Close (del_close (clean_delete 0)) s).1 = None.
Proof.
  unfold Seg_Close, Wal_Close. cbn [clean_delete del_close cl_sync cl_writer cl_reader cl_store sync_io_ok sy_sync].
  by destruct (_ && _).
Qed.

Lemma delete_segments_dir i ss x d : (delete_segments clean_delete i ss x d).2 = d.
Proof.
  revert i x. induction ss as [|s ss IH]; intros i x; [done|]. cbn [delete_segments].
  unfold delete_segment. cbn [clean_delete del_close del_log del_index]. pose proof (Seg_Close_clean s) as Hc.
  destruct (Seg_Close _ s) as [e s']. cbn in Hc. subst e. apply IH.
Qed.

(** What the server program needs of its log to be able to restart. *)
Definition tidy (lm : LiveManager) : Prop := no_leftovers (lv_mgr lm) /\ m_csum (lv_mgr lm) = NewCRC32C.

Lemma live_append_tidy data lm r lm' :
  tidy lm -> payload_ok data -> svc_NextOffset lm + 1 < 2 ^ 64 -> svc_Append data lm = Some (r, lm') -> tidy lm'.
Proof.
  intros [Hno Hcs] _ _. cbn. destruct (Mgr_Append _ _ _ _ _ _) as [[r' m']|] eqn:Ha; [|done]. intros [= _ <-].
  destruct (Mgr_Append_same _ _ _ _ _ _ _ _ Ha) as [Hd Hc']. split; [|by rewrite <- Hcs].
  intros n Hn. by apply Hno, Hd.
Qed.

Lemma live_retain_tidy now lm : tidy lm -> tidy (svc_retain now lm).
Proof.
  intros [Hno Hcs]. unfold tidy, svc_retain, manager_retention. cbn [lv_mgr]. split.
  2:{ by rewrite (proj2 (proj2 (RunRetention_segments now now clean_delete (lv_mgr lm)))). }
  intros n Hn. apply Hno. unfold RunRetention in Hn.
  destruct (retention_detach now now (lv_mgr lm)) as [vs m1] eqn:Hd.
  pose proof (delete_segments_dir 0 vs (Metrics m1) (m_dir m1)) as Hdir.
  destruct (delete_segments _ _ _ _ _) as [x d]. cbn in Hdir. subst d. cbn in Hn.
  unfold retention_detach in Hd. by injection Hd as _ <-.
Qed.

Lemma Open_csum oio fl d m :
  Open None None oio (server_cfg fl) d = Some (Ok m) -> m_csum m = NewCRC32C.
Proof.
  unfold Open. destruct (discoverBaseOffsets _ _) as [bases|]; [|done].
  destruct (open_segments _ _ _ _ _) as [[[ss|] d']|]; try done. by intros [= <-].
Qed.

Lemma server_start_state fl oio cio env d s0 d0 :
  server_start fl oio None cio env d = Some (Ok s0, d0) -> (forall m, lv_mgr (env m) = m) ->
  NewServer (nt_log (sv_net s0)) None [WithIdleTimeout (fl_idle fl); WithWriteTimeout (fl_write fl)] = Ok s0 /\
  m_csum (lv_mgr (nt_log (sv_net s0))) = NewCRC32C /\
  sv_cfg s0 = mkServerConfig (fl_idle fl) (fl_write fl).
Proof.
  unfold server_start. destruct (Open _ _ _ _ _) as [[m|e]|] eqn:Ho; try done. cbn [NewServer].
  intros [= <- _] Henv. split; [done|]. split; [|done]. cbn. rewrite Henv. by eapply Open_csum.
Qed.

(** C16. The server program loses nothing across a clean restart.  It is started
    with any flags on a log directory, serves any clients in any interleaving,
    with retention passes, is told to stop, and its [Close] of server and log
    return.  Opening the directory again gives exactly the log the clients were
    answered from: the same earliest offset, and at every offset the record,
    the end of the log, or the out-of-retention error of the abstract server. *)
Theorem server_main_persists fl oio cio env d s0 d0 render b log es s j s'
  (Hstart : server_start fl oio None cio env d = Some (Ok s0, d0)) (Henv : forall m, lv_mgr (env m) = m)
  (Hm : svc_rep (nt_log (sv_net s0)) b log) (Hno : no_leftovers (lv_mgr (nt_log (sv_net s0))))
  (Hmax : fl_max_bytes fl <= 2 ^ 61)
  (Hrun : life_run render es s0 = Some s) (Hclose : life_step render (EvWait j) s = Some s')
  (Hcio : forall x, close_ok (cio x)) (Hoio : forall x, sg_ok (oio x)) :
  exists a d' m', abs_steps render (mkAserver b log ∅) a /\
    server_stop cio s' = (None, d') /\ Open None None oio (server_cfg fl) d' = Some (Ok m') /\
    EarliestOffset m' = as_base a /\
    (forall o, is_u64 o -> Mgr_ReadAt no_fault o m' = Some (read_spec (as_base a) (as_log a) o)) /\
    (forall k h c, nt_conns (sv_net s') !! k = Some (h, c) ->
       exists ac, as_conns a !! k = Some ac /\ c_out c = encode_responses (ac_out ac)).
Proof.
  destruct (server_start_state fl oio cio env d s0 d0 Hstart Henv) as (Hnew & Hcs & _).
  pose proof (life_inv_init render _ _ _ Hnew) as Hi0.
  pose proof (life_run_inv render _ b log es s0 s Hm Hi0 Hrun) as Hi.
  pose proof (life_step_inv render _ b log _ s s' Hm Hi Hclose) as Hi'.
  assert (tidy (nt_log (sv_net s'))) as [Hno' Hcs'].
  { eapply (life_step_keeps render tidy); [exact live_append_tidy|exact live_retain_tidy| |exact Hclose].
    eapply (life_run_keeps render tidy); [exact live_append_tidy|exact live_retain_tidy| |exact Hrun].
    by split. }
  destruct (net_steps_sim render (sv_cfg s') _ _ _ (sim_init _ b log Hm) (li_net _ _ _ Hi')) as (a & Ha & Hs & Hc).
  destruct Hs as ((c & logs & Hcok & Hmi & Hj) & He & _).
  pose proof (mi_csum _ _ _ Hmi) as Hcc. rewrite Hcs' in Hcc. subst c.
  destruct (close_open_run NewCRC32C cio oio (server_cfg fl) _ logs Hmi Hno' Hcio Hoio)
    as (d' & m' & Hcl & Hop & Hm' & He'); [by split|].
  exists a, d', m'. split_and!; try done.
  - by rewrite He', He.
  - intros o Ho. rewrite (Mgr_ReadAt_run NewCRC32C m' logs o Hm' Ho), He', He, Hj. done.
  - intros k h cn Hk. specialize (Hc k). rewrite Hk in Hc. destruct (as_conns a !! k) as [ac|]; [|done].
    exists ac. split; [done|]. apply Hc.
Qed.

(** Opening only takes files out of the directory. *)
Lemma open_segments_dir io csum bs acc d r d' : open_segments io csum bs acc d = Some (r, d') -> dir_le d d'.
Proof.
  revert acc d. induction bs as [|b bs IH]; intros acc d; cbn [open_segments]; [by intros [= _ <-]|].
  destruct (NewSegment (io b) b csum d) as [[[s|e] d1]|] eqn:Hn; [| |done]; apply NewSegment_dir in Hn.
  - intros Hrun. eapply dir_le_trans; [exact Hn|]. by eapply IH.
  - by intros [= _ <-].
Qed.

Lemma Open_dir mk rd io cfg d m : Open mk rd io cfg d = Some (Ok m) -> dir_le d (m_dir m).
Proof.
  unfold Open. destruct mk; [done|]. destruct (discoverBaseOffsets _ _) as [bs|]; [|done].
  destruct (open_segments _ _ _ _ _) as [[[ss|e] d']|] eqn:Ho; try done. intros [= <-]. by eapply open_segments_dir.
Qed.

(** A fresh server, ready to serve. *)
Lemma ex_server_start :
  exists m s0 d0, server_start default_flags (fun _ => ex_sgio) None (fun _ => ex_close) ex_live (mkDir ∅ []) = Some (Ok s0, d0) /\
    nt_log (sv_net s0) = ex_live m /\ NewServer (ex_live m) None [] = Ok s0 /\
    svc_rep (ex_live m) 0 [] /\ no_leftovers m.
Proof.
  destruct (Open_fresh NewCRC32C (fun _ => ex_sgio) (server_cfg default_flags) (mkDir ∅ []))
    as (m & Ho & Hm & He & _ & Herr); try done.
  { intros n [f Hf]. cbn in Hf. by apply lookup_empty_Some in Hf. }
  eexists m, _, _. unfold server_start. rewrite Ho. split; [reflexivity|]. split; [reflexivity|].
  split; [reflexivity|]. split.
  - pose proof (ex_live_rep m _ Hm Herr) as Hr. by rewrite He in Hr.
  - intros n Hn%(Open_dir _ _ _ _ _ _ Ho). destruct Hn as [f Hf]. cbn in Hf. by apply lookup_empty_Some in Hf.
Qed.

Lemma server_main_persists_witness :
  exists d' m' s, server_stop (fun _ => ex_close) s = (None, d') /\
    Open None None (fun _ => ex_sgio) (server_cfg default_flags) d' = Some (Ok m') /\
    sv_accept s = ADone.
Proof.
  destruct ex_server_start as (m & s0 & d0 & Hstart & Hlog & Hnew & Hm & Hno).
  destruct (ex_life_run (ex_live m)) as (s1 & s & s' & Hnew1 & Hrun & Hw & _ & Hacc).
  - rewrite (svc_next_ok _ _ _ Hm). reflexivity.
  - rewrite Hnew in Hnew1. injection Hnew1 as <-.
    rewrite <- Hlog in Hm.
    destruct (server_main_persists default_flags (fun _ => ex_sgio) (fun _ => ex_close) ex_live (mkDir ∅ []) s0 d0
      ex_render 0 [] ex_events s 7 s' Hstart (fun m => eq_refl) Hm) as (a & d' & m' & _ & Hstop & Hop & _).
    + rewrite Hlog. exact Hno.
    + vm_compute. discriminate.
    + exact Hrun.
    + exact Hw.
    + intros _. repeat split.
    + intros _. repeat split.
    + exists d', m', s'. split; [exact Hstop|]. split; [exact Hop|exact Hacc].
Defined.

(** ** [cmd/client] *)

Section ClientProgram.
Context {M : Type} {HL : LogService M} {Hok : LogServiceOk M}.
Context (render : error -> list byte) (cfg : ServerConfig).

(** The server after it answered what the client wrote between [c] and [c']. *)
Definition server_after (m : M) (c c' : conn) : M :=
  match server_answer render cfg m (written c c') with Some (m', _) => m' | None => m end.

(** The produce loop: the offsets that were printed. *)
Fixpoint produce_loop (payloads : list (list byte)) (m : M) (c : conn) : result (list Z) * (M * conn) :=
  match payloads with
  | [] => (Ok [], (m, c))
  | payload :: payloads' =>
      let '(r, c') := Produce (server_peer render cfg m) payload c in
      let m' := server_after m c c' in
      match r with
      | Err e => (Err (Wrap "produce" e), (m', c'))
      | Ok off =>
          match produce_loop payloads' m' c' with
          | (Err e, x) => (Err e, x)
          | (Ok offs, x) => (Ok (off :: offs), x)
          end
      end
  end.

(** What the program prints. *)
Record client_report := mkReport {
  rp_offsets : list Z;
  rp_earliest : Z;
  rp_next : Z;
  rp_events : list (Z * list byte);
  rp_resume : Z
}.

(** A query whose error is ignored gives zero. *)
Definition or_zero (r : result Z) : Z := match r with Ok v => v | Err _ => 0 end.

(** [main]: produce the payloads, ask for the bounds, stream from the earliest
    offset (which leaves the log as it is).  [None] is a stream that did not
    finish. *)
Definition client_main (dial : string -> Z -> result conn) (addr : string) (payloads : list (list byte)) (m : M)
    : option (result client_report * M) :=
  match Client_New dial addr with
  | Err e => Some (Err (Wrap "connect" e), m)
  | Ok cl =>
      match produce_loop payloads m (cl_conn cl) with
      | (Err e, (m1, _)) => Some (Err e, m1)
      | (Ok offs, (m1, c1)) =>
          let '(next, c2) := Client_NextOffset (server_peer render cfg m1) c1 in
          let m2 := server_after m1 c1 c2 in
          let '(earliest, c3) := Client_EarliestOffset (server_peer render cfg m2) c2 in
          let m3 := server_after m2 c2 c3 in
          match StreamRead (server_peer render cfg m3) collect (or_zero earliest) [] c3 with
          | None => None
          | Some (_, Some e, _, _) => Some (Err (Wrap "stream" e), m3)
          | Some (resume, None, evs, _) =>
              Some (Ok (mkReport offs (or_zero earliest) (or_zero next) evs resume), m3)
          end
      end
  end.

Lemma fold_collect recs acc :
  fold_left (fun s ox => s ++ [(ox.1, ox.2)]) recs acc = acc ++ recs :> list (Z * list byte).
Proof.
  revert acc. induction recs as [|[o x] recs IH]; intros acc; cbn; [by rewrite app_nil_r|].
  rewrite IH, <- app_assoc. done.
Qed.

Lemma server_after_run m b log req c c' :
  svc_rep m b log -> frame_ok (req_Payload req) -> b + zlen log + 1 < 2 ^ 64 ->
  written c c' = encode_request req -> svc_rep (server_after m c c') b (serve render b log req).2.
Proof.
  intros Hm Hp Hn Hw. unfold server_after. rewrite Hw.
  destruct (server_answer_one render cfg m b log req Hm Hp Hn) as (m' & -> & Hm'). done.
Qed.

(** Every payload gets the next offset. *)
Lemma produce_loop_run payloads m b log c :
  svc_rep m b log -> in_sync c -> Forall (fun p => p <> [] /\ payload_ok p) payloads ->
  b + zlen log + zlen payloads < 2 ^ 64 ->
  exists m' c', produce_loop payloads m c = (Ok (number (b + zlen log) payloads).*1, (m', c')) /\
    svc_rep m' b (log ++ payloads) /\ in_sync c'.
Proof.
  revert m log c. induction payloads as [|p payloads IH]; intros m log c Hm Hc Hall Hn.
  { exists m, c. by rewrite app_nil_r. }
  apply Forall_cons in Hall as [[Hne Hp] Hall].
  assert (zlen (p :: payloads) = 1 + zlen payloads) as Hz by (unfold zlen; simpl; lia).
  pose proof (zlen_nonneg payloads).
  destruct (Produce_run render cfg m b log c p) as (m1 & c1 & out & _ & _ & Hc1 & Hw & Hrun); try done; [lia|].
  pose proof (server_after_run m b log (mkRequest OpProduce p) c c1 Hm) as Hm1.
  cbn [produce_loop]. rewrite Hrun. set (m1' := server_after m c c1) in *.
  assert (svc_rep m1' b (log ++ [p])) as Hm1'.
  { replace (log ++ [p]) with (serve render b log (mkRequest OpProduce p)).2 by (unfold serve; destruct p; done).
    apply Hm1; [done|lia|done]. }
  destruct (IH m1' (log ++ [p]) c1) as (m' & c' & Hloop & Hm' & Hc'); try done.
  { rewrite zlen_app. unfold zlen in *. simpl in *. lia. }
  rewrite Hloop. exists m', c'. rewrite <- app_assoc in Hm'. split_and!; try done.
  cbn [number fmap list_fmap fst]. rewrite zlen_app. by rewrite Z.add_assoc.
Qed.
End ClientProgram.

(** The client program against the server.  With a connection to the server
    of any log service, [main] finishes without error: the produced payloads
    get consecutive offsets from the head on, the bounds it prints are those of
    the log, the stream prints every record from the earliest offset to the
    head, old and new, each once, in order and with its own offset, and the
    offset to resume from is the head. *)
Theorem client_main_complete {M} (HL : LogService M) (Hok : LogServiceOk M) render cfg dial addr payloads m b log c
  (Hm : svc_rep m b log) (Hdial : dial addr DefaultDialTimeout = Ok c) (Hc : in_sync c)
  (Hall : Forall (fun p => p <> [] /\ payload_ok p) payloads)
  (Hn : b + zlen log + zlen payloads + 1 < 2 ^ 64) :
  let all := log ++ payloads in
  exists m', client_main render cfg dial addr payloads m =
    Some (Ok (mkReport (number (b + zlen log) payloads).*1 b (b + zlen all) (number b all) (b + zlen all)), m') /\
    svc_rep m' b all.
Proof.
  intros all. assert (b + zlen all + 1 < 2 ^ 64) as Hn' by (unfold all; rewrite zlen_app; lia).
  destruct (produce_loop_run render cfg payloads m b log c) as (m1 & c1 & Hp & Hm1 & Hc1); try done; [lia|].
  fold all in Hm1. unfold client_main, Client_New, NewWithTimeout. rewrite Hdial. cbn [cl_conn]. rewrite Hp.
  destruct (Client_NextOffset_run render cfg m1 b all c1) as (c2 & Hc2 & Hw2 & ->); try done.
  pose proof (server_after_run render cfg m1 b all (mkRequest OpNextOffset []) c1 c2 Hm1 ltac:(done) Hn' Hw2) as Hm2.
  cbn [serve snd] in Hm2. set (m2 := server_after _ _ m1 c1 c2) in *.
  destruct (Client_EarliestOffset_run render cfg m2 b all c2) as (c3 & Hc3 & Hw3 & ->); try done.
  pose proof (server_after_run render cfg m2 b all (mkRequest OpEarliestOffset []) c2 c3 Hm2 ltac:(done) Hn' Hw3) as Hm3.
  set (m3 := server_after _ _ m2 c2 c3) in *. cbn [or_zero].
  pose proof (zlen_nonneg all).
  destruct (StreamRead_run render cfg collect m3 b all b [] c3 (fun o x acc => acc ++ [(o, x)]))
    as (c4 & Hc4 & ->); try done; [lia|].
  exists m3. split; [|done]. rewrite Z.sub_diag. cbn [Z.to_nat drop]. by rewrite fold_collect.
Qed.

Lemma client_main_complete_witness :
  exists m', client_main ex_render DefaultServerConfig (fun _ _ => Ok ex_conn) "127.0.0.1:9876" [ex_data; ex_data]
      (ex_live ex_mgr3) =
    Some (Ok (mkReport [3; 4] 0 5 [(0, ex_data); (1, ex_data); (2, ex_data); (3, ex_data); (4, ex_data)] 5), m').
Proof.
  destruct (client_main_complete manager_service manager_service_ok ex_render DefaultServerConfig
    (fun _ _ => Ok ex_conn) "127.0.0.1:9876" [ex_data; ex_data] (ex_live ex_mgr3) 0 [ex_data; ex_data; ex_data]
    ex_conn ex_live3 eq_refl) as (m' & Hrun & _).
  - split; [split; reflexivity|reflexivity].
  - repeat constructor; vm_compute; discriminate.
  - vm_compute. reflexivity.
  - exists m'. exact Hrun.
Defined.

(** ** [cmd/main.go] *)

Section Demo.
Context {M : Type} {HL : LogService M} {Hok : LogServiceOk M}.

(** The producer: append the events, printing their offsets. *)
Fixpoint append_loop (events : list (list byte)) (m : M) : option (result (list Z) * M) :=
  match events with
  | [] => Some (Ok [], m)
  | e :: events' =>
      match svc_Append e m with
      | None => None
      | Some (Err er, m') => Some (Err er, m')
      | Some (Ok off, m') =>
          match append_loop events' m' with
          | None => None
          | Some (Err er, m'') => Some (Err er, m'')
          | Some (Ok offs, m'') => Some (Ok (off :: offs), m'')
          end
      end
  end.

Record demo_report := mkDemo {
  dm_appended : list Z;
  dm_first : list (Z * list byte);
  dm_committed : Z;
  dm_second : list (Z * list byte)
}.

(** [main]: append the events, read [k] of them (2 in the program), commit the
    offset after the last one read, start over from the offset file and read
    until the end of the log.  [None] is out of fuel in a read or in that loop,
    which has one round per record and one for the end. *)
Definition demo_main (io : offset_io) (k : nat) (events : list (list byte)) (fs : ofs) (m : M)
    : option (result demo_report) :=
  match append_loop events m with
  | None => None
  | Some (Err e, _) => Some (Err e)
  | Some (Ok offs, m1) =>
      match next_all k (NewReader m1) m1 with
      | None => None
      | Some (_, Some e, _) => Some (Err e)
      | Some (first, None, _) =>
          let lastRead := match last first with Some (off, _) => off | None => 0 end in
          match Off_Write io (u64 (lastRead + 1)) (NewOffsetWriter 20 fs) with
          | (Some e, _) => Some (Err e)
          | (None, w) =>
              match Off_Read None (o_main (ow_fs w)) with
              | Err e => Some (Err e)
              | Ok resumeFrom =>
                  match next_all (S (Z.to_nat (svc_NextOffset m1 - resumeFrom)))
                          (Reader_Seek resumeFrom (NewReader m1)) m1 with
                  | None => None
                  | Some (second, Some e, _) =>
                      if is_EOF e then Some (Ok (mkDemo offs first resumeFrom second)) else Some (Err e)
                  | Some (_, None, _) => None
                  end
              end
          end
      end
  end.

Lemma append_loop_run events m b log :
  svc_rep m b log -> Forall payload_ok events -> b + zlen log + zlen events < 2 ^ 64 ->
  exists m', append_loop events m = Some (Ok (number (b + zlen log) events).*1, m') /\
    svc_rep m' b (log ++ events).
Proof.
  revert m log. induction events as [|e events IH]; intros m log Hm Hall Hn.
  { exists m. by rewrite app_nil_r. }
  apply Forall_cons in Hall as [He Hall]. pose proof (zlen_nonneg events).
  assert (zlen (e :: events) = 1 + zlen events) as Hz by (unfold zlen; simpl; lia).
  destruct (svc_append_ok m b log e Hm He) as (m1 & Hrun & Hm1); [lia|].
  destruct (IH m1 (log ++ [e]) Hm1 Hall) as (m' & Hl & Hm'); [rewrite zlen_app; unfold zlen in *; simpl in *; lia|].
  exists m'. cbn [append_loop]. rewrite Hrun, Hl. rewrite <- app_assoc in Hm'. split; [|done].
  cbn [number fmap list_fmap fst]. rewrite zlen_app. by rewrite Z.add_assoc.
Qed.

(** Reading fewer records than there are. *)
Lemma next_all_take m b log i k :
  svc_rep m b log -> (i + k <= length log)%nat ->
  next_all k (mkRd (b + Z.of_nat i)) m =
  Some (number (b + Z.of_nat i) (take k (drop i log)), None, mkRd (b + Z.of_nat (i + k))).
Proof.
  intros Hm. destruct (svc_range _ _ _ Hm). revert i. induction k as [|k IH]; intros i Hk.
  { by rewrite Nat.add_0_r. }
  destruct (lookup_lt_is_Some_2 log i) as [x Hx]; [lia|].
  cbn [next_all]. unfold Next. cbn [rd_offset].
  rewrite (svc_read_ok _ _ _ _ Hm), (read_spec_hit _ _ _ _ Hx) by (unfold is_u64, zlen in *; lia).
  rewrite u64_small by (unfold is_u64, zlen in *; lia).
  replace (b + Z.of_nat i + 1) with (b + Z.of_nat (S i)) by lia.
  rewrite IH by lia. rewrite (drop_S _ _ _ Hx). cbn [take number].
  replace (b + Z.of_nat i + 1) with (b + Z.of_nat (S i)) by lia. by replace (i + S k)%nat with (S i + k)%nat by lia.
Qed.

Lemma last_number b log : log <> [] -> exists x, last (number b log) = Some (b + zlen log - 1, x).
Proof.
  revert b. induction log as [|x log IH]; intros b Hne; [done|]. destruct log as [|y log].
  { exists x. cbn. unfold zlen. simpl. do 2 f_equal. lia. }
  destruct (IH (b + 1)) as [z Hz]; [done|]. exists z.
  cbn [number] in *. rewrite last_cons_cons, Hz. do 2 f_equal. unfold zlen. simpl. lia.
Qed.
End Demo.

(** The demonstration of [cmd/main.go] resumes exactly where it stopped.
    On any log, with at least [k > 0] records after the appends: the first
    consumer reads the first [k] records, the offset it commits is the one
    after them, and the restarted consumer reads exactly the remaining records
    and catches up; together they see every record once and in order. *)
Theorem demo_resumes {M} (HL : LogService M) (Hok : LogServiceOk M) k events fs vs v m b log
  (Hm : svc_rep m b log) (Hev : Forall payload_ok events) (Hfs : ofs_inv fs vs v)
  (Hk : (0 < k <= length (log ++ events))%nat) (Hn : b + zlen log + zlen events < 2 ^ 64) :
  let all := log ++ events in
  demo_main offset_io_ok k events fs m =
    Some (Ok (mkDemo (number (b + zlen log) events).*1 (number b (take k all)) (b + Z.of_nat k)
                (number (b + Z.of_nat k) (drop k all)))).
Proof.
  intros all. destruct (append_loop_run events m b log Hm Hev Hn) as (m1 & Ha & Hm1). fold all in Hm1.
  destruct (svc_range _ _ _ Hm1) as [Hb0 Hb1].
  unfold demo_main. rewrite Ha. unfold NewReader at 1. rewrite (svc_earliest_ok _ _ _ Hm1).
  pose proof (next_all_take m1 b all 0 k Hm1) as Hfirst. rewrite Z.add_0_r, drop_0 in Hfirst.
  rewrite Hfirst by (unfold all; lia).
  assert (zlen (take k all) = Z.of_nat k) as Hz by (unfold zlen; rewrite length_take; unfold all in *; lia).
  destruct (last_number b (take k all)) as [x ->]; [intros H0; rewrite H0 in Hz; unfold zlen in Hz; simpl in Hz; lia|].
  rewrite Hz. replace (b + Z.of_nat k - 1 + 1) with (b + Z.of_nat k) by lia.
  assert (is_u64 (b + Z.of_nat k)) as Hu by (unfold is_u64, zlen in *; unfold all in *; lia).
  rewrite u64_small by done. unfold Off_Write. cbn [ow_fs NewOffsetWriter].
  destruct (writeLocked_trace offset_io_ok (b + Z.of_nat k) fs vs v Hfs Hu) as [_ Hw].
  destruct (writeLocked offset_io_ok (b + Z.of_nat k) fs) as [err tr] eqn:Hrun.
  assert (err = None) as -> by (unfold writeLocked in Hrun; cbn in Hrun; congruence).
  destruct (Hw eq_refl) as (_ & _ & Hmain). cbn [ow_fs].
  change (final fs (None, tr).2) with (final fs tr) in Hmain. rewrite (read_holds _ _ Hmain).
  rewrite (svc_next_ok _ _ _ Hm1). unfold Reader_Seek.
  rewrite (next_all_run m1 b all k) by (done || unfold zlen, all in *; lia). done.
Qed.

Lemma demo_resumes_witness :
  demo_main offset_io_ok 2 [ex_data; ex_data] ofs_empty (ex_live ex_mgr3) =
    Some (Ok (mkDemo [3; 4] [(0, ex_data); (1, ex_data)] 2 [(2, ex_data); (3, ex_data); (4, ex_data)])).
Proof.
  apply (demo_resumes manager_service manager_service_ok 2 [ex_data; ex_data] ofs_empty [0] 0 (ex_live ex_mgr3)
    0 [ex_data; ex_data; ex_data] ex_live3).
  - repeat constructor; vm_compute; discriminate.
  - exact ofs_empty_inv.
  - vm_compute. lia.
  - vm_compute. reflexivity.
Defined.

(** ** [cmd/retention] *)

(** [fakeClock]: the time it shows, in nanoseconds. *)
Record fakeClock := mkClock { clk_now : Z }.
Definition clk_Now (c : fakeClock) : Z := clk_now c.
Definition Advance (d : Z) (c : fakeClock) : fakeClock := mkClock (clk_now c + d).

Definition hour : Z := 3600 * 1000000000.
Definition demo_clock : fakeClock := mkClock (1700000000 * 1000000000).

(** Tiny segments, one day of retention, no background loop. *)
Definition retention_cfg : Config := mkConfig 40 (24 * hour) 0 0 true None.

(** [fmt.Sprintf("event-%d", i)] for [i < 12] *)
Definition demo_event (i : nat) : list byte := bytes_of "event-" ++ dec_byte (byte.of_Z (Z.of_nat i)).

Record retention_report := mkRetReport {
  rr_before : nat * Z * Z;
  rr_after : nat * Z;
  rr_metrics : Z * Z * Z;
  rr_signal : outcome;
  rr_reset : Z;
  rr_event : list byte * Z
}.

(** New files carry the time [wall] of the machine, appends the clock's. *)
Definition wall_io (wall : Z) : segment_io := mkSegIo open_ok open_ok recover_io_ok None wall (Some wall).
Definition on_clock (wall : Z) (c : fakeClock) (m : Manager) : LiveManager :=
  mkLive m (wall_io wall) sync_io_ok (clk_Now c).

(** [main] in the directory [d]. *)
Definition retention_main (wall : Z) (d : dir) : option (result retention_report) :=
  let clk := demo_clock in
  match Open None None (fun _ => wall_io wall) retention_cfg d with
  | None => None
  | Some (Err e) => Some (Err e)
  | Some (Ok m) =>
      match append_loop (demo_event <$> seq 0 12) (on_clock wall clk m) with
      | None => None
      | Some (Err e, _) => Some (Err e)
      | Some (Ok _, l1) =>
          let m1 := lv_mgr l1 in
          let clk' := Advance (48 * hour) clk in
          match svc_Append (bytes_of "fresh-event") (on_clock wall clk' m1) with
          | None => None
          | Some (_, l2) =>
              let m3 := RunRetention (clk_Now clk') (clk_Now clk') clean_delete (lv_mgr l2) in
              let l3 := on_clock wall clk' m3 in
              let x := Metrics m3 in
              match Next (Reader_Seek 0 (NewReader l3)) l3 with
              | Some (Err (OffsetOutOfRetentionError req e0), _, r) =>
                  let '(reset, r') := ResetToEarliest r l3 in
                  match Next r' l3 with
                  | None => None
                  | Some (Err e, _, _) => Some (Err e)
                  | Some (Ok data, off, _) =>
                      Some (Ok (mkRetReport (SegmentCount m1, EarliestOffset m1, Mgr_NextOffset m1)
                        (SegmentCount m3, EarliestOffset m3)
                        (SegmentsDeleted x, BytesReclaimed x, DeleteErrors x)
                        (Some (OffsetOutOfRetentionError req e0)) reset (data, off)))
                  end
              | _ => None
              end
          end
      end
  end.

(** The retention demonstration does what it says, whatever the machine's
    own clock shows: twelve events fill four segments; 48 hours later one more
    event rolls to a fifth; the retention pass deletes exactly the four old
    segments (182 bytes, no error) and keeps the active one; the consumer at
    offset 0 gets the out-of-retention error naming offset 12, resets to 12 and
    reads the fresh event there. *)
Theorem retention_main_run wall :
  retention_main wall (mkDir ∅ []) =
  Some (Ok (mkRetReport (4%nat, 0, 12) (1%nat, 12) (4, 182, 0)
    (Some (OffsetOutOfRetentionError 0 12)) 12 (bytes_of "fresh-event", 12))).
Proof. vm_compute. reflexivity. Qed.
