(* ===== verification/ServerCrash.v ===== *)
(** * ServerCrash: the server program and a power loss

    [cmd/server] up to any moment between two actions of its goroutines, or
    inside an append: the record is in the segment's file and its commit has
    not returned.  The machine stops there, every file keeps its fsynced bytes
    and any part of the rest, and the program is started again on the
    directory.  The appends of this file are those of [ServerNet.v], one at a
    time; appends that share a flush are in [MgrCrash.v]. *)

From Stdlib Require Import ZArith Lia Strings.String.
From stdpp Require Import base list list_numbers numbers option gmap sorting.
From coqutil Require Import Byte.
From S2P Require Import Prelude Bytes Golib Index Checksum Wal WalFormat WalInv Crash Segment Manager MgrInv MgrOpen MgrProps Service ConsumerOffset Protocol Server ServerNet ServerLife Client Programs.

Local Open Scope Z_scope.

(** ** Every acknowledged record is fsynced *)

Definition all_synced (m : Manager) : Prop := Forall seg_synced (segments m).

Section Synced.
Context (c : Checksum) {Hc : ChecksumOk c}.

Lemma seg_synced_empty s : seg_inv c s [] -> seg_synced s.
Proof.
  intros Hs. destruct (sv_wal _ _ _ Hs) as (b & q & Hw). unfold seg_synced.
  rewrite (wi_data _ _ _ _ _ Hw). destruct (wi_sync _ _ _ _ _ Hw) as (j & Hj & ->).
  destruct j; [done|]. cbn in Hj. lia.
Qed.

(** Reserving leaves exactly the new record unsynced. *)
Lemma reserve_unsynced s data now lo q s' :
  reserve WOk data now s = (Ok (lo, q), s') -> seg_synced s ->
  (f_synced (w_file (s_writer s')) + length (encode_record (w_csum (s_writer s')) data) =
   length (f_data (w_file (s_writer s'))))%nat.
Proof.
  unfold reserve, Reserve, seg_synced. destruct (_ <? _); [done|]. intros [= _ _ <-] Hs.
  cbn [s_writer w_file w_csum f_synced f_data].
  by rewrite length_app, Hs.
Qed.

Lemma append_reserve_last io data now m logs b lo q m1 :
  mgr_inv c m logs -> all_synced m -> sg_ok io -> Mgr_NextOffset m + 1 < 2 ^ 64 ->
  append_reserve io WOk data now m = Some (Ok (b, lo, q), m1) ->
  exists s', active m1 = Some s' /\
    (f_synced (w_file (s_writer s')) + length (encode_record (w_csum (s_writer s')) data) =
     length (f_data (w_file (s_writer s'))))%nat.
Proof.
  intros Hm Hsy Hio Hn Hrun. destruct (append_reserve_shape _ _ _ _ _ _ _ _ _ Hrun) as (ss & s & s' & Hss & Hres & _ & Hs).
  exists s'. split; [unfold active; by rewrite Hss, last_snoc|].
  assert (seg_synced s) as Hss'.
  { destruct Hs as [Hin|[d Hnew]]; [eapply Forall_forall; [exact Hsy|by eapply last_Some_elem_of]|].
    rewrite (mi_csum _ _ _ Hm) in Hnew. destruct (next_free c m logs Hm Hn) as (Hpos & Hd1 & Hd2).
    destruct (NewSegment_new c (quiet:=true) io (Mgr_NextOffset m) (m_dir m)) as (s0 & Hnew' & Hs0 & _); try done; [apply Hm|lia|].
    rewrite Hnew in Hnew'. injection Hnew' as -> _. by apply seg_synced_empty. }
  by eapply reserve_unsynced.
Qed.

(** Phase 1 of an append to a log that is fsynced. *)
Lemma append_reserve_synced io data now m logs :
  mgr_inv c m logs -> all_synced m -> payload_ok data -> sg_ok io -> Mgr_NextOffset m + 1 < 2 ^ 64 ->
  exists r m1 ss s' ls l, append_reserve io WOk data now m = Some (Ok r, m1) /\
    mgr_inv c m1 (ls ++ [l ++ [data]]) /\ mjoin ls ++ l = mjoin logs /\ EarliestOffset m1 = EarliestOffset m /\
    segments m1 = ss ++ [s'] /\ Forall seg_synced ss /\
    f_synced (w_file (s_writer s')) = rec_pos c (l ++ [data]) (length l).
Proof.
  intros Hm Hsy Hp Hio Hn.
  destruct (append_reserve_inv c (quiet:=true) io data now m logs Hm Hp Hio Hn)
    as (m1 & ss & s' & ls & l & base & lo & q & Hrun & _ & _ & Hm1 & Hj & He & _ & Hss & _ & _).
  eexists _, m1, ss, s', ls, l. split; [exact Hrun|]. split_and!; try done.
  { rewrite join_app in Hj. cbn in Hj. rewrite app_nil_r, app_assoc in Hj. by apply app_inv_tail in Hj. }
  { destruct (append_reserve_shape _ _ _ _ _ _ _ _ _ Hrun) as (ss' & s & s2 & Hss' & _ & Hin & _).
    rewrite Hss in Hss'. apply app_inj_2 in Hss' as [<- _]; [|done].
    apply Forall_forall. intros x Hx. eapply Forall_forall in Hsy; [exact Hsy|by apply Hin]. }
  destruct (append_reserve_last _ _ _ _ _ _ _ _ _ Hm Hsy Hio Hn Hrun) as (s1 & Ha1 & Hu).
  destruct (mgr_split c _ _ Hm1) as (ss1 & s2 & ls1 & l1 & Hss1 & Hl1 & _ & Hs1 & _).
  rewrite Hss in Hss1. apply app_inj_2 in Hss1 as [_ [= <-]]; [|done].
  apply app_inj_2 in Hl1 as [_ [= <-]]; [|done].
  assert (s1 = s') as -> by (unfold active in Ha1; rewrite Hss, last_snoc in Ha1; by injection Ha1).
  destruct (sv_wal _ _ _ Hs1) as (b & k & Hw). rewrite (wi_csum _ _ _ _ _ Hw), (wi_data _ _ _ _ _ Hw) in Hu.
  rewrite encode_log_app, encode_log_singleton, length_app in Hu. unfold rec_pos.
  rewrite take_app_length. lia.
Qed.

(** A successful append leaves everything fsynced. *)
Lemma Append_synced io sio data now m logs r m' :
  mgr_inv c m logs -> all_synced m -> payload_ok data -> sg_ok io -> Mgr_NextOffset m + 1 < 2 ^ 64 ->
  sy_sync sio = None -> (forall x, clean_write (sy_cp sio x)) ->
  (forall a, active m = Some a -> syncErr (s_writer a) = None) ->
  Mgr_Append io WOk sio data now m = Some (r, m') -> all_synced m'.
Proof.
  intros Hm Hsy Hp Hio Hn Hs Hcp Herr Hrun.
  destruct (append_reserve_synced io data now m logs Hm Hsy Hp Hio Hn)
    as ([[b lo] q] & m1 & ss & s' & ls & l & Hres & _ & _ & _ & Hss & Hall & _).
  destruct (Append_run c (quiet:=true) io sio data now m logs eq_refl Hm Hp Hio Hn Hs Hcp Herr)
    as (m2 & logs' & a & Hrun' & _ & _ & _ & _ & Ha & _ & Hsa & _).
  rewrite Hrun in Hrun'. injection Hrun' as -> ->.
  unfold Mgr_Append, append_commit in Hrun. rewrite Hres, Hss, length_app in Hrun. cbn [length] in Hrun.
  replace (length ss + 1 - 1)%nat with (length ss) in Hrun by lia.
  rewrite lookup_app_r, Nat.sub_diag in Hrun by lia. cbn in Hrun.
  destruct (commit sio q s') as [[[e|] s'']|]; [done| |done]. injection Hrun as _ <-.
  unfold all_synced, active in *. cbn [segments set_segments] in *.
  rewrite insert_app_r_alt, Nat.sub_diag in * by lia. cbn in *. rewrite last_snoc in Ha. injection Ha as <-.
  apply Forall_app. split; [done|]. by constructor.
Qed.
End Synced.

(** ** The invariant of a running server's log *)

Definition durable (lm : LiveManager) : Prop :=
  tidy lm /\ all_synced (lv_mgr lm) /\ exists b log, svc_rep lm b log.

Lemma durable_append data lm r lm' :
  durable lm -> payload_ok data -> svc_NextOffset lm + 1 < 2 ^ 64 -> svc_Append data lm = Some (r, lm') -> durable lm'.
Proof.
  intros (Ht & Hsy & b & log & Hrep) Hp Hn Hrun. split_and!; [by eapply live_append_tidy| |].
  - destruct Hrep as ((c & logs & Hc & Hm & _) & _ & Herr & Hio & Hs & Hcp). cbn in Hrun, Hn.
    destruct (Mgr_Append _ _ _ _ _ _) as [[r' m']|] eqn:Ha; [|done]. injection Hrun as _ <-.
    by eapply (Append_synced c).
  - rewrite (svc_next_ok _ _ _ Hrep) in Hn. destruct (svc_append_ok _ _ _ data Hrep Hp Hn) as (m' & Hrun' & Hm').
    rewrite Hrun in Hrun'. injection Hrun' as _ <-. by eexists _, _.
Qed.

Lemma durable_retain now lm : durable lm -> durable (svc_retain now lm).
Proof.
  intros (Ht & Hsy & b & log & Hrep). split_and!; [by apply live_retain_tidy| |].
  - unfold all_synced, svc_retain, manager_retention. cbn [lv_mgr].
    rewrite (proj1 (RunRetention_segments now now clean_delete (lv_mgr lm))). by apply Forall_drop.
  - destruct (svc_retain_ok now _ _ _ Hrep) as (n & _ & Hr). by eexists _, _.
Qed.

(** ** The crash *)

(** The manager when the machine stops: between two operations, or inside an
    append, whose record [fly] is written but not acknowledged. *)
Inductive crash_point (lm : LiveManager) : Manager -> list (list byte) -> Prop :=
| cp_between : crash_point lm (lv_mgr lm) []
| cp_append data r m1 :
    payload_ok data -> svc_NextOffset lm + 1 < 2 ^ 64 ->
    append_reserve (lv_io lm) WOk data (lv_now lm) (lv_mgr lm) = Some (r, m1) -> crash_point lm m1 [data].

(** What is left opens as the log that was served, and possibly the record
    under way. *)
Lemma durable_crash lm b log m1 fly d oio cfg :
  durable lm -> svc_rep lm b log -> crash_point lm m1 fly -> crash_dir m1 d ->
  (forall x, sg_ok (oio x)) -> cfg_ok NewCRC32C cfg ->
  exists m' logs n, Open None None oio cfg d = Some (Ok m') /\ mgr_inv NewCRC32C m' logs /\
    mjoin logs = log ++ take n fly /\ EarliestOffset m' = b.
Proof.
  intros ([Hno Hcs] & Hsy & _) ((c & logs & Hc & Hm & <-) & <- & Herr & Hio & Hs & Hcp) Hpt Hcr Hoio Hcfg.
  pose proof (mi_csum _ _ _ Hm) as Hcc. rewrite Hcs in Hcc. subst c.
  destruct Hpt as [|data r m1 Hp Hn Hres].
  - destruct (mgr_crash NewCRC32C oio cfg (lv_mgr lm) logs d Hm Hno Hcr) as (m' & ls & l & i & Ho & -> & Hm' & He & Hall & _);
      try done.
    { intros k s _ Hk. eapply Forall_lookup in Hsy; [exact Hsy|done]. }
    exists m', (ls ++ [l]), 0%nat. destruct (mgr_split _ _ _ Hm) as (ss & a & _ & _ & Hss & _ & Ha & _).
    rewrite (Hall a Ha) in Hm'.
    + cbn. rewrite app_nil_r. by split_and!.
    + unfold all_synced in Hsy. rewrite Hss in Hsy. apply Forall_app in Hsy as [_ Hsy]. by inversion Hsy.
  - destruct (append_reserve_synced NewCRC32C (lv_io lm) data (lv_now lm) (lv_mgr lm) logs Hm Hsy Hp Hio Hn)
      as (r' & m1' & ss & s' & ls & l & Hres' & Hm1 & Hj & He1 & Hss & Hall & Hsync).
    rewrite Hres in Hres'. injection Hres' as _ <-.
    destruct (append_reserve_same _ _ _ _ _ _ _ Hres) as [Hle _].
    destruct (mgr_crash NewCRC32C oio cfg m1 _ d Hm1) as (m' & ls' & l' & i & Ho & Hl & Hm' & He & _ & Hcut); try done.
    { intros n Hf. by apply Hno, Hle. }
    { intros k s Hk Hs'. rewrite Hss in Hk, Hs'. rewrite length_app in Hk. cbn in Hk.
      rewrite lookup_app_l in Hs' by lia. by eapply Forall_lookup in Hall. }
    apply app_inj_2 in Hl as [<- [= <-]]; [|done].
    assert (active m1 = Some s') as Ha by (unfold active; by rewrite Hss, last_snoc).
    specialize (Hcut s' (length l) Ha). rewrite Hsync, length_app in Hcut. cbn in Hcut.
    exists m', (ls ++ [take i (l ++ [data])]), (i - length l)%nat. split_and!; try done; [|congruence].
    rewrite join_app. cbn. rewrite app_nil_r, take_app, take_ge, app_assoc, Hj by lia. done.
Qed.


(** A client produces one record and is answered; a second append is under way
    when the power fails, and the disk keeps three of its bytes. *)
Definition ex_srv0 : option (ServerState LiveManager) :=
  match server_start default_flags (fun _ => ex_sgio) None (fun _ => ex_close) ex_live (mkDir ∅ []) with
  | Some (Ok s0, _) => Some s0
  | _ => None
  end.
Definition ex_srv1 : option (ServerState LiveManager) :=
  match ex_srv0 with
  | Some s0 => life_run ex_render [EvConn 0 [mkRequest OpProduce ex_data]; EvAdd; EvGo; EvHandle 0] s0
  | None => None
  end.
Definition ex_crashing : Manager :=
  match ex_srv1 with
  | Some s => ex_reserve (lv_mgr (nt_log (sv_net s)))
  | None => ex_mgr
  end.
Definition ex_torn : dir :=
  let f := w_file (s_writer (ex_seg ex_crashing 0)) in
  put_file (SegmentFileName 0) (mkFile (take (f_synced f + 3) (f_data f)) (f_synced f))
    (put_file (indexFileName (SegmentFileName 0)) empty_file (mkDir ∅ [])).

Lemma one_segment_crash m s b f i :
  segments m = [s] -> Path s = SegmentFileName b ->
  crash_file (w_file (s_writer s)) f -> crash_file (indexFile (w_store (s_writer s))) i ->
  crash_dir m (put_file (SegmentFileName b) f (put_file (indexFileName (SegmentFileName b)) i (mkDir ∅ []))).
Proof.
  intros Hss Hp Hf Hi. pose proof (segment_ne_index b b).
  split; rewrite Hss; unfold IndexPath, Path in *; cbn [put_file d_files].
  - intros x ->%list_elem_of_singleton. rewrite Hp. exists f, i. split_and!; simplify_map_eq; done.
  - intros n g [[<- <-]|[_ Hn]]%lookup_insert_Some.
    { left. exists s. split; [by left|]. rewrite Hp. by left. }
    apply lookup_insert_Some in Hn as [[<- <-]|[_ Hn]].
    { left. exists s. split; [by left|]. rewrite Hp. by right. }
    by apply lookup_empty_Some in Hn.
Qed.

Lemma ex_srv0_synced :
  match ex_srv0 with
  | Some s0 => forallb (fun s => f_synced (w_file (s_writer s)) =? length (f_data (w_file (s_writer s))))%nat
                 (segments (lv_mgr (nt_log (sv_net s0))))
  | None => false
  end = true.
Proof. vm_compute. reflexivity. Qed.

Lemma ex_crashing_seg : segments ex_crashing = [ex_seg ex_crashing 0].
Proof.
  assert (length (segments ex_crashing) = 1%nat) as Hl by (vm_compute; reflexivity). revert Hl.
  generalize ex_crashing. intros m. unfold ex_seg. by destruct (segments m) as [|s1 [|]].
Qed.

Lemma ex_srv0_run :
  exists m s0 d0 s r m1,
    server_start default_flags (fun _ => ex_sgio) None (fun _ => ex_close) ex_live (mkDir ∅ []) = Some (Ok s0, d0) /\
    nt_log (sv_net s0) = ex_live m /\ svc_rep (ex_live m) 0 [] /\ no_leftovers m /\ all_synced m /\
    life_run ex_render [EvConn 0 [mkRequest OpProduce ex_data]; EvAdd; EvGo; EvHandle 0] s0 = Some s /\
    svc_NextOffset (nt_log (sv_net s)) = 1 /\
    append_reserve ex_sgio WOk ex_data 5 (lv_mgr (nt_log (sv_net s))) = Some (r, m1) /\ m1 = ex_crashing /\
    lv_io (nt_log (sv_net s)) = ex_sgio /\ lv_now (nt_log (sv_net s)) = 5.
Proof.
  destruct ex_server_start as (m & s0 & d0 & Hstart & Hlog & _ & Hm & Hno).
  assert (ex_srv0 = Some s0) as H0 by (unfold ex_srv0; by rewrite Hstart).
  assert (match ex_srv1 with Some s => svc_NextOffset (nt_log (sv_net s)) = 1 /\ lv_now (nt_log (sv_net s)) = 5 /\
    lv_io (nt_log (sv_net s)) = ex_sgio | None => False end) as H1 by by vm_compute.
  destruct ex_srv1 as [s|] eqn:E1; [|done]. pose proof E1 as Hrun. unfold ex_srv1 in Hrun. rewrite H0 in Hrun.
  assert (all_synced m) as Hsy.
  { pose proof ex_srv0_synced as Hsy. rewrite H0, Hlog in Hsy. apply Forall_forall. intros x Hx%list_elem_of_In.
    apply Nat.eqb_eq. exact (proj1 (forallb_forall _ _) Hsy x Hx). }
  assert (match ex_srv1 with
    | Some s => match append_reserve ex_sgio WOk ex_data 5 (lv_mgr (nt_log (sv_net s))) with Some _ => True | None => False end
    | None => False end) as H2 by by vm_compute.
  assert (ex_crashing = ex_reserve (lv_mgr (nt_log (sv_net s)))) as Hcr by (unfold ex_crashing; by rewrite E1).
  rewrite E1 in H2. unfold ex_reserve in Hcr. destruct (append_reserve _ _ _ _ _) as [[r m1]|] eqn:Hr; [|done].
  exists m, s0, d0, s, r, m1. destruct H1 as (? & ? & ?). by split_and!.
Qed.

