(* ===== verification/Bench.v ===== *)
(** * Bench: the benchmark program ([cmd/benchmark/main.go])

    [runLoad] splits the messages over producer goroutines, which append
    time-stamped payloads, while each consumer goroutine reads the whole log
    and subtracts the stamps; a sampler follows the heap.  [load_step] is one
    step of one goroutine.  The latencies are summarised by [percentiles],
    whose indices are computed in [float64]. *)

From Stdlib Require Import ZArith Lia Strings.String.
From stdpp Require Import base list list_numbers numbers option gmap sorting.
From coqutil Require Import Byte.
From S2P Require Import Prelude Bytes Golib Float Checksum Digest Segment Manager Service.

Local Open Scope Z_scope.

(** ** Flags *)

Record config := mkBenchConfig {
  messages : Z;
  producers : Z;
  consumers : Z;
  payload : Z;
  consumerSleep : Z;
  microIters : Z;
  out : string
}.

(** The defaults of the flags. *)
Definition default_config : config := mkBenchConfig 50000 3 2 128 0 2000000 "benchmark-report.html".

(** [if cfg.payload < 8 { cfg.payload = 8 }] after the flags are parsed. *)
Definition parse_config (cfg : config) : config :=
  if payload cfg <? 8
  then mkBenchConfig (messages cfg) (producers cfg) (consumers cfg) 8 (consumerSleep cfg) (microIters cfg) (out cfg)
  else cfg.

(** ** [percentiles] *)

Record pctls := mkPctls { p50 : Z; p95 : Z; p99 : Z; pmax : Z }.

Definition flatten (xs : list (list Z)) : list Z := fold_left (fun out x => out ++ x) xs [].

(** [xs[int(p * float64(len(xs)-1))]]; [None] is the panic of a bad index. *)
Definition pctl_at (xs : list Z) (p : float64) : option Z :=
  match f64_to_int (f64_mul p (f64_of_Z (zlen xs - 1))) with
  | Some idx => if idx <? 0 then None else xs !! Z.to_nat idx
  | None => None
  end.

(** Equal durations are indistinguishable, so every sort gives this list. *)
Definition percentiles (xs : list Z) : option pctls :=
  if (length xs =? 0)%nat then Some (mkPctls 0 0 0 0)
  else
    let xs := merge_sort Z.le xs in
    match pctl_at xs (f64_lit 50 100), pctl_at xs (f64_lit 95 100), pctl_at xs (f64_lit 99 100), xs !! (length xs - 1)%nat with
    | Some a, Some b, Some c, Some d => Some (mkPctls a b c d)
    | _, _, _, _ => None
    end.

(** [v] has rank [i]: at most [i] samples are below it, more than [i] are not
    above it. *)
Definition rank (xs : list Z) (i v : Z) : Prop :=
  v ∈ xs /\ zlen (filter (fun x => x < v) xs) <= i < zlen (filter (fun x => x <= v) xs).

#[local] Instance rank_proper : Proper ((≡ₚ) ==> eq ==> eq ==> iff) rank.
Proof.
  intros xs ys Hp i ? <- v ? <-. unfold rank, zlen. by rewrite Hp.
Qed.

Lemma filter_none {A} (P : A -> Prop) `{!forall x, Decision (P x)} l : Forall (fun x => ~ P x) l -> filter P l = [].
Proof. induction 1; [done|]. by rewrite filter_cons_False. Qed.

Lemma filter_every {A} (P : A -> Prop) `{!forall x, Decision (P x)} l : Forall P l -> filter P l = l.
Proof. induction 1; [done|]. rewrite filter_cons_True by done. by f_equal. Qed.

(** Below and from an index of a sorted list. *)
Lemma sorted_rank ys i v : StronglySorted Z.le ys -> ys !! i = Some v -> rank ys (Z.of_nat i) v.
Proof.
  intros Hs Hi. split; [by eapply list_elem_of_lookup_2|].
  assert (forall j x, ys !! j = Some x -> (j <= i)%nat -> x <= v) as Hlo.
  { intros j x Hj Hji. destruct (decide (j = i)) as [->|]; [rewrite Hi in Hj; injection Hj; lia|].
    apply (StronglySorted_lookup _ _ j i _ _ Hs); [lia|done..]. }
  assert (forall j x, ys !! j = Some x -> (i <= j)%nat -> v <= x) as Hhi.
  { intros j x Hj Hji. destruct (decide (j = i)) as [->|]; [rewrite Hi in Hj; injection Hj; lia|].
    apply (StronglySorted_lookup _ _ i j _ _ Hs); [lia|done..]. }
  pose proof (lookup_lt_Some _ _ _ Hi) as Hlt.
  assert (forall (P : Z -> Prop) `{!forall x, Decision (P x)} k,
    filter P ys = filter P (take k ys) ++ filter P (drop k ys)) as Hsp by (intros; by rewrite <- filter_app, take_drop).
  unfold zlen. rewrite (Hsp (fun x => x < v) _ i), (Hsp (fun x => x <= v) _ (S i)), !length_app.
  assert (filter (fun x => x < v) (drop i ys) = []) as ->.
  { apply filter_none, Forall_lookup. intros j x Hx. rewrite lookup_drop in Hx.
    pose proof (Hhi _ _ Hx ltac:(lia)). lia. }
  assert (filter (fun x => x <= v) (take (S i) ys) = take (S i) ys) as ->.
  { apply filter_every, Forall_lookup. intros j x Hx. apply lookup_take_Some in Hx as [Hx Hj].
    apply (Hlo _ _ Hx). lia. }
  pose proof (length_filter (fun x => x < v) (take i ys)). rewrite !length_take in *. cbn [length]. lia.
Qed.

Lemma hundredth_50 : exists M, f64_lit 50 100 = SpecFloat.S754_finite false M (-53) /\ hundredth 50 M.
Proof. eexists. split; [vm_compute; reflexivity|]. unfold hundredth. lia. Qed.

Lemma hundredth_95 : exists M, f64_lit 95 100 = SpecFloat.S754_finite false M (-53) /\ hundredth 95 M.
Proof. eexists. split; [vm_compute; reflexivity|]. unfold hundredth. lia. Qed.

Lemma hundredth_99 : exists M, f64_lit 99 100 = SpecFloat.S754_finite false M (-53) /\ hundredth 99 M.
Proof. eexists. split; [vm_compute; reflexivity|]. unfold hundredth. lia. Qed.

(** The floating-point index is the integer one, and in range. *)
Lemma pctl_at_index ys a p :
  (exists M, p = SpecFloat.S754_finite false M (-53) /\ hundredth a M) -> 0 < zlen ys <= 2 ^ 47 ->
  exists v, pctl_at ys p = Some v /\ ys !! Z.to_nat (a * (zlen ys - 1) / 100) = Some v.
Proof.
  intros (M & -> & Hh) Hlen. unfold pctl_at. rewrite (percent_exact a M) by (done || lia).
  destruct Hh as [Ha _]. pose proof (Z.mul_le_mono_nonneg_r a 99 (zlen ys - 1) ltac:(lia) ltac:(lia)).
  assert (0 <= a * (zlen ys - 1) / 100 <= zlen ys - 1) as Hi
    by (split; [apply Z.div_pos; [apply Z.mul_nonneg_nonneg|]; lia|apply Z.div_le_upper_bound; lia]).
  destruct (Z.ltb_spec (a * (zlen ys - 1) / 100) 0); [lia|].
  destruct (lookup_lt_is_Some_2 ys (Z.to_nat (a * (zlen ys - 1) / 100))) as [v Hv]; [unfold zlen in *; lia|].
  by exists v.
Qed.

(** What a summary of [xs] must be: each percentile has its rank and the
    maximum is one. *)
Definition pctls_of (xs : list Z) (r : pctls) : Prop :=
  rank xs (50 * (zlen xs - 1) / 100) (p50 r) /\ rank xs (95 * (zlen xs - 1) / 100) (p95 r) /\
  rank xs (99 * (zlen xs - 1) / 100) (p99 r) /\ pmax r ∈ xs /\ (forall x, x ∈ xs -> x <= pmax r) /\
  p50 r <= p95 r <= p99 r /\ p99 r <= pmax r.

Lemma sorted_le ys i j x y : StronglySorted Z.le ys -> ys !! i = Some x -> ys !! j = Some y -> (i <= j)%nat -> x <= y.
Proof.
  intros Hs Hx Hy Hij. destruct (decide (i = j)) as [->|]; [rewrite Hx in Hy; injection Hy; lia|].
  apply (StronglySorted_lookup _ _ i j _ _ Hs); [lia|done..].
Qed.

Lemma percentiles_run xs : 0 < zlen xs <= 2 ^ 47 -> exists r, percentiles xs = Some r /\ pctls_of xs r.
Proof.
  intros Hlen. unfold percentiles. destruct (Nat.eqb_spec (length xs) 0); [unfold zlen in Hlen; lia|].
  set (ys := merge_sort Z.le xs). assert (ys ≡ₚ xs) as Hp by apply merge_sort_Permutation.
  assert (StronglySorted Z.le ys) as Hs by (apply (StronglySorted_merge_sort Z.le); apply _).
  assert (zlen ys = zlen xs) as Hl by (unfold zlen; by rewrite Hp). rewrite <- Hl in Hlen.
  destruct (pctl_at_index ys 50 _ hundredth_50 Hlen) as (a & -> & Ha).
  destruct (pctl_at_index ys 95 _ hundredth_95 Hlen) as (b & -> & Hb).
  destruct (pctl_at_index ys 99 _ hundredth_99 Hlen) as (c & -> & Hc).
  destruct (lookup_lt_is_Some_2 ys (length ys - 1)) as [d Hd]; [unfold zlen in Hlen; lia|]. rewrite Hd.
  eexists. split; [done|]. unfold pctls_of. cbn [p50 p95 p99 pmax]. rewrite <- Hl.
  assert (0 <= 50 * (zlen ys - 1) / 100 <= 95 * (zlen ys - 1) / 100 /\
    95 * (zlen ys - 1) / 100 <= 99 * (zlen ys - 1) / 100 <= zlen ys - 1) as Hi.
  { split; split; [apply Z.div_pos; lia|apply Z.div_le_mono; lia..|apply Z.div_le_upper_bound; lia]. }
  assert (forall i v, 0 <= i -> ys !! Z.to_nat i = Some v -> rank xs i v) as Hr.
  { intros i v Hi0 Hv. rewrite <- Hp. pose proof (sorted_rank _ _ _ Hs Hv) as Hrk. by rewrite Z2Nat.id in Hrk. }
  split_and!; try (apply Hr; [lia|done]); try (eapply sorted_le; [done..|unfold zlen in *; lia]).
  - rewrite <- Hp. by eapply list_elem_of_lookup_2.
  - intros x Hx. rewrite <- Hp in Hx. apply list_elem_of_lookup in Hx as [i Hx].
    eapply sorted_le; [done..|]. apply lookup_lt_Some in Hx. lia.
Qed.

(** ** The load *)

Record memstats := mkMem { TotalAlloc : Z; Mallocs : Z; HeapAlloc : Z }.

(** How the process ends early: [log.Fatalf], or a run-time panic. *)
Inductive bench_exit :=
| BFatal (e : error)
| BPanic (what : string).

(** A producer goroutine: before the loop test, after the stamp, in [Append]
    since [t0], after it, returned. *)
Inductive produce_phase := BLoop | BStamped | BCall (t0 : Z) | BBack (t0 : Z) | BReturned.

Record bproducer := mkBProducer {
  bp_n : Z;
  bp_i : nat;
  bp_buf : list byte;
  bp_phase : produce_phase;
  bp_lat : list Z
}.

(** A consumer goroutine: not yet started, before the loop test, with a
    decoded record, returned. *)
Inductive consume_phase := KNew | KLoop | KGot (produced : Z) | KReturned.

Record bconsumer := mkBConsumer {
  bk_reader : Reader;
  bk_seen : nat;
  bk_phase : consume_phase;
  bk_lat : list Z
}.

(** Phase 2 of a [result]. *)
Record load_result := mkLoadResult {
  produceDur : Z;
  totalDur : Z;
  produceThroughput : float64;
  producePctl : pctls;
  e2ePctl : pctls;
  totalAllocBytes : Z;
  peakHeapBytes : Z;
  mallocs : Z
}.

(** The goroutine of [runLoad] itself: in [prodWg.Wait], in [consWg.Wait], in
    [samplerDone.Wait] with the second [ReadMemStats], returned. *)
Inductive main_phase := MProducers | MConsumers | MSampler (m2 : memstats) | MReturned (r : load_result).

Record load (M : Type) := mkLoad {
  ld_log : M;
  ld_prods : list bproducer;
  ld_cons : list bconsumer;
  ld_sampling : bool;
  ld_stop : bool;
  ld_peak : Z;
  ld_now : Z;
  ld_start : Z;
  ld_m1 : memstats;
  ld_produceDur : Z;
  ld_totalDur : Z;
  ld_main : main_phase;
  ld_exit : option bench_exit
}.
Arguments mkLoad {M}.
Arguments ld_log {M}.
Arguments ld_prods {M}.
Arguments ld_cons {M}.
Arguments ld_sampling {M}.
Arguments ld_stop {M}.
Arguments ld_peak {M}.
Arguments ld_now {M}.
Arguments ld_start {M}.
Arguments ld_m1 {M}.
Arguments ld_produceDur {M}.
Arguments ld_totalDur {M}.
Arguments ld_main {M}.
Arguments ld_exit {M}.

(** [d.Seconds()] *)
Definition Seconds (d : Z) : float64 :=
  f64_add (f64_of_Z (Z.quot d 1000000000)) (f64_div (f64_of_Z (Z.rem d 1000000000)) (f64_of_Z 1000000000)).

(** The [count] of each producer; [None] is a panic: no producer to divide by,
    or a negative length for [make]. *)
Definition split_counts (cfg : config) : option (list Z) :=
  if producers cfg <=? 0 then None
  else
    let base := Z.quot (messages cfg) (producers cfg) in
    let counts := (fun p => if p =? producers cfg - 1 then base + (messages cfg - base * producers cfg) else base)
                  <$> seqZ 0 (producers cfg) in
    if forallb (fun c => 0 <=? c) counts then Some counts else None.

(** The clock moves, a goroutine runs, the ticker fires with the current heap,
    or the sampler sees the closed channel. *)
Inductive load_event :=
| LTick (d : N)
| LProd (p : nat)
| LCons (k : nat)
| LSample (heap : Z)
| LSampleStop
| LMain (mem : memstats).

(** [runLoad] up to its goroutines: a new directory, and a log in it that does
    not roll during the run and is not retained. *)
Definition load_cfg (algo : Checksum) : Config := mkConfig (Z.shiftl 512 20) 0 0 0 true (Some algo).

Definition runLoad_open (mkdirTemp : outcome) (oio : Z -> segment_io) (algo : Checksum) : option (result Manager) :=
  match mkdirTemp with
  | Some e => Some (Err e)
  | None => Open None None oio (load_cfg algo) (mkDir ∅ [])
  end.

Section Load.
Context {M : Type} `{LogServiceOk M}.
Variable cfg : config.

Definition zero_buf (n : nat) : list byte := replicate n (byte.of_Z 0).

(** Just after the goroutines were started on a fresh log [m]. *)
Definition load_start (m : M) (now : Z) (m1 : memstats) : option (load M) :=
  match split_counts cfg with
  | None => None
  | Some counts =>
      if consumers cfg <? 0 then None
      else Some (mkLoad m ((fun n => mkBProducer n 0 (zero_buf (Z.to_nat (payload cfg))) BLoop []) <$> counts)
             (replicate (Z.to_nat (consumers cfg)) (mkBConsumer (mkRd 0) 0 KNew []))
             true false 0 now now m1 0 0 MProducers None)
  end.

(** One step of a producer at time [now]. *)
Definition produce_step (now : Z) (m : M) (st : bproducer) : option (option bench_exit * M * bproducer) :=
  let goto ph := mkBProducer (bp_n st) (bp_i st) (bp_buf st) ph (bp_lat st) in
  match bp_phase st with
  | BLoop =>
      if Z.of_nat (bp_i st) <? bp_n st then
        if 8 <=? zlen (bp_buf st) then
          Some (None, m, mkBProducer (bp_n st) (bp_i st) (PutUint64 (u64 now) ++ drop 8 (bp_buf st)) BStamped (bp_lat st))
        else Some (Some (BPanic "slice bounds out of range"), m, st)
      else Some (None, m, goto BReturned)
  | BStamped => Some (None, m, goto (BCall now))
  | BCall t0 =>
      match svc_Append (bp_buf st) m with
      | None => None
      | Some (Err e, m') => Some (Some (BFatal (Wrap "append" e)), m', st)
      | Some (Ok _, m') => Some (None, m', goto (BBack t0))
      end
  | BBack t0 => Some (None, m, mkBProducer (bp_n st) (S (bp_i st)) (bp_buf st) BLoop (bp_lat st ++ [now - t0]))
  | BReturned => None
  end.

(** One step of a consumer; at the head of the log it sleeps and retries. *)
Definition consume_step (now : Z) (m : M) (c : bconsumer) : option (option bench_exit * bconsumer) :=
  match bk_phase c with
  | KNew => Some (None, mkBConsumer (NewReader m) (bk_seen c) KLoop (bk_lat c))
  | KLoop =>
      if Z.of_nat (bk_seen c) <? messages cfg then
        match Next (bk_reader c) m with
        | None => None
        | Some (Err EOF, _, r') => Some (None, mkBConsumer r' (bk_seen c) KLoop (bk_lat c))
        | Some (Err e, _, _) => Some (Some (BFatal (Wrap "consumer" e)), c)
        | Some (Ok data, _, r') =>
            if 8 <=? zlen data
            then Some (None, mkBConsumer r' (bk_seen c) (KGot (i64 (Uint64 data))) (bk_lat c))
            else Some (Some (BPanic "slice bounds out of range"), c)
        end
      else Some (None, mkBConsumer (bk_reader c) (bk_seen c) KReturned (bk_lat c))
  | KGot produced =>
      Some (None, mkBConsumer (bk_reader c) (S (bk_seen c)) KLoop (bk_lat c ++ [i64 (now - produced)]))
  | KReturned => None
  end.

Definition prod_returned (st : bproducer) : bool := match bp_phase st with BReturned => true | _ => false end.
Definition cons_returned (c : bconsumer) : bool := match bk_phase c with KReturned => true | _ => false end.

Definition with_main (pd td : Z) (stop : bool) (ph : main_phase) (ex : option bench_exit) (x : load M) : load M :=
  mkLoad (ld_log x) (ld_prods x) (ld_cons x) (ld_sampling x) stop (ld_peak x) (ld_now x) (ld_start x) (ld_m1 x) pd td ph ex.

(** From [prodWg.Wait] to the end of [runLoad]. *)
Definition main_step (mem : memstats) (x : load M) : option (load M) :=
  match ld_main x with
  | MProducers =>
      if forallb prod_returned (ld_prods x)
      then Some (with_main (ld_now x - ld_start x) (ld_totalDur x) (ld_stop x) MConsumers None x) else None
  | MConsumers =>
      if forallb cons_returned (ld_cons x)
      then Some (with_main (ld_produceDur x) (ld_now x - ld_start x) true (MSampler mem) None x) else None
  | MSampler m2 =>
      if ld_sampling x then None
      else
        match percentiles (flatten (bp_lat <$> ld_prods x)), percentiles (flatten (bk_lat <$> ld_cons x)) with
        | Some pp, Some ep =>
            Some (with_main (ld_produceDur x) (ld_totalDur x) (ld_stop x)
              (MReturned (mkLoadResult (ld_produceDur x) (ld_totalDur x)
                 (f64_div (f64_of_Z (messages cfg)) (Seconds (ld_produceDur x))) pp ep
                 (u64 (TotalAlloc m2 - TotalAlloc (ld_m1 x))) (ld_peak x) (u64 (Mallocs m2 - Mallocs (ld_m1 x))))) None x)
        | _, _ => Some (with_main (ld_produceDur x) (ld_totalDur x) (ld_stop x) (MSampler m2) (Some (BPanic "index out of range")) x)
        end
  | MReturned _ => None
  end.

Definition load_step (e : load_event) (x : load M) : option (load M) :=
  match ld_exit x with
  | Some _ => None
  | None =>
      match e with
      | LTick d =>
          let now := ld_now x + Z.of_N d in
          if now <? 2 ^ 63 then
            Some (mkLoad (ld_log x) (ld_prods x) (ld_cons x) (ld_sampling x) (ld_stop x) (ld_peak x) now (ld_start x)
              (ld_m1 x) (ld_produceDur x) (ld_totalDur x) (ld_main x) None)
          else None
      | LProd p =>
          match ld_prods x !! p with
          | None => None
          | Some st =>
              match produce_step (ld_now x) (ld_log x) st with
              | None => None
              | Some (ex, m', st') =>
                  Some (mkLoad m' (<[p := st']> (ld_prods x)) (ld_cons x) (ld_sampling x) (ld_stop x) (ld_peak x) (ld_now x)
                    (ld_start x) (ld_m1 x) (ld_produceDur x) (ld_totalDur x) (ld_main x) ex)
              end
          end
      | LCons k =>
          match ld_cons x !! k with
          | None => None
          | Some c =>
              match consume_step (ld_now x) (ld_log x) c with
              | None => None
              | Some (ex, c') =>
                  Some (mkLoad (ld_log x) (ld_prods x) (<[k := c']> (ld_cons x)) (ld_sampling x) (ld_stop x) (ld_peak x)
                    (ld_now x) (ld_start x) (ld_m1 x) (ld_produceDur x) (ld_totalDur x) (ld_main x) ex)
              end
          end
      | LSample heap =>
          if ld_sampling x then
            Some (mkLoad (ld_log x) (ld_prods x) (ld_cons x) true (ld_stop x)
              (if ld_peak x <? heap then heap else ld_peak x) (ld_now x) (ld_start x)
              (ld_m1 x) (ld_produceDur x) (ld_totalDur x) (ld_main x) None)
          else None
      | LSampleStop =>
          if ld_sampling x && ld_stop x then
            Some (mkLoad (ld_log x) (ld_prods x) (ld_cons x) false (ld_stop x) (ld_peak x) (ld_now x) (ld_start x)
              (ld_m1 x) (ld_produceDur x) (ld_totalDur x) (ld_main x) None)
          else None
      | LMain mem => main_step mem x
      end
  end.

Fixpoint load_run (es : list load_event) (x : load M) : option (load M) :=
  match es with
  | [] => Some x
  | e :: es' => match load_step e x with Some y => load_run es' y | None => None end
  end.
End Load.
