(* ===== verification/BenchProps.v ===== *)
(** * BenchProps: the benchmark measures what it says

    The invariant of [load_step]: what the log, each producer and each
    consumer hold at every moment.  From it: a load that returns has produced
    and read every message, its latencies are differences of clock readings
    inside the run, its percentiles have their ranks; and a load can always
    go on to return. *)

From Stdlib Require Import ZArith Lia Strings.String.
From stdpp Require Import base list list_numbers numbers option gmap sorting.
From coqutil Require Import Byte.
From S2P Require Import Prelude Bytes Golib Float Checksum Digest Wal WalFormat Crash Segment Manager MgrInv MgrOpen MgrProps Service Bench.

Local Open Scope Z_scope.

(** ** Sums *)

Definition zsum (l : list Z) : Z := foldr Z.add 0 l.

Lemma zsum_app l k : zsum (l ++ k) = zsum l + zsum k.
Proof. induction l as [|x l IH]; simpl; [done|]. unfold zsum in *. lia. Qed.

Lemma zsum_insert l p a b : l !! p = Some a -> zsum (<[p := b]> l) = zsum l + b - a.
Proof.
  revert p. induction l as [|x l IH]; intros [|p] Hp; simpl in *; try done.
  - injection Hp as ->. lia.
  - unfold zsum in *. rewrite (IH _ Hp). lia.
Qed.

Lemma zsum_const l c : Forall (fun x => x = c) l -> zsum l = c * zlen l.
Proof.
  induction 1 as [|x l -> _ IH]; [by rewrite Z.mul_0_r|]. change (zsum (c :: l)) with (c + zsum l).
  rewrite IH. unfold zlen. cbn [length]. lia.
Qed.

Lemma zsum_le {A} (f g : A -> Z) (l : list A) : Forall (fun x => f x <= g x) l -> zsum (f <$> l) <= zsum (g <$> l).
Proof. induction 1 as [|x l Hx _ IH]; [done|]. unfold zsum in *. cbn. lia. Qed.

Lemma flatten_join xs : flatten xs = mjoin xs.
Proof.
  assert (forall acc, fold_left (fun out x => out ++ x) xs acc = acc ++ mjoin xs) as Hf; [|apply Hf].
  induction xs as [|x xs IH]; intros acc; cbn; [by rewrite app_nil_r|]. by rewrite IH, app_assoc.
Qed.

Lemma zlen_join {A} (xs : list (list A)) : zlen (mjoin xs) = zsum (zlen <$> xs).
Proof.
  induction xs as [|x xs IH]; [done|]. change (zsum (zlen <$> x :: xs)) with (zlen x + zsum (zlen <$> xs)).
  change (mjoin (x :: xs)) with (x ++ mjoin xs). by rewrite zlen_app, IH.
Qed.

(** The messages are split without loss. *)
Lemma split_counts_sum cfg :
  0 <= messages cfg -> 1 <= producers cfg ->
  exists counts, split_counts cfg = Some counts /\ zsum counts = messages cfg /\ Forall (fun c => 0 <= c) counts.
Proof.
  intros Hm Hp. unfold split_counts. destruct (Z.leb_spec (producers cfg) 0); [lia|].
  set (base := Z.quot _ _). set (f := fun p => if p =? _ then _ else _).
  assert (0 <= base /\ base * producers cfg <= messages cfg) as [Hb0 Hb1].
  { unfold base. rewrite Z.quot_div_nonneg by lia. split; [apply Z.div_pos; lia|].
    rewrite Z.mul_comm. apply Z.mul_div_le. lia. }
  assert (Forall (fun c => 0 <= c) (f <$> seqZ 0 (producers cfg))) as Hall.
  { apply Forall_forall. intros c (p & -> & _)%list_elem_of_fmap. unfold f. destruct (_ =? _); lia. }
  assert (forallb (fun c => 0 <=? c) (f <$> seqZ 0 (producers cfg)) = true) as ->.
  { apply forallb_forall. intros c Hc. rewrite Forall_forall in Hall.
    by apply Z.leb_le, Hall, list_elem_of_In. }
  eexists. split; [done|]. split; [|done].
  replace (producers cfg) with (producers cfg - 1 + 1) at 1 by lia. rewrite seqZ_app by lia.
  rewrite fmap_app, zsum_app, (zsum_const _ base).
  - assert (zsum (f <$> seqZ (0 + (producers cfg - 1)) 1) = f (producers cfg - 1)) as ->.
    { rewrite Z.add_0_l, seqZ_cons, (seqZ_nil (Z.succ _)) by lia. apply Z.add_0_r. }
    unfold zlen. rewrite length_fmap, length_seqZ, Z2Nat.id by lia. unfold f. rewrite Z.eqb_refl. lia.
  - apply Forall_forall. intros c (p & -> & Hin)%list_elem_of_fmap. apply elem_of_seqZ in Hin.
    unfold f. destruct (Z.eqb_spec p (producers cfg - 1)); lia.
Qed.

(** Without a producer there is nothing to divide the messages by. *)
Lemma no_producers_panics cfg {M} (m : M) now m1 : producers cfg <= 0 -> load_start cfg m now m1 = None.
Proof. intros Hp. unfold load_start, split_counts. by destruct (Z.leb_spec (producers cfg) 0); [|lia]. Qed.

(** ** Invariant *)

Section LoadInv.
Context {M : Type} `{LogServiceOk M}.
Variable cfg : config.

(** What the program can be asked to do: its percentile indices stay exact up
    to [2^47] samples. *)
Definition bench_ok : Prop :=
  0 <= messages cfg /\ 1 <= producers cfg /\ 0 <= consumers cfg /\ 8 <= payload cfg <= MaxRecordSize /\
  messages cfg <= 2 ^ 47 /\ consumers cfg * messages cfg <= 2 ^ 47.

(** The payload produced at time [s]. *)
Definition stamped (s : Z) : list byte := PutUint64 s ++ zero_buf (Z.to_nat (payload cfg) - 8).

Record prod_ok (start now : Z) (st : bproducer) : Prop := {
  po_i : Z.of_nat (bp_i st) <= bp_n st;
  po_len : length (bp_lat st) = bp_i st;
  po_lat : Forall (fun l => 0 <= l <= now - start) (bp_lat st);
  po_buf : zlen (bp_buf st) = payload cfg /\ drop 8 (bp_buf st) = zero_buf (Z.to_nat (payload cfg) - 8);
  po_phase : match bp_phase st with
    | BLoop => True
    | BStamped => Z.of_nat (bp_i st) < bp_n st /\ exists s, start <= s <= now /\ bp_buf st = stamped s
    | BCall t0 => Z.of_nat (bp_i st) < bp_n st /\ start <= t0 <= now /\ exists s, start <= s <= now /\ bp_buf st = stamped s
    | BBack t0 => Z.of_nat (bp_i st) < bp_n st /\ start <= t0 <= now
    | BReturned => Z.of_nat (bp_i st) = bp_n st
    end
}.

(** Records of this producer in the log. *)
Definition appended (st : bproducer) : Z :=
  Z.of_nat (bp_i st) + match bp_phase st with BBack _ => 1 | _ => 0 end.

(** A latency [l] of the record stamped [s]: the clock was read at [w]. *)
Definition latency (now l s : Z) : Prop := exists w, s <= w <= now /\ l = w - s.

Record cons_ok (now : Z) (stamps : list Z) (c : bconsumer) : Prop := {
  co_seen : Z.of_nat (bk_seen c) <= messages cfg /\ (bk_seen c <= length stamps)%nat;
  co_lat : Forall2 (latency now) (bk_lat c) (take (bk_seen c) stamps);
  co_phase : match bk_phase c with
    | KNew => bk_seen c = 0%nat
    | KLoop => bk_reader c = mkRd (Z.of_nat (bk_seen c))
    | KGot p => bk_reader c = mkRd (Z.of_nat (bk_seen c) + 1) /\ stamps !! bk_seen c = Some p /\
                Z.of_nat (bk_seen c) < messages cfg
    | KReturned => Z.of_nat (bk_seen c) = messages cfg
    end
}.

Definition producers_done (x : load M) : Prop :=
  forallb prod_returned (ld_prods x) = true /\ 0 <= ld_produceDur x <= ld_now x - ld_start x /\
  Forall (fun st => Forall (fun l => l <= ld_produceDur x) (bp_lat st)) (ld_prods x).

Definition consumers_done (x : load M) : Prop :=
  forallb cons_returned (ld_cons x) = true /\ ld_produceDur x <= ld_totalDur x <= ld_now x - ld_start x /\
  Forall (fun c => Forall (fun l => l <= ld_totalDur x) (bk_lat c)) (ld_cons x) /\ ld_stop x = true.

Definition result_of (x : load M) (r : load_result) : Prop :=
  produceDur r = ld_produceDur x /\ totalDur r = ld_totalDur x /\
  percentiles (flatten (bp_lat <$> ld_prods x)) = Some (producePctl r) /\
  percentiles (flatten (bk_lat <$> ld_cons x)) = Some (e2ePctl r) /\
  ld_sampling x = false /\ peakHeapBytes r = ld_peak x.

Record load_inv (stamps : list Z) (x : load M) : Prop := {
  li_exit : ld_exit x = None;
  li_log : svc_rep (ld_log x) 0 (stamped <$> stamps);
  li_time : 0 <= ld_start x <= ld_now x /\ ld_now x < 2 ^ 63;
  li_stamps : Forall (fun s => ld_start x <= s <= ld_now x) stamps;
  li_count : zlen stamps = zsum (appended <$> ld_prods x);
  li_sum : zsum (bp_n <$> ld_prods x) = messages cfg;
  li_prods : Forall (prod_ok (ld_start x) (ld_now x)) (ld_prods x);
  li_cons : Forall (cons_ok (ld_now x) stamps) (ld_cons x);
  li_len : zlen (ld_cons x) = consumers cfg;
  li_main : match ld_main x with
    | MProducers => True
    | MConsumers => producers_done x
    | MSampler _ => producers_done x /\ consumers_done x
    | MReturned r => producers_done x /\ consumers_done x /\ result_of x r
    end
}.

(** *** Time passes, the log grows *)

Lemma prod_ok_later start now now' st : now <= now' -> prod_ok start now st -> prod_ok start now' st.
Proof.
  intros Hle [Hi Hlen Hlat Hbuf Hph]. split; try done.
  - eapply Forall_impl; [exact Hlat|]. cbn. intros l Hl. lia.
  - destruct (bp_phase st); try done.
    + destruct Hph as (? & s & ? & ?). split; [done|]. exists s. split; [lia|done].
    + destruct Hph as (? & ? & s & ? & ?). split_and!; [done|lia..|]. exists s. split; [lia|done].
    + lia.
Qed.

Lemma latency_later now now' l s : now <= now' -> latency now l s -> latency now' l s.
Proof. intros Hle (w & Hw & ->). exists w. split; [lia|done]. Qed.

Lemma cons_ok_later now now' stamps new c :
  now <= now' -> cons_ok now stamps c -> cons_ok now' (stamps ++ new) c.
Proof.
  intros Hle [[Hs1 Hs2] Hlat Hph]. split.
  - rewrite length_app. lia.
  - rewrite take_app_le by done. eapply Forall2_impl; [exact Hlat|]. intros l t. by apply latency_later.
  - destruct (bk_phase c); try done. destruct Hph as (? & Hp & ?). split_and!; [done| |done]. by apply lookup_app_l_Some.
Qed.

Lemma stamped_ok s : bench_ok -> zlen (stamped s) = payload cfg /\ drop 8 (stamped s) = zero_buf (Z.to_nat (payload cfg) - 8).
Proof.
  intros (_ & _ & _ & Hp & _). unfold stamped, zlen. split.
  - rewrite length_app, length_PutUint64. unfold zero_buf. rewrite length_replicate. lia.
  - by rewrite drop_app_length' by (by rewrite length_PutUint64).
Qed.

Lemma stamped_read s : bench_ok -> 0 <= s < 2 ^ 63 -> (8 <=? zlen (stamped s)) = true /\ i64 (Uint64 (stamped s)) = s.
Proof.
  intros Hok Hs. rewrite (proj1 (stamped_ok s Hok)). split; [apply Z.leb_le; destruct Hok; lia|].
  unfold stamped. rewrite Uint64_Put by (unfold is_u64; lia). apply i64_small. unfold is_i64. lia.
Qed.

(** The counts in the log. *)
Lemma appended_le stamps x : load_inv stamps x -> zlen stamps <= messages cfg.
Proof.
  intros Hi. rewrite (li_count _ _ Hi), <- (li_sum _ _ Hi). apply zsum_le.
  eapply Forall_impl; [exact (li_prods _ _ Hi)|]. intros st [? ? ? ? Hph]. unfold appended.
  destruct (bp_phase st); lia.
Qed.

Lemma all_appended stamps x :
  load_inv stamps x -> forallb prod_returned (ld_prods x) = true -> zlen stamps = messages cfg.
Proof.
  intros Hi Hall. rewrite (li_count _ _ Hi), <- (li_sum _ _ Hi). f_equal. apply list_fmap_ext. intros p st Hp.
  pose proof (Forall_lookup_1 _ _ _ _ (li_prods _ _ Hi) Hp) as [? ? ? ? Hph].
  rewrite forallb_forall in Hall. pose proof (Hall st (proj1 (list_elem_of_In _ _) (list_elem_of_lookup_2 _ _ _ Hp))) as Hr.
  unfold prod_returned in Hr. unfold appended. destruct (bp_phase st); try done. lia.
Qed.

Lemma past_producers stamps x : load_inv stamps x -> ld_main x <> MProducers -> producers_done x.
Proof. intros Hi Hm. pose proof (li_main _ _ Hi) as Hd. destruct (ld_main x); try done; apply Hd. Qed.

Lemma returned_lookup {A} (f : A -> bool) l i a : forallb f l = true -> l !! i = Some a -> f a = true.
Proof.
  intros Hall Hi. rewrite forallb_forall in Hall. apply Hall, list_elem_of_In. by eapply list_elem_of_lookup_2.
Qed.

(** A producer that can step: the main goroutine still waits for it. *)
Lemma prod_waiting stamps x p st :
  load_inv stamps x -> ld_prods x !! p = Some st -> bp_phase st <> BReturned -> ld_main x = MProducers.
Proof.
  intros Hi Hp Hph. destruct (ld_main x) eqn:Hm; [done|exfalso..];
    destruct (past_producers _ _ Hi ltac:(congruence)) as [Hall _];
    pose proof (returned_lookup _ _ _ _ Hall Hp) as Hr; unfold prod_returned in Hr; by destruct (bp_phase st).
Qed.

Lemma cons_waiting stamps x k c :
  load_inv stamps x -> ld_cons x !! k = Some c -> bk_phase c <> KReturned ->
  ld_main x = MProducers \/ ld_main x = MConsumers.
Proof.
  intros Hi Hk Hph. pose proof (li_main _ _ Hi) as Hm. destruct (ld_main x); [by left|by right|exfalso..].
  - destruct Hm as (_ & Hall & _). pose proof (returned_lookup _ _ _ _ Hall Hk) as Hr.
    unfold cons_returned in Hr. by destruct (bk_phase c).
  - destruct Hm as (_ & (Hall & _) & _). pose proof (returned_lookup _ _ _ _ Hall Hk) as Hr.
    unfold cons_returned in Hr. by destruct (bk_phase c).
Qed.

(** *** One step of a goroutine *)

Lemma produce_step_ok stamps x st ex m' st' :
  bench_ok -> load_inv stamps x -> prod_ok (ld_start x) (ld_now x) st ->
  produce_step (ld_now x) (ld_log x) st = Some (ex, m', st') ->
  ex = None /\ bp_phase st <> BReturned /\ prod_ok (ld_start x) (ld_now x) st' /\ bp_n st' = bp_n st /\
  exists new, svc_rep m' 0 (stamped <$> stamps ++ new) /\ Forall (fun s => ld_start x <= s <= ld_now x) new /\
    appended st' = appended st + zlen new.
Proof.
  intros Hok Hi [Hin Hlen Hlat [Hb1 Hb2] Hph] Hs. pose proof (li_time _ _ Hi) as Ht. pose proof (li_log _ _ Hi) as Hlog.
  assert (svc_rep (ld_log x) 0 (stamped <$> stamps ++ [])) as Hlog' by by rewrite app_nil_r.
  assert (m' = ld_log x -> appended st' = appended st -> exists new, svc_rep m' 0 (stamped <$> stamps ++ new) /\
    Forall (fun s => ld_start x <= s <= ld_now x) new /\ appended st' = appended st + zlen new) as Hnone.
  { intros -> ->. exists []. split_and!; [done|done|]. by rewrite Z.add_0_r. }
  unfold produce_step in Hs. destruct (bp_phase st) as [| |t0|t0|] eqn:Eph; [| | | |done].
  - destruct (Z.ltb_spec (Z.of_nat (bp_i st)) (bp_n st)).
    + rewrite Hb1 in Hs. destruct (Z.leb_spec 8 (payload cfg)); [|destruct Hok; lia]. injection Hs as <- <- <-.
      rewrite u64_small, Hb2 by (unfold is_u64; lia). change (PutUint64 _ ++ _) with (stamped (ld_now x)).
      split_and!; try done.
      * split; cbn; try done; [by apply stamped_ok|]. split; [done|]. exists (ld_now x). split; [lia|done].
      * apply Hnone; [done|]. unfold appended. cbn. rewrite Eph. lia.
    + injection Hs as <- <- <-. split_and!; try done.
      * split; cbn; try done. lia.
      * apply Hnone; [done|]. unfold appended. cbn. rewrite Eph. lia.
  - injection Hs as <- <- <-. destruct Hph as (Hlt & Hst). split_and!; try done.
    + split; cbn; try done. split_and!; [done|lia|lia|done].
    + apply Hnone; [done|]. unfold appended. cbn. rewrite Eph. lia.
  - destruct Hph as (Hlt & Ht0 & s & Hs0 & Hbuf).
    destruct (svc_append_ok (ld_log x) 0 _ (bp_buf st) Hlog) as (m1 & Ha & Hm1).
    { unfold payload_ok. rewrite Hb1. apply Hok. }
    { pose proof (appended_le _ _ Hi). unfold zlen in *. rewrite length_fmap. destruct Hok. lia. }
    rewrite Ha in Hs. injection Hs as <- <- <-. split_and!; try done.
    exists [s]. split_and!.
    + rewrite fmap_app, Hbuf in *. done.
    + by apply Forall_singleton.
    + unfold appended. cbn. rewrite Eph. change (zlen [s]) with 1. lia.
  - injection Hs as <- <- <-. destruct Hph as (Hlt & Ht0). split_and!; try done.
    + split; cbn; try done; [lia|rewrite length_app, Hlen; cbn; lia|].
      apply Forall_app. split; [done|]. apply Forall_singleton. lia.
    + apply Hnone; [done|]. unfold appended. cbn. rewrite Eph. lia.
Qed.

Lemma consume_step_ok stamps x c ex c' :
  bench_ok -> load_inv stamps x -> cons_ok (ld_now x) stamps c ->
  consume_step cfg (ld_now x) (ld_log x) c = Some (ex, c') ->
  ex = None /\ bk_phase c <> KReturned /\ cons_ok (ld_now x) stamps c'.
Proof.
  intros Hok Hi [[Hs1 Hs2] Hlat Hph] Hs. pose proof (li_time _ _ Hi) as Ht. pose proof (li_log _ _ Hi) as Hlog.
  pose proof (appended_le _ _ Hi) as Hle. assert (messages cfg <= 2 ^ 47) as H47 by apply Hok.
  unfold consume_step in Hs. destruct (bk_phase c) as [| |p|] eqn:Eph; [| | |done].
  - injection Hs as <- <-. split_and!; try done. split; [done|done|]. cbn. unfold NewReader.
    by rewrite (svc_earliest_ok _ _ _ Hlog), Hph.
  - destruct (Z.ltb_spec (Z.of_nat (bk_seen c)) (messages cfg)).
    2:{ injection Hs as <- <-. split_and!; try done. split; [done|done|]. cbn. lia. }
    rewrite Hph in Hs. unfold Next in Hs. cbn [rd_offset] in Hs.
    rewrite (svc_read_ok _ _ _ _ Hlog) in Hs by (unfold is_u64; lia).
    destruct (stamps !! bk_seen c) as [s|] eqn:Hst.
    + rewrite (read_spec_hit 0 _ (bk_seen c) (stamped s)) in Hs by (by rewrite list_lookup_fmap, Hst).
      pose proof (Forall_lookup_1 _ _ _ _ (li_stamps _ _ Hi) Hst) as Hsr. cbn in Hsr.
      destruct (stamped_read s Hok ltac:(lia)) as [H8 Hrd]. rewrite H8, Hrd in Hs. injection Hs as <- <-.
      split_and!; try done. split; [done|done|]. cbn. split_and!; try done. by rewrite u64_small by (unfold is_u64; lia).
    + apply lookup_ge_None in Hst. assert (bk_seen c = length stamps) as Hend by lia.
      assert (read_spec 0 (stamped <$> stamps) (Z.of_nat (bk_seen c)) = Err EOF) as Hr.
      { rewrite Hend. pose proof (read_spec_head 0 (stamped <$> stamps)) as Hh. unfold zlen in Hh. by rewrite length_fmap in Hh. }
      rewrite Hr in Hs. injection Hs as <- <-. by split_and!.
  - injection Hs as <- <-. destruct Hph as (Hr & Hst & Hlt). split_and!; try done.
    pose proof (Forall_lookup_1 _ _ _ _ (li_stamps _ _ Hi) Hst) as Hsr. cbn in Hsr.
    pose proof (lookup_lt_Some _ _ _ Hst). split; cbn [bk_seen bk_lat bk_phase bk_reader].
    + split; lia.
    + rewrite (take_S_r _ _ _ Hst). apply Forall2_app; [done|]. repeat constructor. exists (ld_now x). split; [lia|].
      apply i64_small. unfold is_i64. lia.
    + rewrite Hr. f_equal. lia.
Qed.

(** *** The steps of the program *)

Lemma produce_lat_len stamps x :
  load_inv stamps x -> forallb prod_returned (ld_prods x) = true -> zlen (flatten (bp_lat <$> ld_prods x)) = messages cfg.
Proof.
  intros Hi Hall. rewrite flatten_join, zlen_join, <- list_fmap_compose, <- (li_sum _ _ Hi). f_equal.
  apply list_fmap_ext. intros p st Hp. pose proof (returned_lookup _ _ _ _ Hall Hp) as Hr.
  pose proof (Forall_lookup_1 _ _ _ _ (li_prods _ _ Hi) Hp) as [_ Hlen _ _ Hph]. unfold prod_returned in Hr.
  unfold compose, zlen. rewrite Hlen. by destruct (bp_phase st).
Qed.

Lemma e2e_lat_len stamps x :
  load_inv stamps x -> forallb cons_returned (ld_cons x) = true ->
  zlen (flatten (bk_lat <$> ld_cons x)) = consumers cfg * messages cfg.
Proof.
  intros Hi Hall. rewrite flatten_join, zlen_join, <- list_fmap_compose, (zsum_const _ (messages cfg)).
  { rewrite <- (li_len _ _ Hi). unfold zlen. rewrite length_fmap. lia. }
  apply Forall_fmap, Forall_lookup. intros k c Hk. pose proof (returned_lookup _ _ _ _ Hall Hk) as Hr.
  pose proof (Forall_lookup_1 _ _ _ _ (li_cons _ _ Hi) Hk) as [[Hs1 Hs2] Hlat Hph]. unfold cons_returned in Hr.
  apply Forall2_length in Hlat. rewrite length_take in Hlat. unfold compose, zlen. destruct (bk_phase c); try done. lia.
Qed.

Lemma percentiles_total xs : zlen xs <= 2 ^ 47 -> exists r, percentiles xs = Some r.
Proof.
  intros Hlen. destruct xs as [|l xs]; [by eexists|].
  destruct (percentiles_run (l :: xs)) as (r & Hr & _); [unfold zlen in *; cbn [length] in *; lia|]. by exists r.
Qed.

Lemma tick_inv stamps d x y :
  load_inv stamps x -> load_step cfg (LTick d) x = Some y -> load_inv stamps y.
Proof.
  intros [He Hl Ht Hst Hc Hsum Hp Hk Hlen Hm] Hs. unfold load_step in Hs. rewrite He in Hs. cbv zeta in Hs.
  destruct (Z.ltb_spec (ld_now x + Z.of_N d) (2 ^ 63)); [|done]. injection Hs as <-. split; cbn; try done.
  - lia.
  - eapply Forall_impl; [exact Hst|]. cbn. lia.
  - eapply Forall_impl; [exact Hp|]. intros st. apply prod_ok_later. lia.
  - eapply Forall_impl; [exact Hk|]. intros c Hc0. rewrite <- (app_nil_r stamps).
    by eapply cons_ok_later; [|exact Hc0]; lia.
  - unfold producers_done, consumers_done, result_of in *. cbn.
    destruct (ld_main x) as [| |m2|r]; [done|..]; intuition lia.
Qed.

Lemma prod_inv stamps p x y :
  bench_ok -> load_inv stamps x -> load_step cfg (LProd p) x = Some y ->
  exists new, load_inv (stamps ++ new) y.
Proof.
  intros Hok Hi Hs. pose proof Hi as [He Hl Ht Hst Hc Hsum Hp Hk Hlen Hm]. unfold load_step in Hs. rewrite He in Hs. cbv zeta in Hs.
  destruct (ld_prods x !! p) as [st|] eqn:Est; [|done].
  destruct (produce_step (ld_now x) (ld_log x) st) as [[[ex m'] st']|] eqn:Hstep; [|done]. injection Hs as <-.
  destruct (produce_step_ok stamps x st ex m' st' Hok Hi (Forall_lookup_1 _ _ _ _ Hp Est) Hstep)
    as (-> & Hnr & Hst' & Hn & new & Hlog & Hnew & Happ).
  pose proof (prod_waiting _ _ _ _ Hi Est Hnr) as Hmain. exists new. split; cbn; try done.
  - by apply Forall_app.
  - rewrite zlen_app, Hc, list_fmap_insert, (zsum_insert _ p (appended st)), Happ; [lia|].
    by rewrite list_lookup_fmap, Est.
  - rewrite list_fmap_insert, (zsum_insert _ p (bp_n st)), Hn; [lia|]. by rewrite list_lookup_fmap, Est.
  - by apply Forall_insert.
  - eapply Forall_impl; [exact Hk|]. intros c Hc0. by apply (cons_ok_later (ld_now x)).
  - by rewrite Hmain.
Qed.

Lemma cons_inv stamps k x y :
  bench_ok -> load_inv stamps x -> load_step cfg (LCons k) x = Some y -> load_inv stamps y.
Proof.
  intros Hok Hi Hs. pose proof Hi as [He Hl Ht Hst Hc Hsum Hp Hk Hlen Hm]. unfold load_step in Hs. rewrite He in Hs. cbv zeta in Hs.
  destruct (ld_cons x !! k) as [c|] eqn:Ek; [|done].
  destruct (consume_step cfg (ld_now x) (ld_log x) c) as [[ex c']|] eqn:Hstep; [|done]. injection Hs as <-.
  destruct (consume_step_ok stamps x c ex c' Hok Hi (Forall_lookup_1 _ _ _ _ Hk Ek) Hstep) as (-> & Hnr & Hc').
  split; cbn; try done.
  - by apply Forall_insert.
  - unfold zlen. by rewrite length_insert.
  - destruct (cons_waiting _ _ _ _ Hi Ek Hnr) as [Hmain|Hmain]; by rewrite Hmain in *.
Qed.

Lemma main_inv stamps mem x y :
  bench_ok -> load_inv stamps x -> load_step cfg (LMain mem) x = Some y -> load_inv stamps y.
Proof.
  intros Hok Hi Hs. pose proof Hi as [He Hl Ht Hst Hc Hsum Hp Hk Hlen Hm]. unfold load_step in Hs. rewrite He in Hs. cbv zeta in Hs.
  unfold main_step in Hs. destruct (ld_main x) as [| |m2|r] eqn:Hmain; [| | |done].
  - destruct (forallb prod_returned (ld_prods x)) eqn:Hall; [|done]. injection Hs as <-. split; cbn; try done.
    split_and!; cbn; [done|lia..|]. eapply Forall_impl; [exact Hp|]. intros st [_ _ Hlat _ _].
    eapply Forall_impl; [exact Hlat|]. cbn. lia.
  - destruct (forallb cons_returned (ld_cons x)) eqn:Hall; [|done]. injection Hs as <-. split; cbn; try done.
    split; [exact Hm|]. destruct Hm as (Hpr & Hpd & _). split_and!; cbn; [done|lia..| |done].
    eapply Forall_impl; [exact Hk|]. intros c [_ Hlat _]. apply Forall_lookup. intros i l Hl0.
    destruct (Forall2_lookup_l _ _ _ _ _ Hlat Hl0) as (s & Hs0 & w & Hw & ->).
    apply lookup_take_Some in Hs0 as [Hs0 _]. pose proof (Forall_lookup_1 _ _ _ _ Hst Hs0) as Hsr. cbn in Hsr. lia.
  - destruct (ld_sampling x) eqn:Hsm; [done|]. destruct Hm as [Hpd Hcd].
    destruct Hok as (Hm0 & _ & _ & _ & Hm47 & Hc47).
    destruct (percentiles_total (flatten (bp_lat <$> ld_prods x))) as [pp Epp].
    { by rewrite (produce_lat_len _ _ Hi) by apply Hpd. }
    destruct (percentiles_total (flatten (bk_lat <$> ld_cons x))) as [ep Eep].
    { by rewrite (e2e_lat_len _ _ Hi) by apply Hcd. }
    rewrite Epp, Eep in Hs. injection Hs as <-. split; cbn; done.
Qed.

Lemma load_step_inv stamps e x y :
  bench_ok -> load_inv stamps x -> load_step cfg e x = Some y -> exists new, load_inv (stamps ++ new) y.
Proof.
  intros Hok Hi Hs. assert (load_inv stamps y -> exists new, load_inv (stamps ++ new) y) as Hsame.
  { intros Hy. exists []. by rewrite app_nil_r. }
  destruct e as [d|p|k|heap| |mem].
  - by eapply Hsame, tick_inv.
  - by eapply prod_inv.
  - by eapply Hsame, cons_inv.
  - apply Hsame. pose proof Hi as [He Hl Ht Hst Hc Hsum Hp Hk Hlen Hm]. unfold load_step in Hs. rewrite He in Hs. cbv zeta in Hs.
    destruct (ld_sampling x) eqn:Hsm; [|done]. injection Hs as <-. split; cbn; try done.
    destruct (ld_main x) as [| |m2|r]; try done. destruct Hm as (_ & _ & _ & _ & _ & _ & Hf & _). congruence.
  - apply Hsame. pose proof Hi as [He Hl Ht Hst Hc Hsum Hp Hk Hlen Hm]. unfold load_step in Hs. rewrite He in Hs. cbv zeta in Hs.
    destruct (ld_sampling x && ld_stop x) eqn:Hsm; [|done]. injection Hs as <-. split; cbn; try done.
    destruct (ld_main x) as [| |m2|r]; try done. destruct Hm as (? & ? & Hr). split_and!; try done.
    unfold result_of in *. cbn. intuition.
  - by eapply Hsame, main_inv.
Qed.

Lemma load_run_inv stamps es x y :
  bench_ok -> load_inv stamps x -> load_run cfg es x = Some y -> exists new, load_inv (stamps ++ new) y.
Proof.
  intros Hok. revert stamps x. induction es as [|e es IH]; intros stamps x Hi Hr.
  { injection Hr as <-. exists []. by rewrite app_nil_r. }
  cbn [load_run] in Hr. destruct (load_step cfg e x) as [x1|] eqn:Hs; [|done].
  destruct (load_step_inv _ _ _ _ Hok Hi Hs) as [n1 Hi1]. destruct (IH _ _ Hi1 Hr) as [n2 Hi2].
  exists (n1 ++ n2). by rewrite app_assoc.
Qed.

Lemma load_start_inv m now m1 :
  bench_ok -> svc_rep m 0 [] -> 0 <= now < 2 ^ 63 ->
  exists x, load_start cfg m now m1 = Some x /\ load_inv [] x.
Proof.
  intros Hok Hm Hnow. pose proof Hok as (Hm0 & Hp1 & Hc0 & Hpay & _).
  destruct (split_counts_sum cfg Hm0 Hp1) as (counts & Hsp & Hsum & Hnn). unfold load_start. rewrite Hsp.
  destruct (Z.ltb_spec (consumers cfg) 0); [lia|]. eexists. split; [done|]. split; cbn; try done.
  - lia.
  - rewrite <- list_fmap_compose. symmetry. etransitivity; [apply (zsum_const _ 0)|done].
    apply Forall_fmap, Forall_forall. done.
  - rewrite <- list_fmap_compose. unfold compose. cbn. by rewrite list_fmap_id.
  - apply Forall_fmap. eapply Forall_impl; [exact Hnn|]. intros n Hn. cbn in Hn. split; cbn; try done.
    unfold zero_buf, zlen. rewrite length_replicate, drop_replicate. split; [lia|done].
  - apply Forall_replicate. split; cbn; [lia|done|done].
  - unfold zlen. rewrite length_replicate. lia.
Qed.

(** *** What a load that returned has done *)

(** The heap sizes the sampler saw. *)
Definition samples (es : list load_event) : list Z :=
  omap (fun e => match e with LSample h => Some h | _ => None end) es.

Lemma load_run_peak es x y : load_run cfg es x = Some y -> ld_peak y = foldl Z.max (ld_peak x) (samples es).
Proof.
  revert x. induction es as [|e es IH]; intros x Hr; [by injection Hr as <-|].
  cbn [load_run] in Hr. destruct (load_step cfg e x) as [x1|] eqn:Hs; [|done]. rewrite (IH _ Hr).
  unfold load_step in Hs. destruct (ld_exit x); [done|]. cbv zeta in Hs.
  destruct e as [d|p|k|heap| |mem]; cbn; unfold main_step in Hs; repeat case_match; simplify_eq; try done.
  all: cbn; f_equal; repeat match goal with H : (_ <? _) = _ |- _ => revert H end; intros; blia.
Qed.

(** A summary of latencies: all zero when there are none. *)
Definition summary (xs : list Z) (r : pctls) : Prop :=
  xs = [] /\ r = mkPctls 0 0 0 0 \/ pctls_of xs r.

Lemma summary_run xs r : zlen xs <= 2 ^ 47 -> percentiles xs = Some r -> summary xs r.
Proof.
  intros Hlen Hr. destruct xs as [|l xs]; [by injection Hr as <-; left|right].
  destruct (percentiles_run (l :: xs)) as (r' & Hr' & Hp); [unfold zlen in *; cbn [length] in *; lia|].
  rewrite Hr' in Hr. by injection Hr as <-.
Qed.

(** Every producer and consumer did its share, and the result says so. *)
Record load_ok (x : load M) (r : load_result) : Prop := {
  lo_log : exists stamps, svc_rep (ld_log x) 0 (stamped <$> stamps) /\ zlen stamps = messages cfg /\
    forall c, c ∈ ld_cons x -> Forall2 (latency (ld_now x)) (bk_lat c) stamps;
  lo_len : zlen (flatten (bp_lat <$> ld_prods x)) = messages cfg /\
    zlen (flatten (bk_lat <$> ld_cons x)) = consumers cfg * messages cfg;
  lo_durations : 0 <= produceDur r <= totalDur r;
  lo_produce : Forall (fun l => 0 <= l <= produceDur r) (flatten (bp_lat <$> ld_prods x));
  lo_e2e : Forall (fun l => 0 <= l <= totalDur r) (flatten (bk_lat <$> ld_cons x));
  lo_produce_pctl : summary (flatten (bp_lat <$> ld_prods x)) (producePctl r);
  lo_e2e_pctl : summary (flatten (bk_lat <$> ld_cons x)) (e2ePctl r)
}.

Lemma Forall_flatten {A} (f : A -> list Z) (P : Z -> Prop) l : Forall (fun a => Forall P (f a)) l -> Forall P (flatten (f <$> l)).
Proof.
  intros Hall. rewrite flatten_join. induction Hall as [|a l Ha _ IH]; [done|].
  change (mjoin (f <$> a :: l)) with (f a ++ mjoin (f <$> l)). by apply Forall_app.
Qed.

Lemma load_inv_ok stamps x r : bench_ok -> load_inv stamps x -> ld_main x = MReturned r -> load_ok x r.
Proof.
  intros Hok Hi Hmain. pose proof Hi as [_ Hl Ht Hst _ _ Hp Hk _ Hm]. rewrite Hmain in Hm.
  destruct Hm as (Hpd & Hcd & Hpr & Htr & Hpp & Hep & _). destruct Hpd as (Hall & Hd1 & Hlat1).
  destruct Hcd as (Hcall & Hd2 & Hlat2 & _). destruct Hok as (Hm0 & _ & _ & _ & Hm47 & Hc47).
  pose proof (all_appended _ _ Hi Hall) as Hn. pose proof (produce_lat_len _ _ Hi Hall) as Hl1.
  pose proof (e2e_lat_len _ _ Hi Hcall) as Hl2. split; rewrite ?Hpr, ?Htr; try done; try lia.
  - exists stamps. split_and!; [done..|]. intros c [k Hc]%list_elem_of_lookup.
    pose proof (Forall_lookup_1 _ _ _ _ Hk Hc) as [_ Hlat Hph]. pose proof (returned_lookup _ _ _ _ Hcall Hc) as Hr.
    unfold cons_returned in Hr. destruct (bk_phase c); try done. rewrite firstn_all2 in Hlat; [done|]. unfold zlen in Hn. lia.
  - apply Forall_flatten, Forall_lookup. intros p st Hst0. pose proof (Forall_lookup_1 _ _ _ _ Hp Hst0) as [_ _ Hlat _ _].
    pose proof (Forall_lookup_1 _ _ _ _ Hlat1 Hst0) as Hle. cbn in Hle.
    apply Forall_lookup. intros i l Hi0. pose proof (Forall_lookup_1 _ _ _ _ Hlat Hi0).
    pose proof (Forall_lookup_1 _ _ _ _ Hle Hi0). cbn in *. lia.
  - apply Forall_flatten, Forall_lookup. intros k c Hc. pose proof (Forall_lookup_1 _ _ _ _ Hk Hc) as [_ Hlat _].
    pose proof (Forall_lookup_1 _ _ _ _ Hlat2 Hc) as Hle. cbn in Hle.
    apply Forall_lookup. intros i l Hi0. pose proof (Forall_lookup_1 _ _ _ _ Hle Hi0).
    destruct (Forall2_lookup_l _ _ _ _ _ Hlat Hi0) as (s & _ & w & Hw & ->). cbn in *. lia.
  - apply summary_run; [lia|done].
  - apply summary_run; [lia|done].
Qed.

(** ** A load can always go on to return *)

(** Steps each goroutine still has to make, once the log is complete. *)
Definition prod_left (st : bproducer) : Z :=
  let k := 4 * (bp_n st - Z.of_nat (bp_i st)) in
  match bp_phase st with BLoop => k + 1 | BStamped => k | BCall _ => k - 1 | BBack _ => k - 2 | BReturned => 0 end.

Definition cons_left (c : bconsumer) : Z :=
  let k := 2 * (messages cfg - Z.of_nat (bk_seen c)) in
  match bk_phase c with KNew => k + 2 | KLoop => k + 1 | KGot _ => k | KReturned => 0 end.

Definition main_left (ph : main_phase) : Z :=
  match ph with MProducers => 3 | MConsumers => 2 | MSampler _ => 1 | MReturned _ => 0 end.

Definition load_left (x : load M) : Z :=
  zsum (prod_left <$> ld_prods x) + zsum (cons_left <$> ld_cons x) + main_left (ld_main x) + (if ld_sampling x then 1 else 0).

Lemma prod_left_nonneg start now st : prod_ok start now st -> 0 <= prod_left st.
Proof. intros [Hi _ _ _ Hph]. unfold prod_left. destruct (bp_phase st); lia. Qed.

Lemma cons_left_nonneg now stamps c : cons_ok now stamps c -> 0 <= cons_left c.
Proof. intros [[Hs _] _ Hph]. unfold cons_left. destruct (bk_phase c); lia. Qed.

Lemma zsum_nonneg {A} (f : A -> Z) (l : list A) : Forall (fun a => 0 <= f a) l -> 0 <= zsum (f <$> l).
Proof. induction 1 as [|a l Ha _ IH]; [done|]. change (0 <= f a + zsum (f <$> l)). lia. Qed.

Lemma load_left_nonneg stamps x : load_inv stamps x -> 0 <= load_left x.
Proof.
  intros Hi. unfold load_left.
  assert (0 <= zsum (prod_left <$> ld_prods x)).
  { apply zsum_nonneg. eapply Forall_impl; [exact (li_prods _ _ Hi)|]. intros st. apply prod_left_nonneg. }
  assert (0 <= zsum (cons_left <$> ld_cons x)).
  { apply zsum_nonneg. eapply Forall_impl; [exact (li_cons _ _ Hi)|]. intros c. apply cons_left_nonneg. }
  assert (0 <= main_left (ld_main x)) by (destruct (ld_main x); cbn; lia). destruct (ld_sampling x); lia.
Qed.

(** A producer that has not returned can step. *)
Lemma produce_can stamps x st :
  bench_ok -> load_inv stamps x -> prod_ok (ld_start x) (ld_now x) st -> bp_phase st <> BReturned ->
  exists m' st', produce_step (ld_now x) (ld_log x) st = Some (None, m', st') /\ prod_left st' < prod_left st.
Proof.
  intros Hok Hi Hp Hnr. pose proof Hp as [Hin _ _ [Hb1 _] Hph].
  assert (exists ex m' st', produce_step (ld_now x) (ld_log x) st = Some (ex, m', st') /\
    (ex = None -> prod_left st' < prod_left st)) as (ex & m' & st' & Hs & Hleft).
  { unfold produce_step, prod_left. destruct (bp_phase st) as [| |t0|t0|] eqn:Eph; [| | | |done].
    - destruct (Z.ltb_spec (Z.of_nat (bp_i st)) (bp_n st)).
      + destruct (8 <=? zlen (bp_buf st)); eexists _, _, _; (split; [done|]); cbn; [lia|done].
      + eexists _, _, _. split; [done|]. cbn. lia.
    - eexists _, _, _. split; [done|]. cbn. lia.
    - destruct Hph as (Hlt & _). destruct (svc_append_ok (ld_log x) 0 _ (bp_buf st) (li_log _ _ Hi)) as (m1 & -> & _).
      { unfold payload_ok. rewrite Hb1. apply Hok. }
      { pose proof (appended_le _ _ Hi). unfold zlen in *. rewrite length_fmap. destruct Hok. lia. }
      eexists _, _, _. split; [done|]. cbn. lia.
    - eexists _, _, _. split; [done|]. cbn. lia. }
  destruct (produce_step_ok _ _ _ _ _ _ Hok Hi Hp Hs) as (-> & _). exists m', st'. by auto.
Qed.

(** So can a consumer, once every message is in the log. *)
Lemma consume_can stamps x c :
  bench_ok -> load_inv stamps x -> zlen stamps = messages cfg -> cons_ok (ld_now x) stamps c -> bk_phase c <> KReturned ->
  exists c', consume_step cfg (ld_now x) (ld_log x) c = Some (None, c') /\ cons_left c' < cons_left c.
Proof.
  intros Hok Hi Hn Hc Hnr. pose proof Hc as [[Hs1 Hs2] _ Hph]. assert (messages cfg <= 2 ^ 47) as H47 by apply Hok.
  assert (exists ex c', consume_step cfg (ld_now x) (ld_log x) c = Some (ex, c') /\
    (ex = None -> cons_left c' < cons_left c)) as (ex & c' & Hs & Hleft).
  { unfold consume_step, cons_left. destruct (bk_phase c) as [| |p|] eqn:Eph; [| | |done].
    - eexists _, _. split; [done|]. cbn. lia.
    - destruct (Z.ltb_spec (Z.of_nat (bk_seen c)) (messages cfg)).
      + rewrite Hph. unfold Next. cbn [rd_offset]. rewrite (svc_read_ok _ _ _ _ (li_log _ _ Hi)) by (unfold is_u64; lia).
        destruct (lookup_lt_is_Some_2 stamps (bk_seen c)) as [s Hst]; [unfold zlen in Hn; lia|].
        rewrite (read_spec_hit 0 _ (bk_seen c) (stamped s)) by (by rewrite list_lookup_fmap, Hst).
        destruct (8 <=? zlen (stamped s)); eexists _, _; (split; [done|]); cbn; [lia|done].
      + eexists _, _. split; [done|]. cbn. lia.
    - eexists _, _. split; [done|]. cbn. lia. }
  destruct (consume_step_ok _ _ _ _ _ Hok Hi Hc Hs) as (-> & _). exists c'. by auto.
Qed.

Lemma forallb_false_lookup {A} (f : A -> bool) l : forallb f l = false -> exists i a, l !! i = Some a /\ f a = false.
Proof.
  induction l as [|a l IH]; [done|]. cbn. destruct (f a) eqn:Ha; [|by exists 0%nat, a].
  intros (i & b & Hi & Hb)%IH. by exists (S i), b.
Qed.

Lemma load_progress stamps x :
  bench_ok -> load_inv stamps x -> (forall r, ld_main x <> MReturned r) ->
  exists e y, load_step cfg e x = Some y /\ load_left y < load_left x.
Proof.
  intros Hok Hi Hnr. pose proof (li_exit _ _ Hi) as He. unfold load_step. rewrite He.
  destruct (forallb prod_returned (ld_prods x)) eqn:Hpr.
  2:{ apply forallb_false_lookup in Hpr as (p & st & Hp & Hf). exists (LProd p). rewrite Hp.
      destruct (produce_can stamps x st Hok Hi (Forall_lookup_1 _ _ _ _ (li_prods _ _ Hi) Hp)) as (m' & st' & -> & Hlt).
      { intros Hph. unfold prod_returned in Hf. by rewrite Hph in Hf. }
      eexists. split; [done|]. unfold load_left. cbn [ld_prods ld_cons ld_main ld_sampling].
      rewrite list_fmap_insert, (zsum_insert _ p (prod_left st)); [lia|]. by rewrite list_lookup_fmap, Hp. }
  pose proof (all_appended _ _ Hi Hpr) as Hn.
  destruct (forallb cons_returned (ld_cons x)) eqn:Hcr.
  2:{ apply forallb_false_lookup in Hcr as (k & c & Hk & Hf). exists (LCons k). rewrite Hk.
      destruct (consume_can stamps x c Hok Hi Hn (Forall_lookup_1 _ _ _ _ (li_cons _ _ Hi) Hk)) as (c' & -> & Hlt).
      { intros Hph. unfold cons_returned in Hf. by rewrite Hph in Hf. }
      eexists. split; [done|]. unfold load_left. cbn [ld_prods ld_cons ld_main ld_sampling].
      rewrite list_fmap_insert, (zsum_insert _ k (cons_left c)); [lia|]. by rewrite list_lookup_fmap, Hk. }
  pose proof (li_main _ _ Hi) as Hm. unfold load_left. destruct (ld_main x) as [| |m2|r] eqn:Hmain; [..|by destruct (Hnr r)].
  - exists (LMain (mkMem 0 0 0)). unfold main_step. rewrite Hmain, Hpr. eexists. split; [done|]. cbn [with_main ld_prods ld_cons ld_main ld_sampling main_left]. lia.
  - exists (LMain (mkMem 0 0 0)). unfold main_step. rewrite Hmain, Hcr. eexists. split; [done|]. cbn [with_main ld_prods ld_cons ld_main ld_sampling main_left]. lia.
  - destruct (ld_sampling x) eqn:Hsm.
    + exists LSampleStop. destruct Hm as (_ & _ & _ & _ & ->). cbn [andb]. eexists. split; [done|]. cbn [ld_prods ld_cons ld_main ld_sampling]. lia.
    + exists (LMain (mkMem 0 0 0)). unfold main_step. rewrite Hmain, Hsm.
      destruct (percentiles_total (flatten (bp_lat <$> ld_prods x))) as [pp ->].
      { rewrite (produce_lat_len _ _ Hi) by done. apply Hok. }
      destruct (percentiles_total (flatten (bk_lat <$> ld_cons x))) as [ep ->].
      { rewrite (e2e_lat_len _ _ Hi) by done. apply Hok. }
      eexists. split; [done|]. cbn [with_main ld_prods ld_cons ld_main ld_sampling main_left]. rewrite Hsm. lia.
Qed.

Lemma load_returns stamps x :
  bench_ok -> load_inv stamps x -> exists es y r, load_run cfg es x = Some y /\ ld_main y = MReturned r.
Proof.
  intros Hok. remember (Z.to_nat (load_left x)) as n eqn:Hn. revert stamps x Hn.
  induction n as [n IH] using lt_wf_ind. intros stamps x Hn Hi.
  destruct (ld_main x) as [| |m2|r] eqn:Hmain; [..|by exists [], x, r].
  all: destruct (load_progress stamps x Hok Hi) as (e & y & Hs & Hlt); [congruence|];
    destruct (load_step_inv _ _ _ _ Hok Hi Hs) as [new Hy]; pose proof (load_left_nonneg _ _ Hy);
    destruct (IH (Z.to_nat (load_left y)) ltac:(lia) _ y eq_refl Hy) as (es & z & r & Hr & Hz);
    exists (e :: es), z, r; cbn [load_run]; by rewrite Hs.
Qed.
End LoadInv.

(** ** The benchmark on the log itself *)

Lemma algorithm_ok c : c ∈ algorithms -> ChecksumOk c /\ Size_ c < 2 ^ 32.
Proof.
  intros Hc. unfold algorithms in Hc.
  repeat (apply elem_of_cons in Hc as [->|Hc]; [split; [apply _|done]|]). by apply elem_of_nil in Hc.
Qed.

(** The log [runLoad] opens, with the disk outcomes its appends will meet. *)
Lemma runLoad_open_rep algo oio t :
  algo ∈ algorithms -> (forall b, sg_ok (oio b)) ->
  exists m, runLoad_open None oio algo = Some (Ok m) /\ svc_rep (mkLive m (oio 0) sync_io_ok t) 0 [].
Proof.
  intros Halgo Hio. destruct (algorithm_ok algo Halgo) as [Hc Hsz].
  destruct (Open_fresh algo oio (load_cfg algo) (mkDir ∅ [])) as (m & Hopen & Hm & He & _ & Herr); try done.
  { intros n [f Hf]. cbn in Hf. by apply lookup_empty_Some in Hf. }
  exists m. split; [done|]. split; [exists algo, [[]]; split; [done|by split]|]. split_and!; try done. apply Hio.
Qed.

(** C33. Percentiles are computed exactly.  For every non-empty list of at most
    [2^47] durations, [percentiles] does not index out of range although its
    indices are computed in [float64], and its results have the ranks of the
    integer computation: with [n] samples, the median has at most [(n-1)/2]
    samples below it and more than that not above it, likewise for 95 and 99
    hundredths; [max] is the maximum, and the four are in order. *)
Theorem percentiles_correct xs (Hlen : 0 < zlen xs <= 2 ^ 47) :
  exists r, percentiles xs = Some r /\ pctls_of xs r.
Proof. by apply percentiles_run. Qed.

Lemma percentiles_correct_witness :
  exists r, percentiles [30; 10; 20] = Some r /\ pctls_of [30; 10; 20] r /\ r = mkPctls 20 20 20 30.
Proof.
  destruct (percentiles_correct [30; 10; 20]) as (r & Hr & Hp); [unfold zlen; cbn; lia|].
  exists r. split; [exact Hr|]. split; [exact Hp|]. vm_compute in Hr. by injection Hr as <-.
Defined.


(** The default flags are within these bounds, and so is any payload below
    eight bytes once the flags are parsed. *)
Lemma default_config_ok : bench_ok (parse_config default_config).
Proof. unfold bench_ok. cbn. unfold MaxRecordSize. lia. Qed.

(** Three messages, two producers, one consumer, checksummed with MD5. *)
Definition ex_bench : config := parse_config (mkBenchConfig 3 2 1 4 0 10 "report.html").

