(* ===== verification/Format.v ===== *)
(** * Format: the texts Go's [fmt] and [time] packages print for numbers

    [%d], [%.kf] of a [float64], [Duration.String] and a [time.Format] layout,
    as the report of the benchmark uses them, with the two facts the report
    needs: an integer reads back from its text, and no text contains a
    character that HTML gives a meaning. *)

From Stdlib Require Import ZArith Lia Strings.String Strings.Ascii Floats.SpecFloat.
From stdpp Require Import base list list_numbers numbers option strings.
From S2P Require Import Prelude Bytes Float Segment Manager MgrInv.

Local Open Scope Z_scope.

Definition text : Type := list ascii.
Definition T (s : string) : text := list_ascii_of_string s.

(** ** Integers *)

(** The number of decimal digits of [v]; [fuel] of them is enough when [v < 10^fuel]. *)
Fixpoint ndigits (fuel : nat) (v : Z) : nat :=
  match fuel with
  | O => 1
  | S fuel' => if v <? 10 then 1%nat else S (ndigits fuel' (v / 10))
  end.

(** A natural number in decimal, without leading zeros. *)
Definition fmt_nat (v : Z) : text := format_digits (ndigits (Z.to_nat (Z.log2 v)) v) v.

(** [%d] *)
Definition fmt_d (v : Z) : text := if v <? 0 then T "-" ++ fmt_nat (- v) else fmt_nat v.

(** ** [%.kf] *)

(** [m * 10^k * 2^e] rounded to an integer, ties to even. *)
Definition scaled (k : nat) (m : positive) (e : Z) : Z :=
  let n := Z.pos m * 10 ^ Z.of_nat k in
  if 0 <=? e then n * 2 ^ e
  else
    let d := 2 ^ (- e) in
    let q := n / d in
    match 2 * (n mod d) ?= d with
    | Lt => q
    | Gt => q + 1
    | Eq => if Z.even q then q else q + 1
    end.

(** [n / 10^k] with [k] decimals. *)
Definition fmt_fixed (k : nat) (n : Z) : text :=
  fmt_nat (n / 10 ^ Z.of_nat k) ++
  match k with O => [] | _ => T "." ++ format_digits k (n mod 10 ^ Z.of_nat k) end.

Definition fmt_f (k : nat) (f : float64) : text :=
  match f with
  | S754_nan => T "NaN"
  | S754_infinity s => if s then T "-Inf" else T "+Inf"
  | S754_zero s => (if s then T "-" else []) ++ fmt_fixed k 0
  | S754_finite s m e => (if s then T "-" else []) ++ fmt_fixed k (scaled k m e)
  end.

(** ** Durations and dates *)

Fixpoint trim_zeros (t : text) : text :=
  match t with
  | [] => []
  | c :: t' => match trim_zeros t' with
               | [] => if Ascii.eqb c (digit_ascii 0) then [] else [c]
               | t'' => c :: t''
               end
  end.

(** [fmtFrac]: the last [prec] digits of [v] as a fraction, zeros trimmed. *)
Definition fmtFrac (prec : nat) (v : Z) : text :=
  match trim_zeros (format_digits prec (v mod 10 ^ Z.of_nat prec)) with
  | [] => []
  | t => T "." ++ t
  end.

Definition Duration_String (d : Z) : text :=
  let u := Z.abs d in
  let body :=
    if u <? 1000000000 then
      if u =? 0 then T "0s"
      else if u <? 1000 then fmt_nat u ++ T "ns"
      else if u <? 1000000 then fmt_nat (u / 1000) ++ fmtFrac 3 u ++ T "µs"
      else fmt_nat (u / 1000000) ++ fmtFrac 6 u ++ T "ms"
    else
      let s := u / 1000000000 in
      let secs := fmt_nat (s mod 60) ++ fmtFrac 9 u ++ T "s" in
      if s / 60 =? 0 then secs
      else
        let mins := fmt_nat (s / 60 mod 60) ++ T "m" ++ secs in
        if s / 3600 =? 0 then mins else fmt_nat (s / 3600) ++ T "h" ++ mins
  in
  if d <? 0 then T "-" ++ body else body.

(** A local time, and its text in the layout [2006-01-02 15:04:05]. *)
Record civil := mkCivil { year : Z; month : Z; day : Z; hour : Z; minute : Z; second : Z }.

Definition fmt_civil (c : civil) : text :=
  format_digits 4 (year c) ++ T "-" ++ format_digits 2 (month c) ++ T "-" ++ format_digits 2 (day c) ++ T " " ++
  format_digits 2 (hour c) ++ T ":" ++ format_digits 2 (minute c) ++ T ":" ++ format_digits 2 (second c).

(** ** An integer reads back *)

Lemma ndigits_enough fuel v : 0 <= v < 2 ^ (Z.of_nat fuel + 1) -> v < 10 ^ Z.of_nat (ndigits fuel v).
Proof.
  revert v. induction fuel as [|fuel IH]; intros v Hv; cbn [ndigits]; [cbn in *; lia|].
  destruct (Z.ltb_spec v 10); [cbn; lia|]. rewrite Nat2Z.inj_succ, Z.pow_succ_r by lia.
  assert (v / 10 < 10 ^ Z.of_nat (ndigits fuel (v / 10))) as Hlt.
  { apply IH. rewrite Nat2Z.inj_succ, Z.add_succ_l, Z.pow_succ_r in Hv by lia.
    split; [apply Z.div_pos; lia|apply Z.div_lt_upper_bound; lia]. }
  pose proof (Z.div_mod v 10 ltac:(lia)). pose proof (Z.mod_pos_bound v 10 ltac:(lia)). lia.
Qed.

Lemma fmt_nat_digits v : 0 <= v -> v < 10 ^ Z.of_nat (ndigits (Z.to_nat (Z.log2 v)) v).
Proof.
  intros Hv. apply ndigits_enough. split; [done|]. rewrite Z2Nat.id by apply Z.log2_nonneg.
  destruct (Z.eq_dec v 0) as [->|]; [done|]. rewrite Z.add_1_r. apply Z.log2_spec. lia.
Qed.

Lemma fmt_nat_parse v : is_u64 v -> ParseUint (fmt_nat v) = Some v.
Proof.
  intros Hv. unfold ParseUint, fmt_nat. pose proof (fmt_nat_digits v ltac:(unfold is_u64 in Hv; lia)) as Hd.
  set (n := ndigits _ _) in *. destruct (format_digits n v) as [|a l] eqn:Hf.
  { apply (f_equal length) in Hf. rewrite length_format_digits in Hf. cbn in Hf. rewrite Hf in Hd.
    unfold n in Hf. destruct (Z.to_nat (Z.log2 v)); cbn in Hf; [done|]. by destruct (_ <? _) in Hf. }
  rewrite <- Hf, <- (app_nil_r (format_digits _ _)). unfold is_u64 in Hv.
  rewrite parse_format; [done|lia|lia|unfold MaxUint64; lia].
Qed.

Lemma fmt_d_inj v w : 0 <= v < 2 ^ 64 -> 0 <= w < 2 ^ 64 -> fmt_d v = fmt_d w -> v = w.
Proof.
  intros Hv Hw. unfold fmt_d. destruct (Z.ltb_spec v 0), (Z.ltb_spec w 0); try lia. intros Heq.
  pose proof (fmt_nat_parse v Hv) as Hp. rewrite Heq, fmt_nat_parse in Hp by done. by injection Hp.
Qed.

(** ** Nothing that HTML gives a meaning *)

Definition quote : ascii := ascii_of_nat 34.
Definition lt_sign : ascii := ascii_of_nat 60.
Definition gt_sign : ascii := ascii_of_nat 62.

(** A text that can stand between tags and in a quoted attribute. *)
Definition plain_char (c : ascii) : bool := negb (Ascii.eqb c lt_sign || Ascii.eqb c gt_sign || Ascii.eqb c quote).
Definition plain (t : text) : Prop := forallb plain_char t = true.

Create HintDb plain.

Lemma plain_nil : plain [].
Proof. done. Qed.

Lemma plain_app t u : plain t -> plain u -> plain (t ++ u).
Proof. unfold plain. intros Ht Hu. by rewrite forallb_app, Ht, Hu. Qed.

Lemma plain_if (b : bool) t u : plain t -> plain u -> plain (if b then t else u).
Proof. by destruct b. Qed.

Lemma plain_digits n v : plain (format_digits n v).
Proof.
  revert v. induction n as [|n IH]; intros v; [done|]. cbn [format_digits]. apply plain_app; [apply IH|].
  pose proof (Z.mod_pos_bound v 10 ltac:(lia)) as Hb. set (d := v mod 10) in *.
  assert (d = 0 \/ d = 1 \/ d = 2 \/ d = 3 \/ d = 4 \/ d = 5 \/ d = 6 \/ d = 7 \/ d = 8 \/ d = 9) as Hd by lia.
  by destruct Hd as [->|[->|[->|[->|[->|[->|[->|[->|[->| ->]]]]]]]]].
Qed.

Lemma plain_fmt_nat v : plain (fmt_nat v).
Proof. apply plain_digits. Qed.

(** Closes the goals of literals by evaluation. *)
Ltac plain_lit := match goal with |- plain (T ?s) => reflexivity end.

#[export] Hint Resolve plain_nil plain_app plain_if plain_digits plain_fmt_nat : plain.
#[export] Hint Extern 0 (plain (T _)) => plain_lit : plain.

Lemma plain_fmt_d v : plain (fmt_d v).
Proof. unfold fmt_d. auto with plain. Qed.

Lemma plain_fmt_fixed k n : plain (fmt_fixed k n).
Proof. unfold fmt_fixed. destruct k; auto with plain. Qed.
#[export] Hint Resolve plain_fmt_d plain_fmt_fixed : plain.

Lemma plain_fmt_f k f : plain (fmt_f k f).
Proof. destruct f; cbn [fmt_f]; auto with plain. Qed.

Lemma plain_trim t : plain t -> plain (trim_zeros t).
Proof.
  induction t as [|c t IH]; [done|]. unfold plain in *. cbn. intros [Hc Ht]%andb_true_iff. specialize (IH Ht).
  destruct (trim_zeros t) as [|c' t']; [case_if; cbn; [done|by rewrite Hc]|]. cbn in *. by rewrite Hc.
Qed.

Lemma plain_fmtFrac prec v : plain (fmtFrac prec v).
Proof.
  unfold fmtFrac. pose proof (plain_trim _ (plain_digits prec (v mod 10 ^ Z.of_nat prec))) as Ht.
  destruct (trim_zeros _); auto with plain.
Qed.
#[export] Hint Resolve plain_fmt_f plain_fmtFrac : plain.

Lemma plain_Duration d : plain (Duration_String d).
Proof. unfold Duration_String. cbv zeta. auto 20 with plain. Qed.

Lemma plain_civil c : plain (fmt_civil c).
Proof. unfold fmt_civil. auto 20 with plain. Qed.
#[export] Hint Resolve plain_Duration plain_civil : plain.
