(* ===== verification/ErrorText.v ===== *)
(** * ErrorText: what the errors say

    The [Error] methods of [OffsetOutOfRetentionError] ([segment/manager.go])
    and [CorruptionError] ([wal/wal_writer.go]).  The server sends [err.Error()]
    over the wire and the client library turns it into an untyped error, so for a
    consumer behind the network the text is all that is left of the offsets it
    has to resume from. *)

From Stdlib Require Import ZArith Lia Strings.String Strings.Ascii.
From stdpp Require Import base list list_numbers numbers option gmap strings.
From coqutil Require Import Byte.
From S2P Require Import Prelude Bytes Golib Wal WalFormat Crash Segment Manager MgrInv MgrProps Service Protocol Server Client Format.

Local Open Scope Z_scope.

(** ** The texts *)

(** The bytes of a text ([string] to [[]byte]). *)
Definition text_bytes (t : text) : list byte := byte_of_ascii <$> t.

(** [fmt.Sprintf("segment: offset %d out of retention; ...")]; the difference is
    taken in [uint64]. *)
Definition OffsetOutOfRetentionError_Error (Requested Earliest : Z) : text :=
  T "segment: offset " ++ fmt_d Requested ++ T " out of retention; earliest available is " ++ fmt_d Earliest ++
  T " (skipped " ++ fmt_d (u64 (Earliest - Requested)) ++ T " records)".

Definition hex_digit (d : Z) : ascii := ascii_of_nat (Z.to_nat (if d <? 10 then 48 + d else 87 + d)).

(** [%x] of a byte slice. *)
Definition fmt_x (bs : list byte) : text :=
  mjoin ((fun b => [hex_digit (byte.unsigned b / 16); hex_digit (byte.unsigned b mod 16)]) <$> bs).

Definition CorruptionError_Error (Offset : Z) (Expected Got : list byte) (Reason : string) : text :=
  T "wal: corruption at byte " ++ fmt_d Offset ++ T ": " ++ T Reason ++ T " (checksum: expected " ++ fmt_x Expected ++
  T ", got " ++ fmt_x Got ++ T ")".

(** [err.Error()] of the errors the log's own types define; [io.EOF] is "EOF". *)
Record error_texts (render : error -> list byte) : Prop := {
  et_eof : render EOF = text_bytes (T "EOF");
  et_retention : forall r e, render (OffsetOutOfRetentionError r e) = text_bytes (OffsetOutOfRetentionError_Error r e);
  et_corruption : forall o x g r, render (CorruptionError o x g r) = text_bytes (CorruptionError_Error o x g r)
}.

(** ** Reading the numbers back *)

Definition is_digit (a : ascii) : bool := (48 <=? nat_of_ascii a)%nat && (nat_of_ascii a <=? 57)%nat.

(** The text up to the first character that is not a digit. *)
Fixpoint digits_of (t : text) : text * text :=
  match t with
  | [] => ([], [])
  | a :: t' => if is_digit a then let '(d, r) := digits_of t' in (a :: d, r) else ([], t)
  end.

(** What a consumer can do with the text: the offset asked for and the
    earliest one available. *)
Definition parse_retention (t : text) : option (Z * Z) :=
  let '(d1, r1) := digits_of (drop (length (T "segment: offset ")) t) in
  let '(d2, _) := digits_of (drop (length (T " out of retention; earliest available is ")) r1) in
  match ParseUint d1, ParseUint d2 with
  | Some r, Some e => Some (r, e)
  | _, _ => None
  end.

Lemma digits_of_app d a t :
  forallb is_digit d = true -> is_digit a = false -> digits_of (d ++ a :: t) = (d, a :: t).
Proof.
  intros Hd Ha. induction d as [|x d IH]; cbn [app digits_of]; [by rewrite Ha|].
  cbn in Hd. apply andb_prop in Hd as [Hx Hd]. by rewrite Hx, IH.
Qed.

Lemma format_digits_digits n v : forallb is_digit (format_digits n v) = true.
Proof.
  revert v. induction n as [|n IH]; intros v; [done|]. cbn [format_digits]. rewrite forallb_app, IH. cbn [andb].
  pose proof (Z.mod_pos_bound v 10 ltac:(lia)) as Hb. set (d := v mod 10) in *.
  assert (d = 0 \/ d = 1 \/ d = 2 \/ d = 3 \/ d = 4 \/ d = 5 \/ d = 6 \/ d = 7 \/ d = 8 \/ d = 9) as Hd by lia.
  by destruct Hd as [->|[->|[->|[->|[->|[->|[->|[->|[->| ->]]]]]]]]].
Qed.

Lemma fmt_d_digits v : is_u64 v -> forallb is_digit (fmt_d v) = true /\ ParseUint (fmt_d v) = Some v.
Proof.
  intros Hv. unfold fmt_d. destruct (Z.ltb_spec v 0); [unfold is_u64 in Hv; lia|].
  split; [apply format_digits_digits|by apply fmt_nat_parse].
Qed.

Lemma parse_retention_text r e :
  is_u64 r -> is_u64 e -> parse_retention (OffsetOutOfRetentionError_Error r e) = Some (r, e).
Proof.
  intros Hr He. destruct (fmt_d_digits r Hr) as [Dr Pr]. destruct (fmt_d_digits e He) as [De Pe].
  unfold parse_retention, OffsetOutOfRetentionError_Error. rewrite drop_app_length.
  change (T " out of retention; earliest available is ") with (" "%char :: T "out of retention; earliest available is ") at 1.
  rewrite <- app_comm_cons, digits_of_app by done.
  rewrite app_comm_cons.
  change (" "%char :: T "out of retention; earliest available is ") with (T " out of retention; earliest available is ").
  rewrite drop_app_length. change (T " (skipped ") with (" "%char :: T "(skipped ").
  rewrite <- app_comm_cons, digits_of_app by done. by rewrite Pr, Pe.
Qed.

Lemma text_bytes_inj t u : text_bytes t = text_bytes u -> t = u.
Proof.
  revert u. induction t as [|a t IH]; intros [|b u] Heq; try done. injection Heq as Hab Htu.
  f_equal; [|by apply IH]. by rewrite <- (ascii_of_byte_of_ascii a), <- (ascii_of_byte_of_ascii b), Hab.
Qed.

Lemma ndigits_le fuel v : (ndigits fuel v <= S fuel)%nat.
Proof.
  revert v. induction fuel as [|fuel IH]; intros v; cbn [ndigits]; [done|].
  destruct (v <? 10); [lia|]. specialize (IH (v / 10)). lia.
Qed.

Lemma fmt_d_length v : is_u64 v -> (length (fmt_d v) <= 64)%nat.
Proof.
  intros Hv. unfold is_u64 in Hv. unfold fmt_d. destruct (Z.ltb_spec v 0); [lia|]. unfold fmt_nat.
  rewrite length_format_digits. pose proof (ndigits_le (Z.to_nat (Z.log2 v)) v).
  destruct (Z.eq_dec v 0) as [->|]; [cbn in *; lia|].
  assert (Z.log2 v < 64) by (apply Z.log2_lt_pow2; lia). lia.
Qed.

(** ** Over the wire *)

Lemma retention_text_fits r e : is_u64 r -> is_u64 e -> frame_ok (text_bytes (OffsetOutOfRetentionError_Error r e)).
Proof.
  intros Hr He. unfold frame_ok, zlen, text_bytes, OffsetOutOfRetentionError_Error, MaxPayloadSize.
  rewrite length_fmap, !length_app. pose proof (fmt_d_length r Hr). pose proof (fmt_d_length e He).
  pose proof (fmt_d_length (u64 (e - r)) (u64_range _)). cbn [T list_ascii_of_string length]. lia.
Qed.

(** A consumer behind the network learns where to resume.  When a client asks
    the server of any log service for an offset that retention has deleted,
    [Client.Read] fails with a text that names the offset asked for, the
    earliest one stored and the exact number of records skipped (the
    subtraction does not wrap), from which both offsets can be read back; and
    an offset not written yet gives the text of [io.EOF], which is a different
    one. *)
Theorem retention_error_over_wire {M} (HL : LogService M) (Hok : LogServiceOk M) render cfg (m : M) b log c o
  (Hm : svc_rep m b log) (Hc : in_sync c) (Ho : 0 <= o < b) (Hn : b + zlen log + 1 < 2 ^ 64)
  (Hr : error_texts render) :
  exists c' t, in_sync c' /\
    Client_Read (server_peer render cfg m) o c = (Err (Text "server error: " (text_bytes t)), c') /\
    t = T "segment: offset " ++ fmt_d o ++ T " out of retention; earliest available is " ++ fmt_d b ++
        T " (skipped " ++ fmt_d (b - o) ++ T " records)" /\
    parse_retention t = Some (o, b) /\ text_bytes t <> render EOF.
Proof.
  destruct (svc_range _ _ _ Hm) as [Hb0 Hb1]. pose proof (zlen_nonneg log).
  assert (is_u64 o /\ is_u64 b) as [Huo Hub] by (unfold is_u64; lia).
  assert (read_spec b log o = Err (OffsetOutOfRetentionError o b)) as Hrs
    by (unfold read_spec; by rewrite (proj2 (Z.ltb_lt _ _) (proj2 Ho))).
  destruct (Client_Read_run render cfg m b log c o) as (c' & Hc' & Hread); try done.
  { intros e. rewrite Hrs. intros [= <-]. rewrite (et_retention _ Hr). by apply retention_text_fits. }
  exists c', (OffsetOutOfRetentionError_Error o b). split; [done|]. split.
  { by rewrite Hread, Hrs, (et_retention _ Hr). }
  split; [unfold OffsetOutOfRetentionError_Error; by rewrite u64_small by (unfold is_u64; lia)|].
  split; [by apply parse_retention_text|]. rewrite (et_eof _ Hr). intros Heq%text_bytes_inj. discriminate Heq.
Qed.

(** Error texts for a concrete server: those of the types above, and nothing
    for the others. *)
Definition log_texts (e : error) : list byte :=
  match e with
  | EOF => text_bytes (T "EOF")
  | OffsetOutOfRetentionError r x => text_bytes (OffsetOutOfRetentionError_Error r x)
  | CorruptionError o x g r => text_bytes (CorruptionError_Error o x g r)
  | _ => []
  end.

(** Two of three records have been deleted. *)
Definition ex_old : LiveManager := svc_retain 9000 (ex_live ex_mgr3).

Lemma ex_old_ok : svc_rep ex_old 2 [ex_data].
Proof.
  destruct (svc_retain_ok 9000 (ex_live ex_mgr3) 0 [ex_data; ex_data; ex_data] ex_live3) as (n & Hn & Hr).
  pose proof (svc_earliest_ok _ _ _ Hr) as He. assert (n = 2%nat) as ->; [|exact Hr].
  assert (svc_EarliestOffset (svc_retain 9000 (ex_live ex_mgr3)) = 2) as E by (vm_compute; reflexivity). lia.
Qed.

Lemma retention_error_over_wire_witness :
  exists c' t, Client_Read (server_peer log_texts DefaultServerConfig ex_old) 1 ex_conn =
      (Err (Text "server error: " (text_bytes t)), c') /\
    t = T "segment: offset 1 out of retention; earliest available is 2 (skipped 1 records)".
Proof.
  destruct (retention_error_over_wire manager_service manager_service_ok log_texts DefaultServerConfig ex_old 2 [ex_data]
    ex_conn 1 ex_old_ok) as (c' & t & _ & Hrun & Ht & _).
  - split; [split; reflexivity|reflexivity].
  - lia.
  - vm_compute. reflexivity.
  - split; reflexivity.
  - exists c', t. split; [exact Hrun|]. rewrite Ht. vm_compute. reflexivity.
Defined.
