(* ===== verification/Report.v ===== *)
(** * Report: the benchmark's results and its HTML dashboard
    ([cmd/benchmark/main.go], [cmd/benchmark/report.go])

    [benchChecksum] and [bench_main] turn the measurements into one [bench_result]
    per checksum algorithm, [renderHTML] writes the page.  Double quotes of the
    source's HTML literals are written as single ones and put back by [html]. *)

From Stdlib Require Import ZArith Lia Strings.String Strings.Ascii Floats.SpecFloat.
From stdpp Require Import base list list_numbers numbers option strings.
From S2P Require Import Prelude Bytes Float Checksum Digest Segment Bench Format.

Local Open Scope Z_scope.

Definition html (s : string) : text :=
  (fun c => if Ascii.eqb c (ascii_of_nat 39) then quote else c) <$> T s.

(** ** Results *)

Record bench_result := mkBenchResult {
  r_name : text;
  r_checksumSize : Z;
  pureNsPerOp : float64;
  pureMBps : float64;
  pureAllocsPerOp : float64;
  pureBytesPerOp : float64;
  r_load : load_result
}.

(** The last checksum of [microIters] computations. *)
Fixpoint micro_sink (c : Checksum) (n : nat) (pl : list Init.Byte.byte) (sink : list Init.Byte.byte) : list Init.Byte.byte :=
  match n with
  | O => sink
  | S n' => micro_sink c n' pl (Compute_ c [zero_buf 4; pl])
  end.

(** What phase 1 measured: the time of the loop, the memory statistics around it. *)
Record micro := mkMicro { mc_dur : Z; mc_m1 : memstats; mc_m2 : memstats }.

Definition benchChecksum (c : Checksum) (cfg : config) (mc : micro)
    : list Init.Byte.byte * (float64 * float64 * float64 * float64) :=
  let pl := zero_buf (Z.to_nat (payload cfg)) in
  let sink := micro_sink c (Z.to_nat (microIters cfg)) pl [] in
  let iters := f64_of_Z (microIters cfg) in
  let nsPerOp := f64_div (f64_of_Z (mc_dur mc)) iters in
  let bytesHashed := f64_mul (f64_of_Z (4 + zlen pl)) iters in
  let mbps := f64_div (f64_div bytesHashed (f64_of_Z 1000000)) (Seconds (mc_dur mc)) in
  let allocsPerOp := f64_div (f64_of_Z (u64 (Mallocs (mc_m2 mc) - Mallocs (mc_m1 mc)))) iters in
  let bytesPerOp := f64_div (f64_of_Z (u64 (TotalAlloc (mc_m2 mc) - TotalAlloc (mc_m1 mc)))) iters in
  (sink, (nsPerOp, mbps, allocsPerOp, bytesPerOp)).

Definition bench_one (cfg : config) (algo : Checksum) (ms : micro * load_result) : bench_result :=
  let '(_, (ns, mbps, allocs, bytes)) := benchChecksum algo cfg ms.1 in
  mkBenchResult (T (Name_ algo)) (Size_ algo) ns mbps allocs bytes ms.2.

(** ** Numbers in the page *)

Definition Microsecond : Z := 1000.
Definition Millisecond : Z := 1000000.
Definition Second : Z := 1000000000.

Definition fmtDur (d : Z) : text :=
  if d <? Microsecond then fmt_d d ++ T " ns"
  else if d <? Millisecond then fmt_f 2 (f64_div (f64_of_Z d) (f64_of_Z 1000)) ++ T " µs"
  else if d <? Second then fmt_f 2 (f64_div (f64_of_Z d) (f64_of_Z 1000000)) ++ T " ms"
  else fmt_f 2 (Seconds d) ++ T " s".

Definition fmtBytes (n : Z) : text :=
  let f := f64_of_Z n in
  if f64_lt f (f64_of_Z 1024) then fmt_d n ++ T " B"
  else if f64_lt f (f64_of_Z (2 ^ 20)) then fmt_f 1 (f64_div f (f64_of_Z 1024)) ++ T " KB"
  else if f64_lt f (f64_of_Z (2 ^ 30)) then fmt_f 1 (f64_div f (f64_of_Z (2 ^ 20))) ++ T " MB"
  else fmt_f 2 (f64_div f (f64_of_Z (2 ^ 30))) ++ T " GB".

Definition barColor (i : Z) : text := T "hsl(" ++ fmt_d (Z.rem (i * 40 + 210) 360) ++ T " 65% 55%)".

(** [time.Duration(v)] and [uint64(v)] of a value that was an integer. *)
Definition f64_Duration (v : float64) : Z := default 0 (f64_to_int v).
Definition f64_uint64 (v : float64) : Z := default 0 (f64_to_uint v).

(** ** Parts of the page *)

Definition cfgItem (k v : text) : text :=
  html "<div class='cfgitem'><span class='k'>" ++ k ++ html "</span><span class='v'>" ++ v ++ html "</span></div>".

Definition chart_max (results : list bench_result) (val : bench_result -> float64) : float64 :=
  fold_left (fun max r => if f64_lt max (val r) then val r else max) results (f64_of_Z 0).

Definition chart_bar (max : float64) (i : Z) (r : bench_result) (v : float64) (fmtVal : float64 -> text) : text :=
  let pct := if f64_lt (f64_of_Z 0) max
             then f64_add (f64_of_Z 2) (f64_div (f64_mul (f64_of_Z 98) v) max) else f64_of_Z 2 in
  html "<div class='barrow'><span class='blabel'>" ++ r_name r ++
  html "</span><div class='btrack'><div class='bfill' style='width:" ++ fmt_f 1 pct ++ html "%;background:" ++ barColor i ++
  html "'></div></div><span class='bval'>" ++ fmtVal v ++ html "</span></div>".

Fixpoint chart_bars (max : float64) (i : Z) (results : list bench_result) (val : bench_result -> float64)
    (fmtVal : float64 -> text) : text :=
  match results with
  | [] => []
  | r :: results' => chart_bar max i r (val r) fmtVal ++ chart_bars max (i + 1) results' val fmtVal
  end.

Definition chart (title : text) (results : list bench_result) (val : bench_result -> float64) (fmtVal : float64 -> text) : text :=
  html "<div class='panel'><div class='ptitle'>" ++ title ++ html "</div>" ++
  chart_bars (chart_max results val) 0 results val fmtVal ++ html "</div>".

Definition row (label : text) (results : list bench_result) (cell : bench_result -> text) : text :=
  html "<tr><td>" ++ label ++ html "</td>" ++
  mjoin ((fun r => html "<td>" ++ cell r ++ html "</td>") <$> results) ++ html "</tr>".

Definition css : text := html "
:root{--bg:#f6f7f9;--card:#fff;--ink:#1a1d21;--muted:#5b6470;--line:#e5e8ec;--c0:#3b82f6;--c1:#8b5cf6;--accent:#0ea5e9;--note:#fff7ed;--noteline:#fdba74}
@media(prefers-color-scheme:dark){:root{--bg:#0f1216;--card:#171b21;--ink:#e8ebef;--muted:#9aa4b2;--line:#252b33;--c0:#60a5fa;--c1:#a78bfa;--note:#1f1a12;--noteline:#7c5b25}}
*{box-sizing:border-box}body{margin:0;background:var(--bg);color:var(--ink);font:15px/1.5 -apple-system,BlinkMacSystemFont,'Segoe UI',Roboto,Helvetica,Arial,sans-serif}
.wrap{max-width:960px;margin:0 auto;padding:32px 20px 64px}
h1{font-size:26px;margin:0 0 4px}.sub{color:var(--muted);margin:0 0 20px}
h2{font-size:18px;margin:32px 0 14px;display:flex;align-items:center;gap:10px}
.tag{font-size:11px;font-weight:600;color:var(--muted);background:var(--line);padding:3px 8px;border-radius:20px}
.cfg{display:flex;flex-wrap:wrap;gap:8px}
.cfgitem{background:var(--card);border:1px solid var(--line);border-radius:8px;padding:8px 12px;display:flex;flex-direction:column}
.cfgitem .k{font-size:11px;color:var(--muted);text-transform:uppercase;letter-spacing:.04em}
.cfgitem .v{font-weight:600}
.note{margin:18px 0 0;background:var(--note);border:1px solid var(--noteline);border-radius:10px;padding:12px 14px;font-size:14px}
.grid{display:grid;grid-template-columns:1fr 1fr;gap:14px}
@media(max-width:640px){.grid{grid-template-columns:1fr}}
.panel{background:var(--card);border:1px solid var(--line);border-radius:12px;padding:16px}
.ptitle{font-size:13px;font-weight:600;color:var(--muted);margin-bottom:12px}
.barrow{display:flex;align-items:center;gap:10px;margin:8px 0}
.blabel{width:64px;font-size:12px;font-weight:600}
.btrack{flex:1;background:var(--line);border-radius:6px;height:20px;overflow:hidden}
.bfill{height:100%;border-radius:6px}.bfill.c0{background:var(--c0)}.bfill.c1{background:var(--c1)}
.bval{width:96px;text-align:right;font-variant-numeric:tabular-nums;font-size:13px;font-weight:600}
.tablewrap{overflow-x:auto;border:1px solid var(--line);border-radius:12px}
table{border-collapse:collapse;width:100%;background:var(--card)}
th,td{padding:10px 14px;text-align:left;border-bottom:1px solid var(--line);font-variant-numeric:tabular-nums}
th{font-size:12px;text-transform:uppercase;letter-spacing:.04em;color:var(--muted)}
tbody tr:last-child td{border-bottom:none}
td:first-child{color:var(--muted)}
.foot{color:var(--muted);font-size:13px;margin-top:24px}
code{background:var(--line);padding:1px 5px;border-radius:4px;font-size:.9em}
".

(** ** [renderHTML] *)

(** Up to the configuration. *)
Definition page_head : text :=
  html "<!doctype html><html lang='en'><head><meta charset='utf-8'>" ++
  html "<meta name='viewport' content='width=device-width,initial-scale=1'>" ++
  html "<title>Checksum Benchmark Dashboard</title>" ++
  html "<style>" ++ css ++ html "</style></head><body>" ++
  html "<div class='wrap'>" ++
  html "<h1>Checksum Benchmark Dashboard</h1>" ++
  html "<p class='sub'>CRC32C vs SHA-256 in the WAL event-log engine — pure cost and end-to-end load.</p>".

Definition page_cfg (cfg : config) (now : civil) : text :=
  html "<div class='cfg'>" ++
  cfgItem (T "Messages") (fmt_d (messages cfg)) ++
  cfgItem (T "Producers") (fmt_d (producers cfg)) ++
  cfgItem (T "Consumers") (fmt_d (consumers cfg)) ++
  cfgItem (T "Payload") (fmt_d (payload cfg) ++ T " B") ++
  cfgItem (T "Consumer sleep") (Duration_String (consumerSleep cfg)) ++
  cfgItem (T "Micro iters") (fmt_d (microIters cfg)) ++
  cfgItem (T "Generated") (fmt_civil now) ++
  html "</div>" ++
  html "<div class='note'><strong>Read this first:</strong> the WAL fsyncs on every append, and an fsync (~ms) dwarfs a checksum (~ns–µs). So the <em>end-to-end produce</em> numbers are dominated by fsync, not the checksum — the algorithm difference lives in <em>Phase&nbsp;1 (pure checksum)</em> below. That contrast is the whole point.</div>".

Definition page_phase1 (results : list bench_result) : text :=
  html "<h2>Phase 1 — pure checksum cost <span class='tag'>isolated CPU + allocations</span></h2>" ++
  html "<div class='grid'>" ++
  chart (T "Time per checksum (ns/op) — lower is better") results pureNsPerOp (fun v => fmt_f 1 v ++ T " ns") ++
  chart (T "Throughput (MB/s) — higher is better") results pureMBps (fun v => fmt_f 0 v ++ T " MB/s") ++
  chart (T "Allocations per checksum — lower is better") results pureAllocsPerOp (fun v => fmt_f 2 v) ++
  chart (T "Bytes allocated per checksum — lower is better") results pureBytesPerOp (fun v => fmt_f 0 v ++ T " B") ++
  html "</div>".

Definition page_phase2 (results : list bench_result) : text :=
  html "<h2>Phase 2 — end-to-end load <span class='tag'>3 producers · 2 consumers · fsync-bound</span></h2>" ++
  html "<div class='grid'>" ++
  chart (T "Produce throughput (msg/s) — higher is better") results (fun r => produceThroughput (r_load r))
    (fun v => fmt_f 0 v ++ T "/s") ++
  chart (T "Produce latency p99 — lower is better") results (fun r => f64_of_Z (p99 (producePctl (r_load r))))
    (fun v => fmtDur (f64_Duration v)) ++
  chart (T "End-to-end latency p99 — lower is better") results (fun r => f64_of_Z (p99 (e2ePctl (r_load r))))
    (fun v => fmtDur (f64_Duration v)) ++
  chart (T "Peak heap during run — lower is better") results (fun r => f64_of_Z (peakHeapBytes (r_load r)))
    (fun v => fmtBytes (f64_uint64 v)) ++
  html "</div>".

(** The rows of the table: label and cell. *)
Definition table_rows : list (text * (bench_result -> text)) :=
  [(T "Checksum size", fun r => fmt_d (r_checksumSize r) ++ T " B");
   (T "Pure — ns/op", fun r => fmt_f 1 (pureNsPerOp r));
   (T "Pure — MB/s", fun r => fmt_f 0 (pureMBps r));
   (T "Pure — allocs/op", fun r => fmt_f 2 (pureAllocsPerOp r));
   (T "Pure — bytes/op", fun r => fmt_f 0 (pureBytesPerOp r));
   (T "Produce throughput (msg/s)", fun r => fmt_f 0 (produceThroughput (r_load r)));
   (T "Produce p50", fun r => fmtDur (p50 (producePctl (r_load r))));
   (T "Produce p95", fun r => fmtDur (p95 (producePctl (r_load r))));
   (T "Produce p99", fun r => fmtDur (p99 (producePctl (r_load r))));
   (T "E2E p50", fun r => fmtDur (p50 (e2ePctl (r_load r))));
   (T "E2E p95", fun r => fmtDur (p95 (e2ePctl (r_load r))));
   (T "E2E p99", fun r => fmtDur (p99 (e2ePctl (r_load r))));
   (T "Total run time", fun r => fmtDur (totalDur (r_load r)));
   (T "Total allocated", fun r => fmtBytes (totalAllocBytes (r_load r)));
   (T "Peak heap", fun r => fmtBytes (peakHeapBytes (r_load r)))].

Definition page_table (results : list bench_result) : text :=
  html "<h2>All numbers</h2>" ++
  html "<div class='tablewrap'><table><thead><tr><th>Metric</th>" ++
  mjoin ((fun r => html "<th>" ++ r_name r ++ html "</th>") <$> results) ++
  html "</tr></thead><tbody>" ++
  mjoin ((fun lc => row lc.1 results lc.2) <$> table_rows) ++
  html "</tbody></table></div>".

Definition page_foot : text :=
  html "<p class='foot'>Generated by <code>cmd/benchmark</code>. Re-run with more <code>-messages</code> for a heavier load; raise <code>-consumer-sleep</code> to simulate slow processing (watch e2e latency climb as backlog builds).</p>" ++
  html "</div></body></html>".

Definition renderHTML (cfg : config) (now : civil) (results : list bench_result) : text :=
  page_head ++ page_cfg cfg now ++ page_phase1 results ++ page_phase2 results ++ page_table results ++ page_foot.

(** [main]: every algorithm is measured, then the page is written to [cfg.out]. *)
Definition bench_main (cfg : config) (measure : Checksum -> micro * load_result) (now : civil) (werr : outcome)
    : result (string * text) :=
  let cfg := parse_config cfg in
  let page := renderHTML cfg now ((fun algo => bench_one cfg algo (measure algo)) <$> algorithms) in
  match werr with
  | Some e => Err (Wrap "write report" e)
  | None => Ok (out cfg, page)
  end.
