(* ===== verification/ReportProps.v ===== *)
(** * ReportProps: the dashboard is a well-formed page

    [scan] reads HTML: it keeps the stack of open elements and lists every
    element in the order it is opened; a closing tag must close the innermost
    one.  Whatever was measured, [renderHTML] produces exactly the elements of
    [page_outline], each properly closed. *)

From Stdlib Require Import ZArith Lia Strings.String Strings.Ascii.
From stdpp Require Import base list list_numbers numbers option strings.
From S2P Require Import Prelude Bytes Float Checksum Digest Segment Bench Format Report.

Local Open Scope Z_scope.

(** ** Reading HTML *)

Fixpoint text_eqb (t u : text) : bool :=
  match t, u with
  | [], [] => true
  | c :: t', d :: u' => Ascii.eqb c d && text_eqb t' u'
  | _, _ => false
  end.

(** Between tags; in the name of a tag; among the attributes of an element; in
    a quoted value; in a declaration. *)
Inductive html_mode :=
| InText
| InName (closing : bool) (name : text)
| InAttrs (name : text)
| InValue (name : text)
| InDecl.

(** Open elements, innermost first, and all elements seen, last first. *)
Record html_state := mkHtml { hs_stack : list text; hs_seen : list text; hs_mode : html_mode }.

(** Elements without content or closing tag. *)
Definition void_element (name : text) : bool := text_eqb name (T "meta").

Definition open_tag (name : text) (st : html_state) : option html_state :=
  Some (mkHtml (if void_element name then hs_stack st else name :: hs_stack st) (name :: hs_seen st) InText).

Definition close_tag (name : text) (st : html_state) : option html_state :=
  match hs_stack st with
  | top :: rest => if text_eqb top name then Some (mkHtml rest (hs_seen st) InText) else None
  | [] => None
  end.

Definition goto (m : html_mode) (st : html_state) : option html_state := Some (mkHtml (hs_stack st) (hs_seen st) m).

Definition scan_char (c : ascii) (st : html_state) : option html_state :=
  let char (n : nat) := Ascii.eqb c (ascii_of_nat n) in
  match hs_mode st with
  | InText => if Ascii.eqb c lt_sign then goto (InName false []) st else if Ascii.eqb c gt_sign then None else Some st
  | InName closing name =>
      if Ascii.eqb c gt_sign then (if closing then close_tag name st else open_tag name st)
      else if Ascii.eqb c lt_sign then None
      else if negb closing && char 47%nat && text_eqb name [] then goto (InName true []) st
      else if negb closing && char 33%nat && text_eqb name [] then goto InDecl st
      else if negb closing && char 32%nat then goto (InAttrs name) st
      else goto (InName closing (name ++ [c])) st
  | InAttrs name =>
      if Ascii.eqb c gt_sign then open_tag name st
      else if Ascii.eqb c lt_sign then None
      else if Ascii.eqb c quote then goto (InValue name) st
      else Some st
  | InValue name => if Ascii.eqb c quote then goto (InAttrs name) st else Some st
  | InDecl => if Ascii.eqb c gt_sign then goto InText st else Some st
  end.

Fixpoint scan (t : text) (st : html_state) : option html_state :=
  match t with
  | [] => Some st
  | c :: t' => match scan_char c st with Some st' => scan t' st' | None => None end
  end.

(** The elements of a page in document order, if all of them are closed. *)
Definition outline (t : text) : option (list text) :=
  match scan t (mkHtml [] [] InText) with
  | Some (mkHtml [] seen InText) => Some (rev seen)
  | _ => None
  end.

(** ** Reading in pieces *)

Lemma scan_app t u st : scan (t ++ u) st = match scan t st with Some st' => scan u st' | None => None end.
Proof. revert st. induction t as [|c t IH]; intros st; [done|]. cbn. destruct (scan_char c st); [apply IH|done]. Qed.

(** What is below the stack and before the page does not matter. *)
Definition below (s o : list text) (st : html_state) : html_state := mkHtml (hs_stack st ++ s) (hs_seen st ++ o) (hs_mode st).

Lemma scan_char_frame s o c st st' : scan_char c st = Some st' -> scan_char c (below s o st) = Some (below s o st').
Proof.
  destruct st as [stk seen m]. unfold scan_char, below, goto, open_tag, close_tag. cbn [hs_stack hs_seen hs_mode].
  destruct m as [|[] name|name|name|]; repeat case_match; intros; simplify_eq/=; try done; congruence.
Qed.

Lemma scan_frame s o t st st' : scan t st = Some st' -> scan t (below s o st) = Some (below s o st').
Proof.
  revert st. induction t as [|c t IH]; intros st Hs; [by injection Hs as <-|]. cbn in *.
  destruct (scan_char c st) as [st1|] eqn:Hc; [|done]. rewrite (scan_char_frame _ _ _ _ _ Hc). by apply IH.
Qed.

(** Reading [t] takes stack [a] and mode [m] to [b] and [m'], and meets the
    elements [o]. *)
Definition moves (t : text) (a : list text) (m : html_mode) (b : list text) (m' : html_mode) (o : list text) : Prop :=
  scan t (mkHtml a [] m) = Some (mkHtml b (rev o) m').

Lemma moves_app t u a m b m1 c m2 o1 o2 :
  moves t a m b m1 o1 -> moves u b m1 c m2 o2 -> moves (t ++ u) a m c m2 (o1 ++ o2).
Proof.
  unfold moves. intros H1 H2. rewrite scan_app, H1. apply (scan_frame [] (rev o1)) in H2. unfold below in H2. cbn in H2.
  by rewrite !app_nil_r, rev_app_distr in *.
Qed.

Lemma moves_frame r t a m b m' o : moves t a m b m' o -> moves t (a ++ r) m (b ++ r) m' o.
Proof. intros Hs. apply (scan_frame r []) in Hs. unfold below in Hs. cbn in Hs. by rewrite app_nil_r in Hs. Qed.

(** A closed fragment fits anywhere between tags. *)
Definition fragment (t : text) (o : list text) : Prop := moves t [] InText [] InText o.

Lemma moves_fragment t o a : fragment t o -> moves t a InText a InText o.
Proof. apply (moves_frame a). Qed.

Lemma moves_lit t a m b m' seen : scan t (mkHtml a [] m) = Some (mkHtml b seen m') -> moves t a m b m' (rev seen).
Proof. unfold moves. by rewrite rev_involutive. Qed.

Lemma plain_cons c t : plain (c :: t) ->
  plain t /\ Ascii.eqb c lt_sign = false /\ Ascii.eqb c gt_sign = false /\ Ascii.eqb c quote = false.
Proof.
  unfold plain. cbn. intros [Hc Ht]%andb_true_iff. split; [done|]. unfold plain_char in Hc.
  by destruct (Ascii.eqb c lt_sign), (Ascii.eqb c gt_sign), (Ascii.eqb c quote).
Qed.

Lemma moves_text t a : plain t -> moves t a InText a InText [].
Proof.
  induction t as [|c t IH]; [done|]. intros (Ht & H1 & H2 & _)%plain_cons. unfold moves, scan_char in *. cbn.
  rewrite H1, H2. by apply IH.
Qed.

Lemma moves_value t a n : plain t -> moves t a (InValue n) a (InValue n) [].
Proof.
  induction t as [|c t IH]; [done|]. intros (Ht & _ & _ & H3)%plain_cons. unfold moves, scan_char in *. cbn.
  rewrite H3. by apply IH.
Qed.

(** Literals by evaluation, values by their lemmas. *)
Ltac piece :=
  lazymatch goal with
  | |- moves (html _) _ _ _ _ _ =>
      eapply moves_lit;
      match goal with |- scan ?t ?s = _ => let r := eval vm_compute in (scan t s) in transitivity r; [vm_compute; reflexivity|reflexivity] end
  | |- moves _ _ (InValue _) _ _ _ => apply moves_value; solve [eauto 20 with plain]
  | |- moves _ _ _ _ _ _ => first [apply moves_text; solve [eauto 20 with plain] | apply moves_fragment; solve [eauto]]
  end.
Ltac pieces :=
  lazymatch goal with
  | |- moves (_ ++ _) _ _ _ _ _ => eapply moves_app; [piece|pieces]
  | _ => piece
  end.

Lemma moves_eq t a m b m' o o' : moves t a m b m' o -> o = o' -> moves t a m b m' o'.
Proof. by intros ? <-. Qed.

(** ** The texts put into the page *)

Lemma plain_fmtDur d : plain (fmtDur d).
Proof. unfold fmtDur. auto 20 with plain. Qed.

Lemma plain_fmtBytes n : plain (fmtBytes n).
Proof. unfold fmtBytes. cbv zeta. auto 20 with plain. Qed.

Lemma plain_barColor i : plain (barColor i).
Proof. unfold barColor. auto 20 with plain. Qed.
#[local] Hint Resolve plain_fmtDur plain_fmtBytes plain_barColor : plain.

Definition named (results : list bench_result) : Prop := Forall (fun r => plain (r_name r)) results.

(** ** Its elements *)

Definition el (names : list string) : list text := T <$> names.

Definition item_outline : list text := el ["div"; "span"; "span"]%string.
Definition bar_outline : list text := el ["div"; "span"; "div"; "div"; "span"]%string.
Definition chart_outline (n : nat) : list text := el ["div"; "div"]%string ++ mjoin (replicate n bar_outline).
Definition row_outline (n : nat) : list text := el ["tr"; "td"]%string ++ replicate n (T "td").
Definition repeat_outline (k : nat) (o : list text) : list text := mjoin (replicate k o).

Definition phase_outline (n : nat) : list text := el ["h2"; "span"; "div"]%string ++ repeat_outline 4 (chart_outline n).

(** The page for [n] algorithms. *)
Definition page_outline (n : nat) : list text :=
  el ["html"; "head"; "meta"; "meta"; "title"; "style"; "body"; "div"; "h1"; "p"]%string ++
  (el ["div"]%string ++ repeat_outline 7 item_outline ++ el ["div"; "strong"; "em"; "em"]%string) ++
  phase_outline n ++ phase_outline n ++
  (el ["h2"; "div"; "table"; "thead"; "tr"; "th"]%string ++ replicate n (T "th") ++ el ["tbody"]%string ++
   repeat_outline 15 (row_outline n)) ++
  el ["p"; "code"; "code"; "code"]%string.

Lemma cfgItem_fragment k v : plain k -> plain v -> fragment (cfgItem k v) item_outline.
Proof. intros Hk Hv. eapply moves_eq; [unfold cfgItem; pieces|reflexivity]. Qed.

Lemma chart_bar_fragment max i r v fmtVal :
  plain (r_name r) -> plain (fmtVal v) -> fragment (chart_bar max i r v fmtVal) bar_outline.
Proof. intros Hn Hv. eapply moves_eq; [unfold chart_bar; cbv zeta; pieces|reflexivity]. Qed.

Lemma fragment_app t u o1 o2 : fragment t o1 -> fragment u o2 -> fragment (t ++ u) (o1 ++ o2).
Proof. apply moves_app. Qed.

Lemma chart_bars_fragment max i results val fmtVal :
  named results -> (forall v, plain (fmtVal v)) ->
  fragment (chart_bars max i results val fmtVal) (mjoin (replicate (length results) bar_outline)).
Proof.
  intros Hn Hv. revert i. induction Hn as [|r results Hr _ IH]; intros i; [done|].
  cbn [chart_bars length]. change (mjoin (replicate (S ?n) ?o)) with (o ++ mjoin (replicate n o)).
  apply fragment_app; [by apply chart_bar_fragment|apply IH].
Qed.

Lemma chart_fragment title results val fmtVal :
  plain title -> named results -> (forall v, plain (fmtVal v)) ->
  fragment (chart title results val fmtVal) (chart_outline (length results)).
Proof.
  intros Ht Hn Hv. pose proof (fun i => chart_bars_fragment (chart_max results val) i _ val _ Hn Hv) as Hb.
  eapply moves_eq; [unfold chart; pieces|]. unfold chart_outline. cbn. by rewrite app_nil_r.
Qed.

Lemma cells_fragment (f : bench_result -> text) (o : list text) results :
  Forall (fun r => fragment (f r) o) results -> fragment (mjoin (f <$> results)) (mjoin (replicate (length results) o)).
Proof.
  induction 1 as [|r results Hr _ IH]; [done|]. change (mjoin (f <$> r :: results)) with (f r ++ mjoin (f <$> results)).
  cbn [length]. change (mjoin (replicate (S ?n) o)) with (o ++ mjoin (replicate n o)). by apply fragment_app.
Qed.

Lemma join_singletons {A} (x : A) n : mjoin (replicate n [x]) = replicate n x.
Proof. induction n as [|n IH]; [done|]. change (x :: mjoin (replicate n [x]) = x :: replicate n x). by rewrite IH. Qed.

Lemma row_fragment label results cell :
  plain label -> (forall r, plain (cell r)) -> fragment (row label results cell) (row_outline (length results)).
Proof.
  intros Hl Hc. assert (fragment (mjoin ((fun r => html "<td>" ++ cell r ++ html "</td>") <$> results))
    (replicate (length results) (T "td"))) as Hcells.
  { rewrite <- join_singletons. apply (cells_fragment (fun r => html "<td>" ++ cell r ++ html "</td>")).
    apply Forall_forall. intros r _. eapply moves_eq; [pieces|reflexivity]. }
  eapply moves_eq; [unfold row; pieces|]. unfold row_outline. cbn. by rewrite app_nil_r.
Qed.

(** ** The page *)

Definition page_head_stack : list text := el ["div"; "body"; "html"]%string.

Lemma style_text a : moves css a InText a InText [].
Proof. apply moves_fragment. apply (moves_lit css [] InText [] InText []). vm_compute. reflexivity. Qed.

Lemma page_head_moves :
  moves page_head [] InText page_head_stack InText
    (el ["html"; "head"; "meta"; "meta"; "title"; "style"; "body"; "div"; "h1"; "p"]%string).
Proof.
  eapply moves_eq; [unfold page_head|].
  - do 4 (eapply moves_app; [piece|]). eapply moves_app; [apply style_text|]. pieces.
  - reflexivity.
Qed.

Lemma page_cfg_fragment cfg now :
  fragment (page_cfg cfg now) (el ["div"]%string ++ repeat_outline 7 item_outline ++ el ["div"; "strong"; "em"; "em"]%string).
Proof.
  eapply moves_eq; [unfold page_cfg|].
  - eapply moves_app; [piece|]. do 7 (eapply moves_app; [apply moves_fragment, cfgItem_fragment; auto 20 with plain|]). pieces.
  - reflexivity.
Qed.

Ltac charts Hn :=
  lazymatch goal with
  | |- moves (chart _ _ _ _ ++ _) _ _ _ _ _ =>
      eapply moves_app;
        [apply moves_fragment, chart_fragment; [auto with plain|exact Hn|intros v; auto 20 with plain]|charts Hn]
  | |- moves (_ ++ _) _ _ _ _ _ => eapply moves_app; [piece|charts Hn]
  | _ => piece
  end.

Lemma page_phase1_fragment results : named results -> fragment (page_phase1 results) (phase_outline (length results)).
Proof.
  intros Hn. eapply moves_eq; [unfold page_phase1; charts Hn|]. unfold phase_outline, repeat_outline. cbn.
  by rewrite ?app_nil_r.
Qed.

Lemma page_phase2_fragment results : named results -> fragment (page_phase2 results) (phase_outline (length results)).
Proof.
  intros Hn. eapply moves_eq; [unfold page_phase2; charts Hn|]. unfold phase_outline, repeat_outline. cbn.
  by rewrite ?app_nil_r.
Qed.

Lemma table_rows_fragment results :
  fragment (mjoin ((fun lc => row lc.1 results lc.2) <$> table_rows)) (repeat_outline 15 (row_outline (length results))).
Proof.
  unfold table_rows, repeat_outline. cbn [fmap list_fmap fst snd].
  repeat (apply (fragment_app (row _ _ _)); [apply row_fragment; [auto with plain|intros r; auto 20 with plain]|]). done.
Qed.

Lemma page_table_fragment results :
  named results -> fragment (page_table results)
    (el ["h2"; "div"; "table"; "thead"; "tr"; "th"]%string ++ replicate (length results) (T "th") ++ el ["tbody"]%string ++
     repeat_outline 15 (row_outline (length results))).
Proof.
  intros Hn. assert (fragment (mjoin ((fun r => html "<th>" ++ r_name r ++ html "</th>") <$> results))
    (replicate (length results) (T "th"))) as Hth.
  { rewrite <- join_singletons. apply (cells_fragment (fun r => html "<th>" ++ r_name r ++ html "</th>")).
    eapply Forall_impl; [exact Hn|]. intros r Hr. cbn in Hr. eapply moves_eq; [pieces|reflexivity]. }
  pose proof (table_rows_fragment results) as Hrows.
  eapply moves_eq; [unfold page_table; pieces|]. cbn. by rewrite ?app_nil_r.
Qed.

Lemma page_foot_moves :
  moves page_foot page_head_stack InText [] InText (el ["p"; "code"; "code"; "code"]%string).
Proof. eapply moves_eq; [unfold page_foot; pieces|reflexivity]. Qed.

Lemma renderHTML_moves cfg now results :
  named results -> fragment (renderHTML cfg now results) (page_outline (length results)).
Proof.
  intros Hn. unfold renderHTML, page_outline. eapply moves_app; [apply page_head_moves|].
  eapply moves_app; [apply moves_fragment, page_cfg_fragment|].
  eapply moves_app; [by apply moves_fragment, page_phase1_fragment|].
  eapply moves_app; [by apply moves_fragment, page_phase2_fragment|].
  eapply moves_app; [by apply moves_fragment, page_table_fragment|]. apply page_foot_moves.
Qed.

Lemma fragment_outline t o : fragment t o -> outline t = Some o.
Proof. unfold fragment, moves, outline. intros ->. by rewrite rev_involutive. Qed.

Lemma algorithms_named cfg (measure : Checksum -> micro * load_result) :
  named ((fun algo => bench_one cfg algo (measure algo)) <$> algorithms).
Proof.
  apply Forall_fmap, Forall_forall. intros c Hc. cbn. unfold bench_one.
  destruct (benchChecksum c cfg (measure c).1) as [sink [[[ns mbps] allocs] bytes]]. cbn. unfold algorithms in Hc.
  repeat (apply elem_of_cons in Hc as [->|Hc]; [done|]). by apply elem_of_nil in Hc.
Qed.


(** The bars of a chart: two have the same colour exactly when their positions
    differ by a multiple of nine. *)
Theorem barColor_period i j : 0 <= i < 2 ^ 56 -> 0 <= j < 2 ^ 56 -> barColor i = barColor j <-> i mod 9 = j mod 9.
Proof.
  intros Hi Hj. unfold barColor. rewrite !Z.rem_mod_nonneg by lia.
  assert ((i * 40 + 210) mod 360 = (j * 40 + 210) mod 360 <-> i mod 9 = j mod 9) as <-
    by (Z.to_euclidean_division_equations; lia).
  split; [|by intros ->]. intros Heq%app_inv_head. apply app_inv_tail in Heq.
  pose proof (Z.mod_pos_bound (i * 40 + 210) 360). pose proof (Z.mod_pos_bound (j * 40 + 210) 360).
  apply fmt_d_inj in Heq; lia.
Qed.

(** A tenth algorithm would repeat the first one's colour. *)
Lemma barColor_repeats : barColor 9 = barColor 0 /\ NoDup (barColor <$> seqZ 0 9).
Proof. split; [reflexivity|]. apply (bool_decide_unpack _). vm_compute. exact I. Qed.

(** The bars of the latency charts are labelled with the exact percentile. *)
Lemma chart_duration_exact d : 0 <= d < 2 ^ 53 -> f64_Duration (f64_of_Z d) = d.
Proof.
  intros Hd. unfold f64_Duration, f64_to_int. rewrite f64_trunc_of_Z by done.
  destruct (Z.leb_spec (- 2 ^ 63) d), (Z.ltb_spec d (2 ^ 63)); (done || lia).
Qed.
