(* ===== verification/MgrLife.v ===== *)
(** * MgrLife: the retention goroutine and [Close]

    A running [Manager] ([internal/segment/manager.go]): callers that append,
    the goroutine [retentionLoop] that [Open] starts, and calls of [Close].
    They share the stop channel and the wait group.  [mgr_step] executes one
    action of one of them: an append, one branch of the [select], phase A of
    [RunRetention], the deletion of one victim, the deferred calls of the
    loop, and the two halves of [Close].  Reads change nothing here; how they
    hold back a deletion is in [MgrConc.v].  The model ends with the first
    [closeAll]: nothing but the loop and waiting callers of [Close] may act on
    a manager whose files are closed. *)

From Stdlib Require Import ZArith Lia.
From stdpp Require Import base list list_numbers numbers option gmap sorting.
From coqutil Require Import Byte.
From S2P Require Import Prelude Bytes Checksum Wal WalFormat WalInv Crash Segment Manager MgrInv MgrOpen MgrProps Service Programs.

Local Open Scope Z_scope.

(** ** State *)

(** The loop: never started; in [select]; a tick was taken; in phase B with
    the victims left; [return] was taken, the deferred calls are to run; over. *)
Inductive rpc :=
| ROff
| RSelect
| RPass
| RDelete (vs : list Segment)
| RReturn
| RDone.

(** A call of [Close]: stop closed, in [wg.Wait()]; returned. *)
Inductive kpc :=
| KWait
| KReturned (err : outcome).

Record mlife := mkML {
  ml_mgr : Manager;
  ml_loop : rpc;
  ml_stop : bool;
  ml_wg : Z;
  ml_closed : bool;
  ml_close : gmap nat kpc
}.

(** The end of [Open]: start the loop unless retention is disabled. *)
Definition open_life (m : Manager) : mlife :=
  if DisableRetention (m_cfg m) then mkML m ROff false 0 false ∅
  else mkML m RSelect false 1 false ∅.

(** ** Steps *)

Inductive ml_event :=
| MAppend (io : segment_io) (sio : sync_io) (data : list byte) (now : Z)
| MTick
| MStop
| MDetach (now1 now2 : Z)
| MDelete (io : delete_io)
| MDefer
| MClose (j : nat)
| MCloseAll (j : nat) (io : nat -> close_io).

Definition set_loop (r : rpc) (m : Manager) (s : mlife) : mlife :=
  mkML m r (ml_stop s) (ml_wg s) (ml_closed s) (ml_close s).

(** The [for] loop over the victims goes on, or the pass is over. *)
Definition next_victim (vs : list Segment) : rpc :=
  match vs with [] => RSelect | _ => RDelete vs end.

(** [retentionLoop]: its next action.  With the stop channel closed and a tick
    pending, [select] may take either. *)
Definition retentionLoop (e : ml_event) (s : mlife) : option mlife :=
  match e, ml_loop s with
  | MStop, RSelect => if ml_stop s then Some (set_loop RReturn (ml_mgr s) s) else None
  | MTick, RSelect => Some (set_loop RPass (ml_mgr s) s)
  | MDetach now1 now2, RPass =>
      let '(vs, m1) := retention_detach now1 now2 (ml_mgr s) in
      Some (set_loop (next_victim vs) m1 s)
  | MDelete io, RDelete (seg :: vs) =>
      let m := ml_mgr s in
      let '(x, d) := delete_segment io seg (Metrics m) (m_dir m) in
      Some (set_loop (next_victim vs) (set_metrics x (set_dir d m)) s)
  | MDefer, RReturn =>
      Some (mkML (ml_mgr s) RDone (ml_stop s) (ml_wg s - 1) (ml_closed s) (ml_close s))
  | _, _ => None
  end.

(** One action; [None] is an action that is not possible in [s]. *)
Definition mgr_step (e : ml_event) (s : mlife) : option mlife :=
  match e with
  | MAppend io sio data now =>
      if ml_closed s then None
      else match Mgr_Append io WOk sio data now (ml_mgr s) with
           | Some (_, m') => Some (set_loop (ml_loop s) m' s)
           | None => None
           end
  | MClose j =>
      match ml_close s !! j with
      | None => Some (mkML (ml_mgr s) (ml_loop s) true (ml_wg s) (ml_closed s) (<[j := KWait]> (ml_close s)))
      | Some _ => None
      end
  | MCloseAll j io =>
      match ml_close s !! j with
      | Some KWait =>
          if (ml_wg s =? 0) && negb (ml_closed s) then
            let '(err, d) := Mgr_Close io (ml_mgr s) in
            Some (mkML (set_dir d (ml_mgr s)) (ml_loop s) (ml_stop s) (ml_wg s) true
                    (<[j := KReturned err]> (ml_close s)))
          else None
      | _ => None
      end
  | _ => retentionLoop e s
  end.

Fixpoint mgr_run (es : list ml_event) (s : mlife) : option mlife :=
  match es with
  | [] => Some s
  | e :: es' => match mgr_step e s with Some s' => mgr_run es' s' | None => None end
  end.

(** The records appended by a run. *)
Definition appended (es : list ml_event) : list (list byte) :=
  omap (fun e => match e with MAppend _ _ data _ => Some data | _ => None end) es.

Definition is_loop (e : ml_event) : bool :=
  match e with MAppend _ _ _ _ | MClose _ | MCloseAll _ _ => false | _ => true end.

(** The disk works, payloads are within the limit. *)
Definition clean_event (e : ml_event) : Prop :=
  match e with
  | MAppend io sio data _ =>
      sg_ok io /\ sy_sync sio = None /\ (forall x, clean_write (sy_cp sio x)) /\ payload_ok data
  | MDelete io => io = clean_delete 0
  | _ => True
  end.

(** ** The invariant *)

Definition loop_running (r : rpc) : bool :=
  match r with ROff | RDone => false | _ => true end.

(** The segment's files carry names below those of the live log. *)
Definition victim_ok (m : Manager) (v : Segment) : Prop :=
  s_path v = SegmentFileName (baseOffset v) /\ 0 <= baseOffset v < EarliestOffset m.

(** The open manager holds [all], a log from offset [b], less what retention
    dropped, and can be closed and reopened. *)
Record open_inv (c : Checksum) (b : Z) (all : list (list byte)) (m : Manager) : Prop := {
  oi_logs : exists logs n, mgr_inv c m logs /\ (n <= length all)%nat /\ mjoin logs = drop n all /\
    EarliestOffset m = b + Z.of_nat n;
  oi_err : forall a, active m = Some a -> syncErr (s_writer a) = None;
  oi_tidy : no_leftovers m
}.

Record ml_inv (c : Checksum) (b : Z) (all : list (list byte)) (s : mlife) : Prop := {
  mv_open : ml_closed s = false -> open_inv c b all (ml_mgr s);
  mv_wg : ml_wg s = if loop_running (ml_loop s) then 1 else 0;
  mv_closed : ml_closed s = true -> loop_running (ml_loop s) = false;
  mv_stop : forall j k, ml_close s !! j = Some k -> ml_stop s = true;
  mv_victims : match ml_loop s with
               | RDelete vs => vs <> [] /\ Forall (victim_ok (ml_mgr s)) vs
               | _ => True
               end
}.

Section MLife.
Context (c : Checksum) {Hc : ChecksumOk c}.

Lemma open_inv_next b all m : open_inv c b all m -> Mgr_NextOffset m = b + zlen all.
Proof.
  intros [(logs & n & Hm & Hn & Hj & He) _ _].
  destruct (mgr_split c _ _ Hm) as (_ & _ & _ & _ & _ & _ & _ & _ & _ & ->).
  rewrite He, Hj. unfold zlen. rewrite length_drop. lia.
Qed.

Lemma open_inv_append b all m io sio data now :
  open_inv c b all m -> clean_event (MAppend io sio data now) -> b + zlen (all ++ [data]) < 2 ^ 64 ->
  exists r m', Mgr_Append io WOk sio data now m = Some (r, m') /\ open_inv c b (all ++ [data]) m' /\
    EarliestOffset m' = EarliestOffset m.
Proof.
  intros Ho (Hio & Hsy & Hcp & Hp) Hb. pose proof (open_inv_next _ _ _ Ho) as Hnx.
  destruct Ho as [(logs & n & Hm & Hn & Hj & He) Herr Hno].
  rewrite zlen_app in Hb. change (zlen [data]) with 1 in Hb.
  destruct (Append_run c (quiet:=true) io sio data now m logs)
    as (m' & logs' & a & Hrun & Hm' & Hj' & He' & _ & Ha & Hea & _); try done; [lia|].
  eexists _, m'. split; [exact Hrun|]. split; [|done]. split.
  - exists logs', n. split_and!; [done|rewrite length_app; lia| |congruence].
    by rewrite Hj', Hj, drop_app_le.
  - intros a'. rewrite Ha. by intros [= <-].
  - destruct (Mgr_Append_same _ _ _ _ _ _ _ _ Hrun) as [Hd _]. intros x Hx. by apply Hno, Hd.
Qed.

Lemma open_inv_detach b all m now1 now2 :
  open_inv c b all m ->
  let '(vs, m1) := retention_detach now1 now2 m in
  open_inv c b all m1 /\ Forall (victim_ok m1) vs.
Proof.
  intros [(logs & n & Hm & Hn & Hj & He) Herr Hno].
  destruct (detach_inv c now1 now2 m logs Hm) as (Hm1 & He1 & _).
  pose proof (retention_lt c now2 m logs Hm) as Hlt. set (k := retention_count now2 m) in *.
  assert (active (retention_detach now1 now2 m).2 = active m) as Hact.
  { destruct (mgr_split c _ _ Hm) as (ss & a & _ & _ & Hss & _). unfold active. cbn.
    fold (retention_count now2 m). fold k. rewrite Hss in Hlt |- *. rewrite length_app in Hlt. cbn in Hlt.
    by rewrite drop_app_le, !last_snoc by lia. }
  assert (mjoin logs = mjoin (take k logs) ++ mjoin (drop k logs)) as Hjk by by rewrite <- join_app, take_drop.
  assert ((retention_detach now1 now2 m).1 = take k (segments m)) as Hvs by done.
  assert (no_leftovers (retention_detach now1 now2 m).2) as Hno1 by exact Hno.
  destruct (retention_detach now1 now2 m) as [vs m1]. cbn [fst snd] in *. subst vs. split; [split|].
  - exists (drop k logs), (n + length (mjoin (take k logs)))%nat. split_and!; try done.
    + apply (f_equal length) in Hj. rewrite length_drop, Hjk, length_app in Hj. lia.
    + rewrite <- drop_drop, <- Hj, Hjk. by rewrite drop_app_length.
    + rewrite He1, He. unfold zlen. lia.
  - by rewrite Hact.
  - done.
  - apply Forall_forall. intros v (i & Hi)%list_elem_of_lookup. pose proof (lookup_lt_Some _ _ _ Hi) as Hik.
    rewrite length_take in Hik. rewrite lookup_take_lt in Hi by lia.
    destruct (chain_base_lt c _ _ _ _ _ k (mi_chain _ _ _ Hm) Hi ltac:(lia) Hlt) as (? & ? & ?).
    split; [done|]. by rewrite He1.
Qed.

Lemma open_inv_delete b all m v :
  open_inv c b all m -> victim_ok m v ->
  let '(x, d) := delete_segment (clean_delete 0) v (Metrics m) (m_dir m) in
  open_inv c b all (set_metrics x (set_dir d m)).
Proof.
  intros [(logs & n & Hm & Hn & Hj & He) Herr Hno] [Hp Hb].
  pose proof (delete_inv c (clean_delete 0) v m logs Hm Hp Hb) as Hm'.
  pose proof (delete_segments_dir 0 [v] (Metrics m) (m_dir m)) as Hd. cbn [delete_segments] in Hd.
  destruct (delete_segment _ _ _ _) as [x d]. cbn in Hd. subst d. split; [|done|done].
  by exists logs, n.
Qed.

Lemma next_victim_running vs : loop_running (next_victim vs) = true.
Proof. by destruct vs. Qed.

Lemma next_victim_ok m vs :
  Forall (victim_ok m) vs ->
  match next_victim vs with RDelete vs' => vs' <> [] /\ Forall (victim_ok m) vs' | _ => True end.
Proof. by destruct vs. Qed.

(** A running loop belongs to an open manager. *)
Lemma running_open b all s : ml_inv c b all s -> loop_running (ml_loop s) = true -> ml_closed s = false.
Proof.
  intros Hi Hr. destruct (ml_closed s) eqn:Hcl; [|done]. by rewrite (mv_closed _ _ _ _ Hi Hcl) in Hr.
Qed.

Lemma retention_step_inv b all e s s' :
  ml_inv c b all s -> clean_event e -> retentionLoop e s = Some s' -> ml_inv c b all s'.
Proof.
  intros Hi He Hs. pose proof (running_open _ _ _ Hi) as Hop. pose proof Hi as [Ho Hw Hcl Hst Hv].
  destruct e as [| | |now1 now2|io| | |]; cbn [retentionLoop] in Hs;
    destruct (ml_loop s) as [| | |vs| |] eqn:Hl; try done.
  - injection Hs as <-. by split.
  - destruct (ml_stop s) eqn:Hq; [|done]. injection Hs as <-. by split.
  - pose proof (open_inv_detach b all (ml_mgr s) now1 now2 (Ho (Hop eq_refl))) as Hd.
    destruct (retention_detach _ _ _) as [vs m1]. injection Hs as <-. destruct Hd as [Hd Hvs].
    split; cbn [set_loop ml_mgr ml_loop ml_wg ml_closed]; rewrite ?next_victim_running; try done.
    by apply next_victim_ok.
  - destruct vs as [|v vs]; [done|]. destruct Hv as [_ [Hv1 Hv2]%Forall_cons]. cbn in He. subst io.
    pose proof (open_inv_delete b all (ml_mgr s) v (Ho (Hop eq_refl)) Hv1) as Hd.
    destruct (delete_segment _ _ _ _) as [x d]. injection Hs as <-.
    split; cbn [set_loop ml_mgr ml_loop ml_wg ml_closed]; rewrite ?next_victim_running; try done.
    by apply next_victim_ok.
  - injection Hs as <-. split; try done. cbn. by rewrite Hw.
Qed.

Lemma mgr_step_inv b all e s s' :
  ml_inv c b all s -> clean_event e -> b + zlen (all ++ appended [e]) < 2 ^ 64 ->
  mgr_step e s = Some s' -> ml_inv c b (all ++ appended [e]) s'.
Proof.
  intros Hi He Hb Hs. destruct e as [io sio data now| | | | | |j|j io]; cbn [appended omap list_omap] in Hb |- *;
    rewrite ?app_nil_r; try (by eapply retention_step_inv); cbn [mgr_step] in Hs; pose proof Hi as [Ho Hw Hcl Hst Hv].
  - destruct (ml_closed s) eqn:Hop; [done|].
    destruct (open_inv_append b all (ml_mgr s) io sio data now (Ho eq_refl) He Hb)
      as (r & m' & Hrun & Ho' & Hee). rewrite Hrun in Hs. injection Hs as <-.
    split; cbn [set_loop ml_mgr ml_loop ml_wg ml_closed]; try done; [by rewrite Hop|].
    destruct (ml_loop s); try done. unfold victim_ok. by rewrite Hee.
  - destruct (ml_close s !! j); [done|]. injection Hs as <-. by split.
  - destruct (ml_close s !! j) as [[]|] eqn:Hj; try done. specialize (Hst _ _ Hj). destruct (Z.eqb_spec (ml_wg s) 0) as [H0|]; [|done].
    rewrite H0 in Hw. destruct (ml_closed s); [done|]. cbn in Hs.
    destruct (Mgr_Close io (ml_mgr s)) as [err d]. injection Hs as <-.
    destruct (ml_loop s) eqn:Hl; try done; split; cbn; by rewrite ?Hl.
Qed.

Lemma appended_cons e es : appended (e :: es) = appended [e] ++ appended es.
Proof. unfold appended. cbn. by destruct e. Qed.

Lemma mgr_run_inv b all es s s' :
  ml_inv c b all s -> Forall clean_event es -> b + zlen (all ++ appended es) < 2 ^ 64 ->
  mgr_run es s = Some s' -> ml_inv c b (all ++ appended es) s'.
Proof.
  revert all s. induction es as [|e es IH]; intros all s Hi Hes Hb Hrun; cbn [mgr_run] in Hrun.
  { injection Hrun as <-. cbn. by rewrite app_nil_r. }
  apply Forall_cons in Hes as [He Hes]. rewrite appended_cons, app_assoc in Hb |- *.
  destruct (mgr_step e s) as [s1|] eqn:Hs; [|done]. eapply IH, Hrun; try done.
  eapply mgr_step_inv; try done. rewrite zlen_app in Hb. pose proof (zlen_nonneg (appended es)). lia.
Qed.

Lemma open_life_inv b log m : open_inv c b log m -> ml_inv c b log (open_life m).
Proof. intros Hm. unfold open_life. by destruct (DisableRetention _); split. Qed.
End MLife.

(** ** Stopping *)

(** When [select] takes the stop channel, the loop returns and counts itself out. *)
Lemma finish_select s :
  ml_loop s = RSelect -> ml_stop s = true -> ml_wg s = 1 ->
  mgr_run [MStop; MDefer] s =
    Some (mkML (ml_mgr s) RDone (ml_stop s) 0 (ml_closed s) (ml_close s)).
Proof. intros Hl Hs Hw. cbn. rewrite Hl, Hs. cbn. by rewrite Hs, Hw. Qed.

(** The pass in progress ends after its last victim. *)
Lemma finish_delete vs es s :
  ml_loop s = next_victim vs -> exists m,
  mgr_run ((const (MDelete (clean_delete 0)) <$> vs) ++ es) s = mgr_run es (set_loop RSelect m s).
Proof.
  revert s. induction vs as [|v vs IH]; intros s Hl.
  { exists (ml_mgr s). cbn in Hl |- *. destruct s. cbn in Hl. by subst. }
  cbn [fmap list_fmap app mgr_run mgr_step retentionLoop next_victim const] in Hl |- *. rewrite Hl.
  destruct (delete_segment _ v _ _) as [x d].
  destruct (IH (set_loop (next_victim vs) (set_metrics x (set_dir d (ml_mgr s))) s) eq_refl) as [m Hm].
  exists m. exact Hm.
Qed.

Section Stop.
Context (c : Checksum) {Hc : ChecksumOk c}.

Definition loop_events (es : list ml_event) : Prop := Forall (fun e => is_loop e = true) es.

Lemma delete_events (vs : list Segment) es :
  loop_events es -> loop_events ((const (MDelete (clean_delete 0)) <$> vs) ++ es).
Proof. intros Hes. apply Forall_app. split; [|done]. by induction vs; constructor. Qed.

(** Once stop is closed the loop can return by itself, whatever it was doing. *)
Lemma loop_finishes b all s :
  ml_inv c b all s -> ml_stop s = true ->
  exists es s', loop_events es /\ mgr_run es s = Some s' /\ ml_wg s' = 0 /\
    ml_closed s' = ml_closed s /\ ml_close s' = ml_close s.
Proof.
  intros [_ Hw _ _ Hv] Hq. destruct (ml_loop s) as [| | |vs| |] eqn:Hl; cbn in Hw.
  - exists [], s. by repeat constructor.
  - exists [MStop; MDefer]. eexists. rewrite finish_select by done. by repeat constructor.
  - destruct (retention_detach 0 0 (ml_mgr s)) as [vs m1] eqn:Hd.
    exists (MDetach 0 0 :: (const (MDelete (clean_delete 0)) <$> vs) ++ [MStop; MDefer]).
    cbn [mgr_run mgr_step retentionLoop]. rewrite Hl, Hd.
    destruct (finish_delete vs [MStop; MDefer] (set_loop (next_victim vs) m1 s) eq_refl) as [m ->].
    rewrite finish_select by done. eexists. split; [|done].
    constructor; [done|]. apply delete_events. by repeat constructor.
  - destruct vs as [|v vs]; [by destruct Hv|].
    exists ((const (MDelete (clean_delete 0)) <$> v :: vs) ++ [MStop; MDefer]).
    destruct (finish_delete (v :: vs) [MStop; MDefer] s Hl) as [m ->].
    rewrite finish_select by done. eexists. split; [|done]. apply delete_events. by repeat constructor.
  - exists [MDefer]. cbn. rewrite Hl. eexists. split; [by repeat constructor|].
    split; [done|]. cbn. by rewrite Hw.
  - exists [], s. by repeat constructor.
Qed.

(** After [closeAll] nothing touches the manager any more. *)
Lemma closed_frozen b all es s s' :
  ml_inv c b all s -> ml_closed s = true -> mgr_run es s = Some s' -> ml_mgr s' = ml_mgr s.
Proof.
  intros Hi. pose proof (mv_closed _ _ _ _ Hi) as Hcl. clear Hi. revert s Hcl.
  induction es as [|e es IH]; intros s Hcl Hc' Hrun; cbn [mgr_run] in Hrun; [by injection Hrun as <-|].
  specialize (Hcl Hc'). destruct (mgr_step e s) as [s1|] eqn:Hs; [|done].
  enough (ml_mgr s1 = ml_mgr s /\ ml_closed s1 = true /\ loop_running (ml_loop s1) = false) as (<- & ? & ?)
    by by apply IH.
  destruct e as [| | | | | |j|j]; cbn [mgr_step retentionLoop] in Hs;
    try (destruct (ml_loop s); discriminate); [by rewrite Hc' in Hs| |].
  - destruct (ml_close s !! j); [done|]. by injection Hs as <-.
  - destruct (ml_close s !! j) as [[]|]; try done. by rewrite Hc', andb_false_r in Hs.
Qed.
End Stop.

(** ** Results *)


(** Retention on, records of one byte, two to a segment. *)
Definition ex_ret : Manager :=
  mkManager (mkConfig 20 1000 0 0 false None) (m_csum ex_mgr) (segments ex_mgr) (Metrics ex_mgr) (m_dir ex_mgr).

(** Three appends; a pass starts, [Close] is called during it, the expired
    segment is deleted and the loop returns. *)
Definition ex_ml_events : list ml_event :=
  [MAppend ex_sgio sync_io_ok ex_data 5; MAppend ex_sgio sync_io_ok ex_data 5;
   MAppend ex_sgio sync_io_ok ex_data 5; MTick; MClose 0; MDetach 9000 9000;
   MDelete (clean_delete 0); MStop; MDefer].

Definition ex_mlife : mlife := default (open_life ex_ret) (mgr_run ex_ml_events (open_life ex_ret)).

Lemma ex_mlife_run :
  mgr_run ex_ml_events (open_life ex_ret) = Some ex_mlife /\ ml_close ex_mlife !! 0%nat = Some KWait /\
  ml_closed ex_mlife = false /\ ml_wg ex_mlife = 0.
Proof.
  split; [|vm_compute; done].
  assert (bool_decide (is_Some (mgr_run ex_ml_events (open_life ex_ret))) = true) as H by (vm_compute; reflexivity).
  apply bool_decide_eq_true_1 in H as [s Hs]. unfold ex_mlife. by rewrite Hs.
Qed.

Lemma ex_ret_ok : open_inv NewCRC32C 0 [] ex_ret.
Proof.
  destruct ex_mgr_ok as (Hm & He & Herr). split; [|exact Herr|].
  - exists [[]], 0%nat. split_and!; [|done..]. split; try apply Hm.
  - intros n Hn. exfalso. vm_compute in Hn. destruct Hn as [f Hf]. discriminate Hf.
Qed.

