(* ===== verification/MgrClosed.v ===== *)
(** * MgrClosed: calls that reach a manager after [Close]

    [Manager.Close] ([internal/segment/manager.go]) closes the files of every
    segment but leaves the segments in place, and no operation asks whether the
    manager is closed.  This file follows the calls that come too late, such as
    those of the handler of [ServerLife.Close_late_handler]: reads, appends, and
    the second phase of an append that had reserved its record before. *)

From Stdlib Require Import ZArith Lia Strings.String.
From stdpp Require Import base list list_numbers numbers option gmap.
From coqutil Require Import Byte.
From S2P Require Import Prelude Bytes Golib Index Checksum Wal WalFormat WalInv Crash Segment Manager MgrInv MgrOpen MgrProps.

Local Open Scope Z_scope.

(** [os.ErrClosed] *)
Definition ErrFileClosed : error := Msg "file already closed".

(** The segments as [closeAll] leaves them in memory. *)
Fixpoint close_segments (io : nat -> close_io) (i : nat) (ss : list Segment) : list Segment :=
  match ss with
  | [] => []
  | seg :: ss' => (Seg_Close (io i) seg).2 :: close_segments io (S i) ss'
  end.

(** The manager after [Close]; as in the other states, the directory is kept
    without the files of its segments. *)
Definition closed_manager (io : nat -> close_io) (m : Manager) : Manager :=
  set_segments (close_segments io 0 (segments m)) m.

(** Every read of a closed file fails. *)
Definition closed_read : Z -> outcome := fun _ => Some ErrFileClosed.

(** So does every write, but a full segment makes [Append] open a new one. *)
Definition closed_write (m : Manager) : write_outcome :=
  match active m with
  | Some a => if MaxSegmentBytes (m_cfg m) <=? Seg_Size a then WOk else WFail 0 ErrFileClosed
  | None => WOk
  end.

Definition Append_closed (io : segment_io) (sio : sync_io) (data : list byte) (now : Z) (m : Manager)
    : option (result Z * Manager) :=
  Mgr_Append io (closed_write m) sio data now m.

(** ** The closed manager still describes the log *)

Section Closed.
Context (c : Checksum) {Hc : ChecksumOk c}.

Lemma Seg_Close_run io s l :
  seg_inv c s l -> close_ok io ->
  seg_inv c (Seg_Close io s).2 l /\ baseOffset (Seg_Close io s).2 = baseOffset s /\
  (syncErr (s_writer s) = None -> syncErr (s_writer (Seg_Close io s).2) = None /\
     writeSeq (s_writer s) <= syncedSeq (s_writer (Seg_Close io s).2)).
Proof.
  intros Hs (Hr & Hsy & Hcp & Hcw & Hcs). destruct (sv_wal _ _ _ Hs) as (b & k & Hw).
  destruct (Wal_Close_inv c b k _ l (cl_sync io) Hw (sv_idle _ _ _ Hs eq_refl) Hsy Hcp) as (w' & k' & Hrun & Hw').
  unfold Seg_Close. rewrite Hcw, Hrun. cbn [snd set_writer baseOffset s_writer]. split; [|split; [done|]].
  - assert (syncing w' = syncing (s_writer s)) as Hsg.
    { unfold Wal_Close in Hrun. rewrite Hsy in Hrun. by destruct (_ && _); injection Hrun as <-. }
    split; cbn; [by eexists _, _| |apply Hs..]. rewrite Hsg. apply Hs.
  - intros He. unfold Wal_Close in Hrun. rewrite He, Hsy, andb_true_r in Hrun.
    destruct (Z.ltb_spec (syncedSeq (s_writer s)) (writeSeq (s_writer s))); injection Hrun as <-; cbn; by split_and!.
Qed.

Lemma close_segments_chain io i b ss logs :
  (forall x, close_ok (io x)) -> chain c b ss logs -> chain c b (close_segments io i ss) logs.
Proof.
  intros Hio. revert i b logs. induction ss as [|s ss IH]; intros i b [|l logs] Hch; try done.
  destruct Hch as (Hb & Hs & Hne & Hch). destruct (Seg_Close_run (io i) s l Hs (Hio i)) as (Hs' & Hb' & _).
  cbn. split_and!; [congruence|done| |by apply IH]. intros Hn. apply Hne. by destruct ss.
Qed.

Lemma length_close_segments io i ss : length (close_segments io i ss) = length ss.
Proof. revert i. induction ss as [|s ss IH]; intros i; [done|]. cbn [close_segments length]. by rewrite IH. Qed.

Lemma close_segments_lookup io i ss k s :
  ss !! k = Some s -> close_segments io i ss !! k = Some (Seg_Close (io (i + k)%nat) s).2.
Proof.
  revert i k. induction ss as [|x ss IH]; intros i [|k] Hk; try done.
  - injection Hk as ->. cbn. by rewrite Nat.add_0_r.
  - change (close_segments io i (x :: ss) !! S k) with (close_segments io (S i) ss !! k). rewrite (IH (S i) k Hk). by replace (S i + k)%nat with (i + S k)%nat by lia.
Qed.

Lemma closed_manager_inv io m logs :
  (forall x, close_ok (io x)) -> mgr_inv c m logs ->
  mgr_inv c (closed_manager io m) logs /\ EarliestOffset (closed_manager io m) = EarliestOffset m /\
  Mgr_NextOffset (closed_manager io m) = Mgr_NextOffset m.
Proof.
  intros Hio Hm. pose proof (close_segments_chain io 0 _ _ _ Hio (mi_chain _ _ _ Hm)) as Hch.
  assert (EarliestOffset (closed_manager io m) = EarliestOffset m) as He.
  { pose proof (mi_chain _ _ _ Hm) as H0. unfold EarliestOffset in *. cbn [closed_manager set_segments segments].
    pose proof (mi_ne _ _ _ Hm). destruct (segments m) as [|s ss], logs as [|l logs]; try done.
    cbn in Hch |- *. by destruct Hch as [? _]. }
  assert (mgr_inv c (closed_manager io m) logs) as Hm'.
  { split; try apply Hm; [by rewrite He| |rewrite He; apply Hm].
    cbn. pose proof (mi_ne _ _ _ Hm). by destruct (segments m). }
  split_and!; try done. destruct (mgr_split c _ _ Hm) as (_ & _ & _ & _ & _ & _ & _ & _ & _ & ->).
  destruct (mgr_split c _ _ Hm') as (_ & _ & _ & _ & _ & _ & _ & _ & _ & ->). by rewrite He.
Qed.

Lemma closed_active io m a :
  active m = Some a -> exists i, active (closed_manager io m) = Some (Seg_Close (io i) a).2.
Proof.
  unfold active. rewrite !last_lookup. intros Ha. cbn [closed_manager set_segments segments].
  rewrite length_close_segments. eexists. exact (close_segments_lookup io 0 _ _ _ Ha).
Qed.
End Closed.

(** The segment an append has reserved in waits for exactly that record. *)
Lemma reserved_active c {Hc : ChecksumOk c} io data now m logs b lo q m1 :
  mgr_inv c m logs -> sg_ok io -> Mgr_NextOffset m + 1 < 2 ^ 64 ->
  (forall a, active m = Some a -> syncErr (s_writer a) = None) ->
  append_reserve io WOk data now m = Some (Ok (b, lo, q), m1) ->
  exists s', active m1 = Some s' /\ q = writeSeq (s_writer s') /\ syncErr (s_writer s') = None.
Proof.
  intros Hm Hio Hn Herr Hrun. destruct (append_reserve_shape _ _ _ _ _ _ _ _ _ Hrun) as (ss & s & s' & Hss & Hres & _ & Hs).
  exists s'. split; [unfold active; by rewrite Hss, last_snoc|].
  assert (syncErr (s_writer s) = None) as He.
  { destruct Hs as [Ha|[d Hnew]]; [by apply Herr|].
    rewrite (mi_csum _ _ _ Hm) in Hnew. destruct (next_free c m logs Hm Hn) as (Hpos & Hd1 & Hd2).
    destruct (NewSegment_new c (quiet:=true) io (Mgr_NextOffset m) (m_dir m)) as (s0 & Hnew' & _ & _ & He0 & _);
      try done; [apply Hm|lia|].
    rewrite Hnew in Hnew'. by injection Hnew' as -> _. }
  unfold reserve, Reserve in Hres. destruct (_ <? _); [done|]. injection Hres as _ <- <-. by split.
Qed.

(** A read never gets data out of a closed file. *)
Lemma read_iter_closed r f o cur pos x : read_iter closed_read r f o cur pos <> inl (Ok x).
Proof. unfold read_iter. cbn. discriminate. Qed.

Lemma read_loop_closed fuel r f o cur pos x : read_loop fuel closed_read r f o cur pos <> Some (Ok x).
Proof. destruct fuel; [done|]. cbn. discriminate. Qed.

(** ** Results *)

(** Calls on a closed log.  After a [Close] that succeeded: no read returns
    data; an append whose segment is not full fails on the closed file and
    assigns no offset; but the second phase of an append that had reserved its
    record before [Close] reports success, and rightly so, without touching the
    file, because [Close] has fsynced the record: it is in the log that the
    directory holds. *)
Theorem closed_manager_safe c (Hc : ChecksumOk c) cio m logs (Hm : mgr_inv c m logs)
  (Hcio : forall x, close_ok (cio x)) :
  (forall o x, Mgr_ReadAt closed_read o (closed_manager cio m) <> Some (Ok x)) /\
  (forall io sio data now a, active m = Some a -> Seg_Size a < MaxSegmentBytes (m_cfg m) ->
     payload_ok data ->
     exists m', Append_closed io sio data now (closed_manager cio m) =
       Some (Err (Wrap "wal: write record" ErrFileClosed), m')) /\
  (forall io data now b lo q m1 sio oio cfg,
     append_reserve io WOk data now m = Some (Ok (b, lo, q), m1) -> payload_ok data -> sg_ok io ->
     Mgr_NextOffset m + 1 < 2 ^ 64 -> (forall a, active m = Some a -> syncErr (s_writer a) = None) ->
     no_leftovers m1 -> (forall x, sg_ok (oio x)) -> cfg_ok c cfg ->
     exists m2 d m' logs', append_commit sio (length (segments m1) - 1) q (closed_manager cio m1) = Some (None, m2) /\
       Mgr_Close cio m1 = (None, d) /\ Open None None oio cfg d = Some (Ok m') /\
       mgr_inv c m' logs' /\ mjoin logs' = mjoin logs ++ [data] /\ EarliestOffset m' = EarliestOffset m).
Proof.
  split_and!.
  - intros o x. unfold Mgr_ReadAt. destruct (read_pick _ _) as [s|e]; [|done]. unfold Seg_ReadAt. destruct (_ <? _); [done|].
    unfold Wal_ReadAt. destruct (read_start _ _) as [cur pos]. apply read_loop_closed.
  - intros io sio data now a Ha Hsz Hp. destruct (closed_active cio m a Ha) as [i Ha'].
    destruct (mgr_split c _ _ Hm) as (_ & a0 & _ & l & _ & _ & Ha0 & Hs & _). rewrite Ha in Ha0. injection Ha0 as <-.
    destruct (Seg_Close_run c (cio i) a l Hs (Hcio i)) as (Hs' & _ & _).
    assert (Seg_Size (Seg_Close (cio i) a).2 = Seg_Size a) as Hsz' by by rewrite (seg_size c _ _ Hs), (seg_size c _ _ Hs').
    unfold Append_closed, Mgr_Append, closed_write, append_reserve. rewrite Ha', Hsz'.
    change (m_cfg (closed_manager cio m)) with (m_cfg m). destruct (Z.leb_spec (MaxSegmentBytes (m_cfg m)) (Seg_Size a)); [lia|].
    rewrite Ha'. unfold reserve, Reserve. unfold payload_ok in Hp. destruct (Z.ltb_spec MaxRecordSize (zlen data)); [lia|].
    cbn. by eexists.
  - intros io data now b lo q m1 sio oio cfg Hres Hp Hio Hn Herr Hno Hoio Hcfg.
    destruct (append_reserve_inv c (quiet:=true) io data now m logs Hm Hp Hio Hn)
      as (m1' & ss & s' & ls & l & b' & lo' & q' & Hres' & _ & _ & Hm1 & Hj & He & _ & Hss & _ & _).
    rewrite Hres in Hres'. injection Hres' as <- <- <- <-.
    destruct (reserved_active c io data now m logs b lo q m1 Hm Hio Hn Herr Hres) as (s1 & Ha1 & Hq1 & He1).
    assert (s1 = s') as -> by (unfold active in Ha1; rewrite Hss, last_snoc in Ha1; by injection Ha1).
    destruct (mgr_split c _ _ Hm1) as (ss1 & s2 & ls1 & l1 & Hss1 & _ & _ & Hs1 & _).
    rewrite Hss in Hss1. apply app_inj_2 in Hss1 as [_ [= <-]]; [|done].
    destruct (close_open_run c cio oio cfg m1 _ Hm1 Hno Hcio Hoio Hcfg) as (d & m' & Hcl & Hop & Hm' & He').
    destruct (Seg_Close_run c (cio (0 + length ss)%nat) s' l1 Hs1 (Hcio _)) as (_ & _ & Hsync). destruct (Hsync He1) as [He2 Hq2].
    eexists _, d, m', _. split.
    { unfold append_commit. rewrite Hss, length_app. cbn [length]. replace (length ss + 1 - 1)%nat with (length ss) by lia.
      cbn [closed_manager set_segments segments].
      rewrite (close_segments_lookup cio 0 _ (length ss) s') by (rewrite Hss, lookup_app_r, Nat.sub_diag by lia; done).
      unfold commit, Commit, commit_fuel. cbn [commitLocked]. unfold commit_check. rewrite He2.
      rewrite (proj2 (Z.leb_le _ _)) by lia. reflexivity. }
    split_and!; try done. congruence.
Qed.

(** An append under way when the log is closed. *)
Lemma closed_manager_safe_witness :
  (forall o x, Mgr_ReadAt closed_read o (closed_manager (fun _ => ex_close) ex_mgr3) <> Some (Ok x)) /\
  exists q m2 d m', append_commit sync_io_ok (length (segments (ex_reserve ex_mgr3)) - 1) q
      (closed_manager (fun _ => ex_close) (ex_reserve ex_mgr3)) = Some (None, m2) /\
    Mgr_Close (fun _ => ex_close) (ex_reserve ex_mgr3) = (None, d) /\
    Open None None (fun _ => ex_sgio) ex_cfg d = Some (Ok m').
Proof.
  destruct ex_mgr3_run as (logs & Hm & He).
  destruct (closed_manager_safe NewCRC32C _ (fun _ => ex_close) ex_mgr3 logs Hm) as (Hr & _ & Hc).
  - intros _. repeat split.
  - split; [exact Hr|].
    assert (Hres : match append_reserve ex_sgio WOk ex_data 5 ex_mgr3 with Some (Ok _, _) => true | _ => false end = true)
      by (vm_compute; reflexivity).
    assert (Hm1 : ex_reserve ex_mgr3 = match append_reserve ex_sgio WOk ex_data 5 ex_mgr3 with Some (_, m') => m' | None => ex_mgr3 end)
      by reflexivity.
    destruct (append_reserve ex_sgio WOk ex_data 5 ex_mgr3) as [[[[[b lo] q]|e] m1]|] eqn:Hrun; try discriminate Hres.
    rewrite Hm1.
    destruct (Hc ex_sgio ex_data 5 b lo q m1 sync_io_ok (fun _ => ex_sgio) ex_cfg Hrun) as (m2 & d & m' & logs' & H1 & H2 & H3 & _).
    + vm_compute. discriminate.
    + repeat split.
    + vm_compute. reflexivity.
    + exact He.
    + rewrite <- Hm1. intros n Hn. exfalso. vm_compute in Hn. destruct Hn as [f Hf]. discriminate Hf.
    + intros _. repeat split.
    + split; [vm_compute; discriminate|reflexivity].
    + exists q, m2, d, m'. split; [exact H1|]. split; [exact H2|exact H3].
Defined.

(** Defect: a closed log can still acknowledge appends.  No operation asks
    whether the manager is closed, so when the active segment is full [Append]
    rolls: it opens a new segment, whose file is not closed, stores the record
    there and returns its offset, on a log whose owner has been told that it is
    closed and may have opened it again. *)
Theorem closed_manager_can_append c (Hc : ChecksumOk c) cio m logs a io sio data now
  (Hm : mgr_inv c m logs) (Hcio : forall x, close_ok (cio x)) (Ha : active m = Some a)
  (Hfull : MaxSegmentBytes (m_cfg m) <= Seg_Size a) (He : syncErr (s_writer a) = None)
  (Hp : payload_ok data) (Hio : sg_ok io) (Hn : Mgr_NextOffset m + 1 < 2 ^ 64)
  (Hsy : sy_sync sio = None) (Hcp : forall x, clean_write (sy_cp sio x)) :
  exists m' logs', Append_closed io sio data now (closed_manager cio m) = Some (Ok (Mgr_NextOffset m), m') /\
    mgr_inv c m' logs' /\ mjoin logs' = mjoin logs ++ [data].
Proof.
  destruct (closed_manager_inv c cio m logs Hcio Hm) as (Hm' & _ & Hnext).
  destruct (closed_active cio m a Ha) as [i Ha'].
  destruct (mgr_split c _ _ Hm) as (_ & a0 & _ & l & _ & _ & Ha0 & Hs & _). rewrite Ha in Ha0. injection Ha0 as <-.
  destruct (Seg_Close_run c (cio i) a l Hs (Hcio i)) as (Hs' & _ & Hok).
  unfold Append_closed, closed_write. rewrite Ha', (seg_size c _ _ Hs'), <- (seg_size c _ _ Hs).
  change (m_cfg (closed_manager cio m)) with (m_cfg m). rewrite (proj2 (Z.leb_le _ _) Hfull), <- Hnext.
  destruct (Append_run c (quiet:=true) io sio data now (closed_manager cio m) logs)
    as (m' & logs' & a' & Hrun & Hm1 & Hj & _); try done; [by rewrite Hnext| |by exists m', logs'].
  intros x. rewrite Ha'. intros [= <-]. by apply Hok.
Qed.

Lemma closed_manager_can_append_witness :
  exists m', Append_closed ex_sgio sync_io_ok ex_data 5 (closed_manager (fun _ => ex_close) (ex_append (ex_append ex_mgr))) =
    Some (Ok 2, m').
Proof.
  destruct ex_mgr_ok as (H0 & _ & E0).
  destruct (ex_append_ok _ _ H0) as (l1 & H1 & E1); [vm_compute; reflexivity|exact E0|].
  destruct (ex_append_ok _ _ H1) as (l2 & H2 & E2); [vm_compute; reflexivity|exact E1|].
  assert (Hf : match active (ex_append (ex_append ex_mgr)) with
    | Some a => MaxSegmentBytes (m_cfg (ex_append (ex_append ex_mgr))) <=? Seg_Size a | None => false end = true)
    by (vm_compute; reflexivity).
  destruct (active (ex_append (ex_append ex_mgr))) as [a|] eqn:Ha; [|discriminate Hf].
  destruct (closed_manager_can_append NewCRC32C _ (fun _ => ex_close) _ l2 a ex_sgio sync_io_ok ex_data 5 H2) as (m' & logs' & Hrun & _).
  - intros _. repeat split.
  - exact Ha.
  - apply Z.leb_le. exact Hf.
  - apply E2. reflexivity.
  - vm_compute. discriminate.
  - repeat split.
  - vm_compute. reflexivity.
  - reflexivity.
  - intros x. reflexivity.
  - exists m'. rewrite Hrun. vm_compute (Mgr_NextOffset _). reflexivity.
Defined.
