(* ===== verification/Raft.v ===== *)
(** * Raft: one consensus node ([internal/raft/raft.go], [rpc.go])

    A node's state and its handlers, one function per critical section of the
    code (everything done while [r.mu] is held).  [dl] is the election
    deadline the code draws at that point (the current time plus a random
    timeout), [ok] says whether [storage.Save] took effect (the code logs an
    error and goes on).  Terms are [uint64] and wrap; log indices are below
    the length of an in-memory slice.  [RaftCluster.v] composes the handlers
    into a cluster. *)

From Stdlib Require Import ZArith Lia Strings.String.
From stdpp Require Import base list list_numbers numbers option gmap sorting.
From coqutil Require Import Byte.
From S2P Require Import Prelude Bytes.

Local Open Scope Z_scope.

Definition None_ : Z := -1.

Record LogEntry := mkEntry { e_Term : Z; e_Command : list byte }.

#[export] Instance LogEntry_eq_dec : EqDecision LogEntry.
Proof. solve_decision. Defined.

Record ApplyMsg := mkApply { CommandValid : bool; Command : list byte; CommandIndex : Z }.

Inductive State := Follower | Candidate | Leader.

#[export] Instance State_eq_dec : EqDecision State.
Proof. solve_decision. Defined.

Record PersistentState := mkPersistent { ps_CurrentTerm : Z; ps_VotedFor : Z; ps_Log : list LogEntry }.

Record Raft := mkRaft {
  r_id : Z;
  r_peers : list Z;
  currentTerm : Z;
  votedFor : Z;
  r_log : list LogEntry;
  r_state : State;
  leaderID : Z;
  commitIndex : Z;
  lastApplied : Z;
  electionDeadline : Z;
  nextIndex : gmap Z Z;
  matchIndex : gmap Z Z;
  storage : option PersistentState
}.

(** RPC arguments and replies. *)
Record RequestVoteArgs := mkRV { rv_Term : Z; CandidateID : Z; LastLogIndex : Z; LastLogTerm : Z }.
Record RequestVoteReply := mkRVReply { rvr_Term : Z; VoteGranted : bool }.
Record AppendEntriesArgs := mkAE {
  ae_Term : Z;
  LeaderID : Z;
  PrevLogIndex : Z;
  PrevLogTerm : Z;
  Entries : list LogEntry;
  LeaderCommit : Z
}.
Record AppendEntriesReply := mkAEReply { aer_Term : Z; Success : bool; ConflictIndex : Z }.

(** ** Helpers *)

Definition clusterSize (r : Raft) : Z := zlen (r_peers r) + 1.
Definition majority (r : Raft) : Z := clusterSize r / 2 + 1.
Definition lastIndex (log : list LogEntry) : Z := zlen log - 1.

(** [log[i].Term].  Indexing is total here; the code only indexes in range
    ([raft_indices_in_range]). *)
Definition term_at (log : list LogEntry) (i : Z) : Z :=
  match log !! Z.to_nat i with Some e => e_Term e | None => 0 end.

(** [lastLogTermIndexLocked] *)
Definition lastLogTermIndex (r : Raft) : Z * Z := (term_at (r_log r) (lastIndex (r_log r)), lastIndex (r_log r)).

(** [persistLocked] *)
Definition persist (ok : bool) (r : Raft) : Raft :=
  if ok then
    mkRaft (r_id r) (r_peers r) (currentTerm r) (votedFor r) (r_log r) (r_state r) (leaderID r)
      (commitIndex r) (lastApplied r) (electionDeadline r) (nextIndex r) (matchIndex r)
      (Some (mkPersistent (currentTerm r) (votedFor r) (r_log r)))
  else r.

(** [New] (defaults of the timing configuration aside): a follower with what
    [loadPersistedState] finds; [load] is the error of reading it back. *)
Definition New (id : Z) (peers : list Z) (load : outcome) (saved : option PersistentState) (dl : Z) : Raft :=
  let fresh := mkRaft id peers 0 None_ [mkEntry 0 []] Follower None_ 0 0 dl ∅ ∅ saved in
  match load, saved with
  | None, Some ps =>
      mkRaft id peers (ps_CurrentTerm ps) (ps_VotedFor ps)
        (match ps_Log ps with [] => [mkEntry 0 []] | l => l end)
        Follower None_ 0 0 dl ∅ ∅ saved
  | _, _ => fresh
  end.

(** [becomeFollowerLocked] *)
Definition becomeFollower (dl term : Z) (r : Raft) : Raft :=
  mkRaft (r_id r) (r_peers r) term None_ (r_log r) Follower None_ (commitIndex r) (lastApplied r) dl
    (nextIndex r) (matchIndex r) (storage r).

(** ** Elections *)

(** [candidateUpToDateLocked] *)
Definition candidateUpToDate (args : RequestVoteArgs) (r : Raft) : bool :=
  let '(myLastTerm, myLastIndex) := lastLogTermIndex r in
  if negb (LastLogTerm args =? myLastTerm) then myLastTerm <? LastLogTerm args
  else myLastIndex <=? LastLogIndex args.

(** [RequestVote] *)
Definition RequestVote (dl : Z) (ok : bool) (args : RequestVoteArgs) (r : Raft) : RequestVoteReply * Raft :=
  let '(r1, changed) :=
    if currentTerm r <? rv_Term args then (becomeFollower dl (rv_Term args) r, true) else (r, false) in
  if rv_Term args <? currentTerm r1 then (mkRVReply (currentTerm r1) false, r1)
  else
    let alreadyVoted := negb (votedFor r1 =? None_) && negb (votedFor r1 =? CandidateID args) in
    if negb alreadyVoted && candidateUpToDate args r1 then
      let r2 := mkRaft (r_id r1) (r_peers r1) (currentTerm r1) (CandidateID args) (r_log r1) (r_state r1)
                  (leaderID r1) (commitIndex r1) (lastApplied r1) dl (nextIndex r1) (matchIndex r1) (storage r1) in
      (mkRVReply (currentTerm r1) true, persist ok r2)
    else (mkRVReply (currentTerm r1) false, if changed then persist ok r1 else r1).

(** [startElection], first part: the node after it, and the arguments sent to
    every peer. *)
Definition startElection (dl : Z) (ok : bool) (r : Raft) : RequestVoteArgs * Raft :=
  let r1 := persist ok
    (mkRaft (r_id r) (r_peers r) (u64 (currentTerm r + 1)) (r_id r) (r_log r) Candidate None_
       (commitIndex r) (lastApplied r) dl (nextIndex r) (matchIndex r) (storage r)) in
  let '(lastTerm, lastIdx) := lastLogTermIndex r1 in
  (mkRV (currentTerm r1) (r_id r1) lastIdx lastTerm, r1).

(** [becomeLeaderLocked] *)
Definition becomeLeader (r : Raft) : Raft :=
  if decide (r_state r = Candidate) then
    let last := lastIndex (r_log r) in
    mkRaft (r_id r) (r_peers r) (currentTerm r) (votedFor r) (r_log r) Leader (r_id r) (commitIndex r)
      (lastApplied r) (electionDeadline r)
      (list_to_map ((fun p => (p, last + 1)) <$> r_peers r))
      (list_to_map ((fun p => (p, 0)) <$> r_peers r)) (storage r)
  else r.

(** [startElection], the goroutine that waits for one peer's reply: the
    election's vote count and the node after it. *)
Definition voteReply (dl : Z) (ok : bool) (term : Z) (reply : RequestVoteReply) (votes : Z) (r : Raft)
    : Z * Raft :=
  if negb (bool_decide (r_state r = Candidate)) || negb (currentTerm r =? term) then (votes, r)
  else if currentTerm r <? rvr_Term reply then (votes, persist ok (becomeFollower dl (rvr_Term reply) r))
  else if negb (VoteGranted reply) then (votes, r)
  else
    let votes := votes + 1 in
    (votes, if majority r <=? votes then becomeLeader r else r).

(** ** Replication *)

(** [Start]: the index and term of the new entry, on the leader. *)
Definition Start (ok : bool) (command : list byte) (r : Raft) : (Z * Z * bool) * Raft :=
  if decide (r_state r = Leader) then
    let r1 := persist ok
      (mkRaft (r_id r) (r_peers r) (currentTerm r) (votedFor r)
         (r_log r ++ [mkEntry (currentTerm r) command]) (r_state r) (leaderID r) (commitIndex r)
         (lastApplied r) (electionDeadline r) (nextIndex r) (matchIndex r) (storage r)) in
    ((lastIndex (r_log r1), currentTerm r, true), r1)
  else ((0, currentTerm r, false), r).

(** [replicateTo], before the RPC: what the leader sends to [peer]. *)
Definition replicateArgs (peer : Z) (r : Raft) : option AppendEntriesArgs :=
  if decide (r_state r = Leader) then
    let ni := Z.max 1 (default 0 (nextIndex r !! peer)) in
    let prevIndex := ni - 1 in
    Some (mkAE (currentTerm r) (r_id r) prevIndex (term_at (r_log r) prevIndex)
            (drop (Z.to_nat ni) (r_log r)) (commitIndex r))
  else None.

(** The backing-up loop of [AppendEntries]. *)
Fixpoint conflictStart (fuel : nat) (log : list LogEntry) (conflictTerm ci : Z) : Z :=
  match fuel with
  | O => ci
  | S fuel' =>
      if (1 <? ci) && (term_at log (ci - 1) =? conflictTerm)
      then conflictStart fuel' log conflictTerm (ci - 1) else ci
  end.

(** The loop that appends [entries] from index [idx] on: the log, and whether
    it changed. *)
Fixpoint appendFrom (log : list LogEntry) (idx : nat) (entries : list LogEntry) : list LogEntry * bool :=
  match entries with
  | [] => (log, false)
  | e :: entries' =>
      if (Z.of_nat idx <=? lastIndex log) && (term_at log (Z.of_nat idx) =? e_Term e)
      then appendFrom log (S idx) entries'
      else (take idx log ++ e :: entries', true)
  end.

(** [AppendEntries] *)
Definition AppendEntries (dl : Z) (ok : bool) (args : AppendEntriesArgs) (r : Raft)
    : AppendEntriesReply * Raft :=
  if ae_Term args <? currentTerm r then (mkAEReply (currentTerm r) false 0, r)
  else
    let '(r1, changed) :=
      if currentTerm r <? ae_Term args then (becomeFollower dl (ae_Term args) r, true) else (r, false) in
    let r2 := mkRaft (r_id r1) (r_peers r1) (currentTerm r1) (votedFor r1) (r_log r1) Follower
                (LeaderID args) (commitIndex r1) (lastApplied r1) dl (nextIndex r1) (matchIndex r1)
                (storage r1) in
    let keep := if changed then persist ok r2 else r2 in
    if lastIndex (r_log r2) <? PrevLogIndex args then
      (mkAEReply (currentTerm r2) false (lastIndex (r_log r2) + 1), keep)
    else if negb (term_at (r_log r2) (PrevLogIndex args) =? PrevLogTerm args) then
      let conflictTerm := term_at (r_log r2) (PrevLogIndex args) in
      let ci := conflictStart (Z.to_nat (PrevLogIndex args)) (r_log r2) conflictTerm (PrevLogIndex args) in
      (mkAEReply (currentTerm r2) false ci, keep)
    else
      let '(log', appended) := appendFrom (r_log r2) (Z.to_nat (PrevLogIndex args + 1)) (Entries args) in
      let commit :=
        if commitIndex r2 <? LeaderCommit args
        then Z.min (LeaderCommit args) (PrevLogIndex args + zlen (Entries args))
        else commitIndex r2 in
      let r3 := mkRaft (r_id r2) (r_peers r2) (currentTerm r2) (votedFor r2) log' (r_state r2) (leaderID r2)
                  commit (lastApplied r2) (electionDeadline r2) (nextIndex r2) (matchIndex r2) (storage r2) in
      (mkAEReply (currentTerm r2) true 0, if changed || appended then persist ok r3 else r3).

(** Peers whose [matchIndex] has reached [n]. *)
Definition countMatch (r : Raft) (n : Z) : Z :=
  1 + zlen (filter (fun p => n <= default 0 (matchIndex r !! p)) (r_peers r)).

(** The loop of [advanceCommitLocked] from index [n] down. *)
Fixpoint advanceFrom (n : nat) (r : Raft) : Z :=
  match n with
  | O => commitIndex r
  | S n' =>
      let i := Z.of_nat n in
      if i <=? commitIndex r then commitIndex r
      else if negb (term_at (r_log r) i =? currentTerm r) then advanceFrom n' r
      else if majority r <=? countMatch r i then i
      else advanceFrom n' r
  end.

Definition set_commit (n : Z) (r : Raft) : Raft :=
  mkRaft (r_id r) (r_peers r) (currentTerm r) (votedFor r) (r_log r) (r_state r) (leaderID r) n
    (lastApplied r) (electionDeadline r) (nextIndex r) (matchIndex r) (storage r).

(** [advanceCommitLocked] *)
Definition advanceCommit (r : Raft) : Raft :=
  set_commit (advanceFrom (Z.to_nat (lastIndex (r_log r))) r) r.

Definition set_indices (ni mi : gmap Z Z) (r : Raft) : Raft :=
  mkRaft (r_id r) (r_peers r) (currentTerm r) (votedFor r) (r_log r) (r_state r) (leaderID r) (commitIndex r)
    (lastApplied r) (electionDeadline r) ni mi (storage r).

(** [replicateTo], after the RPC with arguments [args] to [peer]. *)
Definition appendReply (dl : Z) (args : AppendEntriesArgs) (peer : Z) (reply : AppendEntriesReply) (r : Raft)
    : Raft :=
  if negb (bool_decide (r_state r = Leader)) || negb (currentTerm r =? ae_Term args) then r
  else if currentTerm r <? aer_Term reply then becomeFollower dl (aer_Term reply) r
  else if Success reply then
    let m := PrevLogIndex args + zlen (Entries args) in
    advanceCommit (set_indices (<[peer := m + 1]> (nextIndex r)) (<[peer := m]> (matchIndex r)) r)
  else if 0 <? ConflictIndex reply then set_indices (<[peer := ConflictIndex reply]> (nextIndex r)) (matchIndex r) r
  else
    let ni := default 0 (nextIndex r !! peer) in
    if 1 <? ni then set_indices (<[peer := ni - 1]> (nextIndex r)) (matchIndex r) r else r.

(** One round of [applyLoop]: the message it delivers, if there is one. *)
Definition applyNext (r : Raft) : option (ApplyMsg * Raft) :=
  if commitIndex r <=? lastApplied r then None
  else
    let i := lastApplied r + 1 in
    let cmd := match r_log r !! Z.to_nat i with Some e => e_Command e | None => [] end in
    Some (mkApply true cmd i,
          mkRaft (r_id r) (r_peers r) (currentTerm r) (votedFor r) (r_log r) (r_state r) (leaderID r)
            (commitIndex r) i (electionDeadline r) (nextIndex r) (matchIndex r) (storage r)).
