(* ===== verification/RaftLoops.v ===== *)
(** * RaftLoops: timers, background loops, start and stop of a node

    [RaftCluster.v] lets elections, heartbeats and deliveries happen at any
    time.  Here is the code that decides when: the timing configuration and
    the election deadline, and the three goroutines [Run] starts
    ([electionLoop], [heartbeatLoop], [applyLoop]) with the condition variable
    the apply loop sleeps on and the stop channel.  [loop_step] executes one
    atomic action: a ticker case, an iteration of the apply loop under the
    lock, a delivery, a handler of another goroutine with the [Signal] it
    makes, or [Stop].  The theorems: a committed entry never finds the apply
    loop asleep, commands are delivered in order without gaps, and [Stop]
    cannot hang. *)

From Stdlib Require Import ZArith Lia Strings.String.
From stdpp Require Import base list list_numbers numbers option gmap sorting.
From coqutil Require Import Byte.
From S2P Require Import Prelude Bytes Raft.

Local Open Scope Z_scope.

(** ** Timing *)

(** Nanoseconds. *)
Definition DefaultHeartbeatInterval : Z := 50 * 1000000.
Definition DefaultElectionTimeoutMin : Z := 150 * 1000000.
Definition DefaultElectionTimeoutMax : Z := 300 * 1000000.

Record timing := mkTiming { heartbeatInterval : Z; electionTimeoutMin : Z; electionTimeoutMax : Z }.

(** The defaults [New] applies; durations are [int64]. *)
Definition new_timing (cfg : timing) : timing :=
  let hb := if heartbeatInterval cfg <=? 0 then DefaultHeartbeatInterval else heartbeatInterval cfg in
  let mn := if electionTimeoutMin cfg <=? 0 then DefaultElectionTimeoutMin else electionTimeoutMin cfg in
  let mx := if electionTimeoutMax cfg <=? mn then i64 (mn * 2) else electionTimeoutMax cfg in
  mkTiming hb mn mx.

(** [resetElectionDeadlineLocked] at time [now]; [rand n] is [rand.Int63n(n)],
    which panics ([None]) unless [n] is positive. *)
Definition resetElectionDeadline (rand : Z -> Z) (now : Z) (t : timing) : option Z :=
  let span := electionTimeoutMax t - electionTimeoutMin t in
  if span <=? 0 then None else Some (now + (electionTimeoutMin t + rand span)).

(** The test of [electionLoop]. *)
Definition timedOut (now : Z) (r : Raft) : bool :=
  negb (bool_decide (r_state r = Leader)) && (electionDeadline r <? now).

(** [broadcastAppendEntries]: the peers it replicates to. *)
Definition broadcastAppendEntries (r : Raft) : list Z :=
  if decide (r_state r = Leader) then r_peers r else [].

(** [State], [CurrentTerm] *)
Definition Raft_State (r : Raft) : State := r_state r.
Definition Raft_CurrentTerm (r : Raft) : Z := currentTerm r.

(** ** The loops *)

(** A ticker loop: in its [select], about to act, returned. *)
Inductive tick_pc := TSelect | TAct | TDone.

(** The apply loop: at the top (or woken), asleep on the condition variable,
    sending a message, returned. *)
Inductive apply_pc :=
| PCheck
| PWait
| PSend (msg : ApplyMsg)
| PDone.

Record running := mkRunning {
  rn_node : Raft;
  rn_stop : bool;
  rn_wg : Z;
  rn_elect : tick_pc;
  rn_heart : tick_pc;
  rn_apply : apply_pc;
  rn_out : list ApplyMsg
}.

(** [Run] *)
Definition Run (r : Raft) : running := mkRunning r false 3 TSelect TSelect PCheck [].

(** [applyCond.Signal] and [Broadcast]: one loop waits at most. *)
Definition signal (a : apply_pc) : apply_pc := match a with PWait => PCheck | _ => a end.

Inductive loop_event :=
| LTick (now : Z)
| LElect (dl : Z) (ok : bool)
| LElectStop
| LHeart
| LHeartStop
| LApply
| LSend
| LSendStop
| LAppend (dl : Z) (ok : bool) (args : AppendEntriesArgs)
| LAppendReply (dl : Z) (args : AppendEntriesArgs) (peer : Z) (reply : AppendEntriesReply)
| LRequestVote (dl : Z) (ok : bool) (args : RequestVoteArgs)
| LVoteReply (dl : Z) (ok : bool) (term : Z) (reply : RequestVoteReply) (votes : Z)
| LStart (ok : bool) (command : list byte)
| LStop.

Definition set_node (r : Raft) (wake : bool) (s : running) : running :=
  mkRunning r (rn_stop s) (rn_wg s) (rn_elect s) (rn_heart s)
    (if wake then signal (rn_apply s) else rn_apply s) (rn_out s).
Definition set_elect (p : tick_pc) (s : running) : running :=
  mkRunning (rn_node s) (rn_stop s) (rn_wg s) p (rn_heart s) (rn_apply s) (rn_out s).
Definition set_apply (p : apply_pc) (s : running) : running :=
  mkRunning (rn_node s) (rn_stop s) (rn_wg s) (rn_elect s) (rn_heart s) p (rn_out s).
Definition wg_done (s : running) : running :=
  mkRunning (rn_node s) (rn_stop s) (rn_wg s - 1) (rn_elect s) (rn_heart s) (rn_apply s) (rn_out s).

Definition loop_step (e : loop_event) (s : running) : option running :=
  let r := rn_node s in
  match e with
  | LTick now =>
      match rn_elect s with
      | TSelect => Some (set_elect (if timedOut now r then TAct else TSelect) s)
      | _ => None
      end
  | LElect dl ok =>
      match rn_elect s with
      | TAct => Some (set_elect TSelect (set_node (startElection dl ok r).2 false s))
      | _ => None
      end
  | LElectStop =>
      match rn_elect s, rn_stop s with
      | TSelect, true => Some (wg_done (set_elect TDone s))
      | _, _ => None
      end
  | LHeart => match rn_heart s with TSelect => Some s | _ => None end
  | LHeartStop =>
      match rn_heart s, rn_stop s with
      | TSelect, true => Some (wg_done (mkRunning r true (rn_wg s) (rn_elect s) TDone (rn_apply s) (rn_out s)))
      | _, _ => None
      end
  | LApply =>
      match rn_apply s with
      | PCheck =>
          match applyNext r with
          | None => Some (if rn_stop s then wg_done (set_apply PDone s) else set_apply PWait s)
          | Some (msg, r') => Some (set_apply (PSend msg) (set_node r' false s))
          end
      | _ => None
      end
  | LSend =>
      match rn_apply s with
      | PSend msg => Some (mkRunning r (rn_stop s) (rn_wg s) (rn_elect s) (rn_heart s) PCheck (rn_out s ++ [msg]))
      | _ => None
      end
  | LSendStop =>
      match rn_apply s, rn_stop s with
      | PSend _, true => Some (wg_done (set_apply PDone s))
      | _, _ => None
      end
  | LAppend dl ok args =>
      let '(reply, r') := AppendEntries dl ok args r in
      Some (set_node r' (Success reply && (commitIndex r <? LeaderCommit args)) s)
  | LAppendReply dl args peer reply =>
      let r' := appendReply dl args peer reply r in
      Some (set_node r' (commitIndex r <? commitIndex r') s)
  | LRequestVote dl ok args => Some (set_node (RequestVote dl ok args r).2 false s)
  | LVoteReply dl ok term reply votes => Some (set_node (voteReply dl ok term reply votes r).2 false s)
  | LStart ok command => Some (set_node (Start ok command r).2 false s)
  | LStop =>
      Some (if rn_stop s then s
            else mkRunning r true (rn_wg s) (rn_elect s) (rn_heart s) (signal (rn_apply s)) (rn_out s))
  end.

Fixpoint loop_run (es : list loop_event) (s : running) : option running :=
  match es with
  | [] => Some s
  | e :: es' => match loop_step e s with Some s' => loop_run es' s' | None => None end
  end.

(** ** What the handlers do to the apply loop's indices *)

(** Nothing was applied, and nothing new is known to be committed. *)
Definition no_news (r r' : Raft) : Prop := lastApplied r' = lastApplied r /\ commitIndex r' <= commitIndex r.

Lemma no_news_refl r : no_news r r.
Proof. split; [done|lia]. Qed.
#[local] Hint Resolve no_news_refl : core.

Lemma persist_no_news ok r r' : no_news r r' -> no_news r (persist ok r').
Proof. by destruct ok. Qed.

Lemma becomeFollower_no_news dl term r : no_news r (becomeFollower dl term r).
Proof. split; cbn; lia. Qed.
#[local] Hint Resolve becomeFollower_no_news persist_no_news : core.

Lemma startElection_no_news dl ok r : no_news r (startElection dl ok r).2.
Proof. unfold startElection. cbn. destruct ok; cbn; split; cbn; lia. Qed.

Lemma RequestVote_no_news dl ok args r : no_news r (RequestVote dl ok args r).2.
Proof.
  unfold RequestVote. destruct (currentTerm r <? rv_Term args);
    (destruct (_ <? _); [done|]); destruct (_ && _); cbn [snd]; try apply persist_no_news;
    try done; split; cbn; lia.
Qed.

Lemma voteReply_no_news dl ok term reply votes r : no_news r (voteReply dl ok term reply votes r).2.
Proof.
  unfold voteReply. destruct (_ || _); [done|]. destruct (_ <? _); [by apply persist_no_news|].
  destruct (negb _); [done|]. cbn [snd]. destruct (_ <=? _); [|done]. unfold becomeLeader.
  case_decide; [|done]. split; cbn; lia.
Qed.

Lemma Start_no_news ok command r : no_news r (Start ok command r).2.
Proof. unfold Start. case_decide; [|done]. cbn [snd]. apply persist_no_news. split; cbn; lia. Qed.

(** [AppendEntries] signals whenever it may have raised the commit index. *)
Lemma AppendEntries_news dl ok args r :
  let '(reply, r') := AppendEntries dl ok args r in
  lastApplied r' = lastApplied r /\
  (Success reply && (commitIndex r <? LeaderCommit args) = false -> commitIndex r' <= commitIndex r).
Proof.
  unfold AppendEntries. destruct (_ <? _); [by split|].
  destruct (if currentTerm r <? ae_Term args then _ else _) as [r1 ch] eqn:Hr1.
  assert (lastApplied r1 = lastApplied r /\ commitIndex r1 = commitIndex r) as [Ha Hc]
    by (destruct (currentTerm r <? ae_Term args); injection Hr1 as <- _; done).
  cbn [r_log]. destruct (lastIndex _ <? _); [destruct ch, ok; cbn; split; done || lia|].
  destruct (negb (term_at _ _ =? _)); [destruct ch, ok; cbn; split; done || lia|].
  destruct (appendFrom _ _ _) as [log' app]. cbn [commitIndex]. rewrite Hc.
  destruct (Z.ltb_spec (commitIndex r) (LeaderCommit args)); destruct ch, app, ok; cbn; (split; [done|]); done || lia.
Qed.

Lemma appendReply_applied dl args peer reply r :
  lastApplied (appendReply dl args peer reply r) = lastApplied r.
Proof. unfold appendReply. repeat case_match; done. Qed.

Lemma applyNext_some r msg r' :
  applyNext r = Some (msg, r') -> CommandIndex msg = lastApplied r + 1 /\ lastApplied r' = lastApplied r + 1.
Proof. unfold applyNext. destruct (_ <=? _); [done|]. by intros [= <- <-]. Qed.

Lemma applyNext_none r : applyNext r = None -> commitIndex r <= lastApplied r.
Proof. unfold applyNext. by destruct (Z.leb_spec (commitIndex r) (lastApplied r)). Qed.

(** ** Invariant *)

Definition tick_alive (p : tick_pc) : Z := match p with TDone => 0 | _ => 1 end.
Definition apply_alive (p : apply_pc) : Z := match p with PDone => 0 | _ => 1 end.

(** Messages numbered from 1. *)
Definition numbered (out : list ApplyMsg) : Prop :=
  forall i msg, out !! i = Some msg -> CommandIndex msg = Z.of_nat i + 1.

Record loops_inv (s : running) : Prop := {
  ln_wg : rn_wg s = tick_alive (rn_elect s) + tick_alive (rn_heart s) + apply_alive (rn_apply s);
  ln_out : numbered (rn_out s);
  ln_apply : match rn_apply s with
             | PCheck => lastApplied (rn_node s) = zlen (rn_out s)
             | PWait => lastApplied (rn_node s) = zlen (rn_out s) /\
                 commitIndex (rn_node s) <= lastApplied (rn_node s) /\ rn_stop s = false
             | PSend msg => CommandIndex msg = zlen (rn_out s) + 1 /\
                 lastApplied (rn_node s) = zlen (rn_out s) + 1
             | PDone => rn_stop s = true
             end;
  ln_heart : rn_heart s <> TAct;
  ln_done : rn_stop s = false -> rn_elect s <> TDone /\ rn_heart s <> TDone
}.

Lemma Run_inv r : lastApplied r = 0 -> loops_inv (Run r).
Proof. intros Hr. by split. Qed.

(** A handler that signals when it must. *)
Lemma set_node_inv s r' wake :
  loops_inv s -> lastApplied r' = lastApplied (rn_node s) ->
  (wake = false -> commitIndex r' <= commitIndex (rn_node s)) -> loops_inv (set_node r' wake s).
Proof.
  intros [Hw Ho Ha Hh Hd] Hl Hc. split; cbn; try done.
  - destruct wake; [|done]. rewrite Hw. by destruct (rn_apply s).
  - destruct wake; destruct (rn_apply s); cbn; rewrite ?Hl; try done; try by destruct Ha.
    destruct Ha as (? & ? & ?). split_and!; try done. specialize (Hc eq_refl). lia.
Qed.

Lemma no_news_inv s r' : loops_inv s -> no_news (rn_node s) r' -> loops_inv (set_node r' false s).
Proof. intros Hi [Hl Hc]. by apply set_node_inv. Qed.

(** The iterations of the apply loop. *)
Lemma apply_step_inv e s s' :
  loops_inv s -> loop_step e s = Some s' -> match e with LApply | LSend | LSendStop => True | _ => False end ->
  loops_inv s'.
Proof.
  intros [Hw Ho Ha Hh Hd] Hs He. destruct e; try done; cbn [loop_step] in Hs;
    destruct (rn_apply s) as [| |msg|] eqn:Hp; try done.
  - destruct (applyNext (rn_node s)) as [[msg r']|] eqn:Hn.
    + injection Hs as <-. destruct (applyNext_some _ _ _ Hn) as [Hi Hl].
      split; cbn; try done. split; lia.
    + apply applyNext_none in Hn. injection Hs as <-. destruct (rn_stop s) eqn:Hst; split; cbn; try done.
      * cbn in Hw. lia.
      * by rewrite Hst.
      * by rewrite Hst.
  - injection Hs as <-. destruct Ha as [Hi Hl].
    assert (zlen (rn_out s ++ [msg]) = zlen (rn_out s) + 1) as Hz by by rewrite zlen_app.
    split; cbn; try done; [|by rewrite Hz].
    intros i m Hm. apply lookup_app_Some in Hm as [Hm|[Hge Hm]]; [by apply Ho|].
    apply list_lookup_singleton_Some in Hm as [Hz0 <-]. rewrite Hi. unfold zlen. lia.
  - destruct (rn_stop s) eqn:Hst; [|done]. injection Hs as <-. split; cbn; try done.
    + cbn in Hw. lia.
    + by rewrite Hst.
Qed.

(** The tickers. *)
Lemma tick_step_inv e s s' :
  loops_inv s -> loop_step e s = Some s' ->
  match e with LTick _ | LElectStop | LHeart | LHeartStop => True | _ => False end -> loops_inv s'.
Proof.
  intros Hi Hs He. pose proof Hi as [Hw Ho Ha Hh Hd].
  destruct e; try done; cbn [loop_step] in Hs.
  - destruct (rn_elect s) eqn:Hp; try done. injection Hs as <-.
    split; cbn; try done; [rewrite Hw; by destruct (timedOut _ _)|].
    intros Hst. split; [by destruct (timedOut _ _)|by apply Hd].
  - destruct (rn_elect s) eqn:Hp; try done. destruct (rn_stop s) eqn:Hst; [|done].
    injection Hs as <-. split; cbn; try done; [cbn in Hw; lia|by rewrite Hst|by rewrite Hst].
  - destruct (rn_heart s) eqn:Hp; try done. by injection Hs as <-.
  - destruct (rn_heart s) eqn:Hp; try done. destruct (rn_stop s) eqn:Hst; [|done].
    injection Hs as <-. split; cbn; try done; [cbn in Hw; lia].
Qed.

Lemma loop_step_inv e s s' : loops_inv s -> loop_step e s = Some s' -> loops_inv s'.
Proof.
  intros Hi Hs. destruct e as [now|dl ok| | | | | | |dl ok args|dl args peer reply|dl ok args|dl ok term reply votes|ok cmd|].
  1,3-5: by eapply tick_step_inv. 2-4: by eapply apply_step_inv.
  all: cbn [loop_step] in Hs.
  - destruct (rn_elect s) eqn:Hp; try done. injection Hs as <-.
    destruct (no_news_inv s (startElection dl ok (rn_node s)).2 Hi (startElection_no_news dl ok _)) as [Hw Ho Ha Hh Hd].
    split; cbn in *; try done; [by rewrite Hw, Hp|]. intros Hst. split; [done|]. by apply Hd.
  - pose proof (AppendEntries_news dl ok args (rn_node s)) as Hn.
    destruct (AppendEntries dl ok args (rn_node s)) as [reply r'].
    injection Hs as <-. destruct Hn. by apply set_node_inv.
  - injection Hs as <-. apply set_node_inv; [done|apply appendReply_applied|]. intros Hlt%Z.ltb_ge. lia.
  - injection Hs as <-. apply no_news_inv; [done|apply RequestVote_no_news].
  - injection Hs as <-. apply no_news_inv; [done|apply voteReply_no_news].
  - injection Hs as <-. apply no_news_inv; [done|apply Start_no_news].
  - injection Hs as <-. destruct (rn_stop s) eqn:Hst; [done|]. destruct Hi as [Hw Ho Ha Hh Hd].
    split; cbn; try done; destruct (rn_apply s); cbn in *; try done; try by destruct Ha.
Qed.

Lemma loop_run_inv es s s' : loops_inv s -> loop_run es s = Some s' -> loops_inv s'.
Proof.
  revert s. induction es as [|e es IH]; intros s Hi Hrun; [by injection Hrun as <-|].
  cbn [loop_run] in Hrun. destruct (loop_step e s) as [s1|] eqn:Hs; [|done].
  eapply IH, Hrun. by eapply loop_step_inv.
Qed.

Lemma loop_run_app es es' s s1 s2 :
  loop_run es s = Some s1 -> loop_run es' s1 = Some s2 -> loop_run (es ++ es') s = Some s2.
Proof.
  revert s. induction es as [|e es IH]; intros s Hr; [by injection Hr as <-|].
  cbn in *. destruct (loop_step e s); [|done]. by apply IH.
Qed.

(** ** Results *)

(** C24. The apply loop never oversleeps and never skips.  From the start of a
    node, in any interleaving of its loops with RPC handlers, replies,
    proposals and [Stop]: the delivered messages are numbered 1, 2, 3, ...
    without gaps; whenever an entry is committed and not applied the loop is
    not asleep on its condition variable (no lost wake-up); and until the node
    is stopped, at most two steps of the loop itself deliver one more message. *)
Theorem apply_never_misses r es s
  (Hr : lastApplied r = 0) (Hrun : loop_run es (Run r) = Some s) :
  numbered (rn_out s) /\
  (lastApplied (rn_node s) < commitIndex (rn_node s) -> rn_apply s <> PWait) /\
  (rn_stop s = false -> lastApplied (rn_node s) < commitIndex (rn_node s) ->
   exists es' s', (length es' <= 2)%nat /\ Forall (fun e => e = LApply \/ e = LSend) es' /\
     loop_run es' s = Some s' /\ length (rn_out s') = S (length (rn_out s))).
Proof.
  destruct (loop_run_inv _ _ _ (Run_inv r Hr) Hrun) as [_ Ho Ha Hh Hd]. split_and!; [done| |].
  - intros Hlt Hp. rewrite Hp in Ha. lia.
  - intros Hst Hlt. destruct (rn_apply s) as [| |msg|] eqn:Hp.
    + destruct (applyNext (rn_node s)) as [[msg r']|] eqn:Hn; [|apply applyNext_none in Hn; lia].
      eexists [LApply; LSend], _. split; [done|].
      split; [apply Forall_cons; split; [by left|]; apply Forall_singleton; by right|].
      cbn. rewrite Hp, Hn. cbn. split; [reflexivity|]. cbn. rewrite length_app. simpl. lia.
    + lia.
    + eexists [LSend], _. split; [simpl; lia|]. split; [apply Forall_singleton; by right|].
      cbn. rewrite Hp. split; [reflexivity|]. cbn. rewrite length_app. simpl. lia.
    + congruence.
Qed.

(** What the loops do by themselves, with nobody receiving from the channel. *)
Definition own_step (e : loop_event) : bool :=
  match e with LElect _ _ | LElectStop | LHeartStop | LApply | LSendStop => true | _ => false end.

(** Steps of each loop to its exit. *)
Lemma elect_exits s :
  rn_stop s = true -> exists es s', (length es <= 2)%nat /\ forallb own_step es = true /\ loop_run es s = Some s' /\
    rn_elect s' = TDone /\ rn_stop s' = true /\ rn_heart s' = rn_heart s /\ rn_apply s' = rn_apply s.
Proof.
  intros Hst. destruct (rn_elect s) eqn:He.
  - eexists [LElectStop], _. split; [simpl; lia|]. split; [done|]. cbn. rewrite He, Hst. by split.
  - eexists [LElect 0 true; LElectStop], _. split; [done|]. split; [done|]. cbn. rewrite He. cbn.
    rewrite Hst. by split.
  - exists [], s. split; [simpl; lia|]. split; [done|]. done.
Qed.

Lemma heart_exits s :
  rn_stop s = true -> rn_heart s <> TAct ->
  exists es s', (length es <= 1)%nat /\ forallb own_step es = true /\ loop_run es s = Some s' /\
    rn_heart s' = TDone /\ rn_stop s' = true /\ rn_elect s' = rn_elect s /\ rn_apply s' = rn_apply s.
Proof.
  intros Hst Hh. destruct (rn_heart s) eqn:He; [|done|].
  - eexists [LHeartStop], _. split; [simpl; lia|]. split; [done|]. cbn. rewrite He, Hst. by split.
  - exists [], s. split; [simpl; lia|]. split; [done|]. done.
Qed.

Lemma apply_exits s :
  rn_stop s = true -> rn_apply s <> PWait ->
  exists es s', (length es <= 2)%nat /\ forallb own_step es = true /\ loop_run es s = Some s' /\
    rn_apply s' = PDone /\ rn_elect s' = rn_elect s /\ rn_heart s' = rn_heart s.
Proof.
  intros Hst Hp. destruct (rn_apply s) as [| |msg|] eqn:He; [|done| |].
  - destruct (applyNext (rn_node s)) as [[msg r']|] eqn:Hn.
    + eexists [LApply; LSendStop], _. split; [done|]. split; [done|]. cbn. rewrite He, Hn. cbn.
      rewrite Hst. by split.
    + eexists [LApply], _. split; [simpl; lia|]. split; [done|]. cbn. rewrite He, Hn, Hst. by split.
  - eexists [LSendStop], _. split; [simpl; lia|]. split; [done|]. cbn. rewrite He, Hst. by split.
  - exists [], s. split; [simpl; lia|]. split; [done|]. done.
Qed.

(** [Stop] cannot hang.  Once the stop channel is closed, whatever the node
    and its peers were doing, at most five steps of the loops themselves, with
    nobody receiving from the apply channel, bring all three to their end and
    the wait group to zero; and the wait group is zero only then. *)
Theorem Stop_never_hangs r es s
  (Hr : lastApplied r = 0) (Hrun : loop_run es (Run r) = Some s) (Hstop : rn_stop s = true) :
  (exists es' s', (length es' <= 5)%nat /\ forallb own_step es' = true /\
     loop_run es' s = Some s' /\ rn_wg s' = 0) /\
  (rn_wg s = 0 <-> rn_elect s = TDone /\ rn_heart s = TDone /\ rn_apply s = PDone).
Proof.
  pose proof (loop_run_inv _ _ _ (Run_inv r Hr) Hrun) as Hi. pose proof Hi as [Hw Ho Ha Hh Hd]. split.
  - destruct (elect_exits s Hstop) as (e1 & s1 & Hl1 & Ho1 & Hr1 & He1 & Hst1 & Hh1 & Hp1).
    destruct (heart_exits s1 Hst1) as (e2 & s2 & Hl2 & Ho2 & Hr2 & Hh2 & Hst2 & He2 & Hp2); [congruence|].
    destruct (apply_exits s2 Hst2) as (e3 & s3 & Hl3 & Ho3 & Hr3 & Hp3 & He3 & Hh3).
    { rewrite Hp2, Hp1. intros Hp. rewrite Hp in Ha. destruct Ha as (_ & _ & ?). congruence. }
    exists (e1 ++ e2 ++ e3), s3. assert (loop_run (e1 ++ e2 ++ e3) s = Some s3) as Hrun3
      by (eapply loop_run_app; [done|]; by eapply loop_run_app).
    split_and!; [rewrite !length_app; lia|by rewrite !forallb_app, Ho1, Ho2, Ho3|done|].
    pose proof (loop_run_inv _ _ _ Hi Hrun3) as [Hw3 _ _ _ _]. rewrite Hw3, He3, He2, He1, Hh3, Hh2, Hp3. done.
  - rewrite Hw. destruct (rn_elect s), (rn_heart s), (rn_apply s); cbn; split; try lia; by (done || intros (? & ? & ?)).
Qed.

(** Election timeouts are sound.  Whatever is configured (a minimum below
    2^62 ns), the heartbeat interval and both election timeouts [New] settles
    on are positive and the maximum exceeds the minimum, so drawing the random
    timeout never panics, and the deadline lies at least the minimum and less
    than the maximum after now. *)
Theorem election_timeout_ok cfg rand now
  (Hmin : electionTimeoutMin cfg < 2 ^ 62) (Hrand : forall n, 0 < n -> 0 <= rand n < n) :
  let t := new_timing cfg in
  0 < heartbeatInterval t /\ 0 < electionTimeoutMin t < electionTimeoutMax t /\
  exists dl, resetElectionDeadline rand now t = Some dl /\
    now + electionTimeoutMin t <= dl < now + electionTimeoutMax t.
Proof.
  intros t.
  assert (0 < heartbeatInterval t) as Hhb.
  { cbn. destruct (Z.leb_spec (heartbeatInterval cfg) 0); unfold DefaultHeartbeatInterval; lia. }
  assert (0 < electionTimeoutMin t < electionTimeoutMax t) as Hmm.
  { unfold t, new_timing. cbn [electionTimeoutMin electionTimeoutMax].
    set (mn := if electionTimeoutMin cfg <=? 0 then _ else _).
    assert (0 < mn < 2 ^ 62) as Hmn
      by (unfold mn, DefaultElectionTimeoutMin; destruct (Z.leb_spec (electionTimeoutMin cfg) 0); lia).
    destruct (Z.leb_spec (electionTimeoutMax cfg) mn); [|lia]. rewrite i64_small by glia. lia. }
  split_and!; try done; [lia|lia|]. unfold resetElectionDeadline.
  destruct (Z.leb_spec (electionTimeoutMax t - electionTimeoutMin t) 0); [lia|].
  eexists. split; [done|]. pose proof (Hrand (electionTimeoutMax t - electionTimeoutMin t)). lia.
Qed.

(** ** A small run *)

(** A follower that has been sent one committed command. *)
Definition ex_follower : Raft := New 1 [2; 3] None None 100.
Definition ex_append : AppendEntriesArgs := mkAE 1 2 0 0 [mkEntry 1 [byte.of_Z 7]] 1.
Definition ex_loop_events : list loop_event := [LApply; LTick 50; LAppend 200 true ex_append].

Definition ex_appended : running :=
  Eval vm_compute in default (Run ex_follower) (loop_run ex_loop_events (Run ex_follower)).
Definition ex_stopping : running :=
  Eval vm_compute in default (Run ex_follower) (loop_run [LApply; LStop] ex_appended).

Lemma ex_appended_run : loop_run ex_loop_events (Run ex_follower) = Some ex_appended.
Proof. vm_compute. reflexivity. Qed.

Lemma ex_stopping_run : loop_run (ex_loop_events ++ [LApply; LStop]) (Run ex_follower) = Some ex_stopping.
Proof. vm_compute. reflexivity. Qed.

Lemma apply_never_misses_witness :
  exists es' s', loop_run es' ex_appended = Some s' /\ length (rn_out s') = 1%nat.
Proof.
  destruct (apply_never_misses ex_follower ex_loop_events ex_appended eq_refl ex_appended_run) as (_ & _ & Hlive).
  destruct (Hlive eq_refl) as (es' & s' & _ & _ & Hrun & Hlen).
  - vm_compute. reflexivity.
  - exists es', s'. exact (conj Hrun Hlen).
Defined.

Lemma Stop_never_hangs_witness :
  exists es' s', loop_run es' ex_stopping = Some s' /\ rn_wg ex_stopping = 3 /\ rn_wg s' = 0.
Proof.
  destruct (Stop_never_hangs ex_follower (ex_loop_events ++ [LApply; LStop]) ex_stopping eq_refl ex_stopping_run eq_refl)
    as [(es' & s' & _ & _ & Hrun & Hw) _].
  exists es', s'. exact (conj Hrun (conj eq_refl Hw)).
Defined.

Lemma election_timeout_ok_witness :
  exists dl, resetElectionDeadline (fun n => n - 1) 1000 (new_timing (mkTiming 0 0 0)) = Some dl /\
    dl < 1000 + DefaultElectionTimeoutMax.
Proof.
  destruct (election_timeout_ok (mkTiming 0 0 0) (fun n => n - 1) 1000) as (_ & _ & dl & Hdl & _ & Hlt).
  - vm_compute. reflexivity.
  - intros n Hn. lia.
  - exists dl. split; [exact Hdl|exact Hlt].
Defined.

(** Beyond that bound the doubling overflows and drawing a timeout panics. *)
Lemma election_timeout_overflow rand now :
  resetElectionDeadline rand now (new_timing (mkTiming 0 (2 ^ 62) 0)) = None.
Proof. reflexivity. Qed.
