(* ===== verification/RaftStorage.v ===== *)
(** * RaftStorage: the [Storage] of a Raft node ([internal/raft/storage.go])

    [Raft.v] keeps what [Storage] holds as an [option PersistentState].  This
    file states what that relies on as an interface, and discharges it for the
    two implementations: [MemoryStorage], and [FileStorage] over the same
    two-name file system as [ConsumerOffset], with a crash between any two
    system calls.  [encoding/gob] is a parameter: an encoder, a decoder, and
    the round trip between them. *)

From Stdlib Require Import ZArith Lia Strings.String.
From stdpp Require Import base list list_numbers numbers option gmap sorting.
From coqutil Require Import Byte.
From S2P Require Import Prelude Bytes Golib ConsumerOffset Raft.

Local Open Scope Z_scope.

(** ** The interface *)

(** [Storage]: [st_save] returns the error and every state the call passes
    through; [st_crash] relates a state to what a restart finds. *)
Class Storage (Io St : Type) := {
  st_save : Io -> PersistentState -> St -> outcome * list St;
  st_load : outcome -> St -> result (option PersistentState);
  st_crash : St -> St -> Prop
}.

(** [st_holds s vs v]: [s] reads back as [v], and as one of [vs] after a crash. *)
Class StorageOk (Io St : Type) `{Storage Io St} := {
  st_holds : St -> list (option PersistentState) -> option PersistentState -> Prop;
  st_load_holds : forall s vs v, st_holds s vs v -> st_load None s = Ok v;
  st_crash_holds : forall s vs v s', st_holds s vs v -> st_crash s s' ->
    exists v', v' ∈ vs /\ st_load None s' = Ok v';
  st_save_holds : forall io ps s vs v, st_holds s vs v ->
    Forall (fun s' => st_holds s' (vs ++ [Some ps]) v \/ st_holds s' (vs ++ [Some ps]) (Some ps))
      (snd (st_save io ps s)) /\
    (fst (st_save io ps s) = None ->
     exists s', last (snd (st_save io ps s)) = Some s' /\ st_holds s' [Some ps] (Some ps))
}.

(** ** [MemoryStorage] *)

Record MemoryStorage := mkMemory { saved : option PersistentState }.

Definition Mem_Save (ps : PersistentState) (m : MemoryStorage) : outcome * MemoryStorage :=
  (None, mkMemory (Some ps)).
Definition Mem_Load (m : MemoryStorage) : result (option PersistentState) := Ok (saved m).

(** A restart in the tests keeps the object. *)
#[export] Instance memory_storage : Storage unit MemoryStorage := {
  st_save _ ps m := let '(err, m') := Mem_Save ps m in (err, [m; m']);
  st_load _ m := Mem_Load m;
  st_crash m m' := m' = m
}.

#[export] Instance memory_storage_ok : StorageOk unit MemoryStorage.
Proof.
  refine {| st_holds := fun m vs v => saved m = v /\ v ∈ vs |}.
  - intros m vs v [<- _]. done.
  - intros m vs v m' [<- Hin] ->. by exists (saved m).
  - intros io ps m vs v [Hv Hin]. cbn. split.
    + repeat apply Forall_cons_2; [left|right|apply Forall_nil_2]; (split; [done|]); apply elem_of_app; [by left|].
      right. by left.
    + intros _. exists (mkMemory (Some ps)). split; [done|]. split; [done|by left].
Defined.

(** ** [FileStorage] *)

Section file_storage.
Context (encode : PersistentState -> result (list byte)) (decode : list byte -> result PersistentState).

(** [FileStorage.Save] *)
Definition File_Save (io : offset_io) (state : PersistentState) (s : ofs) : outcome * list ofs :=
  match encode state with
  | Err e => (Some (Wrap "raft: encode state" e), [s])
  | Ok buf =>
      match of_open io with
      | Some e => (Some (Wrap "raft: open tmp" e), [s])
      | None =>
          let s1 := ofs_open s in
          let '(werr, f2) := f_append (of_write io) buf empty_file in
          let s2 := ofs_set_tmp f2 s1 in
          match werr with
          | Some e => (Some (Wrap "raft: write state" e), [s; s1; s2])
          | None =>
              match of_sync io with
              | Some e => (Some (Wrap "raft: fsync state" e), [s; s1; s2])
              | None =>
                  let f3 := f_sync_upto (length (f_data f2)) f2 in
                  let s3 := ofs_set_tmp f3 s2 in
                  match of_close io with
                  | Some e => (Some (Wrap "raft: close tmp" e), [s; s1; s2; s3])
                  | None =>
                      match of_rename io with
                      | Some e => (Some (Wrap "raft: rename state" e), [s; s1; s2; s3])
                      | None =>
                          let s4 := ofs_rename f3 s3 in
                          match of_dir io with
                          | Some e => (Some e, [s; s1; s2; s3; s4])
                          | None => (None, [s; s1; s2; s3; s4; ofs_dirsync s4])
                          end
                      end
                  end
              end
          end
      end
  end.

(** [FileStorage.Load] *)
Definition File_Load (rd : outcome) (f : option file) : result (option PersistentState) :=
  match f with
  | None => Ok None
  | Some f =>
      match rd with
      | Some e => Err (Wrap "raft: read state" e)
      | None =>
          match decode (f_data f) with
          | Err e => Err (Wrap "raft: decode state" e)
          | Ok state => Ok (Some state)
          end
      end
  end.

Context (gob : forall ps bs, encode ps = Ok bs -> decode bs = Ok ps).

(** A fully fsynced encoding, or no file. *)
Definition file_holds (f : option file) (v : option PersistentState) : Prop :=
  match f, v with
  | None, None => True
  | Some f, Some ps => encode ps = Ok (f_data f) /\ f_synced f = length (f_data f)
  | _, _ => False
  end.

Definition store_holds (s : ofs) (vs : list (option PersistentState)) (v : option PersistentState) : Prop :=
  Forall (fun f => exists x, x ∈ vs /\ file_holds f x) (o_durable s) /\ file_holds (o_main s) v.

Lemma load_holds f v : file_holds f v -> File_Load None f = Ok v.
Proof.
  destruct f as [f|], v as [ps|]; cbn [file_holds File_Load]; try done. intros [He _]. by rewrite (gob _ _ He).
Qed.

Lemma store_holds_weaken s vs vs' v :
  (forall x, x ∈ vs -> x ∈ vs') -> store_holds s vs v -> store_holds s vs' v.
Proof.
  intros Hsub [Hall Hm]. split; [|done]. eapply Forall_impl; [exact Hall|]. intros f (x&Hx&?). exists x. auto.
Qed.

Lemma store_crash_load s vs v f : store_holds s vs v -> ofs_crash s f ->
  exists x, x ∈ vs /\ File_Load None f = Ok x.
Proof.
  intros [Hall _] (g&Hg&Hf). rewrite Forall_forall in Hall. destruct (Hall g Hg) as (x&Hx&Hh).
  exists x. split; [done|]. apply load_holds. destruct g as [g|]; [|by subst f].
  destruct Hf as (k&Hk&->). destruct x as [ps|]; [|done]. destruct Hh as [He Hs]. cbn [file_holds f_data f_synced].
  rewrite take_ge by lia. done.
Qed.

Lemma File_Save_trace io ps s vs v : store_holds s vs v ->
  let r := File_Save io ps s in
  Forall (fun s' => store_holds s' (vs ++ [Some ps]) v \/ store_holds s' (vs ++ [Some ps]) (Some ps)) (snd r) /\
  (fst r = None -> exists s', last (snd r) = Some s' /\ store_holds s' [Some ps] (Some ps)).
Proof.
  intros Hs. set (P := fun s' => store_holds s' (vs ++ [Some ps]) v \/ store_holds s' (vs ++ [Some ps]) (Some ps)).
  assert (store_holds s (vs ++ [Some ps]) v) as Hs'
    by (eapply store_holds_weaken; [|exact Hs]; intros x ?; apply elem_of_app; by left).
  assert (forall m, P (mkOfs (o_main s) m (o_durable s))) as Htmp by (intros m; left; apply Hs').
  assert (P s) as H0 by by left.
  unfold File_Save. cbn zeta. destruct (encode ps) as [buf|e] eqn:He; [|by split; [solve_trace H0 Htmp|]].
  set (new := mkFile buf (length buf)). assert (file_holds (Some new) (Some ps)) as Hnew by done.
  assert (P (mkOfs (Some new) None (o_durable s ++ [Some new]))) as Hren.
  { right. split; [|done]. cbn. apply Forall_app. split; [apply Hs'|]. apply Forall_singleton.
    exists (Some ps). split; [apply elem_of_app; right; by left|done]. }
  assert (store_holds (mkOfs (Some new) None [Some new]) [Some ps] (Some ps)) as Hdir.
  { split; [|done]. apply Forall_singleton. exists (Some ps). by split; [left|]. }
  assert (P (mkOfs (Some new) None [Some new])) as Hdir'.
  { right. eapply store_holds_weaken; [|exact Hdir]. intros x Hx. apply elem_of_app. by right. }
  destruct (of_open io); [by split; [solve_trace H0 Htmp|]|].
  destruct (of_write io) as [|k e]; cbn [f_append]; [|by split; [solve_trace H0 Htmp|]].
  destruct (of_sync io); [by split; [solve_trace H0 Htmp|]|].
  destruct (of_close io); [by split; [solve_trace H0 Htmp|]|].
  destruct (of_rename io); [by split; [solve_trace H0 Htmp|]|].
  change (f_sync_upto _ _) with (f_sync_upto (length buf) (mkFile buf 0)).
  assert (f_sync_upto (length buf) (mkFile buf 0) = new) as ->.
  { unfold f_sync_upto, new. cbn. f_equal; lia. }
  destruct (of_dir io); (split; [solve_trace H0 Htmp|]); [done|].
  intros _. eexists. split; [done|exact Hdir].
Qed.

(** A crash keeps one of the durable versions under the real name. *)
Definition file_storage : Storage offset_io ofs := {|
  st_save := File_Save;
  st_load rd s := File_Load rd (o_main s);
  st_crash s s' := ofs_crash s (o_main s')
|}.

Definition file_storage_ok : @StorageOk offset_io ofs file_storage.
Proof.
  refine (@Build_StorageOk _ _ file_storage store_holds _ _ _).
  - intros s vs v [_ Hm]. by apply load_holds.
  - intros s vs v s' Hs Hc. by eapply store_crash_load.
  - intros io ps s vs v. apply File_Save_trace.
Defined.

End file_storage.

(** What the interface gives its user: a crash at any point of a [Save] leaves
    the state saved before or the one being saved, and after a successful [Save]
    only the new state can be found. *)
Lemma storage_save_atomic (Io St : Type) `{StorageOk Io St} (io : Io) ps (s s1 s2 : St) vs v :
  st_holds s vs v -> s1 ∈ snd (st_save io ps s) -> st_crash s1 s2 ->
  (exists v', v' ∈ vs ++ [Some ps] /\ st_load None s2 = Ok v') /\
  (fst (st_save io ps s) = None ->
   exists s', last (snd (st_save io ps s)) = Some s' /\ st_load None s' = Ok (Some ps) /\
     forall s'', st_crash s' s'' -> st_load None s'' = Ok (Some ps)).
Proof.
  intros Hs Hin Hcr. destruct (st_save_holds io ps s vs v Hs) as [Htr Hfin]. split.
  - rewrite Forall_forall in Htr. destruct (Htr s1 Hin) as [Hh|Hh]; by eapply st_crash_holds.
  - intros Hok. destruct (Hfin Hok) as (s'&Hl&Hh). exists s'. split_and!; [done|by eapply st_load_holds|].
    intros s'' Hc. destruct (st_crash_holds _ _ _ _ Hh Hc) as (v'&Hv'&->).
    by apply list_elem_of_singleton in Hv' as ->.
Qed.

(** C26. [FileStorage] keeps a node's term, vote and log through crashes, for any
    encoding that decodes back.  Let the file hold [v] (one of [vs] after a crash).
    Crash after any system call of a [Save], whatever calls fail: [Load] then finds
    the state saved before or the one being saved, never a torn one or an error.
    After a [Save] that returned success only the new state can be found, and a node
    that [New] starts from it has the saved term, vote and log. *)
Theorem file_storage_atomic encode decode io ps s vs v s1 f id peers dl
  (gob : forall ps bs, encode ps = Ok bs -> decode bs = Ok ps)
  (Hs : store_holds encode s vs v) (Hin : s1 ∈ snd (File_Save encode io ps s)) (Hcr : ofs_crash s1 f) :
  (exists v', v' ∈ vs ++ [Some ps] /\ File_Load decode None f = Ok v') /\
  (fst (File_Save encode io ps s) = None ->
   exists s', last (snd (File_Save encode io ps s)) = Some s' /\
     forall g, ofs_crash s' g -> File_Load decode None g = Ok (Some ps) /\
       (ps_Log ps <> [] ->
        let r := New id peers None (Some ps) dl in
        r_log r = ps_Log ps /\ currentTerm r = ps_CurrentTerm ps /\ votedFor r = ps_VotedFor ps)).
Proof.
  destruct (@storage_save_atomic offset_io ofs (file_storage encode decode) (file_storage_ok encode decode gob)
    io ps s s1 (mkOfs f None []) vs v Hs Hin Hcr) as [Hold Hnew].
  split; [exact Hold|]. intros Hok. destruct (Hnew Hok) as (s'&Hl&_&Hload). exists s'. split; [exact Hl|].
  intros g Hg. split; [exact (Hload (mkOfs g None []) Hg)|]. intros Hne. cbn.
  by destruct (ps_Log ps).
Qed.

(** ** Witness: term and vote of a node with an empty log, 8 bytes each *)

Definition ex_encode (ps : PersistentState) : result (list byte) :=
  if decide (ps_Log ps = [mkEntry 0 []] /\ 0 <= ps_CurrentTerm ps < 2 ^ 64 /\ 0 <= ps_VotedFor ps < 2 ^ 64)
  then Ok (PutUint64 (ps_CurrentTerm ps) ++ PutUint64 (ps_VotedFor ps)) else Err (Msg "unsupported").
Definition ex_decode (bs : list byte) : result PersistentState :=
  Ok (mkPersistent (Uint64 (take 8 bs)) (Uint64 (take 8 (drop 8 bs))) [mkEntry 0 []]).

Lemma ex_gob ps bs : ex_encode ps = Ok bs -> ex_decode bs = Ok ps.
Proof.
  unfold ex_encode, ex_decode. destruct (decide _) as [(Hl&Ht&Hv)|]; [|done]. intros E.
  assert (bs = PutUint64 (ps_CurrentTerm ps) ++ PutUint64 (ps_VotedFor ps)) as -> by congruence.
  rewrite take_app_length' by by rewrite length_PutUint64. rewrite drop_app_length' by by rewrite length_PutUint64.
  rewrite take_ge by by rewrite length_PutUint64.
  rewrite <- (app_nil_r (PutUint64 (ps_CurrentTerm ps))), <- (app_nil_r (PutUint64 (ps_VotedFor ps))).
  rewrite !Uint64_Put by done. destruct ps. cbn in *. by subst.
Qed.

Definition ex_state : PersistentState := mkPersistent 7 2 [mkEntry 0 []].
Definition ex_new : file := mkFile (PutUint64 7 ++ PutUint64 2) 16.

Lemma file_storage_atomic_witness :
  (exists v', v' ∈ [None; Some ex_state] /\ File_Load ex_decode None (Some ex_new) = Ok v') /\
  fst (File_Save ex_encode offset_io_ok ex_state ofs_empty) = None.
Proof.
  split; [|reflexivity].
  apply (file_storage_atomic ex_encode ex_decode offset_io_ok ex_state ofs_empty [None] None
           (mkOfs (Some ex_new) None [None; Some ex_new]) (Some ex_new) 0 [1; 2] 0 ex_gob).
  - split; [|exact I]. apply Forall_singleton. exists None. split; [by left|exact I].
  - cbn. do 4 right. left.
  - exists (Some ex_new). split; [right; left|]. exists 16%nat. split; [cbn; lia|reflexivity].
Defined.

(** [MemoryStorage] through the same interface. *)
Lemma memory_storage_atomic ps (m m1 m2 : MemoryStorage) :
  m1 ∈ snd (st_save tt ps m) -> st_crash m1 m2 ->
  exists v', v' ∈ [saved m; Some ps] /\ Mem_Load m2 = Ok v'.
Proof.
  intros Hin Hcr.
  destruct (@storage_save_atomic unit MemoryStorage _ _ tt ps m m1 m2 [saved m] (saved m)) as [H _]; [|done..|exact H].
  split; [done|by left].
Qed.
