(* ===== verification/RaftCluster.v ===== *)
(** * RaftCluster: the nodes of [internal/raft] together

    A cluster is the members' nodes, the RPCs the [Transport] carries and the
    goroutines of [startElection] that wait for replies.  A run is a list of
    [event]s, each one critical section of one node: the network may lose,
    delay, reorder and repeat requests, a member may crash at any point and
    come back from its [Storage].  [Save] and [Load] succeed in these runs and
    no term reaches [2^64].

    [history] is not part of the program: it records what happened (candidates'
    logs, votes, reigns, acknowledgements) so that invariants can refer to it;
    no event reads it. *)

From Stdlib Require Import ZArith Lia Strings.Byte Strings.String.
From stdpp Require Import base list list_numbers numbers option gmap sorting.
From coqutil Require Import Byte.
From S2P Require Import Prelude Bytes Raft.

Local Open Scope Z_scope.

(** ** History *)

Record vote := mkVote { v_voter : Z; v_term : Z; v_cand : Z; v_log : list LogEntry }.

(** The leadership of one term: who, with which log it won, the votes cast by
    then, and its log since. *)
Record reign := mkReign {
  g_leader : Z;
  g_init : list LogEntry;
  g_ballots : list vote;
  g_log : list LogEntry
}.

Record history := mkHistory {
  h_cands : gmap (Z * Z) (list LogEntry);
  h_votes : list vote;
  h_terms : gmap Z reign;
  h_acks : list (Z * Z * nat)
}.

(** ** The cluster *)

Record cluster := mkCluster {
  nodes : gmap Z Raft;
  rv_sent : list (Z * RequestVoteArgs);
  rv_replies : list (Z * RequestVoteArgs * RequestVoteReply);
  ae_sent : list (Z * AppendEntriesArgs);
  ae_replies : list (Z * AppendEntriesArgs * AppendEntriesReply);
  tallies : gmap (Z * Z) (Z * list Z);
  applied : gmap Z (list ApplyMsg);
  hist : history
}.

(** [Config.Peers]: the other members. *)
Definition peers_of (ids : list Z) (id : Z) : list Z := filter (fun p => p <> id) ids.

Definition boot (ids : list Z) : cluster :=
  mkCluster (list_to_map ((fun id => (id, New id (peers_of ids id) None None 0)) <$> ids))
    [] [] [] [] ∅ ∅ (mkHistory ∅ [] ∅ []).

Inductive event :=
| ETimeout (id dl : Z)                  (* [electionLoop] calls [startElection] *)
| ERequestVote (k : nat) (dl : Z)       (* request [k] reaches its peer *)
| EVoteReply (k : nat) (dl : Z)         (* reply [k] reaches the candidate's goroutine *)
| EStart (id : Z) (command : list byte) (* a client proposes a command *)
| EReplicate (id peer : Z)              (* [replicateTo] sends *)
| EAppend (k : nat) (dl : Z)            (* request [k] reaches its follower *)
| EAppendReply (k : nat) (dl : Z)       (* reply [k] reaches [replicateTo] *)
| EApply (id : Z)                       (* [applyLoop] delivers *)
| ECrash (id dl : Z).                   (* the process dies; [New] starts it again *)

(** ** History updates *)

Definition note_candidate (id : Z) (r : Raft) (h : history) : history :=
  mkHistory (<[(id, currentTerm r) := r_log r]> (h_cands h))
    (mkVote id (currentTerm r) id (r_log r) :: h_votes h) (h_terms h) (h_acks h).

Definition note_vote (to : Z) (args : RequestVoteArgs) (reply : RequestVoteReply) (r : Raft) (h : history)
    : history :=
  if VoteGranted reply
  then mkHistory (h_cands h) (mkVote to (rv_Term args) (CandidateID args) (r_log r) :: h_votes h) (h_terms h)
         (h_acks h)
  else h.

Definition note_win (id : Z) (r r' : Raft) (h : history) : history :=
  if bool_decide (r_state r' = Leader) && negb (bool_decide (r_state r = Leader))
  then mkHistory (h_cands h) (h_votes h)
         (<[currentTerm r' := mkReign id (r_log r')
              (filter (fun b => v_term b = currentTerm r' /\ v_cand b = id) (h_votes h)) (r_log r')]> (h_terms h))
         (h_acks h)
  else h.

Definition note_start (id : Z) (r : Raft) (h : history) : history :=
  mkHistory (h_cands h) (h_votes h)
    (alter (fun g => mkReign (g_leader g) (g_init g) (g_ballots g) (r_log r)) (currentTerm r) (h_terms h))
    ((id, currentTerm r, Z.to_nat (lastIndex (r_log r))) :: h_acks h).

Definition note_ack (to : Z) (args : AppendEntriesArgs) (reply : AppendEntriesReply) (h : history) : history :=
  if Success reply
  then mkHistory (h_cands h) (h_votes h) (h_terms h)
         ((to, ae_Term args, Z.to_nat (PrevLogIndex args + zlen (Entries args))) :: h_acks h)
  else h.

(** ** Steps *)

Definition exec (ev : event) (c : cluster) : option cluster :=
  match ev with
  | ETimeout id dl =>
      r ← nodes c !! id;
      if currentTerm r + 1 <? 2 ^ 64 then
        let '(args, r') := startElection dl true r in
        Some (mkCluster (<[id := r']> (nodes c))
                (rv_sent c ++ ((fun p => (p, args)) <$> r_peers r')) (rv_replies c) (ae_sent c) (ae_replies c)
                (<[(id, currentTerm r') := (1, r_peers r')]> (tallies c)) (applied c)
                (note_candidate id r' (hist c)))
      else None
  | ERequestVote k dl =>
      '(to, args) ← rv_sent c !! k;
      r ← nodes c !! to;
      let '(reply, r') := RequestVote dl true args r in
      Some (mkCluster (<[to := r']> (nodes c)) (rv_sent c) (rv_replies c ++ [(to, args, reply)]) (ae_sent c)
              (ae_replies c) (tallies c) (applied c) (note_vote to args reply r' (hist c)))
  | EVoteReply k dl =>
      '(from, args, reply) ← rv_replies c !! k;
      let id := CandidateID args in
      r ← nodes c !! id;
      '(votes, waiting) ← tallies c !! (id, rv_Term args);
      if decide (from ∈ (waiting : list Z)) then
        let '(votes', r') := voteReply dl true (rv_Term args) reply votes r in
        Some (mkCluster (<[id := r']> (nodes c)) (rv_sent c) (rv_replies c) (ae_sent c) (ae_replies c)
                (<[(id, rv_Term args) := (votes', filter (fun p => p <> from) waiting)]> (tallies c)) (applied c)
                (note_win id r r' (hist c)))
      else None
  | EStart id command =>
      r ← nodes c !! id;
      let '((_, _, isLeader), r') := Start true command r in
      Some (mkCluster (<[id := r']> (nodes c)) (rv_sent c) (rv_replies c) (ae_sent c) (ae_replies c) (tallies c)
              (applied c) (if isLeader : bool then note_start id r' (hist c) else hist c))
  | EReplicate id peer =>
      r ← nodes c !! id;
      if decide (peer ∈ (r_peers r : list Z)) then
        args ← replicateArgs peer r;
        Some (mkCluster (nodes c) (rv_sent c) (rv_replies c) (ae_sent c ++ [(peer, args)]) (ae_replies c)
                (tallies c) (applied c) (hist c))
      else None
  | EAppend k dl =>
      '(to, args) ← ae_sent c !! k;
      r ← nodes c !! to;
      let '(reply, r') := AppendEntries dl true args r in
      Some (mkCluster (<[to := r']> (nodes c)) (rv_sent c) (rv_replies c) (ae_sent c)
              (ae_replies c ++ [(to, args, reply)]) (tallies c) (applied c) (note_ack to args reply (hist c)))
  | EAppendReply k dl =>
      '(from, args, reply) ← ae_replies c !! k;
      let id := LeaderID args in
      r ← nodes c !! id;
      Some (mkCluster (<[id := appendReply dl args from reply r]> (nodes c)) (rv_sent c) (rv_replies c)
              (ae_sent c) (ae_replies c) (tallies c) (applied c) (hist c))
  | EApply id =>
      r ← nodes c !! id;
      '(msg, r') ← applyNext r;
      Some (mkCluster (<[id := r']> (nodes c)) (rv_sent c) (rv_replies c) (ae_sent c) (ae_replies c) (tallies c)
              (<[id := default [] (applied c !! id) ++ [msg]]> (applied c)) (hist c))
  | ECrash id dl =>
      r ← nodes c !! id;
      Some (mkCluster (<[id := New id (r_peers r) None (storage r) dl]> (nodes c)) (rv_sent c) (rv_replies c)
              (ae_sent c) (ae_replies c) (filter (fun kv => fst (fst kv) <> id) (tallies c))
              (<[id := []]> (applied c)) (hist c))
  end.

Fixpoint run (evs : list event) (c : cluster) : option cluster :=
  match evs with
  | [] => Some c
  | ev :: evs' => c' ← exec ev c; run evs' c'
  end.

(** ** A three-member run: election, replication, commit, crash of the leader,
    a second election *)

Definition ex_ids : list Z := [0; 1; 2].

Definition ex_first : list event :=
  [ETimeout 0 10; ERequestVote 0 10; EVoteReply 0 10;
   EStart 0 [Byte.x01]; EReplicate 0 1; EAppend 0 20; EAppendReply 0 20; EApply 0;
   EReplicate 0 1; EAppend 1 20; EApply 1].

Definition ex_second : list event :=
  [ECrash 0 30; ETimeout 1 40; ERequestVote 3 40; EVoteReply 1 40;
   EStart 1 [Byte.x02]; EReplicate 1 2; EAppend 2 50; EAppendReply 2 50; EReplicate 1 2; EAppend 3 50;
   EAppendReply 3 50; EApply 1; EReplicate 1 0; EAppend 4 60].

Definition ex_mid : cluster := default (boot ex_ids) (run ex_first (boot ex_ids)).
Definition ex_end : cluster := default (boot ex_ids) (run ex_second ex_mid).
