(* ===== verification/RaftLog.v ===== *)
(** * RaftLog: replicated logs compared by prefix

    [agree k l L]: both logs have at least [k] entries and the first [k] are
    equal.  [log_ok h l]: every entry of [l] sits on a prefix of the log of
    the leader of its term, as recorded in the history.  The loop of
    [AppendEntries] is specified in these terms. *)

From Stdlib Require Import ZArith Lia Strings.Byte Strings.String.
From stdpp Require Import base list list_numbers numbers option gmap sorting.
From coqutil Require Import Byte.
From S2P Require Import Prelude Bytes Raft RaftCluster.

Local Open Scope Z_scope.

(** ** Prefix agreement *)

Definition agree (k : nat) (l L : list LogEntry) : Prop :=
  (k <= length l)%nat /\ (k <= length L)%nat /\ take k l = take k L.

#[export] Instance agree_dec k l L : Decision (agree k l L).
Proof. unfold agree. apply _. Defined.

Lemma agree_refl l k : (k <= length l)%nat -> agree k l l.
Proof. done. Qed.

Lemma agree_sym k l L : agree k l L -> agree k L l.
Proof. intros (?&?&?). done. Qed.

Lemma agree_trans k l1 l2 l3 : agree k l1 l2 -> agree k l2 l3 -> agree k l1 l3.
Proof. intros (?&?&E) (?&?&E'). split_and!; [done..|]. by rewrite E. Qed.

Lemma agree_le k k' l L : (k' <= k)%nat -> agree k l L -> agree k' l L.
Proof.
  intros Hk (?&?&E). split_and!; [lia..|].
  assert (take k' (take k l) = take k' (take k L)) as E' by by rewrite E.
  rewrite !take_take in E'. by replace (k' `min` k)%nat with k' in E' by lia.
Qed.

Lemma prefix_agree k (l L : list LogEntry) : l `prefix_of` L -> (k <= length l)%nat -> agree k l L.
Proof.
  intros [x ->] Hk. split_and!; [done|rewrite length_app; lia|]. by rewrite take_app_le by lia.
Qed.

Lemma agree_take k (L : list LogEntry) : (k <= length L)%nat -> agree k (take k L) L.
Proof.
  intros Hk. split_and!; [rewrite length_take; lia|done|]. rewrite take_take. by rewrite Nat.min_id.
Qed.

Lemma agree_lookup k l L i : agree k l L -> (i < k)%nat -> l !! i = L !! i.
Proof. intros (_&_&E) Hi. rewrite <- (lookup_take_lt l k i), E by done. by apply lookup_take_lt. Qed.

Lemma agree_prefix_r k l L L' : agree k l L -> L `prefix_of` L' -> agree k l L'.
Proof. intros HA HP. eapply agree_trans; [exact HA|]. apply prefix_agree; [done|by destruct HA as (_&?&_)]. Qed.

Lemma agree_prefix_l k l l' L : agree k l L -> l `prefix_of` l' -> agree k l' L.
Proof. intros HA HP. apply agree_sym. eapply agree_prefix_r; [by apply agree_sym|done]. Qed.

(** Agreement on [L'] cut back to a prefix long enough. *)
Lemma agree_back k l L L' : agree k l L' -> L `prefix_of` L' -> (k <= length L)%nat -> agree k l L.
Proof. intros HA HP Hk. eapply agree_trans; [exact HA|]. apply agree_sym. by apply prefix_agree. Qed.

Lemma agree_snoc k l L e : agree k l L -> l !! k = Some e -> L !! k = Some e -> agree (S k) l L.
Proof.
  intros (?&?&E) Hl HL. pose proof (lookup_lt_Some _ _ _ Hl). pose proof (lookup_lt_Some _ _ _ HL).
  split_and!; [lia..|]. by rewrite (take_S_r _ _ _ Hl), (take_S_r _ _ _ HL), E.
Qed.

(** ** The last entry *)

Definition tlast (l : list LogEntry) : Z := term_at l (lastIndex l).

(** The election restriction, on logs. *)
Definition up_to_date (lv lc : list LogEntry) : Prop :=
  tlast lv < tlast lc \/ tlast lv = tlast lc /\ (length lv <= length lc)%nat.

Lemma candidateUpToDate_spec args r lc :
  LastLogIndex args = lastIndex lc -> LastLogTerm args = tlast lc ->
  candidateUpToDate args r = true <-> up_to_date (r_log r) lc.
Proof.
  intros Hi Ht. unfold candidateUpToDate, lastLogTermIndex, up_to_date.
  fold (tlast (r_log r)). rewrite Hi, Ht. assert (forall l, lastIndex l = Z.of_nat (length l) - 1) as Hx by done.
  rewrite !Hx.
  destruct (Z.eqb_spec (tlast lc) (tlast (r_log r))) as [->|]; cbn [negb].
  - rewrite Z.leb_le. split; [intros; right; split; [done|lia]|intros [?|[_ ?]]; lia].
  - rewrite Z.ltb_lt. split; [by left|intros [?|[? _]]; [done|lia]].
Qed.

Lemma tlast_lookup l : l <> [] -> exists e, l !! (length l - 1)%nat = Some e /\ tlast l = e_Term e.
Proof.
  intros Hl. destruct (lookup_lt_is_Some_2 l (length l - 1)) as [e He]; [destruct l; [done|simpl; lia]|].
  exists e. split; [done|]. unfold tlast, term_at, lastIndex, zlen.
  replace (Z.to_nat (Z.of_nat (length l) - 1)) with (length l - 1)%nat by lia. by rewrite He.
Qed.

Lemma term_at_lookup l (i : nat) e : l !! i = Some e -> term_at l (Z.of_nat i) = e_Term e.
Proof. intros H. unfold term_at. by rewrite Nat2Z.id, H. Qed.

(** ** Well-formed logs *)

Definition log_ok (h : history) (l : list LogEntry) : Prop :=
  l !! 0%nat = Some (mkEntry 0 []) /\
  forall i e, l !! S i = Some e -> exists g, h_terms h !! e_Term e = Some g /\ agree (S (S i)) l (g_log g).

(** Reigns of [h] continue in [h']. *)
Definition terms_le (h h' : history) : Prop :=
  forall T g, h_terms h !! T = Some g ->
    exists g', h_terms h' !! T = Some g' /\ g_leader g' = g_leader g /\ g_init g' = g_init g /\
      g_ballots g' = g_ballots g /\ g_log g `prefix_of` g_log g'.

Lemma terms_le_refl h : terms_le h h.
Proof. intros T g Hg. by exists g. Qed.

Lemma terms_le_same h h' : h_terms h' = h_terms h -> terms_le h h'.
Proof. intros E T g Hg. exists g. by rewrite E. Qed.

Lemma terms_le_trans h1 h2 h3 : terms_le h1 h2 -> terms_le h2 h3 -> terms_le h1 h3.
Proof.
  intros H12 H23 T g Hg. destruct (H12 _ _ Hg) as (g2&Hg2&?&?&?&?).
  destruct (H23 _ _ Hg2) as (g3&Hg3&?&?&?&?). exists g3. split_and!; [done|congruence..|by etrans].
Qed.

Lemma log_ok_nonempty h l : log_ok h l -> (1 <= length l)%nat.
Proof. intros [H0 _]. by apply lookup_lt_Some in H0. Qed.

Lemma log_ok_mono h h' l : terms_le h h' -> log_ok h l -> log_ok h' l.
Proof.
  intros Hle [H0 Hl]. split; [done|]. intros i e He. destruct (Hl i e He) as (g&Hg&HA).
  destruct (Hle _ _ Hg) as (g'&Hg'&_&_&_&HP). exists g'. split; [done|]. by eapply agree_prefix_r.
Qed.

Lemma log_ok_agree h k l L : (1 <= k)%nat -> agree k l L -> length l = k -> log_ok h L -> log_ok h l.
Proof.
  intros Hk HA Hlen [H0 HL]. split; [by rewrite (agree_lookup _ _ _ _ HA) by lia|].
  intros i e He. pose proof (lookup_lt_Some _ _ _ He).
  rewrite (agree_lookup _ _ _ _ HA) in He by lia. destruct (HL i e He) as (g&Hg&HAg).
  exists g. split; [done|]. eapply agree_trans; [|exact HAg]. eapply agree_le; [|exact HA]. lia.
Qed.

(** Log matching: the same index and term give the same prefix. *)
Lemma log_matching h l L i e e' :
  log_ok h l -> log_ok h L -> l !! i = Some e -> L !! i = Some e' -> e_Term e = e_Term e' -> agree (S i) l L.
Proof.
  intros [Hl0 Hl] [HL0 HL] He He' Ht. destruct i as [|i].
  - pose proof (lookup_lt_Some _ _ _ He). pose proof (lookup_lt_Some _ _ _ He').
    split_and!; [done..|]. by rewrite (take_S_r _ _ _ Hl0), (take_S_r _ _ _ HL0), !take_0.
  - destruct (Hl _ _ He) as (g&Hg&HA), (HL _ _ He') as (g'&Hg'&HA').
    rewrite Ht, Hg' in Hg. simplify_eq. eapply agree_trans; [exact HA|by apply agree_sym].
Qed.

(** The whole of a log with a real last entry is a prefix of that term's. *)
Lemma log_ok_last h l : log_ok h l -> tlast l <> 0 ->
  exists g, h_terms h !! tlast l = Some g /\ agree (length l) l (g_log g).
Proof.
  intros Hok Ht. pose proof (log_ok_nonempty _ _ Hok). destruct Hok as [H0 Hl].
  destruct (tlast_lookup l) as (e&He&Hte); [by intros ->|].
  destruct (length l) as [|[|n]] eqn:Hn; [lia| |].
  - change (1 - 1)%nat with 0%nat in He. rewrite H0 in He. simplify_eq.
  - replace (S (S n) - 1)%nat with (S n) in He by lia. rewrite Hte. by apply Hl.
Qed.

(** ** The append loop *)

Lemma appendFrom_spec h l L idx entries :
  log_ok h l -> log_ok h L -> agree idx l L ->
  entries = take (length entries) (drop idx L) -> (idx + length entries <= length L)%nat ->
  let '(l', changed) := appendFrom l idx entries in
  agree (idx + length entries) l' L /\
  (forall k, agree k l L -> agree k l' L) /\
  (changed = false -> l' = l) /\ (changed = true -> l' = take (idx + length entries) L).
Proof.
  intros Hl HL. revert idx. induction entries as [|e es IH]; intros idx HA Hes Hlen.
  { cbn [appendFrom length]. rewrite Nat.add_0_r. split_and!; done. }
  cbn [length] in *.
  assert (L !! idx = Some e) as HLi.
  { replace idx with (idx + 0)%nat by lia. rewrite <- lookup_drop.
    rewrite <- (lookup_take_lt _ (S (length es)) 0) by lia. by rewrite <- Hes. }
  assert (es = take (length es) (drop (S idx) L)) as Hes'.
  { rewrite (drop_S _ _ _ HLi) in Hes. cbn [take] in Hes. by injection Hes. }
  cbn [appendFrom]. destruct (_ && _) eqn:Hc.
  - apply andb_true_iff in Hc as [Hin Ht]. apply Z.leb_le in Hin. apply Z.eqb_eq in Ht.
    unfold lastIndex, zlen in Hin. destruct (lookup_lt_is_Some_2 l idx) as [e' He']; [lia|].
    rewrite (term_at_lookup _ _ _ He') in Ht.
    pose proof (log_matching _ _ _ _ _ _ Hl HL He' HLi Ht) as HA'.
    specialize (IH (S idx) HA' Hes' ltac:(lia)). destruct (appendFrom l (S idx) es) as [l' ch].
    replace (idx + S (length es))%nat with (S idx + length es)%nat by lia. exact IH.
  - assert (take idx l ++ e :: es = take (idx + S (length es)) L) as ->.
    { destruct HA as (?&?&->). rewrite <- (take_take_drop L idx (S (length es))). f_equal. exact Hes. }
    split_and!; [by apply agree_take| |done|done].
    intros k Hk. destruct (decide (k <= idx)%nat) as [Hki|Hki].
    + eapply agree_le; [|by apply agree_take]. lia.
    + exfalso. assert (l !! idx = Some e) as Hli by (rewrite (agree_lookup _ _ _ _ Hk) by lia; done).
      rewrite (term_at_lookup _ _ _ Hli), Z.eqb_refl, andb_true_r in Hc.
      apply lookup_lt_Some in Hli. unfold lastIndex, zlen in Hc. apply Z.leb_gt in Hc. lia.
Qed.
