(* ===== verification/RaftInv.v ===== *)
(** * RaftInv: the invariant of a Raft cluster

    [hist_ok] relates votes, reigns and acknowledgements to each other,
    [node_ok] relates one node (and what its [Storage] holds) to the history,
    [cluster_ok] adds the messages in flight and the vote counts.  The central
    lemma is [chosen_in_later_reigns]: an entry acknowledged by a quorum in its
    own term is in the log of every later leader. *)

From Stdlib Require Import ZArith Lia Strings.Byte Strings.String.
From stdpp Require Import base list list_numbers numbers option gmap sorting.
From coqutil Require Import Byte.
From S2P Require Import Prelude Bytes Raft RaftCluster RaftLog.

Local Open Scope Z_scope.

(** What a restart would find. *)
Definition s_term (r : Raft) : Z := match storage r with Some ps => ps_CurrentTerm ps | None => 0 end.
Definition s_vote (r : Raft) : Z := match storage r with Some ps => ps_VotedFor ps | None => None_ end.
Definition s_log (r : Raft) : list LogEntry :=
  match storage r with Some ps => ps_Log ps | None => [mkEntry 0 []] end.

(** ** Entries in the history *)

(** Entry [n] of the log of the leader of [T] was proposed in [T]. *)
Definition own (h : history) (T : Z) (n : nat) : Prop :=
  exists g e, h_terms h !! T = Some g /\ g_log g !! n = Some e /\ e_Term e = T.

(** [l] has the entries up to [n] of the leader of [T]. *)
Definition contains (h : history) (T : Z) (n : nat) (l : list LogEntry) : Prop :=
  exists g, h_terms h !! T = Some g /\ agree (S n) l (g_log g).

#[export] Instance contains_dec h T n l : Decision (contains h T n l).
Proof.
  destruct (h_terms h !! T) as [g|] eqn:Hg.
  - destruct (decide (agree (S n) l (g_log g))) as [H|H]; [left; by exists g|right].
    intros (g'&Hg'&HA). congruence.
  - right. intros (g'&Hg'&_). congruence.
Defined.

(** Some leader after [T] and not after [b] won without those entries. *)
Definition overridden (h : history) (T : Z) (n : nat) (b : Z) : Prop :=
  exists U g, h_terms h !! U = Some g /\ T < U <= b /\ ~ contains h T n (g_init g).

(** The log [l] of [q] has what [q] acknowledged in the terms below [lim],
    unless a later leader up to [b] replaced it. *)
Definition covered (h : history) (q : Z) (l : list LogEntry) (lim b : Z) : Prop :=
  forall T m n, (q, T, m) ∈ h_acks h -> T < lim -> (n <= m)%nat -> own h T n ->
    contains h T n l \/ overridden h T n b.

Record hist_le (h h' : history) : Prop := {
  le_terms : terms_le h h';
  le_votes : forall b : vote, b ∈ h_votes h -> b ∈ h_votes h';
  le_acks : forall a : Z * Z * nat, a ∈ h_acks h -> a ∈ h_acks h';
  le_cands : forall k lc, h_cands h !! k = Some lc -> h_cands h' !! k = Some lc
}.

Lemma hist_le_refl h : hist_le h h.
Proof. split; [apply terms_le_refl|done..]. Qed.

Lemma hist_le_trans h1 h2 h3 : hist_le h1 h2 -> hist_le h2 h3 -> hist_le h1 h3.
Proof. intros [] []. split; [by eapply terms_le_trans|eauto..]. Qed.

Lemma contains_mono h h' T n l : terms_le h h' -> contains h T n l -> contains h' T n l.
Proof.
  intros Hle (g&Hg&HA). destruct (Hle _ _ Hg) as (g'&Hg'&_&_&_&HP). exists g'. split; [done|].
  by eapply agree_prefix_r.
Qed.

Lemma own_mono h h' T n : terms_le h h' -> own h T n -> own h' T n.
Proof.
  intros Hle (g&e&Hg&He&Ht). destruct (Hle _ _ Hg) as (g'&Hg'&_&_&_&HP).
  exists g', e. split_and!; [done| |done]. by eapply prefix_lookup_Some.
Qed.

Lemma own_back h h' T n g : terms_le h h' -> h_terms h !! T = Some g -> (n < length (g_log g))%nat ->
  own h' T n -> own h T n.
Proof.
  intros Hle Hg Hn (g'&e&Hg'&He&Ht). destruct (Hle _ _ Hg) as (g2&Hg2&_&_&_&HP). simplify_eq.
  exists g, e. split_and!; [done| |done]. destruct HP as [x Hx]. by rewrite Hx, lookup_app_l in He by done.
Qed.

Lemma contains_back h h' T n l : terms_le h h' -> own h T n -> contains h' T n l -> contains h T n l.
Proof.
  intros Hle (g&e&Hg&He&Ht) (g'&Hg'&HA). destruct (Hle _ _ Hg) as (g2&Hg2&_&_&_&HP). simplify_eq.
  exists g. split; [done|]. apply lookup_lt_Some in He. by eapply agree_back.
Qed.

Lemma overridden_mono h h' T n b b' :
  terms_le h h' -> b <= b' -> own h T n -> overridden h T n b -> overridden h' T n b'.
Proof.
  intros Hle Hb Ho (U&g&HU&HT&Hn). destruct (Hle _ _ HU) as (g'&Hg'&_&Hi&_&_).
  exists U, g'. split_and!; [done|lia..|]. rewrite Hi. intros Hc. by eapply Hn, contains_back.
Qed.

Lemma contains_le h T n k l : (k <= n)%nat -> contains h T n l -> contains h T k l.
Proof. intros Hk (g&Hg&HA). exists g. split; [done|]. eapply agree_le; [|done]. lia. Qed.

Lemma contains_agree h T n l L : agree (S n) l L -> contains h T n l -> contains h T n L.
Proof. intros HA (g&Hg&HAg). exists g. split; [done|]. eapply agree_trans; [by apply agree_sym|done]. Qed.

Section invariant.
Context (ids : list Z).

Definition quorum (S : list Z) : Prop :=
  NoDup S /\ (forall q, q ∈ S -> q ∈ ids) /\ (length ids < 2 * length S)%nat.

Lemma quorum_meet (S S' : list Z) : quorum S -> quorum S' -> exists q, q ∈ S /\ q ∈ S'.
Proof.
  intros (HN&Hin&Hlen) (HN'&Hin'&Hlen').
  destruct (decide (Exists (fun q => q ∈ S') S)) as [HE|HE].
  { apply Exists_exists in HE as (q&?&?). by exists q. }
  exfalso. assert (NoDup (S ++ S')) as HNN.
  { apply NoDup_app. split_and!; [done| |done]. intros x Hx Hx'. apply HE, Exists_exists. by exists x. }
  assert (S ++ S' ⊆+ ids) as Hsub.
  { apply NoDup_submseteq; [done|]. intros x [Hx|Hx]%elem_of_app; auto. }
  apply submseteq_length in Hsub. rewrite length_app in Hsub. lia.
Qed.

(** Acknowledged by a quorum in the term it was proposed in. *)
Definition chosen (h : history) (T : Z) (n : nat) : Prop :=
  own h T n /\ exists Q, quorum Q /\ forall q, q ∈ Q -> exists m, (n <= m)%nat /\ (q, T, m) ∈ h_acks h.

(** What justifies commit index [k] over the log [l] in term [T0]. *)
Definition committed (h : history) (k : Z) (l : list LogEntry) (T0 : Z) : Prop :=
  k = 0 \/ exists T n, chosen h T n /\ 0 < k <= Z.of_nat n /\ T <= T0 /\ contains h T (Z.to_nat k) l.

Record reign_ok (h : history) (T : Z) (g : reign) : Prop := {
  rk_pos : 0 < T;
  rk_leader : g_leader g ∈ ids;
  rk_prefix : g_init g `prefix_of` g_log g;
  rk_init : forall e, e ∈ g_init g -> e_Term e < T;
  rk_own : forall i e, g_log g !! i = Some e -> (length (g_init g) <= i)%nat ->
             e_Term e = T /\ (g_leader g, T, i) ∈ h_acks h;
  rk_log : log_ok h (g_log g);
  rk_cand : h_cands h !! (g_leader g, T) = Some (g_init g);
  rk_ballots : forall b, b ∈ g_ballots g -> b ∈ h_votes h /\ v_term b = T /\ v_cand b = g_leader g;
  rk_quorum : exists S, quorum S /\ forall q, q ∈ S -> exists b, b ∈ g_ballots g /\ v_voter b = q;
  rk_cover : forall b, b ∈ g_ballots g -> covered h (v_voter b) (v_log b) T (T - 1)
}.

Record hist_ok (h : history) : Prop := {
  ho_unique : forall b b' : vote, b ∈ h_votes h -> b' ∈ h_votes h ->
    v_voter b = v_voter b' -> v_term b = v_term b' -> v_cand b = v_cand b';
  ho_votes : forall b : vote, b ∈ h_votes h -> v_voter b ∈ ids /\ log_ok h (v_log b) /\
    exists lc, h_cands h !! (v_cand b, v_term b) = Some lc /\ up_to_date (v_log b) lc;
  ho_cover : forall b : vote, b ∈ h_votes h -> covered h (v_voter b) (v_log b) (v_term b) (v_term b);
  ho_cands : forall id T lc, h_cands h !! (id, T) = Some lc ->
    id ∈ ids /\ 0 < T /\ log_ok h lc /\ forall e, e ∈ lc -> e_Term e < T;
  ho_reign : forall T g, h_terms h !! T = Some g -> reign_ok h T g;
  ho_acks : forall q T m, (q, T, m) ∈ h_acks h -> q ∈ ids /\
    exists g, h_terms h !! T = Some g /\ (m < length (g_log g))%nat
}.

(** ** Leader completeness *)

Lemma reign_terms h T g i e : reign_ok h T g -> g_log g !! i = Some e -> e_Term e <= T.
Proof.
  intros [] He. destruct (decide (length (g_init g) <= i)%nat) as [Hi|Hi].
  - destruct (rk_own0 _ _ He Hi) as [-> _]. done.
  - destruct rk_prefix0 as [x Hx]. rewrite Hx, lookup_app_l in He by lia.
    apply list_elem_of_lookup_2, rk_init0 in He. lia.
Qed.

Lemma own_pos h T n : hist_ok h -> own h T n -> 0 < T /\ (1 <= n)%nat.
Proof.
  intros Hh (g&e&Hg&He&Ht). pose proof (ho_reign _ Hh _ _ Hg) as Hr. pose proof (rk_pos _ _ _ Hr).
  split; [done|]. destruct n; [|lia]. destruct (rk_log _ _ _ Hr) as [H0 _]. rewrite H0 in He. simplify_eq.
  cbn [e_Term] in *. lia.
Qed.

(** A log with entry [n] of term [T] ends in term [T] or later. *)
Lemma contains_tlast h T n l : hist_ok h -> log_ok h l -> own h T n -> contains h T n l -> T <= tlast l.
Proof.
  intros Hh Hl Ho (g&Hg&HA). pose proof (own_pos _ _ _ Hh Ho) as [HT Hn]. destruct Ho as (g0&e&Hg0&He&Ht).
  simplify_eq. pose proof HA as (Hlen&_&_).
  destruct (tlast_lookup l) as (e'&He'&Hte); [by intros ->; cbn in Hlen; lia|].
  destruct Hl as [_ Hl]. destruct (length l - 1)%nat as [|i] eqn:Hi; [lia|].
  destruct (Hl _ _ He') as (g'&Hg'&HA'). rewrite Hte.
  eapply (reign_terms h _ g' n e); [by apply (ho_reign _ Hh)|].
  rewrite <- (agree_lookup _ _ _ _ HA') by lia. by rewrite (agree_lookup _ _ _ _ HA) by lia.
Qed.

(** The election restriction carries the entry from the voter to the winner. *)
Lemma up_to_date_contains h T n lv lc :
  hist_ok h -> log_ok h lv -> log_ok h lc -> up_to_date lv lc -> own h T n -> contains h T n lv ->
  (forall g, T < tlast lc -> h_terms h !! tlast lc = Some g -> contains h T n (g_log g)) ->
  contains h T n lc.
Proof.
  intros Hh Hlv Hlc Hup Ho Hc IH. pose proof (own_pos _ _ _ Hh Ho) as [HT Hn].
  pose proof (contains_tlast _ _ _ _ Hh Hlv Ho Hc) as Htl.
  destruct (log_ok_last _ _ Hlv) as (gv&Hgv&HAv); [lia|].
  destruct (log_ok_last _ _ Hlc) as (gc&Hgc&HAc); [destruct Hup as [?|[? _]]; lia|].
  destruct Hup as [Hlt|[Heq Hlen]].
  - destruct (IH gc ltac:(lia) Hgc) as (g&Hg&HA). exists g. split; [done|].
    assert (S n <= length lc)%nat.
    { destruct (decide (S n <= length lc)%nat) as [|Hlen]; [done|exfalso].
      pose proof (log_ok_nonempty _ _ Hlc).
      destruct (tlast_lookup lc) as (e&He&Hte); [by intros ->; cbn in *; lia|].
      rewrite (agree_lookup _ _ _ _ HAc), (agree_lookup _ _ _ _ HA) in He by lia.
      eapply reign_terms in He; [|by apply (ho_reign _ Hh)]. lia. }
    eapply agree_trans; [|exact HA]. by eapply agree_le.
  - rewrite Heq, Hgc in Hgv. simplify_eq. eapply contains_agree; [|exact Hc].
    assert (S n <= length lv)%nat by by destruct Hc as (?&_&?&_).
    eapply agree_trans; [by eapply agree_le|]. apply agree_sym. eapply agree_le; [|done]. lia.
Qed.

Lemma chosen_in_later_reigns h T n : hist_ok h -> chosen h T n ->
  forall U g, T < U -> h_terms h !! U = Some g -> contains h T n (g_init g).
Proof.
  intros Hh [Ho (Q&HQ&Hack)] U.
  assert (0 < T) as HT by by destruct (own_pos _ _ _ Hh Ho).
  induction U as [U IH] using (well_founded_induction (Z.lt_wf 0)). intros g HTU HU.
  pose proof (ho_reign _ Hh _ _ HU) as Hr. destruct (rk_quorum _ _ _ Hr) as (V&HV&Hbal).
  destruct (quorum_meet _ _ HQ HV) as (q&HqQ&HqV). destruct (Hack _ HqQ) as (m&Hm&Hin).
  destruct (Hbal _ HqV) as (b&Hb&<-). destruct (rk_ballots _ _ _ Hr _ Hb) as (Hbv&Htb&Hcb).
  destruct (ho_votes _ Hh _ Hbv) as (_&Hlv&lc&Hlc&Hup). rewrite Hcb, Htb, (rk_cand _ _ _ Hr) in Hlc. simplify_eq.
  assert (contains h T n (v_log b)) as Hcv.
  { destruct (rk_cover _ _ _ Hr _ Hb T m n) as [|(U'&g'&HU'&?&Hnot)]; [done..|].
    exfalso. apply Hnot, (IH U'); [lia..|done]. }
  destruct (ho_cands _ Hh _ _ _ (rk_cand _ _ _ Hr)) as (_&_&Hlci&Hterms).
  apply (up_to_date_contains h T n (v_log b)); [done..|]. intros g' HT' Hg'.
  pose proof (log_ok_nonempty _ _ Hlci). destruct (tlast_lookup (g_init g)) as (e&He&Hte).
  { intros E. rewrite E in *. cbn in *. lia. }
  assert (contains h T n (g_init g')) as Hci.
  { eapply (IH (tlast (g_init g))); [|done..]. rewrite Hte. apply list_elem_of_lookup_2, Hterms in He. rewrite Hte in *. lia. }
  destruct Hci as (g0&Hg0&HA). exists g0. split; [done|]. eapply agree_prefix_l; [done|].
  by apply (rk_prefix h _ _ (ho_reign _ Hh _ _ Hg')).
Qed.

(** In the same or a later reign, the leader's log has the chosen entry. *)
Lemma chosen_in_reign h T n U g : hist_ok h -> chosen h T n -> T <= U -> h_terms h !! U = Some g ->
  contains h T n (g_log g).
Proof.
  intros Hh Hc HTU HU. destruct (decide (T = U)) as [->|].
  - destruct Hc as [(g'&e&Hg'&He&_) _]. rewrite HU in Hg'. injection Hg' as <-. exists g. split; [done|].
    apply agree_refl. by apply lookup_lt_Some in He.
  - destruct (chosen_in_later_reigns _ _ _ Hh Hc U g ltac:(lia) HU) as (g'&Hg'&HA).
    exists g'. split; [done|]. eapply agree_prefix_l; [done|].
    by apply (rk_prefix h _ _ (ho_reign _ Hh _ _ HU)).
Qed.

(** Two committed prefixes agree as far as both go. *)
Lemma committed_agree h k l T0 k' l' T0' (j : nat) :
  hist_ok h -> committed h k l T0 -> committed h k' l' T0' ->
  0 < Z.of_nat j <= k -> Z.of_nat j <= k' -> agree (S j) l l'.
Proof.
  intros Hh [?|(T&n&Hc&Hk&_&Hl)] [?|(T'&n'&Hc'&Hk'&_&Hl')] Hj Hj'; [lia..|].
  apply (contains_le _ _ _ j) in Hl; [|lia]. apply (contains_le _ _ _ j) in Hl'; [|lia].
  destruct Hl as (g&Hg&HA), Hl' as (g'&Hg'&HA').
  assert (agree (S j) (g_log g) (g_log g')) as HAA.
  { destruct (decide (T <= T')).
    - destruct (chosen_in_reign _ _ _ _ _ Hh Hc ltac:(done) Hg') as (g2&Hg2&HA2). simplify_eq.
      apply agree_sym. eapply agree_le; [|exact HA2]. lia.
    - destruct (chosen_in_reign h T' n' T g Hh Hc' ltac:(lia) Hg) as (g2&Hg2&HA2). simplify_eq.
      eapply agree_le; [|exact HA2]. lia. }
  eapply agree_trans; [exact HA|]. eapply agree_trans; [exact HAA|]. by apply agree_sym.
Qed.

Lemma chosen_mono h h' T n : hist_le h h' -> chosen h T n -> chosen h' T n.
Proof.
  intros [] [Ho (Q&HQ&Hack)]. split; [by eapply own_mono|]. exists Q. split; [done|].
  intros q Hq. destruct (Hack q Hq) as (m&?&?). exists m. auto.
Qed.

Lemma committed_mono h h' k l T0 T0' :
  hist_le h h' -> T0 <= T0' -> committed h k l T0 -> committed h' k l T0'.
Proof.
  intros Hle HT [->|(T&n&Hc&Hk&HT0&Hl)]; [by left|right]. exists T, n.
  split_and!; [by eapply chosen_mono|lia..|]. by eapply contains_mono; [apply le_terms|].
Qed.

(** Coverage survives growth of the history that adds no acknowledgement of
    [q] below [lim]. *)
Lemma covered_mono h h' q l lim b b' :
  hist_ok h -> hist_le h h' -> b <= b' ->
  (forall T m, (q, T, m) ∈ h_acks h' -> T < lim -> (q, T, m) ∈ h_acks h) ->
  covered h q l lim b -> covered h' q l lim b'.
Proof.
  intros Hh Hle Hb Hacks Hcov T m n Hin HT Hn Ho. pose proof (Hacks _ _ Hin HT) as Hin0.
  destruct (ho_acks _ Hh _ _ _ Hin0) as (_&g&Hg&Hm).
  assert (own h T n) as Ho0 by (eapply own_back; [apply le_terms|..]; [done..|lia|done]).
  destruct (Hcov T m n) as [|]; [done..| |].
  - left. by eapply contains_mono; [apply le_terms|].
  - right. by eapply overridden_mono; [apply le_terms|..].
Qed.

End invariant.
