(* ===== verification/RaftNode.v ===== *)
(** * RaftNode: the invariant of one node, and how each handler keeps it

    [node_ok h id r ms]: node [r] of member [id], which has delivered [ms] since
    it started, against the history [h].  [durable r] is what the code's calls
    of [persistLocked] maintain: the log on storage is always the node's log,
    and the term and vote on storage are the node's unless it has just stepped
    down in [replicateTo], where it has not voted in the new term. *)

From Stdlib Require Import ZArith Lia Strings.Byte Strings.String.
From stdpp Require Import base list list_numbers numbers option gmap sorting.
From coqutil Require Import Byte.
From S2P Require Import Prelude Bytes Raft RaftCluster RaftLog RaftInv.

Local Open Scope Z_scope.

Record durable (r : Raft) : Prop := {
  d_term : 0 <= s_term r <= currentTerm r;
  d_log : r_log r = s_log r;
  d_vote : s_term r = currentTerm r -> votedFor r = s_vote r;
  d_down : s_term r < currentTerm r -> votedFor r = None_ /\ r_state r = Follower
}.

(** The messages for entries [1 .. k] of [l]. *)
Definition delivered (l : list LogEntry) (k : Z) : list ApplyMsg :=
  imap (fun i e => mkApply true (e_Command e) (Z.of_nat i + 1)) (tail (take (S (Z.to_nat k)) l)).

Record leader_ok (h : history) (id : Z) (r : Raft) (g : reign) : Prop := {
  lk_reign : h_terms h !! currentTerm r = Some g;
  lk_id : g_leader g = id;
  lk_log : g_log g = r_log r;
  lk_match : forall p m, matchIndex r !! p = Some m ->
    m = 0 \/ 0 <= m /\ (p, currentTerm r, Z.to_nat m) ∈ h_acks h;
  lk_next : forall p n, nextIndex r !! p = Some n -> 1 <= n <= zlen (r_log r)
}.

(** Everything that changed from [h] to [h'] was done by [id]. *)
Record hist_ext (id : Z) (h h' : history) : Prop := {
  he_le : hist_le h h';
  he_votes : forall b : vote, b ∈ h_votes h' -> b ∈ h_votes h \/ v_voter b = id;
  he_acks : forall q T m, (q, T, m) ∈ h_acks h' -> (q, T, m) ∈ h_acks h \/ q = id;
  he_cands : forall q T lc, h_cands h' !! (q, T) = Some lc -> h_cands h !! (q, T) = Some lc \/ q = id;
  he_terms : forall T g, h_terms h' !! T = Some g -> h_terms h !! T = Some g \/ g_leader g = id
}.

Lemma hist_ext_refl id h : hist_ext id h h.
Proof. split; [apply hist_le_refl|by left..]. Qed.

Section nodes.
Context (ids : list Z).

Record node_ok (h : history) (id : Z) (r : Raft) (ms : list ApplyMsg) : Prop := {
  nk_id : r_id r = id;
  nk_peers : r_peers r = peers_of ids id;
  nk_durable : durable r;
  nk_log : log_ok h (r_log r);
  nk_terms : forall e, e ∈ r_log r -> e_Term e <= s_term r;
  nk_votes : forall b : vote, b ∈ h_votes h -> v_voter b = id ->
    v_term b <= s_term r /\ (v_term b = s_term r -> s_vote r = v_cand b);
  nk_cands : forall T lc, h_cands h !! (id, T) = Some lc -> T <= s_term r;
  nk_candidate : r_state r = Candidate -> h_cands h !! (id, currentTerm r) = Some (r_log r) /\
    forall g, h_terms h !! currentTerm r = Some g -> g_leader g <> id;
  nk_reigns : forall T g, h_terms h !! T = Some g -> g_leader g = id -> T <= s_term r;
  nk_leader : r_state r = Leader -> exists g, leader_ok h id r g;
  nk_acks : forall T m n, (id, T, m) ∈ h_acks h -> (n <= m)%nat -> own h T n -> T <= s_term r;
  nk_cover : covered h id (r_log r) (s_term r + 1) (s_term r);
  nk_commit : committed ids h (commitIndex r) (r_log r) (currentTerm r);
  nk_apply : 0 <= lastApplied r <= commitIndex r;
  nk_delivered : ms = delivered (r_log r) (lastApplied r)
}.

(** ** Other nodes are not affected *)

Lemma node_frame id id' h h' r ms :
  hist_ok ids h -> hist_ext id h h' -> id' <> id -> node_ok h id' r ms -> node_ok h' id' r ms.
Proof.
  intros Hh [Hle Hv Ha Hc Ht] Hne []. pose proof (le_terms _ _ Hle) as Hlt.
  assert (forall T m, (id', T, m) ∈ h_acks h' -> (id', T, m) ∈ h_acks h) as Ha'.
  { intros T m Hin. destruct (Ha _ _ _ Hin); [done|congruence]. }
  assert (forall T g, h_terms h' !! T = Some g -> g_leader g = id' -> h_terms h !! T = Some g) as Ht'.
  { intros T g Hg Hl. destruct (Ht _ _ Hg); [done|congruence]. }
  split; [done|done|done|by eapply log_ok_mono|done|..|done|done].
  - intros b Hb Hvb. destruct (Hv _ Hb); [auto|congruence].
  - intros T lc Hlc. destruct (Hc _ _ _ Hlc); [eauto|congruence].
  - intros Hs. destruct (nk_candidate0 Hs) as [Hc' Hg]. split; [by apply (le_cands _ _ Hle)|].
    intros g Hg' Hl. by eapply Hg; [apply Ht'|].
  - intros T g Hg Hl. eauto.
  - intros Hs. destruct (nk_leader0 Hs) as [g []]. exists g.
    destruct (Hlt _ _ lk_reign0) as (g'&Hg'&Hgl&_). rewrite lk_id0 in Hgl.
    pose proof (Ht' _ _ Hg' Hgl) as Hgg. rewrite lk_reign0 in Hgg. injection Hgg as <-.
    split; [done..| |done]. intros p m Hp. destruct (lk_match0 _ _ Hp) as [|[? ?]]; [by left|right].
    split; [done|]. by apply (le_acks _ _ Hle).
  - intros T m n Hin Hn Ho. pose proof (Ha' _ _ Hin) as Hin0.
    destruct (ho_acks _ _ Hh _ _ _ Hin0) as (_&g&Hg&Hm). apply (nk_acks0 T m n); [done..|].
    eapply own_back; [done..|lia|done].
  - eapply covered_mono; [done..| |done]. auto.
  - by eapply committed_mono.
Qed.

(** ** Storage *)

Lemma persist_ok h id r ms : hist_ok ids h -> node_ok h id r ms -> node_ok h id (persist true r) ms.
Proof.
  intros Hh []. destruct nk_durable0. split; try done.
  - split; cbn; [lia|done..|lia].
  - intros e He. specialize (nk_terms0 e He). unfold s_term; cbn. lia.
  - intros b Hb Hv. destruct (nk_votes0 _ Hb Hv) as [Hle Heq]. unfold s_term, s_vote in *; cbn. split; [lia|].
    intros HT. rewrite d_vote0; [apply Heq|]; lia.
  - intros T lc Hlc. specialize (nk_cands0 _ _ Hlc). unfold s_term; cbn. lia.
  - intros T g Hg Hl. specialize (nk_reigns0 _ _ Hg Hl). unfold s_term; cbn. lia.
  - intros Hs. destruct (nk_leader0 Hs) as [g []]. by exists g.
  - intros T m n Hin Hn Ho. specialize (nk_acks0 _ _ _ Hin Hn Ho). unfold s_term; cbn. lia.
  - intros T m n Hin HT Hn Ho. pose proof (nk_acks0 _ _ _ Hin Hn Ho).
    destruct (nk_cover0 T m n) as [|]; [done|lia|done..|by left|right].
    eapply overridden_mono; [apply terms_le_refl| |done..]. unfold s_term at 2; cbn. lia.
Qed.

(** A node told of a higher term forgets its vote and follows. *)
Lemma becomeFollower_ok h id r ms dl T :
  hist_ok ids h -> node_ok h id r ms -> currentTerm r < T -> node_ok h id (becomeFollower dl T r) ms.
Proof.
  intros Hh [] HT. destruct nk_durable0. split; try done.
  - split; cbn; [unfold s_term in *; cbn; lia|done|unfold s_term in *; cbn; lia|done].
  - eapply committed_mono; [apply hist_le_refl| |done]. cbn. lia.
Qed.

(** Hearing from the leader of the current term. *)
Definition heard (dl lid : Z) (r : Raft) : Raft :=
  mkRaft (r_id r) (r_peers r) (currentTerm r) (votedFor r) (r_log r) Follower lid (commitIndex r)
    (lastApplied r) dl (nextIndex r) (matchIndex r) (storage r).

Lemma heard_ok h id r ms dl lid : node_ok h id r ms -> node_ok h id (heard dl lid r) ms.
Proof.
  intros []. destruct nk_durable0. split; try done. split; try done. intros Hlt. by destruct (d_down0 Hlt).
Qed.

(** [New] on what [Storage] holds. *)
Lemma restart_ok h id r ms dl :
  hist_ok ids h -> node_ok h id r ms -> node_ok h id (New id (r_peers r) None (storage r) dl) [].
Proof.
  intros Hh []. destruct nk_durable0. pose proof (log_ok_nonempty _ _ nk_log0) as Hne.
  assert (exists r', New id (r_peers r) None (storage r) dl = r' /\ r_id r' = id /\ r_peers r' = r_peers r /\
    storage r' = storage r /\ currentTerm r' = s_term r /\ votedFor r' = s_vote r /\ r_log r' = r_log r /\
    r_state r' = Follower /\ commitIndex r' = 0 /\ lastApplied r' = 0) as (r'&->&E1&E2&E3&E4&E5&E6&E7&E8&E9).
  { eexists. split; [done|]. unfold New, s_term, s_vote, s_log in *.
    destruct (storage r) as [ps|]; cbn; split_and!; try done.
    rewrite d_log0 in *. destruct (ps_Log ps); [cbn in Hne; lia|done]. }
  assert (s_term r' = s_term r /\ s_vote r' = s_vote r /\ s_log r' = s_log r) as (F1&F2&F3).
  { unfold s_term, s_vote, s_log. by rewrite E3. }
  split; rewrite ?E2, ?E4, ?E6, ?E7, ?E8, ?E9, ?F1, ?F2, ?F3; try done.
  - split; rewrite ?E4, ?E5, ?E6, ?F1, ?F2, ?F3; [lia|done|done|lia].
  - by left.
  - unfold delivered. change (Z.to_nat 0) with 0%nat. destruct (r_log r); done.
Qed.

(** [applyLoop] *)
Lemma delivered_snoc l (k : nat) e : l !! S k = Some e ->
  delivered l (Z.of_nat k + 1) = delivered l (Z.of_nat k) ++ [mkApply true (e_Command e) (Z.of_nat k + 1)].
Proof.
  intros He. unfold delivered. replace (Z.to_nat (Z.of_nat k + 1)) with (S k) by lia. rewrite Nat2Z.id.
  rewrite (take_S_r _ _ _ He). pose proof (lookup_lt_Some _ _ _ He).
  destruct l as [|a l]; [done|]. cbn [take app tail]. rewrite imap_app. f_equal. cbn [imap].
  rewrite length_take. cbn [length] in *. replace (k `min` length l + 0)%nat with k by lia. done.
Qed.

Lemma committed_in_range h k l T : committed ids h k l T -> (1 <= length l)%nat -> 0 <= k < zlen l.
Proof.
  intros [->|(T'&n&Hc&Hk&_&(g&_&Hlen&_))] Hl; unfold zlen; lia.
Qed.

Lemma apply_ok h id r ms msg r' :
  node_ok h id r ms -> applyNext r = Some (msg, r') -> node_ok h id r' (ms ++ [msg]).
Proof.
  intros [] HA. unfold applyNext in HA. destruct (Z.leb_spec (commitIndex r) (lastApplied r)); [done|].
  pose proof (committed_in_range _ _ _ _ nk_commit0 (log_ok_nonempty _ _ nk_log0)) as [_ Hci].
  destruct (lookup_lt_is_Some_2 (r_log r) (Z.to_nat (lastApplied r + 1))) as [e He]; [unfold zlen in Hci; lia|].
  rewrite He in HA. injection HA as <- <-. destruct nk_durable0. split; try done; cbn [lastApplied commitIndex r_log].
  - intros Hs. destruct (nk_leader0 Hs) as [g []]. by exists g.
  - lia.
  - subst ms. replace (lastApplied r) with (Z.of_nat (Z.to_nat (lastApplied r))) by lia.
    rewrite (delivered_snoc _ _ e); [done|]. by replace (S (Z.to_nat (lastApplied r))) with (Z.to_nat (lastApplied r + 1)) by lia.
Qed.

(** Setting the leader's indices. *)
Lemma set_indices_ok h id r ms ni mi :
  node_ok h id r ms ->
  (forall p m, mi !! p = Some m -> m = 0 \/ 0 <= m /\ (p, currentTerm r, Z.to_nat m) ∈ h_acks h) ->
  (forall p n, ni !! p = Some n -> 1 <= n <= zlen (r_log r)) ->
  node_ok h id (set_indices ni mi r) ms.
Proof.
  intros [] Hm Hn. destruct nk_durable0. split; try done.
  intros Hs. destruct (nk_leader0 Hs) as [g []]. by exists g.
Qed.

(** A commit index justified by the history. *)
Lemma set_commit_ok h id r ms k :
  node_ok h id r ms -> committed ids h k (r_log r) (currentTerm r) -> commitIndex r <= k ->
  node_ok h id (set_commit k r) ms.
Proof.
  intros [] Hk Hle. destruct nk_durable0. split; try done; cbn [lastApplied commitIndex set_commit].
  - intros Hs. destruct (nk_leader0 Hs) as [g []]. by exists g.
  - lia.
Qed.

End nodes.
