(* ===== verification/RaftSteps.v ===== *)
(** * RaftSteps: elections and replication keep the invariants

    One lemma per way the history grows: a candidacy, a vote, a won election,
    a proposed entry, an acknowledgement. *)

From Stdlib Require Import ZArith Lia Strings.Byte Strings.String.
From stdpp Require Import base list list_numbers numbers option gmap sorting.
From coqutil Require Import Byte.
From S2P Require Import Prelude Bytes Raft RaftCluster RaftLog RaftInv RaftNode.

Local Open Scope Z_scope.

(** New acknowledgements come in the terms of their voters' votes or later. *)
Definition acks_late (h h' : history) : Prop :=
  forall (b : vote) T m, b ∈ h_votes h -> (v_voter b, T, m) ∈ h_acks h' -> T < v_term b ->
    (v_voter b, T, m) ∈ h_acks h.

Lemma acks_late_same h h' : h_acks h' = h_acks h -> acks_late h h'.
Proof. intros E b T m _ Hin _. by rewrite E in Hin. Qed.

(** Replace vote, state or log of a node. *)
Definition set_vote (dl cand : Z) (r : Raft) : Raft :=
  mkRaft (r_id r) (r_peers r) (currentTerm r) cand (r_log r) (r_state r) (leaderID r) (commitIndex r)
    (lastApplied r) dl (nextIndex r) (matchIndex r) (storage r).
Definition set_candidate (r : Raft) : Raft :=
  mkRaft (r_id r) (r_peers r) (currentTerm r) (votedFor r) (r_log r) Candidate (leaderID r) (commitIndex r)
    (lastApplied r) (electionDeadline r) (nextIndex r) (matchIndex r) (storage r).
Definition set_log (l : list LogEntry) (r : Raft) : Raft :=
  mkRaft (r_id r) (r_peers r) (currentTerm r) (votedFor r) l (r_state r) (leaderID r) (commitIndex r)
    (lastApplied r) (electionDeadline r) (nextIndex r) (matchIndex r) (storage r).

Lemma delivered_agree l l' k : 0 <= k -> (1 <= length l)%nat -> (1 <= length l')%nat ->
  (0 < k -> agree (S (Z.to_nat k)) l l') -> delivered l k = delivered l' k.
Proof.
  intros Hk Hl Hl' HA. destruct (decide (k = 0)) as [->|].
  - unfold delivered. change (Z.to_nat 0) with 0%nat. destruct l, l'; cbn in *; try lia; done.
  - destruct HA as (_&_&E); [lia|]. unfold delivered. by rewrite E.
Qed.

Section steps.
Context (ids : list Z) (Hnd : NoDup ids) (Hids : forall id, id ∈ ids -> 0 <= id).

Lemma length_peers id : id ∈ ids -> (length (peers_of ids id) + 1 = length ids)%nat.
Proof.
  intros Hin. assert (ids ≡ₚ id :: peers_of ids id) as HP.
  { apply NoDup_Permutation; [done| |].
    - apply NoDup_cons. split; [|by apply NoDup_filter]. intros Hf. by apply list_elem_of_filter in Hf as [? _].
    - intros x. unfold peers_of. rewrite elem_of_cons, list_elem_of_filter.
      destruct (decide (x = id)) as [->|]; [naive_solver|]. split; [by right|]. by intros [?|[_ ?]]. }
  apply Permutation_length in HP. cbn [length] in HP. lia.
Qed.

Lemma majority_quorum id r (S : list Z) :
  id ∈ ids -> r_peers r = peers_of ids id -> majority r <= zlen S -> NoDup S ->
  (forall q, q ∈ S -> q ∈ ids) -> quorum ids S.
Proof.
  intros Hid Hp Hm HN Hin. split_and!; [done..|]. pose proof (length_peers id Hid) as Hl.
  unfold majority, clusterSize in Hm. rewrite Hp in Hm. unfold zlen in Hm.
  pose proof (Z.div_mod (Z.of_nat (length (peers_of ids id)) + 1) 2 ltac:(lia)).
  pose proof (Z.mod_pos_bound (Z.of_nat (length (peers_of ids id)) + 1) 2 ltac:(lia)). lia.
Qed.

(** ** Growth of the history *)

Lemma reign_mono h h' T g :
  hist_ok ids h -> hist_le h h' -> acks_late h h' -> reign_ok ids h T g -> reign_ok ids h' T g.
Proof.
  intros Hh Hle Hlate []. split; try done.
  - intros i e He Hi. destruct (rk_own _ _ He Hi). split; [done|]. by apply (le_acks _ _ Hle).
  - eapply log_ok_mono; [apply le_terms|]; done.
  - by apply (le_cands _ _ Hle).
  - intros b Hb. destruct (rk_ballots _ Hb) as (?&?&?). split_and!; [by apply (le_votes _ _ Hle)|done..].
  - intros b Hb. destruct (rk_ballots _ Hb) as (?&?&?). eapply covered_mono; [done..| |by apply rk_cover].
    intros T' m Hin HT'. apply Hlate; [done..|lia].
Qed.

Lemma vote_mono h h' (b : vote) : hist_ok ids h -> hist_le h h' -> acks_late h h' -> b ∈ h_votes h ->
  (v_voter b ∈ ids /\ log_ok h' (v_log b) /\
   exists lc, h_cands h' !! (v_cand b, v_term b) = Some lc /\ up_to_date (v_log b) lc) /\
  covered h' (v_voter b) (v_log b) (v_term b) (v_term b).
Proof.
  intros Hh Hle Hlate Hb. destruct (ho_votes _ _ Hh _ Hb) as (Hin&Hlog&lc&Hlc&Hup). split.
  - split_and!; [done|eapply log_ok_mono; [apply le_terms|]; done|].
    exists lc. split; [by apply (le_cands _ _ Hle)|done].
  - eapply covered_mono; [done..| |by apply (ho_cover _ _ Hh)]. intros. by apply Hlate.
Qed.

Lemma acks_mono h h' q T m : hist_ok ids h -> hist_le h h' -> (q, T, m) ∈ h_acks h ->
  q ∈ ids /\ exists g, h_terms h' !! T = Some g /\ (m < length (g_log g))%nat.
Proof.
  intros Hh Hle Hin. destruct (ho_acks _ _ Hh _ _ _ Hin) as (Hq&g&Hg&Hm). split; [done|].
  destruct (le_terms _ _ Hle _ _ Hg) as (g'&Hg'&_&_&_&HP). exists g'. split; [done|].
  apply prefix_length in HP. lia.
Qed.

Lemma cands_mono h h' id T lc : hist_ok ids h -> hist_le h h' -> h_cands h !! (id, T) = Some lc ->
  id ∈ ids /\ 0 < T /\ log_ok h' lc /\ forall e, e ∈ lc -> e_Term e < T.
Proof.
  intros Hh Hle Hlc. destruct (ho_cands _ _ Hh _ _ _ Hlc) as (?&?&?&?). split_and!; [done..| |done].
  eapply log_ok_mono; [apply le_terms|]; done.
Qed.

(** ** Candidacy *)

Definition add_cand (id T : Z) (l : list LogEntry) (h : history) : history :=
  mkHistory (<[(id, T) := l]> (h_cands h)) (h_votes h) (h_terms h) (h_acks h).

Lemma add_cand_ok h id r0 r ms :
  hist_ok ids h -> id ∈ ids -> node_ok ids h id r0 ms -> s_term r0 < currentTerm r ->
  node_ok ids h id r ms -> s_term r = currentTerm r -> r_log r = r_log r0 ->
  let h' := add_cand id (currentTerm r) (r_log r) h in
  hist_ok ids h' /\ hist_ext id h h' /\ node_ok ids h' id r ms.
Proof.
  intros Hh Hid Hn0 Hlt Hn Hs Hlog h'.
  assert (h_cands h !! (id, currentTerm r) = None) as Hfresh.
  { destruct (h_cands h !! _) as [lc|] eqn:E; [|done]. apply (nk_cands _ _ _ _ _ Hn0) in E. lia. }
  assert (hist_le h h') as Hle.
  { split; [by apply terms_le_same|done|done|]. intros k lc Hk. cbn. rewrite lookup_insert_ne; [done|congruence]. }
  pose proof (acks_late_same h h' eq_refl) as Hlate. split_and!.
  - split.
    + apply (ho_unique _ _ Hh).
    + intros b Hb. by apply (vote_mono h h' b).
    + intros b Hb. by apply (vote_mono h h' b).
    + intros q T lc Hlc. cbn in Hlc. apply lookup_insert_Some in Hlc as [[E <-]|[_ Hlc]].
      * simplify_eq. pose proof (d_term _ (nk_durable _ _ _ _ _ Hn0)).
        split_and!; [done|lia|eapply log_ok_mono; [by apply le_terms|apply Hn]|].
        intros e He. rewrite Hlog in He. apply (nk_terms _ _ _ _ _ Hn0) in He. lia.
      * by eapply cands_mono.
    + intros T g Hg. eapply reign_mono; [done..|]. by apply (ho_reign _ _ Hh).
    + intros q T m Hin. by eapply acks_mono.
  - split; [done|by left..| |by left]. intros q T lc Hlc. cbn in Hlc.
    apply lookup_insert_Some in Hlc as [[E _]|[_ Hlc]]; [right; congruence|by left].
  - destruct Hn. split; try done.
    + intros T lc Hlc. cbn in Hlc. apply lookup_insert_Some in Hlc as [[E _]|[_ Hlc]]; [simplify_eq; lia|by eapply nk_cands].
    + intros Hc. destruct (nk_candidate Hc) as [Hc' _]. exfalso. congruence.
    + intros Hl. destruct (nk_leader Hl) as [g []]. by exists g.
Qed.

(** ** Votes *)

Definition add_vote (b : vote) (h : history) : history :=
  mkHistory (h_cands h) (b :: h_votes h) (h_terms h) (h_acks h).

Lemma add_vote_ok h id r ms dl cand lc :
  hist_ok ids h -> id ∈ ids -> node_ok ids h id r ms -> votedFor r = None_ \/ votedFor r = cand ->
  h_cands h !! (cand, currentTerm r) = Some lc -> up_to_date (r_log r) lc ->
  let h' := add_vote (mkVote id (currentTerm r) cand (r_log r)) h in
  hist_ok ids h' /\ hist_ext id h h' /\ node_ok ids h' id (persist true (set_vote dl cand r)) ms.
Proof.
  intros Hh Hid Hn Hvf Hlc Hup h'.
  assert (hist_le h h') as Hle.
  { split; [by apply terms_le_same| |done|done]. intros b Hb. cbn. by right. }
  pose proof (acks_late_same h h' eq_refl) as Hlate.
  pose proof (d_term _ (nk_durable _ _ _ _ _ Hn)) as Hst.
  assert (forall b : vote, b ∈ h_votes h -> v_voter b = id -> v_term b = currentTerm r -> v_cand b = cand) as Hu.
  { intros b Hb Hv Ht. destruct (nk_votes _ _ _ _ _ Hn b Hb Hv) as [Hle' Heq].
    pose proof (d_vote _ (nk_durable _ _ _ _ _ Hn) ltac:(lia)) as Hd. rewrite (Heq ltac:(lia)) in Hd.
    destruct (ho_votes _ _ Hh _ Hb) as (_&_&l&Hl&_). apply (ho_cands _ _ Hh) in Hl as (Hc&_).
    apply Hids in Hc. unfold None_ in Hvf. destruct Hvf; [lia|congruence]. }
  split_and!.
  - split.
    + intros b b' Hb Hb' Hv Ht. cbn in Hb, Hb'. apply elem_of_cons in Hb as [->|Hb], Hb' as [->|Hb']; [done|..].
      * cbn in Hv, Ht. symmetry. by apply Hu.
      * by apply Hu.
      * by apply (ho_unique _ _ Hh).
    + intros b Hb. cbn in Hb. apply elem_of_cons in Hb as [->|Hb]; [|by apply (vote_mono h h' b)].
      split_and!; [done|eapply log_ok_mono; [by apply le_terms|apply Hn]|]. by exists lc.
    + intros b Hb. cbn in Hb. apply elem_of_cons in Hb as [->|Hb]; [|by apply (vote_mono h h' b)].
      cbn. intros T m n Hin HT Hnm Ho. pose proof (nk_acks _ _ _ _ _ Hn _ _ _ Hin Hnm Ho).
      destruct (nk_cover _ _ _ _ _ Hn T m n) as [|]; [done|lia|done..|by left|right].
      eapply overridden_mono; [by apply terms_le_same| |done..]. lia.
    + intros q T l Hl. by eapply cands_mono.
    + intros T g Hg. eapply reign_mono; [done..|]. by apply (ho_reign _ _ Hh).
    + intros q T m Hin. by eapply acks_mono.
  - split; [done| |by left..]. intros b Hb. cbn in Hb. apply elem_of_cons in Hb as [->|Hb]; [by right|by left].
  - pose proof (persist_ok _ _ _ _ _ Hh Hn) as [].
    assert (s_term (persist true r) = currentTerm r) as Es by done.
    split; try done.
    + split; cbn; unfold s_term; cbn; lia || done.
    + intros b Hb Hv. cbn in Hb. apply elem_of_cons in Hb as [->|Hb]; [done|].
      destruct (nk_votes _ Hb Hv) as [Hle' _]. split; [done|]. intros Ht. unfold s_vote; cbn. symmetry. by apply Hu.
    + intros Hl. destruct (nk_leader Hl) as [g []]. by exists g.
Qed.

(** [startElection] *)
Lemma election_ok h id r ms dl :
  hist_ok ids h -> id ∈ ids -> node_ok ids h id r ms -> currentTerm r + 1 < 2 ^ 64 ->
  let r' := snd (startElection dl true r) in
  let h' := note_candidate id r' h in
  hist_ok ids h' /\ hist_ext id h h' /\ node_ok ids h' id r' ms /\
  currentTerm r' = currentTerm r + 1 /\ r_peers r' = peers_of ids id /\
  fst (startElection dl true r) = mkRV (currentTerm r') id (lastIndex (r_log r')) (tlast (r_log r')).
Proof.
  intros Hh Hid Hn Hlt. pose proof (d_term _ (nk_durable _ _ _ _ _ Hn)) as Hst.
  set (T := currentTerm r + 1).
  pose proof (becomeFollower_ok _ _ _ _ _ dl T Hh Hn ltac:(unfold T; lia)) as H0.
  pose proof (persist_ok _ _ _ _ _ Hh H0) as H1.
  destruct (add_cand_ok h id r (persist true (becomeFollower dl T r)) ms) as (Hh1&He1&Hn1);
    [done..|cbn; unfold T; lia|done|done|done|].
  destruct (add_vote_ok _ id _ ms dl id (r_log r) Hh1 Hid Hn1) as (Hh2&He2&Hn2);
    [by left|apply lookup_insert_eq|by right|].
  cbn zeta.
  assert (u64 (currentTerm r + 1) = T) as Eu by (apply u64_small; unfold is_u64; unfold T; lia).
  assert (snd (startElection dl true r) =
    set_candidate (persist true (set_vote dl id (persist true (becomeFollower dl T r))))) as Es.
  { unfold startElection. rewrite Eu. cbn. by rewrite (nk_id _ _ _ _ _ Hn). }
  rewrite Es. cbn [currentTerm r_log r_peers set_candidate]. split_and!.
  - exact Hh2.
  - split.
    + eapply hist_le_trans; [apply He1|apply He2].
    + intros b Hb. destruct (he_votes _ _ _ He2 _ Hb) as [Hb1|]; [|by right]. by apply (he_votes _ _ _ He1).
    + intros q U m Hin. destruct (he_acks _ _ _ He2 _ _ _ Hin) as [Hb1|]; [|by right]. by apply (he_acks _ _ _ He1).
    + intros q U lc Hlc. destruct (he_cands _ _ _ He2 _ _ _ Hlc) as [Hb1|]; [|by right].
      by apply (he_cands _ _ _ He1).
    + by left.
  - destruct Hn2 as []. destruct nk_durable. split; try done.
    + split; try done. cbn. unfold s_term; cbn. lia.
    + intros _. cbn. split; [apply lookup_insert_eq|]. intros g Hg Hl.
      apply (RaftNode.nk_reigns _ _ _ _ _ Hn) in Hg; [|done]. unfold T in Hg. lia.
  - cbn. done.
  - cbn. apply Hn.
  - unfold startElection. rewrite Eu. cbn. by rewrite (nk_id _ _ _ _ _ Hn).
Qed.

End steps.
