(* ===== verification/RaftReplicate.v ===== *)
(** * RaftReplicate: winning an election and replicating the log keep the invariants *)

From Stdlib Require Import ZArith Lia Strings.Byte Strings.String.
From stdpp Require Import base list list_numbers numbers option gmap sorting.
From coqutil Require Import Byte.
From S2P Require Import Prelude Bytes Raft RaftCluster RaftLog RaftInv RaftNode RaftSteps.

Local Open Scope Z_scope.

Section steps.
Context (ids : list Z) (Hnd : NoDup ids) (Hids : forall id, id ∈ ids -> 0 <= id).

(** A candidate or leader has persisted its term. *)
Lemma settled h id r ms : node_ok ids h id r ms -> r_state r <> Follower -> s_term r = currentTerm r.
Proof.
  intros Hn Hf. pose proof (d_term _ (nk_durable _ _ _ _ _ Hn)).
  destruct (decide (s_term r = currentTerm r)); [done|].
  destruct (d_down _ (nk_durable _ _ _ _ _ Hn)); [lia|done].
Qed.

(** ** Winning *)

(** A quorum of votes for a candidate of the term: nobody has led it yet. *)
Lemma win_fresh h id r ms (S : list Z) :
  hist_ok ids h -> node_ok ids h id r ms -> r_state r = Candidate -> quorum ids S ->
  (forall q, q ∈ S -> exists lv, mkVote q (currentTerm r) id lv ∈ h_votes h) ->
  h_terms h !! currentTerm r = None.
Proof.
  intros Hh Hn Hc HS Hv. destruct (h_terms h !! currentTerm r) as [g|] eqn:Hg; [|done]. exfalso.
  pose proof (ho_reign _ _ Hh _ _ Hg) as Hr. destruct (rk_quorum _ _ _ _ Hr) as (V&HV&Hb).
  destruct (quorum_meet _ _ _ HS HV) as (q&HqS&HqV). destruct (Hv _ HqS) as [lv Hlv].
  destruct (Hb _ HqV) as (b&Hbg&Hbq). destruct (rk_ballots _ _ _ _ Hr _ Hbg) as (Hbv&Ht&Hcand).
  destruct (nk_candidate _ _ _ _ _ Hn Hc) as [_ Hno]. apply (Hno g); [done|]. rewrite <- Hcand.
  symmetry. apply (ho_unique _ _ Hh _ b Hlv Hbv); cbn; congruence.
Qed.

Section win.
Context (h : history) (id : Z) (r : Raft) (ms : list ApplyMsg) (S : list Z).
Context (Hh : hist_ok ids h) (Hid : id ∈ ids) (Hn : node_ok ids h id r ms) (Hc : r_state r = Candidate)
  (HS : quorum ids S) (Hv : forall q, q ∈ S -> exists lv, mkVote q (currentTerm r) id lv ∈ h_votes h).

Definition win_reign : reign :=
  mkReign id (r_log r) (filter (fun b => v_term b = currentTerm r /\ v_cand b = id) (h_votes h)) (r_log r).
Definition win_hist : history :=
  mkHistory (h_cands h) (h_votes h) (<[currentTerm r := win_reign]> (h_terms h)) (h_acks h).

Lemma win_le : hist_le h win_hist.
Proof.
  pose proof (win_fresh _ _ _ _ _ Hh Hn Hc HS Hv) as Hfresh. split; [|done..].
  intros T g Hg. exists g. cbn. rewrite lookup_insert_ne by congruence. done.
Qed.

Lemma win_own_back q T m n : (q, T, m) ∈ h_acks h -> (n <= m)%nat -> own win_hist T n -> own h T n.
Proof.
  intros Hin Hnm Ho. destruct (ho_acks _ _ Hh _ _ _ Hin) as (_&g0&Hg0&Hm).
  eapply own_back; [apply le_terms, win_le|done|lia|done].
Qed.

(** The electing votes were cast before anyone led the term. *)
Lemma win_cover b : b ∈ g_ballots win_reign ->
  covered win_hist (v_voter b) (v_log b) (currentTerm r) (currentTerm r - 1).
Proof.
  intros Hb. cbn in Hb. apply list_elem_of_filter in Hb as [[Htb _] Hb]. intros T m n Hin HT Hnm Ho.
  pose proof (win_own_back _ _ _ _ Hin Hnm Ho) as Ho'. rewrite <- Htb in HT.
  pose proof (win_fresh _ _ _ _ _ Hh Hn Hc HS Hv) as Hfresh.
  destruct (ho_cover _ _ Hh _ Hb T m n) as [Hcn|(U&gU&HU&HTU&Hnot)]; [done..| |].
  - left. eapply contains_mono; [apply le_terms, win_le|done].
  - right. eapply (overridden_mono h _ T n (currentTerm r - 1)); [apply le_terms, win_le|done|done|].
    exists U, gU. split_and!; [done|lia| |done]. assert (U <> currentTerm r) by congruence. lia.
Qed.

Lemma win_reign_ok : reign_ok ids win_hist (currentTerm r) win_reign.
Proof.
  destruct (nk_candidate _ _ _ _ _ Hn Hc) as [Hcand _].
  destruct (ho_cands _ _ Hh _ _ _ Hcand) as (_&Hpos&Hlog&Hterms).
  split; cbn [g_leader g_init g_log win_reign]; try done.
  - intros i e He Hi. apply lookup_lt_Some in He. lia.
  - eapply log_ok_mono; [apply le_terms, win_le|done].
  - intros b Hb. cbn in Hb. apply list_elem_of_filter in Hb as [[??]?]. done.
  - exists S. split; [done|]. intros q Hq. destruct (Hv q Hq) as [lv Hlv].
    exists (mkVote q (currentTerm r) id lv). split; [|done]. by apply list_elem_of_filter.
  - apply win_cover.
Qed.

Lemma win_hist_ok : hist_ok ids win_hist.
Proof.
  pose proof win_le as Hle. pose proof (acks_late_same h win_hist eq_refl) as Hlate. split.
  - apply (ho_unique _ _ Hh).
  - intros b Hb. by apply (vote_mono ids h win_hist b).
  - intros b Hb. by apply (vote_mono ids h win_hist b).
  - intros q T lc Hlc. by eapply cands_mono.
  - intros T g Hg. cbn in Hg. apply lookup_insert_Some in Hg as [[<- <-]|[_ Hg]]; [apply win_reign_ok|].
    eapply reign_mono; [done..|by apply (ho_reign _ _ Hh)].
  - intros q T m Hin. by eapply acks_mono.
Qed.

Lemma win_ext : hist_ext id h win_hist.
Proof.
  split; [apply win_le|by left..|]. intros T g Hg. cbn in Hg.
  apply lookup_insert_Some in Hg as [[_ <-]|[_ Hg]]; [by right|by left].
Qed.

Lemma win_node : node_ok ids win_hist id (becomeLeader r) ms.
Proof.
  pose proof (settled _ _ _ _ Hn ltac:(congruence)) as Hs. pose proof win_own_back as Hback.
  unfold becomeLeader. rewrite decide_True by done. destruct Hn, nk_durable. split; try done.
  - split; try done. unfold s_term in *; cbn in *. lia.
  - eapply log_ok_mono; [apply le_terms, win_le|done].
  - intros T g Hg Hl. cbn in Hg. apply lookup_insert_Some in Hg as [[<- _]|[_ Hg]]; [|by eapply nk_reigns].
    unfold s_term in *; cbn. lia.
  - intros _. exists win_reign. split; cbn; try done.
    + apply lookup_insert_eq.
    + intros p m Hp. left. apply elem_of_list_to_map_2, list_elem_of_fmap in Hp as (?&?&_). congruence.
    + intros p n Hp. apply elem_of_list_to_map_2, list_elem_of_fmap in Hp as (p'&E&_). injection E as _ ->.
      pose proof (log_ok_nonempty _ _ nk_log). unfold lastIndex, zlen. lia.
  - intros T m n Hin Hnm Ho. eauto.
  - eapply covered_mono; [done|apply win_le|done|by intros|done].
  - eapply committed_mono; [apply win_le|done|done].
Qed.

End win.

(** [becomeLeader] with a quorum of votes. *)
Lemma win_ok h id r ms (S : list Z) :
  hist_ok ids h -> id ∈ ids -> node_ok ids h id r ms -> r_state r = Candidate -> quorum ids S ->
  (forall q, q ∈ S -> exists lv, mkVote q (currentTerm r) id lv ∈ h_votes h) ->
  let r' := becomeLeader r in
  let h' := note_win id r r' h in
  hist_ok ids h' /\ hist_ext id h h' /\ node_ok ids h' id r' ms.
Proof.
  intros Hh Hid Hn Hc HS Hv. cbn zeta.
  assert (note_win id r (becomeLeader r) h = win_hist h id r) as ->.
  { unfold note_win, becomeLeader. rewrite decide_True by done. rewrite Hc. done. }
  split_and!; [by eapply win_hist_ok|by eapply win_ext|by eapply win_node].
Qed.

(** [startElection]'s goroutine, short of winning. *)
Lemma voteReply_cases dl term reply votes r :
  let '(votes', r') := voteReply dl true term reply votes r in
  (votes' = votes /\ r' = r) \/
  (votes' = votes /\ currentTerm r < rvr_Term reply /\ r' = persist true (becomeFollower dl (rvr_Term reply) r)) \/
  (votes' = votes + 1 /\ VoteGranted reply = true /\ r_state r = Candidate /\ currentTerm r = term /\
   (r' = r \/ majority r <= votes' /\ r' = becomeLeader r)).
Proof.
  unfold voteReply. destruct (_ || _) eqn:Hg; [by left|]. apply orb_false_iff in Hg as [Hs Ht].
  apply negb_false_iff, bool_decide_eq_true in Hs. apply negb_false_iff, Z.eqb_eq in Ht.
  destruct (Z.ltb_spec (currentTerm r) (rvr_Term reply)); [right; by left|].
  destruct (VoteGranted reply); cbn; [|by left]. right; right.
  split_and!; [done..|]. destruct (Z.leb_spec (majority r) (votes + 1)); [by right|by left].
Qed.

(** ** Proposing *)

Section propose.
Context (h : history) (id : Z) (r : Raft) (ms : list ApplyMsg) (command : list byte) (g : reign).
Context (Hh : hist_ok ids h) (Hid : id ∈ ids) (Hn : node_ok ids h id r ms) (Hs : s_term r = currentTerm r)
  (Hg : leader_ok h id r g).

Definition prop_log : list LogEntry := r_log r ++ [mkEntry (currentTerm r) command].
Definition prop_reign : reign := mkReign (g_leader g) (g_init g) (g_ballots g) prop_log.
Definition prop_hist : history :=
  mkHistory (h_cands h) (h_votes h)
    (alter (fun g => mkReign (g_leader g) (g_init g) (g_ballots g) prop_log) (currentTerm r) (h_terms h))
    ((id, currentTerm r, length (r_log r)) :: h_acks h).

Lemma prop_log_prefix : r_log r `prefix_of` prop_log.
Proof. by apply prefix_app_r. Qed.

Lemma prop_log_length : length prop_log = S (length (r_log r)).
Proof. unfold prop_log. rewrite length_app. cbn. lia. Qed.

(** The entries of the new log: the old ones, and the proposed one. *)
Lemma prop_log_lookup i e : prop_log !! i = Some e ->
  r_log r !! i = Some e \/ i = length (r_log r) /\ e_Term e = currentTerm r.
Proof.
  intros He. unfold prop_log in He. apply lookup_app_Some in He as [He|[Hlen He]]; [by left|right].
  destruct (i - length (r_log r))%nat as [|k] eqn:Ek; [|done]. injection He as <-. split; [lia|done].
Qed.

Lemma prop_terms T :
  h_terms prop_hist !! T = if decide (T = currentTerm r) then Some prop_reign else h_terms h !! T.
Proof.
  cbn. destruct (decide (T = currentTerm r)) as [->|].
  - rewrite lookup_alter_eq, (lk_reign _ _ _ _ Hg). done.
  - by apply lookup_alter_ne.
Qed.

Lemma prop_reign_lookup : h_terms prop_hist !! currentTerm r = Some prop_reign.
Proof. by rewrite prop_terms, decide_True. Qed.

Lemma prop_acks a : a ∈ h_acks prop_hist -> a = (id, currentTerm r, length (r_log r)) \/ a ∈ h_acks h.
Proof. cbn. intros [?|?]%elem_of_cons; auto. Qed.

Lemma prop_le : hist_le h prop_hist.
Proof.
  split; [|done|by right|done]. intros T g' Hg'. rewrite prop_terms. destruct (decide (T = currentTerm r)) as [->|].
  - rewrite (lk_reign _ _ _ _ Hg) in Hg'. injection Hg' as <-. exists prop_reign. split_and!; [done..|].
    rewrite (lk_log _ _ _ _ Hg). apply prop_log_prefix.
  - by exists g'.
Qed.

Lemma prop_late : acks_late h prop_hist.
Proof.
  intros b T m Hb [E|?]%prop_acks HT; [|done]. injection E as E -> _.
  destruct (nk_votes _ _ _ _ _ Hn _ Hb E). lia.
Qed.

Lemma prop_log_ok : log_ok prop_hist prop_log.
Proof.
  destruct (log_ok_mono _ _ _ (le_terms _ _ prop_le) (nk_log _ _ _ _ _ Hn)) as [H0 Hi]. split.
  - by eapply prefix_lookup_Some, prop_log_prefix.
  - intros i e He. destruct (prop_log_lookup _ _ He) as [He'|[Hlen ->]].
    + destruct (Hi _ _ He') as (gx&Hgx&HA). exists gx. split; [done|].
      eapply agree_prefix_l; [done|apply prop_log_prefix].
    + exists prop_reign. split; [apply prop_reign_lookup|]. apply (agree_refl prop_log). rewrite prop_log_length. lia.
Qed.

Lemma prop_reign_ok : reign_ok ids prop_hist (currentTerm r) prop_reign.
Proof.
  destruct (reign_mono ids h prop_hist (currentTerm r) g Hh prop_le prop_late) as [];
    [by apply (ho_reign _ _ Hh), (lk_reign _ _ _ _ Hg)|].
  split; try done.
  - cbn. rewrite (lk_log _ _ _ _ Hg) in *. etrans; [done|apply prop_log_prefix].
  - cbn [g_log prop_reign g_init g_leader]. intros i e He Hi. destruct (prop_log_lookup _ _ He) as [He'|[-> ->]].
    + apply rk_own; [by rewrite (lk_log _ _ _ _ Hg)|done].
    + split; [done|]. rewrite (lk_id _ _ _ _ Hg). by left.
  - apply prop_log_ok.
Qed.

Lemma prop_hist_ok : hist_ok ids prop_hist.
Proof.
  pose proof prop_le as Hle. pose proof prop_late as Hlate. split.
  - apply (ho_unique _ _ Hh).
  - intros b Hb. by apply (vote_mono ids h prop_hist b).
  - intros b Hb. by apply (vote_mono ids h prop_hist b).
  - intros q T lc Hlc. by eapply cands_mono.
  - intros T g' Hg'. rewrite prop_terms in Hg'. destruct (decide (T = currentTerm r)) as [->|].
    + injection Hg' as <-. apply prop_reign_ok.
    + eapply reign_mono; [done..|]. by apply (ho_reign _ _ Hh).
  - intros q T m [E|Hin]%prop_acks; [|by eapply acks_mono]. injection E as -> -> ->. split; [done|].
    exists prop_reign. split; [apply prop_reign_lookup|]. cbn [g_log prop_reign]. rewrite prop_log_length. lia.
Qed.

Lemma prop_ext : hist_ext id h prop_hist.
Proof.
  split; [apply prop_le|by left| |by left|].
  - intros q T m [E|?]%prop_acks; [right; congruence|by left].
  - intros T g' Hg'. rewrite prop_terms in Hg'. destruct (decide (T = currentTerm r)) as [->|]; [|by left].
    injection Hg' as <-. right. apply (lk_id _ _ _ _ Hg).
Qed.

(** An acknowledgement known before concerns entries known before. *)
Lemma prop_own_back q T m n : (q, T, m) ∈ h_acks h -> (n <= m)%nat -> own prop_hist T n -> own h T n.
Proof.
  intros Hin Hnm Ho. destruct (ho_acks _ _ Hh _ _ _ Hin) as (_&g0&Hg0&Hm).
  eapply own_back; [apply le_terms, prop_le|done|lia|done].
Qed.

Lemma prop_cover : covered prop_hist id prop_log (currentTerm r + 1) (currentTerm r).
Proof.
  intros T m n [E|Hin]%prop_acks HT Hnm Ho.
  - injection E as -> ->. left. exists prop_reign. split; [apply prop_reign_lookup|]. apply (agree_refl prop_log).
    cbn [g_log prop_reign]. rewrite prop_log_length. lia.
  - pose proof (prop_own_back _ _ _ _ Hin Hnm Ho) as Ho'.
    destruct (nk_cover _ _ _ _ _ Hn T m n) as [Hc|Hov]; [done|lia|done..| |].
    + left. eapply contains_mono in Hc; [|apply le_terms, prop_le]. destruct Hc as (gx&?&HA).
      exists gx. split; [done|]. eapply agree_prefix_l; [done|apply prop_log_prefix].
    + right. eapply overridden_mono; [apply le_terms, prop_le| |done..]. lia.
Qed.

Lemma prop_node : node_ok ids prop_hist id (persist true (set_log prop_log r)) ms.
Proof.
  pose proof (log_ok_nonempty _ _ (nk_log _ _ _ _ _ Hn)) as Hne.
  pose proof prop_own_back as Hback. pose proof (lk_match _ _ _ _ Hg) as Hm. pose proof (lk_next _ _ _ _ Hg) as Hx.
  destruct Hn, nk_durable. rewrite Hs in *.
  assert (s_term (persist true (set_log prop_log r)) = currentTerm r) as Es by done.
  split; rewrite ?Es; try done.
  - apply prop_log_ok.
  - cbn [r_log persist set_log]. intros e He. apply list_elem_of_lookup in He as [i He].
    destruct (prop_log_lookup _ _ He) as [He'|[_ ->]]; [|done]. apply list_elem_of_lookup_2 in He'. auto.
  - intros b Hb Hv. destruct (nk_votes _ Hb Hv) as [? Heq]. split; [done|]. intros HT. cbn. rewrite d_vote; auto.
  - cbn. intros Hc. destruct (nk_candidate Hc) as [_ Hno]. exfalso. eapply Hno; apply Hg.
  - intros T g' Hg' Hl. rewrite prop_terms in Hg'. destruct (decide (T = currentTerm r)) as [->|]; [done|eauto].
  - intros _. exists prop_reign. split; [apply prop_reign_lookup|apply Hg|done|..].
    + intros p m Hp. destruct (Hm _ _ Hp) as [|[??]]; [by left|right]. split; [done|by right].
    + intros p n Hp. apply Hx in Hp. unfold zlen in *. cbn [r_log persist set_log]. rewrite prop_log_length. lia.
  - intros T m n [E|Hin]%prop_acks Hnm Ho; [injection E as -> _; done|]. eauto.
  - apply prop_cover.
  - eapply (committed_mono _ _ _ _ _ _ (currentTerm r)) in nk_commit; [|apply prop_le|done].
    destruct nk_commit as [|(U&n&Hc&Hk&HUT&(gx&Hgx&HA))]; [by left|right]. exists U, n.
    split; [done|]. split; [done|]. split; [done|].
    exists gx. split; [done|]. eapply agree_prefix_l; [done|apply prop_log_prefix].
  - rewrite nk_delivered. cbn [r_log lastApplied persist set_log].
    pose proof (committed_in_range _ _ _ _ _ nk_commit Hne). unfold zlen in *.
    apply delivered_agree; [lia..|rewrite prop_log_length; lia|].
    intros _. apply prefix_agree; [apply prop_log_prefix|lia].
Qed.

End propose.

(** [Start] on the leader. *)
Lemma start_ok h id r ms command :
  hist_ok ids h -> id ∈ ids -> node_ok ids h id r ms -> r_state r = Leader ->
  let r' := snd (Start true command r) in
  let h' := note_start id r' h in
  hist_ok ids h' /\ hist_ext id h h' /\ node_ok ids h' id r' ms.
Proof.
  intros Hh Hid Hn Hl. destruct (nk_leader _ _ _ _ _ Hn Hl) as [g Hg].
  assert (s_term r = currentTerm r) as Hs by (eapply settled; [done|congruence]).
  assert (snd (Start true command r) = persist true (set_log (prop_log r command) r)) as Er.
  { unfold Start. by rewrite decide_True. }
  cbn zeta. rewrite Er.
  assert (note_start id (persist true (set_log (prop_log r command) r)) h = prop_hist h id r command) as ->.
  { unfold note_start, prop_hist. cbn [currentTerm r_log persist set_log]. do 4 f_equal.
    unfold lastIndex, zlen. rewrite prop_log_length. lia. }
  split_and!; [by eapply prop_hist_ok|by eapply prop_ext|by eapply prop_node].
Qed.

End steps.
