(* ===== verification/RaftAppend.v ===== *)
(** * RaftAppend: [AppendEntries] at the follower, and its reply at the leader *)

From Stdlib Require Import ZArith Lia Strings.Byte Strings.String.
From stdpp Require Import base list list_numbers numbers option gmap sorting.
From coqutil Require Import Byte.
From S2P Require Import Prelude Bytes Raft RaftCluster RaftLog RaftInv RaftNode RaftSteps RaftReplicate.

Local Open Scope Z_scope.

Definition add_ack (a : Z * Z * nat) (h : history) : history :=
  mkHistory (h_cands h) (h_votes h) (h_terms h) (a :: h_acks h).

(** The index the follower has matched when it accepts [args]. *)
Definition last_new (args : AppendEntriesArgs) : Z := PrevLogIndex args + zlen (Entries args).

Lemma conflictStart_bounds fuel log T ci : 0 <= ci ->
  0 <= conflictStart fuel log T ci <= ci /\ (1 <= ci -> 1 <= conflictStart fuel log T ci).
Proof.
  revert ci. induction fuel as [|fuel IH]; intros ci Hci; cbn [conflictStart]; [lia|].
  destruct (_ && _) eqn:Hc; [|lia]. bprop. destruct (IH (ci - 1)) as [? Hp]; lia.
Qed.

Section append.
Context (ids : list Z) (Hnd : NoDup ids) (Hids : forall id, id ∈ ids -> 0 <= id).

(** A request in flight: a piece of the log of the leader of its term. *)
Record request_ok (h : history) (to : Z) (args : AppendEntriesArgs) (g : reign) : Prop := {
  aq_to : to ∈ ids;
  aq_reign : h_terms h !! ae_Term args = Some g;
  aq_leader : LeaderID args = g_leader g;
  aq_prev : 0 <= PrevLogIndex args;
  aq_len : last_new args < zlen (g_log g);
  aq_term : PrevLogTerm args = term_at (g_log g) (PrevLogIndex args);
  aq_entries : Entries args = take (length (Entries args)) (drop (Z.to_nat (PrevLogIndex args + 1)) (g_log g));
  aq_commit : LeaderCommit args <= last_new args;
  aq_committed : committed ids h (LeaderCommit args) (g_log g) (ae_Term args)
}.

Lemma request_mono h h' to args g g' :
  hist_le h h' -> h_terms h' !! ae_Term args = Some g' ->
  g_leader g' = g_leader g -> g_log g `prefix_of` g_log g' ->
  request_ok h to args g -> request_ok h' to args g'.
Proof.
  intros Hle Hg' Hid [x Hx] []. unfold last_new, zlen in *. split; try done.
  - congruence.
  - unfold last_new, zlen. rewrite Hx, length_app. lia.
  - rewrite Hx. unfold term_at in *. rewrite lookup_app_l by lia. done.
  - rewrite Hx. rewrite drop_app_le by lia. rewrite take_app_le by (rewrite length_drop; lia). done.
  - apply (committed_mono _ h h' _ _ _ (ae_Term args)) in aq_committed0; [|done..].
    destruct aq_committed0 as [|(T&n&Hc&Hk&HT&(gx&Hgx&HA))]; [by left|right]. exists T, n.
    split; [done|]. split; [done|]. split; [done|]. exists gx. split; [done|].
    eapply agree_prefix_l; [done|]. rewrite Hx. by apply prefix_app_r.
Qed.

(** ** The follower's log *)

Lemma replace_log_ok h id r ms g l' :
  hist_ok ids h -> node_ok ids h id r ms -> r_state r = Follower -> h_terms h !! currentTerm r = Some g ->
  log_ok h l' -> (forall e, e ∈ l' -> e_Term e <= currentTerm r) ->
  (forall k, agree k (r_log r) (g_log g) -> agree k l' (g_log g)) ->
  node_ok ids h id (persist true (set_log l' r)) ms.
Proof.
  intros Hh Hn Hf Hg Hl' Ht Hkeep. pose proof (log_ok_nonempty _ _ (nk_log _ _ _ _ _ Hn)) as Hne.
  assert (forall T n k, chosen ids h T n -> (k <= n)%nat -> T <= currentTerm r -> contains h T k (r_log r) ->
    agree (S k) (r_log r) l' /\ contains h T k l') as Hch.
  { intros T n k Hc Hk HT Hcn. pose proof (chosen_in_reign _ _ _ _ _ _ Hh Hc HT Hg) as Hcg.
    apply (contains_le _ _ _ k) in Hcg; [|done]. destruct Hcn as (gt&Hgt&HA), Hcg as (gt'&Hgt'&HA').
    rewrite Hgt in Hgt'. injection Hgt' as <-.
    assert (agree (S k) (r_log r) (g_log g)) as HA1 by (eapply agree_trans; [done|by apply agree_sym]).
    pose proof (Hkeep _ HA1) as HA2. split; [eapply agree_trans; [done|by apply agree_sym]|].
    exists gt. split; [done|]. eapply agree_trans; [exact HA2|done]. }
  pose proof (persist_ok _ _ _ _ _ Hh Hn) as [].
  assert (s_term (persist true r) = currentTerm r) as Es by done. destruct nk_durable. split; try done.
  - cbn. congruence.
  - cbn. congruence.
  - intros T m n Hin HT Hnm Ho. destruct (nk_cover T m n) as [(gt&Hgt&HA)|Hov]; [done..| |by right].
    change (T < currentTerm r + 1) in HT. change (agree (S n) (r_log r) (g_log gt)) in HA.
    change (contains h T n l' \/ overridden h T n (currentTerm r)).
    destruct (decide (agree (S n) (g_log g) (g_log gt))) as [HAg|HAg].
    + left. exists gt. split; [done|]. eapply agree_trans; [|exact HAg]. apply Hkeep.
      eapply agree_trans; [done|by apply agree_sym].
    + right. exists (currentTerm r), g. split; [done|].
      assert (T <> currentTerm r).
      { intros ->. rewrite Hg in Hgt. injection Hgt as <-. apply HAg, agree_refl. apply HA. }
      split; [lia|].
      intros (g1&Hg1&HA1). rewrite Hgt in Hg1. injection Hg1 as <-. apply HAg.
      eapply agree_prefix_l; [done|]. by apply (rk_prefix _ _ _ _ (ho_reign _ _ Hh _ _ Hg)).
  - destruct nk_commit as [|(T&n&Hc&Hk&HT&Hcn)]; [by left|right]. exists T, n.
    split; [done|]. split; [done|]. split; [done|]. eapply Hch; [done| |done..].
    change (0 < commitIndex r <= Z.of_nat n) in Hk. cbn. lia.
  - change (lastApplied (persist true r)) with (lastApplied r) in *.
    change (commitIndex (persist true r)) with (commitIndex r) in *.
    change (ms = delivered l' (lastApplied r)). rewrite nk_delivered. apply delivered_agree; [lia|done|by apply log_ok_nonempty in Hl'|]. intros Hpos.
    destruct nk_commit as [|(T&n&Hc&Hk&HT&Hcn)]; [lia|].
    eapply agree_le; [|eapply (Hch T n (Z.to_nat (commitIndex r))); [done| |done..]]; lia.
Qed.

(** ** Acknowledging *)

Lemma add_ack_ok h id r ms g m :
  hist_ok ids h -> id ∈ ids -> node_ok ids h id r ms -> h_terms h !! currentTerm r = Some g ->
  agree (S m) (r_log r) (g_log g) ->
  let h' := add_ack (id, currentTerm r, m) h in
  hist_ok ids h' /\ hist_ext id h h' /\ node_ok ids h' id r ms.
Proof.
  intros Hh Hid Hn Hg HA h'.
  assert (hist_le h h') as Hle by (split; [by apply terms_le_same|done|by right|done]).
  assert (forall a, a ∈ h_acks h' -> a = (id, currentTerm r, m) \/ a ∈ h_acks h) as Ha.
  { cbn. intros a [?|?]%elem_of_cons; auto. }
  pose proof (d_term _ (nk_durable _ _ _ _ _ Hn)) as Hst.
  assert (acks_late h h') as Hlate.
  { intros b T k Hb [E|?]%Ha HT; [|done]. injection E as E -> _. destruct (nk_votes _ _ _ _ _ Hn _ Hb E). lia. }
  split_and!.
  - split.
    + apply (ho_unique _ _ Hh).
    + intros b Hb. by apply (vote_mono ids h h' b).
    + intros b Hb. by apply (vote_mono ids h h' b).
    + intros q T lc Hlc. by eapply cands_mono.
    + intros T g' Hg'. eapply reign_mono; [done..|by apply (ho_reign _ _ Hh)].
    + intros q T k [E|Hin]%Ha; [|by eapply acks_mono]. injection E as -> -> ->. split; [done|].
      exists g. split; [done|]. apply HA.
  - split; [done|by left| |by left..]. intros q T k [E|?]%Ha; [right; congruence|by left].
  - destruct Hn. split; try done.
    + intros Hl. destruct (nk_leader Hl) as [g' []]. exists g'. split; try done.
      intros p k Hp. destruct (lk_match _ _ Hp) as [|[??]]; [by left|right]. split; [done|by right].
    + intros T k n [E|Hin]%Ha Hnk Ho; [|by eapply nk_acks]. injection E as -> ->.
      destruct Ho as (g'&e&Hg'&He&Ht). cbn in Hg'. rewrite Hg in Hg'. injection Hg' as <-.
      rewrite <- (agree_lookup _ _ _ _ HA) in He by lia. apply list_elem_of_lookup_2, nk_terms in He. lia.
    + intros T k n [E|Hin]%Ha HT Hnk Ho; [|by apply (nk_cover T k n)]. injection E as -> ->.
      left. exists g. split; [done|]. eapply agree_le; [|exact HA]. lia.
    + by eapply committed_mono.
Qed.

(** ** [AppendEntries] *)

(** The node once the leader's term is accepted. *)
Definition accepted (dl : Z) (args : AppendEntriesArgs) (r : Raft) : Raft :=
  heard dl (LeaderID args) (if currentTerm r <? ae_Term args then becomeFollower dl (ae_Term args) r else r).

Lemma accepted_ok h id r ms dl args :
  hist_ok ids h -> node_ok ids h id r ms -> currentTerm r <= ae_Term args ->
  node_ok ids h id (accepted dl args r) ms /\ currentTerm (accepted dl args r) = ae_Term args /\
  r_log (accepted dl args r) = r_log r /\ commitIndex (accepted dl args r) = commitIndex r.
Proof.
  intros Hh Hn HT. unfold accepted. destruct (Z.ltb_spec (currentTerm r) (ae_Term args)).
  - split_and!; [|done..]. apply heard_ok. by apply becomeFollower_ok.
  - split_and!; [by apply heard_ok|cbn; lia|done..].
Qed.

(** The branches of [AppendEntries]. *)
Lemma AppendEntries_cases dl args r reply r' :
  AppendEntries dl true args r = (reply, r') -> 0 <= PrevLogIndex args ->
  (r' = r /\ Success reply = false /\ ConflictIndex reply = 0) \/
  (currentTerm r <= ae_Term args /\ Success reply = false /\ ConflictIndex reply <= PrevLogIndex args /\
   (r' = accepted dl args r \/ r' = persist true (accepted dl args r))) \/
  (currentTerm r <= ae_Term args /\ Success reply = true /\ ConflictIndex reply = 0 /\
   PrevLogIndex args <= lastIndex (r_log r) /\ term_at (r_log r) (PrevLogIndex args) = PrevLogTerm args /\
   exists l' appended,
     appendFrom (r_log r) (Z.to_nat (PrevLogIndex args + 1)) (Entries args) = (l', appended) /\
     let k := if commitIndex r <? LeaderCommit args then Z.min (LeaderCommit args) (last_new args)
              else commitIndex r in
     (r' = set_commit k (persist true (set_log l' (accepted dl args r))) \/
      appended = false /\ r' = set_commit k (set_log l' (accepted dl args r)))).
Proof.
  intros HA Hp. unfold AppendEntries in HA. unfold accepted.
  destruct (Z.ltb_spec (ae_Term args) (currentTerm r)) as [HT|HT]; [left; by injection HA as <- <-|right].
  destruct (currentTerm r <? ae_Term args) eqn:Hlt; cbn zeta in HA;
    cbn [r_log becomeFollower commitIndex currentTerm] in HA;
    (destruct (Z.ltb_spec (lastIndex (r_log r)) (PrevLogIndex args));
      [left; injection HA as <- <-; split_and!; [done|done|cbn; lia|auto]|]);
    (destruct (Z.eqb_spec (term_at (r_log r) (PrevLogIndex args)) (PrevLogTerm args)); cbn [negb] in HA;
      [right|left; injection HA as <- <-; split_and!; [done|done|apply conflictStart_bounds; lia|auto]]);
    destruct (appendFrom _ _ _) as [l' appended] eqn:Ha; injection HA as <- <-;
    (split_and!; [done..|]); exists l', appended; (split; [done|]); cbn zeta.
  - left. done.
  - destruct appended; [left|right]; done.
Qed.

(** What an accepted request does to the follower's log. *)
Lemma appended_log h id r ms args g l' appended :
  hist_ok ids h -> node_ok ids h id r ms -> request_ok h id args g -> currentTerm r = ae_Term args ->
  PrevLogIndex args <= lastIndex (r_log r) -> term_at (r_log r) (PrevLogIndex args) = PrevLogTerm args ->
  appendFrom (r_log r) (Z.to_nat (PrevLogIndex args + 1)) (Entries args) = (l', appended) ->
  agree (S (Z.to_nat (last_new args))) l' (g_log g) /\ log_ok h l' /\
  (forall e, e ∈ l' -> e_Term e <= currentTerm r) /\
  (forall k, agree k (r_log r) (g_log g) -> agree k l' (g_log g)) /\ (appended = false -> l' = r_log r).
Proof.
  intros Hh Hn [] HT Hlast Hterm Ha. pose proof (ho_reign _ _ Hh _ _ aq_reign0) as Hr.
  pose proof (rk_log _ _ _ _ Hr) as HL. pose proof (nk_log _ _ _ _ _ Hn) as Hl.
  pose proof (d_term _ (nk_durable _ _ _ _ _ Hn)) as Hst.
  unfold last_new, lastIndex, zlen in *. set (p := Z.to_nat (PrevLogIndex args)) in *.
  destruct (lookup_lt_is_Some_2 (r_log r) p) as [e He]; [unfold p; lia|].
  destruct (lookup_lt_is_Some_2 (g_log g) p) as [e' He']; [unfold p; lia|].
  assert (agree (S p) (r_log r) (g_log g)) as HA.
  { eapply log_matching; [exact Hl|exact HL|done..|]. unfold term_at in *. fold p in Hterm, aq_term0.
    rewrite He in Hterm. rewrite He' in aq_term0. congruence. }
  replace (Z.to_nat (PrevLogIndex args + 1)) with (S p) in * by (unfold p; lia).
  pose proof (appendFrom_spec h _ _ _ _ Hl HL HA aq_entries0 ltac:(unfold p; lia)) as Hspec. rewrite Ha in Hspec.
  destruct Hspec as (HA'&Hkeep&Hsame&Hnew).
  replace (S (Z.to_nat (PrevLogIndex args + Z.of_nat (length (Entries args)))))
    with (S p + length (Entries args))%nat by (unfold p; lia).
  split_and!; [done| | |done|done].
  - destruct appended; [|by rewrite Hsame]. eapply (log_ok_agree _ (S p + length (Entries args)) _ (g_log g)); [lia|done| |done].
    rewrite Hnew by done. rewrite length_take. unfold p. lia.
  - intros x Hx. destruct appended.
    + rewrite Hnew in Hx by done. apply list_elem_of_lookup in Hx as [i Hx]. apply lookup_take_Some in Hx as [Hx _].
      rewrite HT. by eapply reign_terms.
    + rewrite Hsame in Hx by done. apply (nk_terms _ _ _ _ _ Hn) in Hx. lia.
Qed.

Lemma set_log_same r : set_log (r_log r) r = r.
Proof. by destruct r. Qed.

Lemma append_ok h id r ms dl args g reply r' :
  hist_ok ids h -> id ∈ ids -> node_ok ids h id r ms -> request_ok h id args g ->
  AppendEntries dl true args r = (reply, r') ->
  let h' := note_ack id args reply h in
  hist_ok ids h' /\ hist_ext id h h' /\ node_ok ids h' id r' ms /\ ConflictIndex reply <= PrevLogIndex args /\
  (Success reply = true -> (id, ae_Term args, Z.to_nat (last_new args)) ∈ h_acks h').
Proof.
  intros Hh Hid Hn Hq HA. pose proof (aq_prev _ _ _ _ Hq) as Hp. unfold note_ack. fold (last_new args).
  destruct (AppendEntries_cases _ _ _ _ _ HA Hp)
    as [(->&->&->)|[(HT&->&Hci&Hr')|(HT&->&->&Hlast&Hterm&l'&appended&Ha&Hr')]]; cbn zeta.
  - split_and!; [done|apply hist_ext_refl|done..].
  - destruct (accepted_ok h id r ms dl args Hh Hn HT) as (Hna&_).
    split_and!; [done|apply hist_ext_refl| |done|done]. destruct Hr' as [->| ->]; [done|by apply persist_ok].
  - destruct (accepted_ok h id r ms dl args Hh Hn HT) as (Hna&Ht&Hlog&Hci). cbn zeta in Hr'. rewrite <- Hci in Hr'.
    set (a := accepted dl args r) in *. rewrite <- Hlog in *.
    destruct (appended_log _ _ _ _ _ _ _ _ Hh Hna Hq Ht Hlast Hterm Ha) as (HAg&Hl'&Hterms&Hkeep&Hsame).
    assert (exists x, node_ok ids h id x ms /\ r_log x = l' /\ currentTerm x = ae_Term args /\
      commitIndex x = commitIndex a /\
      r' = set_commit (if commitIndex a <? LeaderCommit args then Z.min (LeaderCommit args) (last_new args)
                       else commitIndex a) x) as (x&Hx&Hxl&Hxt&Hxc&->).
    { destruct Hr' as [->|[Hno ->]].
      - exists (persist true (set_log l' a)). split_and!; [|done..].
        eapply replace_log_ok; [done..| |done|done|exact Hkeep]. rewrite Ht. by apply Hq.
      - exists (set_log l' a). split_and!; [|done..]. by rewrite Hsame, set_log_same. }
    destruct (add_ack_ok h id x ms g (Z.to_nat (last_new args))) as (Hh'&He'&Hx');
      [done..|rewrite Hxt; apply Hq|by rewrite Hxl|].
    rewrite <- Hxt. split_and!; [done|done| |done|intros _; by left].
    rewrite <- Hxc. destruct (Z.ltb_spec (commitIndex x) (LeaderCommit args)).
    + pose proof (aq_commit _ _ _ _ Hq). rewrite Z.min_l by done. apply set_commit_ok; [done| |lia].
      eapply (committed_mono _ h); [apply He'|done|].
      destruct (aq_committed _ _ _ _ Hq) as [|(T&n&Hc&Hk&HT0&Hcn)]; [by left|right]. exists T, n.
      split; [done|]. split; [done|]. split; [lia|]. eapply contains_agree; [|exact Hcn].
      apply agree_sym. rewrite Hxl. eapply agree_le; [|exact HAg]. lia.
    + apply set_commit_ok; [done|apply Hx'|done].
Qed.

(** ** The leader's side *)

Lemma advanceFrom_spec n r :
  advanceFrom n r = commitIndex r \/
  commitIndex r < advanceFrom n r <= Z.of_nat n /\ term_at (r_log r) (advanceFrom n r) = currentTerm r /\
  majority r <= countMatch r (advanceFrom n r).
Proof.
  induction n as [|n IH]; cbn [advanceFrom]; [by left|].
  destruct (Z.leb_spec (Z.of_nat (S n)) (commitIndex r)); [by left|].
  destruct (Z.eqb_spec (term_at (r_log r) (Z.of_nat (S n))) (currentTerm r)); cbn [negb].
  - destruct (Z.leb_spec (majority r) (countMatch r (Z.of_nat (S n)))); [right; split_and!; [lia..|done|done]|].
    destruct IH as [|(?&?&?)]; [by left|right]. split_and!; [lia..|done|done].
  - destruct IH as [|(?&?&?)]; [by left|right]. split_and!; [lia..|done|done].
Qed.

Lemma advanceCommit_ok h id r ms g :
  hist_ok ids h -> id ∈ ids -> node_ok ids h id r ms -> leader_ok h id r g -> node_ok ids h id (advanceCommit r) ms.
Proof.
  intros Hh Hid Hn Hg. unfold advanceCommit.
  pose proof (committed_in_range _ _ _ _ _ (nk_commit _ _ _ _ _ Hn) (log_ok_nonempty _ _ (nk_log _ _ _ _ _ Hn))).
  destruct (advanceFrom_spec (Z.to_nat (lastIndex (r_log r))) r) as [->|(Hk&Ht&Hm)].
  { apply set_commit_ok; [done|apply Hn|done]. }
  set (k := advanceFrom _ r) in *. apply set_commit_ok; [done| |lia]. right.
  exists (currentTerm r), (Z.to_nat k). unfold lastIndex, zlen in *.
  destruct (lookup_lt_is_Some_2 (r_log r) (Z.to_nat k)) as [e He]; [lia|].
  unfold term_at in Ht. rewrite He in Ht. destruct Hg.
  assert (own h (currentTerm r) (Z.to_nat k)) as Hown by (exists g, e; by rewrite lk_log).
  split; [split; [done|]|split; [lia|split; [done|]]].
  - exists (id :: filter (fun p => k <= default 0 (matchIndex r !! p)) (r_peers r)).
    rewrite (nk_peers _ _ _ _ _ Hn).
    assert (forall q, q ∈ id :: filter (fun p => k <= default 0 (matchIndex r !! p)) (peers_of ids id) ->
      q ∈ ids /\ (q = id \/ k <= default 0 (matchIndex r !! q))) as Hq.
    { intros q [->|[Hq Hin]%list_elem_of_filter]%elem_of_cons; [auto|].
      apply list_elem_of_filter in Hin as [_ ?]. auto. }
    split.
    + apply (majority_quorum ids Hnd id r); [done|apply Hn| | |intros q Hin; by apply Hq].
      * unfold countMatch, zlen in *. rewrite (nk_peers _ _ _ _ _ Hn) in Hm. cbn [length]. lia.
      * apply NoDup_cons. split; [|by apply NoDup_filter, NoDup_filter].
        intros [_ [? _]%list_elem_of_filter]%list_elem_of_filter. done.
    + intros q Hin. destruct (Hq q Hin) as [_ [->|Hle]].
      * exists (Z.to_nat k). split; [done|]. pose proof (ho_reign _ _ Hh _ _ lk_reign) as Hr.
        rewrite <- lk_id at 1. apply (rk_own _ _ _ _ Hr _ e); [by rewrite lk_log|].
        destruct (decide (length (g_init g) <= Z.to_nat k)%nat); [done|exfalso].
        destruct (rk_prefix _ _ _ _ Hr) as [x Hx]. rewrite <- lk_log, Hx, lookup_app_l in He by lia.
        apply list_elem_of_lookup_2, (rk_init _ _ _ _ Hr) in He. lia.
      * destruct (matchIndex r !! q) as [m|] eqn:Hmq; cbn in Hle; [|lia].
        destruct (lk_match _ _ Hmq) as [|[??]]; [lia|]. exists (Z.to_nat m). split; [lia|done].
  - exists g. split; [done|]. rewrite lk_log. apply agree_refl. lia.
Qed.

Lemma appendReply_ok h id r ms dl args from reply g :
  hist_ok ids h -> id ∈ ids -> node_ok ids h id r ms -> request_ok h from args g -> LeaderID args = id ->
  ConflictIndex reply <= PrevLogIndex args ->
  (Success reply = true -> (from, ae_Term args, Z.to_nat (last_new args)) ∈ h_acks h) ->
  node_ok ids h id (appendReply dl args from reply r) ms.
Proof.
  intros Hh Hid Hn [] Hl Hci Hack. unfold appendReply. fold (last_new args).
  destruct (_ || _) eqn:Hg; [done|]. apply orb_false_iff in Hg as [Hs Ht].
  apply negb_false_iff, bool_decide_eq_true in Hs. apply negb_false_iff, Z.eqb_eq in Ht.
  destruct (Z.ltb_spec (currentTerm r) (aer_Term reply)); [by apply becomeFollower_ok|].
  destruct (nk_leader _ _ _ _ _ Hn Hs) as [g' Hlk]. pose proof Hlk as [].
  rewrite <- Ht in aq_reign0. rewrite lk_reign in aq_reign0. injection aq_reign0 as ->. rewrite lk_log in *.
  unfold last_new, zlen in *.
  destruct (Success reply).
  - specialize (Hack eq_refl). rewrite <- Ht in Hack.
    assert (node_ok ids h id (set_indices (<[from := PrevLogIndex args + Z.of_nat (length (Entries args)) + 1]> (nextIndex r))
      (<[from := PrevLogIndex args + Z.of_nat (length (Entries args))]> (matchIndex r)) r) ms) as Hn'.
    { apply set_indices_ok; [done|..].
      - intros p m [[<- <-]|[_ Hp]]%lookup_insert_Some; [right; split; [lia|done]|by apply lk_match].
      - intros p n [[<- <-]|[_ Hp]]%lookup_insert_Some; [unfold zlen; lia|by apply lk_next in Hp]. }
    destruct (nk_leader _ _ _ _ _ Hn' Hs) as [g' Hlk']. by eapply advanceCommit_ok.
  - destruct (Z.ltb_spec 0 (ConflictIndex reply)).
    + apply set_indices_ok; [done|done|].
      intros p n [[<- <-]|[_ Hp]]%lookup_insert_Some; [unfold zlen; lia|by apply lk_next in Hp].
    + destruct (Z.ltb_spec 1 (default 0 (nextIndex r !! from))) as [Hni|]; [|done].
      destruct (nextIndex r !! from) as [n0|] eqn:Hn0; cbn in Hni |- *; [|lia]. apply lk_next in Hn0.
      apply set_indices_ok; [done|done|].
      intros p n [[<- <-]|[_ Hp]]%lookup_insert_Some; [unfold zlen in *; lia|by apply lk_next in Hp].
Qed.

End append.
