(* ===== verification/RaftRun.v ===== *)
(** * RaftRun: the invariant holds in every run

    [cluster_ok] for the nodes, the messages in flight and the vote counts;
    [exec] keeps it for every event, and the history only grows. *)

From Stdlib Require Import ZArith Lia Strings.Byte Strings.String.
From stdpp Require Import base list list_numbers numbers option gmap sorting.
From coqutil Require Import Byte.
From S2P Require Import Prelude Bytes Raft RaftCluster RaftLog RaftInv RaftNode RaftSteps RaftReplicate RaftAppend.

Local Open Scope Z_scope.

(** ** Messages *)

Definition rv_ok (ids : list Z) (h : history) (x : Z * RequestVoteArgs) : Prop :=
  let '(to, args) := x in
  to ∈ ids /\
  exists lc, h_cands h !! (CandidateID args, rv_Term args) = Some lc /\
    LastLogIndex args = lastIndex lc /\ LastLogTerm args = tlast lc.

Definition rvr_ok (h : history) (x : Z * RequestVoteArgs * RequestVoteReply) : Prop :=
  let '(from, args, reply) := x in
  VoteGranted reply = true -> exists lv, mkVote from (rv_Term args) (CandidateID args) lv ∈ h_votes h.

Definition ae_ok (ids : list Z) (h : history) (x : Z * AppendEntriesArgs) : Prop :=
  exists g, request_ok ids h (fst x) (snd x) g.

Definition aer_ok (ids : list Z) (h : history) (x : Z * AppendEntriesArgs * AppendEntriesReply) : Prop :=
  let '(from, args, reply) := x in
  ae_ok ids h (from, args) /\ ConflictIndex reply <= PrevLogIndex args /\
  (Success reply = true -> (from, ae_Term args, Z.to_nat (last_new args)) ∈ h_acks h).

(** [votes] counts members that voted, none of which is still waited for. *)
Definition tally_ok (h : history) (k : Z * Z) (x : Z * list Z) : Prop :=
  let '(votes, waiting) := x in
  exists S : list Z, NoDup S /\ votes = zlen S /\
    forall q, q ∈ S -> ~ q ∈ (waiting : list Z) /\ exists lv, mkVote q (snd k) (fst k) lv ∈ h_votes h.

Lemma rv_mono ids h h' x : hist_le h h' -> rv_ok ids h x -> rv_ok ids h' x.
Proof.
  destruct x as [to args]. intros Hle (?&lc&?&?&?). split; [done|]. exists lc.
  split_and!; [by apply (le_cands _ _ Hle)|done..].
Qed.

Lemma rvr_mono h h' x : hist_le h h' -> rvr_ok h x -> rvr_ok h' x.
Proof.
  destruct x as [[from args] reply]. intros Hle Hx Hg. destruct (Hx Hg) as [lv ?]. exists lv.
  by apply (le_votes _ _ Hle).
Qed.

Lemma ae_mono ids h h' x : hist_le h h' -> ae_ok ids h x -> ae_ok ids h' x.
Proof.
  intros Hle (g&Hg). destruct (le_terms _ _ Hle _ _ (aq_reign _ _ _ _ _ Hg)) as (g'&Hg'&Hl&_&_&HP).
  exists g'. by eapply request_mono.
Qed.

Lemma aer_mono ids h h' x : hist_le h h' -> aer_ok ids h x -> aer_ok ids h' x.
Proof.
  destruct x as [[from args] reply]. intros Hle (Ha&?&Hs). split_and!; [by eapply ae_mono|done|].
  intros HS. by apply (le_acks _ _ Hle), Hs.
Qed.

Lemma tally_mono h h' k x : hist_le h h' -> tally_ok h k x -> tally_ok h' k x.
Proof.
  destruct x as [v w]. intros Hle (S&HN&Hv&Hq). exists S. split_and!; [done..|]. intros q Hin.
  destruct (Hq q Hin) as [? [lv ?]]. split; [done|]. exists lv. by apply (le_votes _ _ Hle).
Qed.

(** ** The invariant *)

Record cluster_ok (ids : list Z) (c : cluster) : Prop := {
  co_hist : hist_ok ids (hist c);
  co_nodes : forall id r, nodes c !! id = Some r ->
    id ∈ ids /\ node_ok ids (hist c) id r (default [] (applied c !! id));
  co_rv : forall x, x ∈ rv_sent c -> rv_ok ids (hist c) x;
  co_rvr : forall x, x ∈ rv_replies c -> rvr_ok (hist c) x;
  co_ae : forall x, x ∈ ae_sent c -> ae_ok ids (hist c) x;
  co_aer : forall x, x ∈ ae_replies c -> aer_ok ids (hist c) x;
  co_tally : forall k x, tallies c !! k = Some x -> tally_ok (hist c) k x
}.

(** What an event of member [id] may do: everything new is justified. *)
Lemma cluster_update ids c c' id r' :
  cluster_ok ids c -> id ∈ ids ->
  nodes c' = <[id := r']> (nodes c) ->
  hist_ok ids (hist c') -> hist_ext id (hist c) (hist c') ->
  node_ok ids (hist c') id r' (default [] (applied c' !! id)) ->
  (forall i, i <> id -> applied c' !! i = applied c !! i) ->
  (forall x, x ∈ rv_sent c' -> x ∈ rv_sent c \/ rv_ok ids (hist c') x) ->
  (forall x, x ∈ rv_replies c' -> x ∈ rv_replies c \/ rvr_ok (hist c') x) ->
  (forall x, x ∈ ae_sent c' -> x ∈ ae_sent c \/ ae_ok ids (hist c') x) ->
  (forall x, x ∈ ae_replies c' -> x ∈ ae_replies c \/ aer_ok ids (hist c') x) ->
  (forall k x, tallies c' !! k = Some x -> tallies c !! k = Some x \/ tally_ok (hist c') k x) ->
  cluster_ok ids c' /\ hist_le (hist c) (hist c').
Proof.
  intros [] Hid Hn Hh He Hnode Happ Hrv Hrvr Hae Haer Ht. pose proof (he_le _ _ _ He) as Hle.
  split; [|done]. split; [done|..].
  - intros i r Hi. rewrite Hn in Hi. apply lookup_insert_Some in Hi as [[<- <-]|[Hne Hi]]; [done|].
    destruct (co_nodes0 _ _ Hi) as [Hin Hok]. split; [done|]. rewrite Happ by done. by apply (node_frame ids id i (hist c)).
  - intros x Hx. destruct (Hrv x Hx); [eapply rv_mono|]; eauto.
  - intros x Hx. destruct (Hrvr x Hx); [eapply rvr_mono|]; eauto.
  - intros x Hx. destruct (Hae x Hx); [eapply ae_mono|]; eauto.
  - intros x Hx. destruct (Haer x Hx); [eapply aer_mono|]; eauto.
  - intros k x Hx. destruct (Ht k x Hx); [eapply tally_mono|]; eauto.
Qed.

Section run.
Context (ids : list Z) (Hnd : NoDup ids) (Hids : forall id, id ∈ ids -> 0 <= id).

Lemma timeout_exec c id dl c' : cluster_ok ids c -> exec (ETimeout id dl) c = Some c' ->
  cluster_ok ids c' /\ hist_le (hist c) (hist c').
Proof.
  intros Hc He. cbn [exec] in He. destruct (nodes c !! id) as [r|] eqn:Hr; [|done]. cbn [mbind option_bind] in He.
  destruct (Z.ltb_spec (currentTerm r + 1) (2 ^ 64)) as [Hlt|]; [|done].
  destruct (co_nodes _ _ Hc _ _ Hr) as [Hid Hn].
  destruct (election_ok ids Hids _ _ _ _ dl (co_hist _ _ Hc) Hid Hn Hlt) as (Hh&Hx&Hn'&Ht&Hp&Ha).
  destruct (startElection dl true r) as [args r'] eqn:HE. cbn [fst snd] in *. injection He as <-.
  eapply cluster_update; cbn [nodes applied rv_sent rv_replies ae_sent ae_replies tallies hist];
    [exact Hc|exact Hid|done|exact Hh|exact Hx|exact Hn'|done|..|by left|by left|by left|].
  - intros x [Hin|Hin]%elem_of_app; [by left|right]. apply list_elem_of_fmap in Hin as (p&->&Hin). subst args.
    rewrite Hp in Hin. apply list_elem_of_filter in Hin as [_ Hin]. split; [done|]. cbn.
    exists (r_log r'). split; [apply lookup_insert_eq|done].
  - intros k x [[<- <-]|[_ Hk]]%lookup_insert_Some; [right|by left]. exists [id].
    split_and!; [apply NoDup_singleton|done|]. intros q ->%list_elem_of_singleton. split.
    + rewrite Hp. intros [? _]%list_elem_of_filter. done.
    + exists (r_log r'). cbn. by left.
Qed.

Lemma RequestVote_exec c k dl c' : cluster_ok ids c -> exec (ERequestVote k dl) c = Some c' ->
  cluster_ok ids c' /\ hist_le (hist c) (hist c').
Proof.
  intros Hc He. cbn [exec] in He. destruct (rv_sent c !! k) as [[to args]|] eqn:Hk; [|done].
  cbn [mbind option_bind] in He. destruct (nodes c !! to) as [r|] eqn:Hr; [|done]. cbn [mbind option_bind] in He.
  destruct (RequestVote dl true args r) as [reply r'] eqn:HR. injection He as <-.
  destruct (co_nodes _ _ Hc _ _ Hr) as [Hid Hn]. pose proof (co_hist _ _ Hc) as Hh.
  apply list_elem_of_lookup_2 in Hk. destruct (co_rv _ _ Hc _ Hk) as (_&lc&Hlc&Hi&Ht).
  enough (let h' := note_vote to args reply r' (hist c) in
    hist_ok ids h' /\ hist_ext to (hist c) h' /\ node_ok ids h' to r' (default [] (applied c !! to)) /\
    rvr_ok h' (to, args, reply)) as (Hh'&Hx&Hn'&Hrvr).
  { eapply cluster_update; cbn [nodes applied rv_sent rv_replies ae_sent ae_replies tallies hist];
      [exact Hc|exact Hid|done|exact Hh'|exact Hx|exact Hn'|done|by left| |by left..].
    intros x [Hin|Hin]%elem_of_app; [by left|right]. by apply list_elem_of_singleton in Hin as ->. }
  cbn zeta. unfold RequestVote in HR. set (up := if currentTerm r <? rv_Term args then _ else _) in HR.
  assert (exists r1 changed, up = (r1, changed) /\ node_ok ids (hist c) to r1 (default [] (applied c !! to)) /\
    (currentTerm r1 = rv_Term args \/ rv_Term args < currentTerm r1)) as (r1&changed&Hup&Hn1&Ht1).
  { unfold up. destruct (Z.ltb_spec (currentTerm r) (rv_Term args)); eexists _, _; (split; [done|]).
    - split; [by apply becomeFollower_ok|by left].
    - split; [done|lia]. }
  rewrite Hup in HR.
  assert (hist_ok ids (hist c) /\ hist_ext to (hist c) (hist c)) as [? ?] by (split; [done|apply hist_ext_refl]).
  destruct (Z.ltb_spec (rv_Term args) (currentTerm r1)); [by injection HR as <- <-|].
  destruct (negb _ && _) eqn:Hg.
  - injection HR as <- <-. apply andb_true_iff in Hg as [Hv Hu]. destruct Ht1 as [Ht1|]; [|lia]. rewrite <- Ht1 in Hlc.
    apply (candidateUpToDate_spec args r1 lc Hi Ht) in Hu.
    destruct (add_vote_ok ids Hids _ to r1 _ dl (CandidateID args) lc Hh Hid Hn1) as (Hh'&Hx&Hn'); [|done..|].
    { apply negb_true_iff, andb_false_iff in Hv as [Hv%negb_false_iff|Hv%negb_false_iff]; apply Z.eqb_eq in Hv; auto. }
    unfold note_vote. cbn [VoteGranted r_log persist]. rewrite <- Ht1. split_and!; [done..|].
    intros _. exists (r_log r1). rewrite <- Ht1. by left.
  - injection HR as <- <-. unfold note_vote. cbn [VoteGranted]. split_and!; [done..| |done].
    destruct changed; [by apply persist_ok|done].
Qed.

Lemma VoteReply_exec c k dl c' : cluster_ok ids c -> exec (EVoteReply k dl) c = Some c' ->
  cluster_ok ids c' /\ hist_le (hist c) (hist c').
Proof.
  intros Hc He. cbn [exec] in He. destruct (rv_replies c !! k) as [[[from args] reply]|] eqn:Hk; [|done].
  cbn [mbind option_bind] in He. set (id := CandidateID args) in *.
  destruct (nodes c !! id) as [r|] eqn:Hr; [|done]. cbn [mbind option_bind] in He.
  destruct (tallies c !! (id, rv_Term args)) as [[votes waiting]|] eqn:Ht; [|done]. cbn [mbind option_bind] in He.
  destruct (decide _) as [Hw|]; [|done].
  destruct (voteReply dl true (rv_Term args) reply votes r) as [votes' r'] eqn:HV. injection He as <-.
  destruct (co_nodes _ _ Hc _ _ Hr) as [Hid Hn]. pose proof (co_hist _ _ Hc) as Hh.
  apply list_elem_of_lookup_2 in Hk. pose proof (co_rvr _ _ Hc _ Hk) as Hreply.
  destruct (co_tally _ _ Hc _ _ Ht) as (S&HN&Hv&HS). cbn [fst snd] in HS.
  pose proof (voteReply_cases dl (rv_Term args) reply votes r) as Hcases. rewrite HV in Hcases.
  assert (exists S' : list Z, NoDup S' /\ votes' = zlen S' /\ forall q, q ∈ S' ->
    ~ q ∈ filter (fun p => p <> from) waiting /\ exists lv, mkVote q (rv_Term args) id lv ∈ h_votes (hist c))
    as (S'&HN'&Hv'&HS').
  { assert (forall q, q ∈ S -> ~ q ∈ filter (fun p => p <> from) waiting /\
      exists lv, mkVote q (rv_Term args) id lv ∈ h_votes (hist c)) as HS0.
    { intros q Hq. destruct (HS q Hq). split; [|done]. by intros [_ ?]%list_elem_of_filter. }
    destruct Hcases as [[-> _]|[[-> _]|(->&Hg&_)]]; [by exists S..|]. exists (from :: S). split_and!.
    - apply NoDup_cons. split; [|done]. intros Hin. by destruct (HS from Hin).
    - unfold zlen in *. cbn [length]. lia.
    - intros q [->|Hq]%elem_of_cons; [|by apply HS0]. split; [by intros [? _]%list_elem_of_filter|by apply Hreply]. }
  enough (hist_ok ids (note_win id r r' (hist c)) /\ hist_ext id (hist c) (note_win id r r' (hist c)) /\
    node_ok ids (note_win id r r' (hist c)) id r' (default [] (applied c !! id))) as (Hh'&Hx&Hn').
  { eapply cluster_update; cbn [nodes applied rv_sent rv_replies ae_sent ae_replies tallies hist];
      [exact Hc|exact Hid|done|exact Hh'|exact Hx|exact Hn'|done|by left..|].
    intros k' x [[<- <-]|[_ Hk']]%lookup_insert_Some; [right|by left]. eapply tally_mono; [apply Hx|].
    by exists S'. }
  assert (forall x, r_state x = Leader -> r_state r = Leader -> note_win id r x (hist c) = hist c) as HwL.
  { intros x Hx' Hl. unfold note_win. by rewrite Hl, Hx'. }
  assert (forall x, r_state x <> Leader -> note_win id r x (hist c) = hist c) as HwN.
  { intros x Hx'. unfold note_win. by rewrite bool_decide_eq_false_2. }
  destruct Hcases as [[_ ->]|[(_&Hlt&->)|(_&_&Hcand&Hterm&[->|[Hm ->]])]].
  - assert (note_win id r r (hist c) = hist c) as ->.
    { destruct (decide (r_state r = Leader)); [by apply HwL|by apply HwN]. }
    split_and!; [done|apply hist_ext_refl|done].
  - rewrite HwN by done. split_and!; [done|apply hist_ext_refl|]. by apply persist_ok, becomeFollower_ok.
  - rewrite HwN by congruence. split_and!; [done|apply hist_ext_refl|done].
  - eapply (win_ok ids _ _ _ _ S'); [done..| |].
    + eapply majority_quorum; [done|exact Hid|apply Hn|by rewrite <- Hv'|done|].
      intros q Hq. destruct (HS' q Hq) as [_ [lv Hlv]]. by apply (ho_votes _ _ Hh) in Hlv as [? _].
    + intros q Hq. rewrite Hterm. by apply HS'.
Qed.

Lemma Start_exec c id cmd c' : cluster_ok ids c -> exec (EStart id cmd) c = Some c' ->
  cluster_ok ids c' /\ hist_le (hist c) (hist c').
Proof.
  intros Hc He. cbn [exec] in He. destruct (nodes c !! id) as [r|] eqn:Hr; [|done]. cbn [mbind option_bind] in He.
  destruct (co_nodes _ _ Hc _ _ Hr) as [Hid Hn]. pose proof (co_hist _ _ Hc) as Hh.
  destruct (decide (r_state r = Leader)) as [Hl|Hl].
  - destruct (start_ok ids _ _ _ _ cmd Hh Hid Hn Hl) as (Hh'&Hx&Hn').
    destruct (Start true cmd r) as [[[idx T] isL] r'] eqn:HS. cbn [snd] in *.
    assert (isL = true) as -> by (unfold Start in HS; rewrite decide_True in HS by done; congruence).
    injection He as <-. eapply cluster_update; cbn [nodes applied rv_sent rv_replies ae_sent ae_replies tallies hist];
      [exact Hc|exact Hid|done|exact Hh'|exact Hx|exact Hn'|done|by left..].
  - unfold Start in He. rewrite decide_False in He by done. injection He as <-.
    eapply cluster_update; cbn [nodes applied rv_sent rv_replies ae_sent ae_replies tallies hist];
      [exact Hc|exact Hid|done|exact Hh|apply hist_ext_refl|exact Hn|done|by left..].
Qed.

(** What [replicateTo] sends is a piece of the leader's log. *)
Lemma replicateArgs_ok h id r ms peer args :
  node_ok ids h id r ms -> peer ∈ ids -> replicateArgs peer r = Some args -> ae_ok ids h (peer, args).
Proof.
  intros Hn Hp HA. unfold replicateArgs in HA. destruct (decide (r_state r = Leader)) as [Hl|]; [|done].
  destruct (nk_leader _ _ _ _ _ Hn Hl) as [g []]. set (ni := Z.max 1 _) in HA. injection HA as <-.
  pose proof (log_ok_nonempty _ _ (nk_log _ _ _ _ _ Hn)) as Hne.
  assert (1 <= ni <= zlen (r_log r)) as Hni.
  { unfold ni. destruct (nextIndex r !! peer) as [n|] eqn:E; [apply lk_next in E|]; cbn; unfold zlen in *; lia. }
  pose proof (committed_in_range _ _ _ _ _ (nk_commit _ _ _ _ _ Hn) Hne) as Hci.
  exists g. cbn [fst snd]. unfold zlen in *.
  split; cbn [ae_Term LeaderID PrevLogIndex PrevLogTerm Entries LeaderCommit]; rewrite ?lk_log; try done.
  - rewrite lk_id. apply Hn.
  - lia.
  - unfold last_new. cbn. unfold zlen. rewrite length_drop. lia.
  - replace (ni - 1 + 1) with ni by lia. by rewrite firstn_all.
  - unfold last_new. cbn. unfold zlen. rewrite length_drop. lia.
  - apply Hn.
Qed.

Lemma Replicate_exec c id peer c' : cluster_ok ids c -> exec (EReplicate id peer) c = Some c' ->
  cluster_ok ids c' /\ hist_le (hist c) (hist c').
Proof.
  intros Hc He. cbn [exec] in He. destruct (nodes c !! id) as [r|] eqn:Hr; [|done]. cbn [mbind option_bind] in He.
  destruct (decide _) as [Hp|]; [|done]. destruct (replicateArgs peer r) as [args|] eqn:HA; [|done].
  injection He as <-. destruct (co_nodes _ _ Hc _ _ Hr) as [Hid Hn].
  eapply cluster_update; cbn [nodes applied rv_sent rv_replies ae_sent ae_replies tallies hist];
    [exact Hc|exact Hid|symmetry; by apply insert_id|apply Hc|apply hist_ext_refl|exact Hn|done|by left|by left|..|by left|by left].
  intros x [Hin|Hin]%elem_of_app; [by left|right]. apply list_elem_of_singleton in Hin as ->.
  eapply replicateArgs_ok; [done| |done]. rewrite (nk_peers _ _ _ _ _ Hn) in Hp.
  by apply list_elem_of_filter in Hp as [_ ?].
Qed.

Lemma Append_exec c k dl c' : cluster_ok ids c -> exec (EAppend k dl) c = Some c' ->
  cluster_ok ids c' /\ hist_le (hist c) (hist c').
Proof.
  intros Hc He. cbn [exec] in He. destruct (ae_sent c !! k) as [[to args]|] eqn:Hk; [|done].
  cbn [mbind option_bind] in He. destruct (nodes c !! to) as [r|] eqn:Hr; [|done]. cbn [mbind option_bind] in He.
  destruct (AppendEntries dl true args r) as [reply r'] eqn:HR. injection He as <-.
  destruct (co_nodes _ _ Hc _ _ Hr) as [Hid Hn]. apply list_elem_of_lookup_2 in Hk.
  pose proof (co_ae _ _ Hc _ Hk) as [g Hg]. cbn [fst snd] in Hg.
  destruct (append_ok _ _ _ _ _ _ _ _ _ _ (co_hist _ _ Hc) Hid Hn Hg HR) as (Hh'&Hx&Hn'&Hci&Hs).
  eapply cluster_update; cbn [nodes applied rv_sent rv_replies ae_sent ae_replies tallies hist];
    [exact Hc|exact Hid|done|exact Hh'|exact Hx|exact Hn'|done|by left|by left|by left| |by left].
  intros x [Hin|Hin]%elem_of_app; [by left|right]. apply list_elem_of_singleton in Hin as ->.
  split_and!; [|done..]. eapply ae_mono; [apply Hx|]. by exists g.
Qed.

Lemma AppendReply_exec c k dl c' : cluster_ok ids c -> exec (EAppendReply k dl) c = Some c' ->
  cluster_ok ids c' /\ hist_le (hist c) (hist c').
Proof.
  intros Hc He. cbn [exec] in He. destruct (ae_replies c !! k) as [[[from args] reply]|] eqn:Hk; [|done].
  cbn [mbind option_bind] in He. destruct (nodes c !! LeaderID args) as [r|] eqn:Hr; [|done]. injection He as <-.
  destruct (co_nodes _ _ Hc _ _ Hr) as [Hid Hn]. apply list_elem_of_lookup_2 in Hk.
  destruct (co_aer _ _ Hc _ Hk) as ([g Hg]&Hci&Hs). cbn [fst snd] in Hg.
  eapply cluster_update; cbn [nodes applied rv_sent rv_replies ae_sent ae_replies tallies hist];
    [exact Hc|exact Hid|done|apply Hc|apply hist_ext_refl| |done|by left..].
  eapply appendReply_ok; [done|apply Hc|done..].
Qed.

Lemma Apply_exec c id c' : cluster_ok ids c -> exec (EApply id) c = Some c' ->
  cluster_ok ids c' /\ hist_le (hist c) (hist c').
Proof.
  intros Hc He. cbn [exec] in He. destruct (nodes c !! id) as [r|] eqn:Hr; [|done]. cbn [mbind option_bind] in He.
  destruct (applyNext r) as [[msg r']|] eqn:HA; [|done]. injection He as <-.
  destruct (co_nodes _ _ Hc _ _ Hr) as [Hid Hn].
  eapply cluster_update; cbn [nodes applied rv_sent rv_replies ae_sent ae_replies tallies hist];
    [exact Hc|exact Hid|done|apply Hc|apply hist_ext_refl| | |by left..].
  - rewrite lookup_insert_eq. cbn [default]. by eapply apply_ok.
  - intros i Hi. by apply lookup_insert_ne.
Qed.

Lemma Crash_exec c id dl c' : cluster_ok ids c -> exec (ECrash id dl) c = Some c' ->
  cluster_ok ids c' /\ hist_le (hist c) (hist c').
Proof.
  intros Hc He. cbn [exec] in He. destruct (nodes c !! id) as [r|] eqn:Hr; [|done]. injection He as <-.
  destruct (co_nodes _ _ Hc _ _ Hr) as [Hid Hn].
  eapply cluster_update; cbn [nodes applied rv_sent rv_replies ae_sent ae_replies tallies hist];
    [exact Hc|exact Hid|done|apply Hc|apply hist_ext_refl| | |by left|by left|by left|by left|].
  - rewrite lookup_insert_eq. cbn [default]. eapply restart_ok; [apply Hc|done].
  - intros i Hi. by apply lookup_insert_ne.
  - intros k x Hk. left. by apply map_lookup_filter_Some in Hk as [? _].
Qed.

Lemma exec_ok ev c c' : cluster_ok ids c -> exec ev c = Some c' ->
  cluster_ok ids c' /\ hist_le (hist c) (hist c').
Proof.
  destruct ev; eauto using timeout_exec, RequestVote_exec, VoteReply_exec, Start_exec, Replicate_exec, Append_exec,
    AppendReply_exec, Apply_exec, Crash_exec.
Qed.

Lemma run_ok evs c c' : cluster_ok ids c -> run evs c = Some c' ->
  cluster_ok ids c' /\ hist_le (hist c) (hist c').
Proof.
  revert c. induction evs as [|ev evs IH]; intros c Hc Hr; cbn [run] in Hr.
  { injection Hr as <-. split; [done|apply hist_le_refl]. }
  destruct (exec ev c) as [c1|] eqn:He; [|done]. cbn [mbind option_bind] in Hr.
  destruct (exec_ok _ _ _ Hc He) as [Hc1 Hle1]. destruct (IH _ Hc1 Hr) as [Hc' Hle']. split; [done|].
  by eapply hist_le_trans.
Qed.

(** ** The cluster at start *)

Lemma New_fresh_ok h id : h_votes h = [] -> h_terms h = ∅ -> h_cands h = ∅ -> h_acks h = [] ->
  node_ok ids h id (New id (peers_of ids id) None None 0) [].
Proof.
  intros Ev Et Ec Ea. split; try done.
  - intros e He. apply list_elem_of_singleton in He as ->. done.
  - intros b Hb. rewrite Ev in Hb. by apply not_elem_of_nil in Hb.
  - intros T lc Hl. rewrite Ec in Hl. by apply lookup_empty_Some in Hl.
  - intros T g Hg. rewrite Et in Hg. by apply lookup_empty_Some in Hg.
  - intros T m n Hin. rewrite Ea in Hin. by apply not_elem_of_nil in Hin.
  - intros T m n Hin. rewrite Ea in Hin. by apply not_elem_of_nil in Hin.
  - by left.
Qed.

Lemma boot_ok : cluster_ok ids (boot ids).
Proof.
  split; cbn [boot hist nodes rv_sent rv_replies ae_sent ae_replies tallies applied].
  - split; cbn.
    + intros b b' Hb. by apply not_elem_of_nil in Hb.
    + intros b Hb. by apply not_elem_of_nil in Hb.
    + intros b Hb. by apply not_elem_of_nil in Hb.
    + intros id T lc Hl. by apply lookup_empty_Some in Hl.
    + intros T g Hg. by apply lookup_empty_Some in Hg.
    + intros q T m Hin. by apply not_elem_of_nil in Hin.
  - intros id r Hr. apply elem_of_list_to_map_2, list_elem_of_fmap in Hr as (i&E&Hi).
    injection E as -> ->. split; [done|]. by apply New_fresh_ok.
  - intros x Hx. by apply not_elem_of_nil in Hx.
  - intros x Hx. by apply not_elem_of_nil in Hx.
  - intros x Hx. by apply not_elem_of_nil in Hx.
  - intros x Hx. by apply not_elem_of_nil in Hx.
  - intros k x Hx. by apply lookup_empty_Some in Hx.
Qed.

End run.
