(* ===== verification/RaftSafety.v ===== *)
(** * RaftSafety: what a Raft cluster guarantees

    The safety properties of the consensus layer, for every run of
    [RaftCluster] from a cold start: any interleaving of elections, proposals,
    replication, deliveries, crashes and restarts, over a network that loses,
    delays, reorders and repeats requests.  A statement about two points of a
    run ([run evs1 (boot ids) = Some c1], [run evs2 c1 = Some c2]) compares an
    earlier state with any later one. *)

From Stdlib Require Import ZArith Lia Strings.Byte Strings.String.
From stdpp Require Import base list list_numbers numbers option gmap sorting.
From coqutil Require Import Byte.
From S2P Require Import Prelude Bytes Raft RaftCluster RaftLog RaftInv RaftNode RaftSteps RaftReplicate RaftAppend RaftRun.

Local Open Scope Z_scope.

(** Distinct members with identifiers that cannot be mistaken for [None]. *)
Definition members (ids : list Z) : Prop := NoDup ids /\ forall id, id ∈ ids -> 0 <= id.

Lemma delivered_prefix l k k' : 0 <= k <= k' -> delivered l k `prefix_of` delivered l k'.
Proof.
  intros Hk. unfold delivered. destruct l as [|a l]; [done|]. cbn [take tail].
  replace (Z.to_nat k') with (Z.to_nat k + (Z.to_nat k' - Z.to_nat k))%nat by lia.
  rewrite <- take_take_drop, imap_app. by apply prefix_app_r.
Qed.

Lemma delivered_length l k : 0 <= k < zlen l -> zlen (delivered l k) = k.
Proof.
  intros Hk. unfold delivered, zlen in *. destruct l as [|a l]; [cbn in Hk; lia|]. cbn [take tail length] in *.
  rewrite length_imap, length_take. lia.
Qed.

Lemma delivered_index l k i m : delivered l k !! i = Some m -> CommandIndex m = Z.of_nat i + 1.
Proof. unfold delivered. rewrite list_lookup_imap. intros (e&He&->)%fmap_Some. done. Qed.

Section helpers.
Context (ids : list Z) (Hm : members ids).

Lemma reach_ok evs c : run evs (boot ids) = Some c -> cluster_ok ids c.
Proof. intros Hr. destruct Hm. eapply run_ok; [done..|by apply boot_ok|done]. Qed.

(** Both ends of a run, in the later history. *)
Lemma reach_two evs1 evs2 c1 c2 : run evs1 (boot ids) = Some c1 -> run evs2 c1 = Some c2 ->
  cluster_ok ids c1 /\ cluster_ok ids c2 /\ hist_le (hist c1) (hist c2).
Proof.
  intros H1 H2. pose proof (reach_ok _ _ H1) as Hc1. destruct Hm. split; [done|]. by eapply run_ok.
Qed.

Lemma node_reach evs c id r : run evs (boot ids) = Some c -> nodes c !! id = Some r ->
  node_ok ids (hist c) id r (default [] (applied c !! id)).
Proof. intros Hr Hn. apply reach_ok in Hr. by apply (co_nodes _ _ Hr). Qed.

Lemma leader_reign c id r : cluster_ok ids c -> nodes c !! id = Some r -> r_state r = Leader ->
  exists g, h_terms (hist c) !! currentTerm r = Some g /\ g_leader g = id /\ g_log g = r_log r.
Proof.
  intros Hc Hn Hl. destruct (co_nodes _ _ Hc _ _ Hn) as [_ Hok].
  destruct (nk_leader _ _ _ _ _ Hok Hl) as [g []]. by exists g.
Qed.

End helpers.

(** ** Elections *)

(** C6. Election safety: a term has at most one leader, over the whole life of
    the cluster.  If a node leads a term at some point and a node leads the same term
    then or later, they are the same node, whatever crashed in between. *)
Theorem raft_election_safety ids evs1 evs2 c1 c2 a b ra rb :
  members ids -> run evs1 (boot ids) = Some c1 -> run evs2 c1 = Some c2 ->
  nodes c1 !! a = Some ra -> nodes c2 !! b = Some rb ->
  r_state ra = Leader -> r_state rb = Leader -> currentTerm ra = currentTerm rb -> a = b.
Proof.
  intros Hm H1 H2 Ha Hb Hla Hlb Ht. destruct (reach_two _ Hm _ _ _ _ H1 H2) as (Hc1&Hc2&Hle).
  destruct (leader_reign _ _ _ _ Hc1 Ha Hla) as (g&Hg&Hga&_).
  destruct (leader_reign _ _ _ _ Hc2 Hb Hlb) as (g'&Hg'&Hgb&_).
  destruct (le_terms _ _ Hle _ _ Hg) as (g2&Hg2&Hl&_). rewrite Ht, Hg' in Hg2. congruence.
Qed.

(** A vote is cast once: of all the vote replies a member ever sends,
    before and after crashes, the ones that grant a vote in the same term name the same
    candidate. *)
Theorem raft_votes_once ids evs c voter args args' reply reply' :
  members ids -> run evs (boot ids) = Some c ->
  (voter, args, reply) ∈ rv_replies c -> (voter, args', reply') ∈ rv_replies c ->
  VoteGranted reply = true -> VoteGranted reply' = true -> rv_Term args = rv_Term args' ->
  CandidateID args = CandidateID args'.
Proof.
  intros Hm Hr Hin Hin' Hg Hg' Ht. pose proof (reach_ok _ Hm _ _ Hr) as Hc.
  destruct (co_rvr _ _ Hc _ Hin Hg) as [lv Hv]. destruct (co_rvr _ _ Hc _ Hin' Hg') as [lv' Hv'].
  by apply (ho_unique _ _ (co_hist _ _ Hc) _ _ Hv Hv').
Qed.

(** ** Logs *)

(** C25. Log matching: if two nodes' logs have an entry of the same term at the
    same index, they are identical up to that index. *)
Theorem raft_log_matching ids evs c a b ra rb i ea eb :
  members ids -> run evs (boot ids) = Some c -> nodes c !! a = Some ra -> nodes c !! b = Some rb ->
  r_log ra !! i = Some ea -> r_log rb !! i = Some eb -> e_Term ea = e_Term eb ->
  take (S i) (r_log ra) = take (S i) (r_log rb).
Proof.
  intros Hm Hr Ha Hb Hea Heb Ht.
  apply (log_matching (hist c) _ _ _ ea eb); [|by eapply nk_log, node_reach..|done|done|done].
  by eapply nk_log, node_reach.
Qed.

(** Leader append-only: while a node leads a term it only appends to its
    log; what it had at one point is a prefix of what it has at any later point of the
    same term. *)
Theorem raft_leader_append_only ids evs1 evs2 c1 c2 a ra rb :
  members ids -> run evs1 (boot ids) = Some c1 -> run evs2 c1 = Some c2 ->
  nodes c1 !! a = Some ra -> nodes c2 !! a = Some rb ->
  r_state ra = Leader -> r_state rb = Leader -> currentTerm ra = currentTerm rb ->
  r_log ra `prefix_of` r_log rb.
Proof.
  intros Hm H1 H2 Ha Hb Hla Hlb Ht. destruct (reach_two _ Hm _ _ _ _ H1 H2) as (Hc1&Hc2&Hle).
  destruct (leader_reign _ _ _ _ Hc1 Ha Hla) as (g&Hg&_&<-).
  destruct (leader_reign _ _ _ _ Hc2 Hb Hlb) as (g'&Hg'&_&<-).
  destruct (le_terms _ _ Hle _ _ Hg) as (g2&Hg2&_&_&_&HP). rewrite Ht, Hg' in Hg2. injection Hg2 as <-. done.
Qed.

(** C5. Leader completeness: an entry that some node knew to be committed at
    some point is in the log of every node that leads the same or a later term then or
    later, with everything before it. *)
Theorem raft_leader_completeness ids evs1 evs2 c1 c2 a b ra rb (i : nat) :
  members ids -> run evs1 (boot ids) = Some c1 -> run evs2 c1 = Some c2 ->
  nodes c1 !! a = Some ra -> nodes c2 !! b = Some rb ->
  Z.of_nat i <= commitIndex ra -> r_state rb = Leader -> currentTerm ra <= currentTerm rb ->
  (i < length (r_log rb))%nat /\ take (S i) (r_log rb) = take (S i) (r_log ra).
Proof.
  intros Hm H1 H2 Ha Hb Hi Hlb Ht. destruct (reach_two _ Hm _ _ _ _ H1 H2) as (Hc1&Hc2&Hle).
  destruct (leader_reign _ _ _ _ Hc2 Hb Hlb) as (g&Hg&_&Hlog). pose proof (co_hist _ _ Hc2) as Hh.
  destruct (co_nodes _ _ Hc1 _ _ Ha) as [_ Hna]. destruct (co_nodes _ _ Hc2 _ _ Hb) as [_ Hnb].
  enough (agree (S i) (r_log rb) (r_log ra)) as (?&_&?) by done. rewrite <- Hlog.
  pose proof (nk_commit _ _ _ _ _ Hna) as Hc.
  apply (committed_mono _ _ (hist c2) _ _ _ (currentTerm ra)) in Hc; [|done..].
  destruct Hc as [Hz|(T&n&Hch&Hk&HT&Hcn)].
  - destruct i; [|lia]. apply (log_matching (hist c2) _ _ _ (mkEntry 0 []) (mkEntry 0 [])); [| | | |done].
    + by apply (rk_log _ _ _ _ (ho_reign _ _ Hh _ _ Hg)).
    + eapply log_ok_mono; [by apply le_terms|apply Hna].
    + by apply (rk_log _ _ _ _ (ho_reign _ _ Hh _ _ Hg)).
    + apply (nk_log _ _ _ _ _ Hna).
  - pose proof (chosen_in_reign ids (hist c2) T n (currentTerm rb) g Hh Hch ltac:(lia) Hg) as Hcg.
    apply (contains_le _ _ _ i) in Hcg; [|lia]. apply (contains_le _ _ _ i) in Hcn; [|lia].
    destruct Hcg as (g1&Hg1&HA1), Hcn as (g2&Hg2&HA2). rewrite Hg1 in Hg2. injection Hg2 as <-.
    eapply agree_trans; [exact HA1|by apply agree_sym].
Qed.

(** ** The state machine *)

(** C4. State machine safety: what a node has delivered since it started and
    what any node has delivered then or later is the same sequence of commands, one
    perhaps shorter than the other; both are numbered from 1 without gaps, and a
    restarted node delivers the same sequence again. *)
Theorem raft_state_machine_safety ids evs1 evs2 c1 c2 a b ra rb ms ms' :
  members ids -> run evs1 (boot ids) = Some c1 -> run evs2 c1 = Some c2 ->
  nodes c1 !! a = Some ra -> nodes c2 !! b = Some rb ->
  ms = default [] (applied c1 !! a) -> ms' = default [] (applied c2 !! b) ->
  (ms `prefix_of` ms' \/ ms' `prefix_of` ms) /\
  (forall (i : nat) m, ms !! i = Some m -> CommandIndex m = Z.of_nat i + 1) /\
  zlen ms = lastApplied ra.
Proof.
  intros Hm H1 H2 Ha Hb -> ->. destruct (reach_two _ Hm _ _ _ _ H1 H2) as (Hc1&Hc2&Hle).
  destruct (co_nodes _ _ Hc1 _ _ Ha) as [_ Hna]. destruct (co_nodes _ _ Hc2 _ _ Hb) as [_ Hnb].
  pose proof (nk_apply _ _ _ _ _ Hna) as Hpa. pose proof (nk_apply _ _ _ _ _ Hnb) as Hpb.
  pose proof (nk_log _ _ _ _ _ Hna) as Hla. pose proof (nk_log _ _ _ _ _ Hnb) as Hlb.
  pose proof (nk_commit _ _ _ _ _ Hna) as Hca. pose proof (nk_commit _ _ _ _ _ Hnb) as Hcb.
  apply log_ok_nonempty in Hla, Hlb. pose proof (committed_in_range _ _ _ _ _ Hca Hla).
  apply (committed_mono _ _ (hist c2) _ _ _ (currentTerm ra)) in Hca; [|done..].
  rewrite (nk_delivered _ _ _ _ _ Hna), (nk_delivered _ _ _ _ _ Hnb).
  assert (forall k, 0 <= k -> k <= lastApplied ra -> k <= lastApplied rb ->
    delivered (r_log ra) k = delivered (r_log rb) k) as Hsame.
  { intros k Hk Hka Hkb. apply delivered_agree; [done..|]. intros Hpos.
    apply (committed_agree ids (hist c2) _ _ _ _ _ _ _ (co_hist _ _ Hc2) Hca Hcb); lia. }
  split_and!.
  - destruct (decide (lastApplied ra <= lastApplied rb)).
    + left. rewrite Hsame by lia. apply delivered_prefix. lia.
    + right. rewrite <- Hsame by lia. apply delivered_prefix. lia.
  - intros i m. apply delivered_index.
  - apply delivered_length. lia.
Qed.


(** ** Handlers *)

Lemma appendFrom_split es log idx : (idx <= length log)%nat ->
  exists k, (k <= length es)%nat /\
    (forall j, (j < k)%nat -> e_Term <$> (log !! (idx + j)%nat) = e_Term <$> (es !! j)) /\
    ((k < length es)%nat -> e_Term <$> (log !! (idx + k)%nat) <> e_Term <$> (es !! k)) /\
    (idx + k <= length log)%nat /\
    appendFrom log idx es =
      if decide (k = length es) then (log, false) else (take (idx + k) log ++ drop k es, true).
Proof.
  revert idx. induction es as [|e es IH]; intros idx Hidx.
  { exists 0%nat. cbn [length]. split_and!; [done|lia|lia|lia|]. by rewrite decide_True. }
  cbn [appendFrom]. destruct (_ && _) eqn:Hc.
  - bprop. unfold lastIndex, zlen in *. destruct (lookup_lt_is_Some_2 log idx) as [e' He']; [lia|].
    match goal with H : term_at _ _ = _ |- _ => rewrite (term_at_lookup _ _ _ He') in H; rename H into Ht end.
    destruct (IH (S idx)) as (k&Hk&Hall&Hstop&Hlen&Ha); [lia|]. exists (S k). cbn [length]. split_and!; [lia|..|lia|].
    + intros [|j] Hj; [rewrite Nat.add_0_r, He'; cbn; by rewrite Ht|].
      replace (idx + S j)%nat with (S idx + j)%nat by lia. apply Hall. lia.
    + intros Hlt. replace (idx + S k)%nat with (S idx + k)%nat by lia. apply Hstop. lia.
    + rewrite Ha. replace (idx + S k)%nat with (S idx + k)%nat by lia.
      destruct (decide (k = length es)); [rewrite decide_True by lia; done|rewrite decide_False by lia; done].
  - exists 0%nat. cbn [length]. rewrite Nat.add_0_r. split_and!; [lia|lia| |lia|by rewrite decide_False].
    intros _ Heq. apply andb_false_iff in Hc. destruct (log !! idx) as [e'|] eqn:He'; [|done].
    pose proof (lookup_lt_Some _ _ _ He'). cbn in Heq. injection Heq as Heq.
    rewrite (term_at_lookup _ _ _ He'), Heq, Z.eqb_refl in Hc. unfold lastIndex, zlen in Hc.
    destruct Hc as [Hc%Z.leb_gt|]; [lia|done].
Qed.

(** Entries that all match change nothing. *)
Lemma appendFrom_match es log idx : (idx <= length log)%nat ->
  (forall j, (j < length es)%nat -> e_Term <$> (log !! (idx + j)%nat) = e_Term <$> (es !! j)) ->
  appendFrom log idx es = (log, false).
Proof.
  intros Hidx Hall. destruct (appendFrom_split es log idx Hidx) as (k&Hk&_&Hstop&_&->).
  destruct (decide (k = length es)); [done|]. destruct Hstop; [lia|]. apply Hall. lia.
Qed.

(** The accepting branch of [AppendEntries]. *)
Lemma AppendEntries_accept_eq dl args r l' appended :
  0 <= PrevLogIndex args <= lastIndex (r_log r) -> currentTerm r <= ae_Term args ->
  term_at (r_log r) (PrevLogIndex args) = PrevLogTerm args ->
  appendFrom (r_log r) (Z.to_nat (PrevLogIndex args + 1)) (Entries args) = (l', appended) ->
  AppendEntries dl true args r =
    (mkAEReply (ae_Term args) true 0,
     set_commit (if commitIndex r <? LeaderCommit args then Z.min (LeaderCommit args) (last_new args)
                 else commitIndex r)
       (let x := set_log l' (accepted dl args r) in
        if (currentTerm r <? ae_Term args) || appended then persist true x else x)).
Proof.
  intros Hp HT Ht Ha. unfold AppendEntries, accepted.
  destruct (Z.ltb_spec (ae_Term args) (currentTerm r)); [lia|].
  destruct (Z.ltb_spec (currentTerm r) (ae_Term args)); cbn [r_log becomeFollower commitIndex currentTerm orb];
    (destruct (Z.ltb_spec (lastIndex (r_log r)) (PrevLogIndex args)); [lia|]); rewrite Ht, Z.eqb_refl; cbn [negb];
    rewrite Ha.
  - done.
  - replace (ae_Term args) with (currentTerm r) by lia. destruct appended; done.
Qed.

(** After the append, the request matches. *)
Lemma appended_again dl args x r p k l' :
  p = Z.to_nat (PrevLogIndex args + 1) -> 0 <= PrevLogIndex args <= lastIndex (r_log r) ->
  term_at (r_log r) (PrevLogIndex args) = PrevLogTerm args ->
  (k <= length (Entries args))%nat -> (p + k <= length (r_log r))%nat ->
  (forall j, (j < k)%nat -> e_Term <$> (r_log r !! (p + j)%nat) = e_Term <$> (Entries args !! j)) ->
  l' = (if decide (k = length (Entries args)) then r_log r
        else take (p + k) (r_log r) ++ drop k (Entries args)) ->
  r_log x = l' -> currentTerm x = ae_Term args ->
  r_log (snd (AppendEntries dl true args x)) = r_log x.
Proof.
  intros Hp Hr Ht Hk Hlen Hall El Ex Ec. unfold lastIndex, zlen in Hr.
  assert (forall j, (j < p)%nat -> l' !! j = r_log r !! j) as Hlow.
  { intros j Hj. subst l'. destruct (decide _); [done|]. rewrite lookup_app_l, lookup_take_lt; [done|lia|].
    rewrite length_take. lia. }
  assert (p <= length l')%nat as Hpl.
  { subst l'. destruct (decide _); [lia|]. rewrite length_app, length_take. lia. }
  assert (forall j, (j < length (Entries args))%nat ->
    e_Term <$> (l' !! (p + j)%nat) = e_Term <$> (Entries args !! j)) as Hm.
  { intros j Hj. destruct (decide (k = length (Entries args))); [subst l'; apply Hall; lia|].
    subst l'. destruct (decide (j < k)%nat).
    - rewrite lookup_app_l, lookup_take_lt; [by apply Hall|lia|rewrite length_take; lia].
    - rewrite lookup_app_r by (rewrite length_take; lia). rewrite length_take, lookup_drop. do 2 f_equal. lia. }
  rewrite (AppendEntries_accept_eq dl args x l' false).
  - cbn [snd]. unfold set_commit, accepted. rewrite Ec, Z.ltb_irrefl. by rewrite Ex.
  - rewrite Ex. unfold lastIndex, zlen. lia.
  - lia.
  - rewrite Ex, <- Ht. unfold term_at. rewrite Hlow by lia. done.
  - rewrite Ex, <- Hp. by apply appendFrom_match.
Qed.

(** C31. [AppendEntries] from a current leader whose previous entry matches:
    it is accepted; the log is left alone as long as the entries agree with it by term (a
    repeated or late request does not truncate) and from the first disagreement on it is
    replaced by the request's entries; the commit index follows the leader up to the last
    entry of the request; what changed of term, vote and log is on storage before the
    reply; and delivering the request again leaves the log as it is. *)
Theorem AppendEntries_accepts dl args r reply r' :
  AppendEntries dl true args r = (reply, r') ->
  0 <= PrevLogIndex args <= lastIndex (r_log r) -> currentTerm r <= ae_Term args ->
  term_at (r_log r) (PrevLogIndex args) = PrevLogTerm args ->
  let p := Z.to_nat (PrevLogIndex args + 1) in
  exists k, (k <= length (Entries args))%nat /\
    (forall j, (j < k)%nat -> e_Term <$> (r_log r !! (p + j)%nat) = e_Term <$> (Entries args !! j)) /\
    ((k < length (Entries args))%nat -> e_Term <$> (r_log r !! (p + k)%nat) <> e_Term <$> (Entries args !! k)) /\
    r_log r' = (if decide (k = length (Entries args)) then r_log r
                else take (p + k) (r_log r) ++ drop k (Entries args)) /\
    reply = mkAEReply (ae_Term args) true 0 /\
    currentTerm r' = ae_Term args /\ r_state r' = Follower /\ leaderID r' = LeaderID args /\
    commitIndex r' = (if commitIndex r <? LeaderCommit args
                      then Z.min (LeaderCommit args) (last_new args) else commitIndex r) /\
    (storage r' = Some (mkPersistent (currentTerm r') (votedFor r') (r_log r')) \/
     storage r' = storage r /\ currentTerm r' = currentTerm r /\ votedFor r' = votedFor r /\ r_log r' = r_log r) /\
    forall dl', r_log (snd (AppendEntries dl' true args r')) = r_log r'.
Proof.
  intros HA Hp HT Hterm p. unfold lastIndex, zlen in Hp.
  destruct (appendFrom_split (Entries args) (r_log r) p) as (k&Hk&Hall&Hstop&Hlen&Ha); [unfold p; lia|].
  destruct (if decide _ then _ else _) as [l' appended] eqn:Hl in Ha.
  pose proof (AppendEntries_accept_eq dl args r l' appended ltac:(unfold lastIndex, zlen; lia) HT Hterm Ha) as HE.
  rewrite HE in HA. injection HA as <- <-.
  set (x := if (_ || _) : bool then _ else _).
  assert (r_log x = l' /\ currentTerm x = ae_Term args /\ r_state x = Follower /\ leaderID x = LeaderID args) as (E1&E2&E3&E4).
  { unfold x, accepted. destruct (Z.ltb_spec (currentTerm r) (ae_Term args)), appended; cbn; split_and!; done || lia. }
  assert (l' = if decide (k = length (Entries args)) then r_log r else take (p + k) (r_log r) ++ drop k (Entries args)) as El.
  { destruct (decide _); congruence. }
  exists k. cbn [r_log currentTerm r_state leaderID commitIndex set_commit storage votedFor].
  rewrite E1, E2, E3, E4. split_and!; [done..|exact El|done|done|done|done|done| |].
  - unfold x, accepted. destruct (Z.ltb_spec (currentTerm r) (ae_Term args)); cbn [orb]; [by left|].
    destruct appended; [left|right].
    + cbn. do 2 f_equal. lia.
    + destruct (decide _); [|done]. injection Hl as <-. cbn. split_and!; done || lia.
  - intros dl'. etrans; [apply (appended_again dl' args _ r p k l')|exact E1]; try done.
Qed.

Lemma advanceFrom_greatest n r i :
  commitIndex r < i <= Z.of_nat n -> 0 < i -> term_at (r_log r) i = currentTerm r -> majority r <= countMatch r i ->
  i <= advanceFrom n r.
Proof.
  intros Hi Hpos Ht Hm. induction n as [|n IH]; [lia|]. cbn [advanceFrom].
  destruct (Z.leb_spec (Z.of_nat (S n)) (commitIndex r)); [lia|].
  destruct (decide (i = Z.of_nat (S n))) as [->|].
  - rewrite Ht, Z.eqb_refl. cbn [negb]. destruct (Z.leb_spec (majority r) (countMatch r (Z.of_nat (S n)))); lia.
  - specialize (IH ltac:(lia)). destruct (negb _); [done|]. destruct (_ <=? _); lia.
Qed.

(** [advanceCommitLocked] commits only by counting replicas of an entry of
    the current term: the commit index stays, or moves to an index of the current term
    that a majority has matched, and it is the greatest such index; nothing else of the
    node changes. *)
Theorem advanceCommit_greatest r :
  0 <= commitIndex r ->
  let k := commitIndex (advanceCommit r) in
  advanceCommit r = set_commit k r /\
  (k = commitIndex r \/
   commitIndex r < k <= lastIndex (r_log r) /\ term_at (r_log r) k = currentTerm r /\ majority r <= countMatch r k) /\
  (forall i, commitIndex r < i <= lastIndex (r_log r) -> term_at (r_log r) i = currentTerm r ->
     majority r <= countMatch r i -> i <= k).
Proof.
  intros Hc k. unfold k, advanceCommit. cbn [commitIndex set_commit]. split_and!; [done|..].
  - destruct (advanceFrom_spec (Z.to_nat (lastIndex (r_log r))) r) as [->|(?&?&?)]; [by left|right].
    split_and!; [lia..|done|done].
  - intros i Hi Ht Hm. apply advanceFrom_greatest; [lia..|done|done].
Qed.

(** ** Witnesses: the three-member run of [RaftCluster] *)

Definition ex_node (c : cluster) (id : Z) : Raft := default (New id [] None None 0) (nodes c !! id).

Lemma ex_members : members ex_ids.
Proof.
  split; [by apply (bool_decide_unpack (NoDup ex_ids))|]. intros id Hin.
  repeat (apply elem_of_cons in Hin as [->|Hin]; [lia|]). by apply not_elem_of_nil in Hin.
Qed.

Lemma ex_mid_run : run ex_first (boot ex_ids) = Some ex_mid.
Proof. vm_compute. reflexivity. Qed.

Lemma ex_end_run : run ex_second ex_mid = Some ex_end.
Proof. vm_compute. reflexivity. Qed.

Definition ex_more : cluster := default ex_mid (run [EStart 0 [Byte.x07]] ex_mid).

Lemma ex_more_run : run [EStart 0 [Byte.x07]] ex_mid = Some ex_more.
Proof. vm_compute. reflexivity. Qed.

Lemma raft_election_safety_witness :
  r_state (ex_node ex_mid 0) = Leader /\ r_state (ex_node ex_more 0) = Leader /\ (0 : Z) = 0.
Proof.
  split; [reflexivity|]. split; [reflexivity|].
  apply (raft_election_safety ex_ids ex_first [EStart 0 [Byte.x07]] ex_mid ex_more 0 0
           (ex_node ex_mid 0) (ex_node ex_more 0));
    [apply ex_members|apply ex_mid_run|apply ex_more_run|vm_compute; reflexivity..].
Defined.

Lemma raft_votes_once_witness :
  exists args, (1, args, mkRVReply 1 true) ∈ rv_replies ex_end /\ CandidateID args = CandidateID args.
Proof.
  exists (mkRV 1 0 0 0).
  assert ((1, mkRV 1 0 0 0, mkRVReply 1 true) ∈ rv_replies ex_end) as Hin.
  { apply list_elem_of_lookup_2 with 0%nat. vm_compute. reflexivity. }
  split; [exact Hin|].
  apply (raft_votes_once ex_ids (ex_first ++ ex_second) ex_end 1 _ _ (mkRVReply 1 true) (mkRVReply 1 true));
    [apply ex_members|vm_compute; reflexivity|exact Hin|exact Hin|reflexivity..].
Defined.

Lemma raft_log_matching_witness :
  take 3 (r_log (ex_node ex_end 1)) = take 3 (r_log (ex_node ex_end 2)) /\
  length (r_log (ex_node ex_end 1)) = 3%nat.
Proof.
  split; [|reflexivity].
  apply (raft_log_matching ex_ids (ex_first ++ ex_second) ex_end 1 2 _ _ 2 (mkEntry 2 [Byte.x02]) (mkEntry 2 [Byte.x02]));
    [apply ex_members|vm_compute; reflexivity..].
Defined.

Lemma raft_leader_append_only_witness :
  r_log (ex_node ex_mid 0) `prefix_of` r_log (ex_node ex_more 0) /\ length (r_log (ex_node ex_more 0)) = 3%nat.
Proof.
  split; [|reflexivity].
  apply (raft_leader_append_only ex_ids ex_first [EStart 0 [Byte.x07]] ex_mid ex_more 0);
    [apply ex_members|apply ex_mid_run|apply ex_more_run|vm_compute; reflexivity..].
Defined.

(** Node 0 leads and commits in term 1 and crashes; node 1 leads term 2. *)
Lemma raft_leader_completeness_witness :
  commitIndex (ex_node ex_mid 0) = 1 /\ currentTerm (ex_node ex_end 1) = 2 /\
  (1 < length (r_log (ex_node ex_end 1)))%nat /\
  take 2 (r_log (ex_node ex_end 1)) = take 2 (r_log (ex_node ex_mid 0)).
Proof.
  split; [reflexivity|]. split; [reflexivity|].
  apply (raft_leader_completeness ex_ids ex_first ex_second ex_mid ex_end 0 1 _ _ 1);
    [apply ex_members|apply ex_mid_run|apply ex_end_run|vm_compute; first [reflexivity|discriminate]..].
Defined.

Lemma raft_state_machine_safety_witness :
  let ms := default [] (applied ex_mid !! 0) in
  let ms' := default [] (applied ex_end !! 1) in
  length ms = 1%nat /\ length ms' = 2%nat /\
  (ms `prefix_of` ms' \/ ms' `prefix_of` ms) /\
  (forall (i : nat) m, ms !! i = Some m -> CommandIndex m = Z.of_nat i + 1) /\
  zlen ms = lastApplied (ex_node ex_mid 0).
Proof.
  cbn zeta. split; [reflexivity|]. split; [reflexivity|].
  apply (raft_state_machine_safety ex_ids ex_first ex_second ex_mid ex_end 0 1 _ (ex_node ex_end 1));
    [apply ex_members|apply ex_mid_run|apply ex_end_run|vm_compute; reflexivity|vm_compute; reflexivity
    |reflexivity|reflexivity].
Defined.


(** A follower with a stale entry of term 1 at index 2 gets two entries of term 2. *)
Definition ex_follower : Raft :=
  New 1 [0; 2] None (Some (mkPersistent 1 0 [mkEntry 0 []; mkEntry 1 [Byte.x01]; mkEntry 1 [Byte.x09]])) 0.
Definition ex_append : AppendEntriesArgs :=
  mkAE 2 0 0 0 [mkEntry 1 [Byte.x01]; mkEntry 2 [Byte.x02]] 1.

Lemma AppendEntries_accepts_witness :
  r_log (snd (AppendEntries 5 true ex_append ex_follower)) =
    [mkEntry 0 []; mkEntry 1 [Byte.x01]; mkEntry 2 [Byte.x02]] /\
  exists k, (k <= 2)%nat /\
    forall dl', r_log (snd (AppendEntries dl' true ex_append (snd (AppendEntries 5 true ex_append ex_follower)))) =
      r_log (snd (AppendEntries 5 true ex_append ex_follower)).
Proof.
  split; [reflexivity|].
  destruct (AppendEntries_accepts 5 ex_append ex_follower
              (fst (AppendEntries 5 true ex_append ex_follower)) (snd (AppendEntries 5 true ex_append ex_follower)))
    as (k&Hk&_&_&_&_&_&_&_&_&_&Hagain); [reflexivity|vm_compute; split; discriminate|vm_compute; discriminate|reflexivity|].
  exists k. exact (conj Hk Hagain).
Defined.

(** The leader of [ex_more] once peer 1 has matched both entries. *)
Definition ex_leader : Raft := set_indices ∅ {[ 1 := 2 ]} (ex_node ex_more 0).

Lemma advanceCommit_greatest_witness :
  commitIndex ex_leader = 1 /\ commitIndex (advanceCommit ex_leader) = 2 /\
  advanceCommit ex_leader = set_commit (commitIndex (advanceCommit ex_leader)) ex_leader.
Proof.
  split; [reflexivity|]. split; [reflexivity|].
  destruct (advanceCommit_greatest ex_leader) as [H _]; [vm_compute; discriminate|]. exact H.
Defined.

(** ** Limits of the guarantees *)

(** [persistLocked] only logs a failing [Save]: a member whose vote was not saved
    grants a second one in the same term after a restart. *)
Theorem save_failure_double_vote :
  let r0 := New 1 [0; 2] None None 0 in
  let '(reply1, r1) := RequestVote 0 false (mkRV 1 0 0 0) r0 in
  let '(reply2, r2) := RequestVote 0 true (mkRV 1 2 0 0) (New 1 [0; 2] None (storage r1) 0) in
  VoteGranted reply1 = true /\ VoteGranted reply2 = true /\ rvr_Term reply1 = rvr_Term reply2.
Proof. vm_compute. done. Qed.

(** What keeps a member without peers from leading. *)
Record lonely (c : cluster) : Prop := {
  ly_nodes : forall id r, nodes c !! id = Some r -> r_peers r = [] /\ r_state r <> Leader;
  ly_sent : rv_sent c = [];
  ly_replies : rv_replies c = [];
  ly_ae : ae_sent c = [];
  ly_aer : ae_replies c = []
}.

Lemma lonely_exec ev c c' : lonely c -> exec ev c = Some c' -> lonely c'.
Proof.
  intros [Hn Hs Hr Ha Har] He.
  assert (forall id r r', nodes c !! id = Some r -> r_peers r' = r_peers r -> r_state r' <> Leader ->
    forall i x, <[id := r']> (nodes c) !! i = Some x -> r_peers x = [] /\ r_state x <> Leader) as Hupd.
  { intros id r r' Hr' Hp Hl i x [[<- <-]|[_ Hx]]%lookup_insert_Some; [|by eapply Hn].
    destruct (Hn _ _ Hr'). rewrite Hp. done. }
  destruct ev; cbn [exec] in He; rewrite ?Hs, ?Hr, ?Ha, ?Har in He; try done;
    destruct (nodes c !! id) as [r|] eqn:Hid; try done; cbn [mbind option_bind] in He; destruct (Hn _ _ Hid) as [Hp Hl].
  - destruct (_ <? _); [|done]. unfold startElection in He. cbn in He. injection He as <-.
    split; cbn; try done; [by eapply Hupd|by rewrite Hp].
  - unfold Start in He. rewrite decide_False in He by done. injection He as <-. split; cbn; try done. by eapply Hupd.
  - rewrite Hp in He. destruct (decide _) as [Hin|]; [by apply not_elem_of_nil in Hin|done].
  - unfold applyNext in He. destruct (_ <=? _); [done|]. injection He as <-. split; cbn; try done. by eapply Hupd.
  - injection He as <-. split; cbn; try done. eapply Hupd; [done|..]; unfold New; by destruct (storage r).
Qed.

(** A cluster of one member never elects it: votes are counted only when a
    peer's reply arrives, and there is none. *)
Theorem single_node_never_leads id evs c r :
  run evs (boot [id]) = Some c -> nodes c !! id = Some r -> r_state r <> Leader.
Proof.
  assert (lonely (boot [id])) as H0.
  { split; try done. intros i x Hx. cbn [boot nodes] in Hx.
    apply elem_of_list_to_map_2, list_elem_of_fmap in Hx as (j&E&Hj). injection E as -> ->.
    apply list_elem_of_singleton in Hj as ->. split; [|done].
    change (peers_of [id] id = []). unfold peers_of. rewrite filter_cons_False; [done|]. by intros []. }
  revert H0. generalize (boot [id]) as c0. induction evs as [|ev evs IH]; intros c0 H0 Hr Hn; cbn [run] in Hr.
  - injection Hr as ->. by apply (ly_nodes _ H0 id r).
  - destruct (exec ev c0) as [c1|] eqn:He; [|done]. by eapply (IH c1); [eapply lonely_exec|..].
Qed.
