(* ===== verification/RaftProgress.v ===== *)
(** * RaftProgress: a Raft cluster can always go on

    The other half of [RaftSafety.v].  A follower's refusals lead the leader
    back to an entry both have, so that replication to it succeeds after
    finitely many exchanges; and from every state a cluster can reach, however
    messages were lost and members crashed, there is a continuation in which a
    leader is elected, a proposed command is committed and every member
    delivers it.  The runs are built from single exchanges: a request, the
    answer and what its sender makes of it. *)

From Stdlib Require Import ZArith Lia Strings.Byte Strings.String.
From stdpp Require Import base list list_numbers numbers option gmap sorting.
From coqutil Require Import Byte.
From S2P Require Import Prelude Bytes Raft RaftCluster RaftLog RaftInv RaftNode RaftSteps RaftReplicate RaftAppend RaftRun RaftSafety.

Local Open Scope Z_scope.

(** ** Refusals *)

(** The loop stops at the first index of the run of [T] that ends at [ci]. *)
Lemma conflictStart_run fuel log T ci :
  1 <= ci <= Z.of_nat fuel ->
  let k := conflictStart fuel log T ci in
  1 <= k <= ci /\ (forall i, k <= i < ci -> term_at log i = T) /\ (k = 1 \/ term_at log (k - 1) <> T).
Proof.
  revert ci. induction fuel as [|fuel IH]; intros ci Hci; cbn [conflictStart]; [lia|].
  destruct (Z.ltb_spec 1 ci); cbn [andb]; [|split_and!; [lia..|intros i Hi; lia|left; lia]].
  destruct (Z.eqb_spec (term_at log (ci - 1)) T) as [Ht|Ht]; [|split_and!; [lia..|intros i Hi; lia|by right]].
  destruct (IH (ci - 1) ltac:(lia)) as (Hk & Hrun & Hstop). cbn zeta in *. split_and!; [lia..| |done].
  intros i Hi. destruct (decide (i = ci - 1)) as [->|]; [done|]. apply Hrun. lia.
Qed.

(** What a refusal leaves: the leader's term and authority, nothing else. *)
Definition refused (dl : Z) (args : AppendEntriesArgs) (r : Raft) : Raft :=
  let x := accepted dl args r in if currentTerm r <? ae_Term args then persist true x else x.

Lemma refused_same dl args r :
  currentTerm r <= ae_Term args ->
  currentTerm (refused dl args r) = ae_Term args /\ r_log (refused dl args r) = r_log r /\
  commitIndex (refused dl args r) = commitIndex r /\ r_state (refused dl args r) = Follower /\
  leaderID (refused dl args r) = LeaderID args.
Proof.
  intros HT. unfold refused, accepted. destruct (Z.ltb_spec (currentTerm r) (ae_Term args)); cbn; split_and!; done || lia.
Qed.

Lemma AppendEntries_short_eq dl args r :
  currentTerm r <= ae_Term args -> lastIndex (r_log r) < PrevLogIndex args ->
  AppendEntries dl true args r = (mkAEReply (ae_Term args) false (lastIndex (r_log r) + 1), refused dl args r).
Proof.
  intros HT Hp. unfold AppendEntries, refused, accepted.
  destruct (Z.ltb_spec (ae_Term args) (currentTerm r)); [lia|].
  destruct (Z.ltb_spec (currentTerm r) (ae_Term args)); cbn [r_log becomeFollower commitIndex currentTerm];
    (destruct (Z.ltb_spec (lastIndex (r_log r)) (PrevLogIndex args)); [|lia]); [done|].
  by replace (ae_Term args) with (currentTerm r) by lia.
Qed.

Lemma AppendEntries_conflict_eq dl args r :
  currentTerm r <= ae_Term args -> PrevLogIndex args <= lastIndex (r_log r) ->
  term_at (r_log r) (PrevLogIndex args) <> PrevLogTerm args ->
  AppendEntries dl true args r =
    (mkAEReply (ae_Term args) false
       (conflictStart (Z.to_nat (PrevLogIndex args)) (r_log r) (term_at (r_log r) (PrevLogIndex args))
          (PrevLogIndex args)), refused dl args r).
Proof.
  intros HT Hp Ht. unfold AppendEntries, refused, accepted.
  destruct (Z.ltb_spec (ae_Term args) (currentTerm r)); [lia|].
  destruct (Z.ltb_spec (currentTerm r) (ae_Term args)); cbn [r_log becomeFollower commitIndex currentTerm];
    (destruct (Z.ltb_spec (lastIndex (r_log r)) (PrevLogIndex args)); [lia|]);
    (destruct (Z.eqb_spec (term_at (r_log r) (PrevLogIndex args)) (PrevLogTerm args)); [done|]); cbn [negb]; [done|].
  by replace (ae_Term args) with (currentTerm r) by lia.
Qed.

(** ** One exchange between a leader and a follower *)

(** The leader goes on leading with the same log. *)
Record leads (r r' : Raft) : Prop := {
  ld_state : r_state r' = Leader;
  ld_term : currentTerm r' = currentTerm r;
  ld_log : r_log r' = r_log r;
  ld_commit : commitIndex r <= commitIndex r'
}.

Lemma leads_refl r : r_state r = Leader -> leads r r.
Proof. done. Qed.

Lemma leads_trans r1 r2 r3 : leads r1 r2 -> leads r2 r3 -> leads r1 r3.
Proof. intros [] []. split; congruence || lia. Qed.

(** The follower has the leader's log and knows what the leader has committed. *)
Record follows (r rp : Raft) : Prop := {
  fl_term : currentTerm rp = currentTerm r;
  fl_log : agree (length (r_log r)) (r_log rp) (r_log r);
  fl_commit : commitIndex r <= commitIndex rp
}.

Definition next_of (r : Raft) (p : Z) : Z := Z.max 1 (default 0 (nextIndex r !! p)).

Lemma set_indices_leads ni mi r : r_state r = Leader -> leads r (set_indices ni mi r).
Proof. intros Hl. split; cbn; done || lia. Qed.

Lemma advanceCommit_leads r : r_state r = Leader -> 0 <= commitIndex r -> leads r (advanceCommit r).
Proof.
  intros Hl Hc. destruct (advanceCommit_greatest r Hc) as (_ & Hk & _). split; cbn; try done.
  cbn in Hk. lia.
Qed.

(** The commit index reaches an entry of the leader's term that all peers have. *)
Lemma advanceCommit_all r :
  0 <= commitIndex r < zlen (r_log r) -> (1 <= length (r_peers r))%nat ->
  term_at (r_log r) (lastIndex (r_log r)) = currentTerm r ->
  (forall q, q ∈ r_peers r -> matchIndex r !! q = Some (lastIndex (r_log r))) ->
  commitIndex (advanceCommit r) = lastIndex (r_log r).
Proof.
  intros Hc Hp Ht Hm. destruct (advanceCommit_greatest r ltac:(lia)) as (_ & Hk & Hmax).
  set (k := commitIndex (advanceCommit r)) in *. unfold lastIndex in *.
  destruct (decide (commitIndex r = zlen (r_log r) - 1)) as [|Hne]; [lia|].
  assert (zlen (r_log r) - 1 <= k); [|lia]. apply Hmax; [lia|done|].
  unfold majority, clusterSize, countMatch.
  assert (filter (fun p => zlen (r_log r) - 1 <= default 0 (matchIndex r !! p)) (r_peers r) = r_peers r) as ->.
  { clear -Hm. induction (r_peers r) as [|q ps IH]; [done|]. rewrite filter_cons_True.
    - f_equal. apply IH. intros x Hx. apply Hm. by right.
    - rewrite Hm by by left. cbn. lia. }
  unfold zlen. pose proof (Z.div_mod (Z.of_nat (length (r_peers r)) + 1) 2 ltac:(lia)).
  pose proof (Z.mod_pos_bound (Z.of_nat (length (r_peers r)) + 1) 2 ltac:(lia)). lia.
Qed.

Section Exchange.
Context (ids : list Z) (Hmem : members ids).

(** The follower refuses, and the leader will start earlier; or it accepts. *)
Lemma exchange h id r ms p rp msp dl args reply rp' :
  hist_ok ids h -> node_ok ids h id r ms -> node_ok ids h p rp msp -> p ∈ ids ->
  r_state r = Leader -> currentTerm rp <= currentTerm r ->
  replicateArgs p r = Some args -> AppendEntries dl true args rp = (reply, rp') ->
  let r' := appendReply dl args p reply r in
  leads r r' /\ currentTerm rp' = currentTerm r /\
  ((matchIndex r' = matchIndex r /\ next_of r' p < next_of r p /\ commitIndex r' = commitIndex r) \/
   (follows r rp' /\
    r' = advanceCommit (set_indices (<[p := lastIndex (r_log r) + 1]> (nextIndex r))
                          (<[p := lastIndex (r_log r)]> (matchIndex r)) r))).
Proof.
  intros Hh Hn Hnp Hp Hlead HT HA Hrun. pose proof Hmem as [Hnd Hids].
  destruct (replicateArgs_ok ids h id r ms p args Hn Hp HA) as [g Hq]. cbn [fst snd] in Hq.
  unfold replicateArgs in HA. rewrite decide_True in HA by done. fold (next_of r p) in HA.
  destruct (nk_leader _ _ _ _ _ Hn Hlead) as [g' Hlk].
  assert (1 <= next_of r p <= zlen (r_log r)) as Hni.
  { pose proof (log_ok_nonempty _ _ (nk_log _ _ _ _ _ Hn)). unfold next_of.
    destruct (nextIndex r !! p) as [n|] eqn:E; [apply (lk_next _ _ _ _ Hlk) in E|]; unfold zlen in *; cbn; lia. }
  set (ni := next_of r p) in *. injection HA as <-.
  assert (g' = g) as -> by (pose proof (lk_reign _ _ _ _ Hlk); pose proof (aq_reign _ _ _ _ _ Hq); cbn in *; congruence).
  pose proof (lk_log _ _ _ _ Hlk) as Hgl.
  pose proof (log_ok_nonempty _ _ (nk_log _ _ _ _ _ Hnp)) as Hne.
  pose proof (committed_in_range _ _ _ _ _ (nk_commit _ _ _ _ _ Hn) (log_ok_nonempty _ _ (nk_log _ _ _ _ _ Hn))) as Hci.
  destruct (accepted_ok ids h p rp msp dl (mkAE (currentTerm r) (r_id r) (ni - 1) (term_at (r_log r) (ni - 1))
    (drop (Z.to_nat ni) (r_log r)) (commitIndex r)) Hh Hnp HT) as (Hna & Hta & Hla & Hca).
  set (args := mkAE _ _ _ _ _ _) in *.
  assert (last_new args = lastIndex (r_log r)) as Hln
    by (unfold last_new, lastIndex, args; cbn; unfold zlen in *; rewrite length_drop; lia).
  assert (forall ci, 0 < ci < ni ->
    let r' := appendReply dl args p (mkAEReply (currentTerm r) false ci) r in
    leads r r' /\ matchIndex r' = matchIndex r /\ next_of r' p < ni /\ commitIndex r' = commitIndex r) as Hback.
  { intros ci Hc. unfold appendReply. rewrite bool_decide_eq_true_2 by done.
    cbn [ae_Term args aer_Term Success ConflictIndex].
    rewrite Z.eqb_refl, Z.ltb_irrefl. cbn [negb orb]. destruct (Z.ltb_spec 0 ci); [|lia].
    split; [by apply set_indices_leads|]. split_and!; [done| |done]. unfold next_of. cbn. rewrite lookup_insert_eq. cbn. lia. }
  destruct (refused_same dl args rp HT) as (Hrt & _).
  assert (lastIndex (r_log rp) = zlen (r_log rp) - 1 /\ PrevLogIndex args = ni - 1) as [Hlast Hprev] by done.
  destruct (Z.lt_ge_cases (lastIndex (r_log rp)) (PrevLogIndex args)) as [Hshort|Hlong].
  { rewrite AppendEntries_short_eq in Hrun by done. injection Hrun as <- <-.
    destruct (Hback (lastIndex (r_log rp) + 1)) as (? & ? & ? & ?); [unfold zlen in *; lia|].
    split_and!; [done..|by left]. }
  destruct (decide (term_at (r_log rp) (PrevLogIndex args) = PrevLogTerm args)) as [Hterm|Hterm].
  2:{ rewrite AppendEntries_conflict_eq in Hrun by done. injection Hrun as <- <-.
    assert (ni - 1 <> 0) as Hn0.
    { intros E. apply Hterm. unfold args. cbn [PrevLogIndex PrevLogTerm]. rewrite E. unfold term_at.
      change (Z.to_nat 0) with 0%nat. by rewrite (proj1 (nk_log _ _ _ _ _ Hnp)), (proj1 (nk_log _ _ _ _ _ Hn)). }
    rewrite Hprev in *.
    destruct (conflictStart_run (Z.to_nat (ni - 1)) (r_log rp) (term_at (r_log rp) (ni - 1)) (ni - 1)) as (Hk & _); [lia|].
    destruct (Hback (conflictStart (Z.to_nat (ni - 1)) (r_log rp) (term_at (r_log rp) (ni - 1)) (ni - 1)))
      as (? & ? & ? & ?); [lia|].
    split_and!; [done..|by left]. }
  destruct (appendFrom (r_log rp) (Z.to_nat (PrevLogIndex args + 1)) (Entries args)) as [l' appended] eqn:Ha.
  rewrite (AppendEntries_accept_eq dl args rp l' appended) in Hrun by (done || lia).
  rewrite <- Hla in Hlong, Hterm, Ha.
  destruct (appended_log ids h p _ msp args g l' appended Hh Hna Hq Hta Hlong Hterm Ha) as (HAg & _ & _ & _ & _).
  rewrite Hln in HAg. apply pair_equal_spec in Hrun as [<- <-]. cbn zeta.
  assert (appendReply dl args p (mkAEReply (ae_Term args) true 0) r =
    advanceCommit (set_indices (<[p := lastIndex (r_log r) + 1]> (nextIndex r))
      (<[p := lastIndex (r_log r)]> (matchIndex r)) r)) as ->.
  { unfold appendReply. rewrite bool_decide_eq_true_2 by done. cbn [ae_Term args aer_Term Success].
    rewrite Z.eqb_refl, Z.ltb_irrefl. cbn [negb orb]. fold (last_new args). by rewrite Hln. }
  set (x := set_commit _ _). assert (currentTerm x = currentTerm r /\ r_log x = l') as [Hxt Hxl].
  { unfold x. destruct (_ || _); by rewrite <- ?Hta. }
  assert (commitIndex r <= commitIndex x) as Hxc.
  { unfold x. cbn [commitIndex set_commit args LeaderCommit]. rewrite Hln. unfold lastIndex.
    destruct (Z.ltb_spec (commitIndex rp) (commitIndex r)); lia. }
  split_and!; [|done|right; split; [|done]].
  - eapply leads_trans; [by apply set_indices_leads|]. apply advanceCommit_leads; [done|cbn; lia].
  - split; [done| |done]. rewrite Hxl, <- Hgl. rewrite Hgl in HAg |- *.
    replace (length (r_log r)) with (S (Z.to_nat (lastIndex (r_log r)))); [done|].
    unfold lastIndex, zlen in *. lia.
Qed.

Lemma run_app evs evs' c c1 c2 : run evs c = Some c1 -> run evs' c1 = Some c2 -> run (evs ++ evs') c = Some c2.
Proof.
  revert c. induction evs as [|ev evs IH]; intros c H1 H2; cbn [run app] in *; [by injection H1 as ->|].
  destruct (exec ev c) as [c'|]; [|done]. cbn [mbind option_bind] in *. by apply IH.
Qed.

(** The three events of an exchange. *)
Lemma exchange_run c id p r rp args reply rp' :
  nodes c !! id = Some r -> nodes c !! p = Some rp -> p <> id -> p ∈ r_peers r -> r_id r = id ->
  replicateArgs p r = Some args -> AppendEntries 0 true args rp = (reply, rp') ->
  exists c', run [EReplicate id p; EAppend (length (ae_sent c)) 0; EAppendReply (length (ae_replies c)) 0] c = Some c' /\
    nodes c' = <[id := appendReply 0 args p reply r]> (<[p := rp']> (nodes c)) /\ applied c' = applied c.
Proof.
  intros Hr Hrp Hne Hp Hid HA Hrun.
  assert (LeaderID args = id) as Hlid.
  { unfold replicateArgs in HA. destruct (decide _); [|done]. by injection HA as <-. }
  cbn [run exec]. rewrite Hr. cbn [mbind option_bind]. rewrite decide_True by done. rewrite HA.
  cbn [mbind option_bind run exec ae_sent nodes ae_replies].
  rewrite lookup_app_r, Nat.sub_diag by lia. cbn [lookup list_lookup mbind option_bind]. rewrite Hrp. cbn [mbind option_bind].
  rewrite Hrun. cbn [mbind option_bind run exec ae_replies nodes].
  rewrite lookup_app_r, Nat.sub_diag by lia. cbn [lookup list_lookup mbind option_bind]. rewrite Hlid, lookup_insert_ne, Hr by done.
  cbn [mbind option_bind]. eexists. split; [done|]. done.
Qed.

(** The leader brings one follower up to date. *)
Lemma repair c id p r rp :
  cluster_ok ids c -> nodes c !! id = Some r -> nodes c !! p = Some rp -> p <> id ->
  r_state r = Leader -> currentTerm rp <= currentTerm r ->
  exists evs c' r' rp', run evs c = Some c' /\ nodes c' = <[id := r']> (<[p := rp']> (nodes c)) /\
    applied c' = applied c /\ leads r r' /\ follows r rp' /\
    matchIndex r' = <[p := lastIndex (r_log r)]> (matchIndex r) /\
    (term_at (r_log r) (lastIndex (r_log r)) = currentTerm r ->
     (forall q, q ∈ peers_of ids id -> q <> p -> matchIndex r !! q = Some (lastIndex (r_log r))) ->
     commitIndex r' = lastIndex (r_log r)).
Proof.
  remember (Z.to_nat (next_of r p)) as n eqn:Hn. revert c r rp Hn.
  induction n as [n IH] using lt_wf_ind. intros c r rp -> Hc Hr Hrp Hne Hl HT.
  destruct (co_nodes _ _ Hc _ _ Hr) as [Hid Hok]. destruct (co_nodes _ _ Hc _ _ Hrp) as [Hp Hokp].
  assert (p ∈ r_peers r) as Hpeer by (rewrite (nk_peers _ _ _ _ _ Hok); by apply list_elem_of_filter).
  destruct (replicateArgs p r) as [args|] eqn:HA; [|by unfold replicateArgs in HA; rewrite decide_True in HA].
  destruct (AppendEntries 0 true args rp) as [reply rp1] eqn:Hrun.
  destruct (exchange_run c id p r rp args reply rp1) as (c1 & Hrun1 & Hn1 & Ha1); try done; [apply Hok|].
  destruct (exchange (hist c) id r _ p rp _ 0 args reply rp1 (co_hist _ _ Hc) Hok Hokp Hp Hl HT HA Hrun)
    as (Hld & HT1 & Hcases).
  set (r1 := appendReply 0 args p reply r) in *.
  destruct Hcases as [(Hm1 & Hlt & Hci1)|[Hf Hr1]].
  - pose proof Hmem as [Hnd Hids]. destruct (run_ok ids Hnd Hids _ _ _ Hc Hrun1) as [Hc1 _].
    destruct (IH (Z.to_nat (next_of r1 p))) with c1 r1 rp1 as (evs & c' & r' & rp' & Hrun' & Hn' & Ha' & Hld' & Hf' & Hm' & Hci');
      try done; [unfold next_of in *; lia|by rewrite Hn1, lookup_insert_eq|
        by rewrite Hn1, lookup_insert_ne, lookup_insert_eq|apply Hld|rewrite (ld_term _ _ Hld); lia|].
    destruct Hld as [Hs1 Ht1 Hl1 Hco1]. rewrite Hl1, Ht1, Hm1 in *.
    eexists _, c', r', rp'. split; [by eapply run_app|]. split_and!; try done.
    + rewrite Hn', Hn1. rewrite (insert_insert_ne _ id p), !insert_insert_eq by done.
      rewrite (insert_insert_ne _ p id) by done. by rewrite insert_insert_eq.
    + congruence.
    + by eapply leads_trans.
    + destruct Hf' as [F1 F2 F3]. rewrite Hl1, Ht1 in *. split; [done|done|lia].
  - eexists _, c1, r1, rp1. split; [done|]. rewrite Hr1 in Hld |- *. split_and!; try done.
    + by rewrite <- Hr1.
    + intros Hterm Hall. apply (advanceCommit_all (set_indices _ _ r)); cbn; [| |done|].
      * pose proof (log_ok_nonempty _ _ (nk_log _ _ _ _ _ Hok)).
        by apply (committed_in_range _ _ _ _ _ (nk_commit _ _ _ _ _ Hok)).
      * destruct (r_peers r); [by apply not_elem_of_nil in Hpeer|cbn; lia].
      * intros q Hq. destruct (decide (q = p)) as [->|Hqp]; [by rewrite lookup_insert_eq|].
        rewrite lookup_insert_ne by done. apply Hall; [|done]. by rewrite <- (nk_peers _ _ _ _ _ Hok).
Qed.
End Exchange.

(** ** Rounds *)

Lemma follows_leads r r1 rp : leads r r1 -> follows r1 rp -> follows r rp.
Proof. intros [_ Ht Hl Hc] [Ft Fl Fc]. rewrite Hl in Fl. split; [congruence|done|lia]. Qed.

Section Rounds.
Context (ids : list Z) (Hmem : members ids).

Lemma run_cluster_ok evs c c' : cluster_ok ids c -> run evs c = Some c' -> cluster_ok ids c'.
Proof. intros Hc Hr. destruct Hmem. by eapply run_ok. Qed.

(** The leader brings each of [ps] up to date. *)
Lemma replicate_round (ps : list Z) c id r :
  cluster_ok ids c -> nodes c !! id = Some r -> r_state r = Leader -> NoDup ps -> id ∉ ps ->
  (forall p, p ∈ ps -> exists rp, nodes c !! p = Some rp /\ currentTerm rp <= currentTerm r) ->
  exists evs c' r', run evs c = Some c' /\ nodes c' !! id = Some r' /\ leads r r' /\ applied c' = applied c /\
    (forall p, p ∈ ps -> exists rp, nodes c' !! p = Some rp /\ follows r rp) /\
    (forall q, q ∉ ps -> q <> id -> nodes c' !! q = nodes c !! q) /\
    (forall p, p ∈ ps -> matchIndex r' !! p = Some (lastIndex (r_log r))) /\
    (forall q, q ∉ ps -> matchIndex r' !! q = matchIndex r !! q) /\
    (ps <> [] -> term_at (r_log r) (lastIndex (r_log r)) = currentTerm r ->
     (forall q, q ∈ peers_of ids id -> q ∉ ps -> matchIndex r !! q = Some (lastIndex (r_log r))) ->
     commitIndex r' = lastIndex (r_log r)).
Proof.
  revert c r. induction ps as [|p ps IH]; intros c r Hc Hr Hl Hnd Hid Hps.
  { exists [], c, r. split_and!; try done; by intros p ?%not_elem_of_nil. }
  apply NoDup_cons in Hnd as [Hp Hnd]. apply not_elem_of_cons in Hid as [Hpid Hid].
  destruct (Hps p) as (rp & Hrp & HT); [by left|].
  destruct (repair ids Hmem c id p r rp Hc Hr Hrp ltac:(done) Hl HT)
    as (evs1 & c1 & r1 & rp1 & Hrun1 & Hn1 & Ha1 & Hld1 & Hf1 & Hm1 & Hci1).
  assert (forall q, q <> id -> q <> p -> nodes c1 !! q = nodes c !! q) as Hother
    by (intros q ? ?; by rewrite Hn1, !lookup_insert_ne).
  destruct (IH c1 r1) as (evs2 & c' & r' & Hrun2 & Hr' & Hld2 & Ha2 & Hfol & Hrest & Hm2 & Hm3 & Hci2);
    [by eapply run_cluster_ok|by rewrite Hn1, lookup_insert_eq|apply Hld1|done|done| |].
  { intros q Hq. destruct (Hps q) as (rq & Hrq & HTq); [by right|]. exists rq.
    rewrite Hother by (intros ->; done). by rewrite (ld_term _ _ Hld1). }
  rewrite (ld_log _ _ Hld1) in Hm2, Hci2.
  exists (evs1 ++ evs2), c', r'. split; [by eapply run_app|]. split_and!; try done.
  - by eapply leads_trans.
  - congruence.
  - intros q [->|Hq]%elem_of_cons.
    + exists rp1. rewrite Hrest by done. by rewrite Hn1, lookup_insert_ne, lookup_insert_eq by done.
    + destruct (Hfol q Hq) as (rq & Hrq & Hf). exists rq. split; [done|]. by eapply follows_leads.
  - intros q [? ?]%not_elem_of_cons Hqid. by rewrite Hrest, Hother.
  - intros q [->|Hq]%elem_of_cons; [|by apply Hm2]. by rewrite Hm3, Hm1, lookup_insert_eq.
  - intros q [? ?]%not_elem_of_cons. by rewrite Hm3, Hm1, lookup_insert_ne.
  - intros _ Hterm Hall. destruct ps as [|p' ps].
    + assert (commitIndex r1 = lastIndex (r_log r)) as Hc1.
      { apply Hci1; [done|]. intros q Hq Hqp. apply Hall; [done|]. apply not_elem_of_cons. split; [done|]. apply not_elem_of_nil. }
      pose proof (ld_commit _ _ Hld2). cbn in Hrun2.
      assert (cluster_ok ids c') as Hc' by (eapply run_cluster_ok; [|exact Hrun2]; by eapply run_cluster_ok).
      destruct (co_nodes _ _ Hc' _ _ Hr') as [_ Hok'].
      pose proof (committed_in_range _ _ _ _ _ (nk_commit _ _ _ _ _ Hok') (log_ok_nonempty _ _ (nk_log _ _ _ _ _ Hok'))) as Hrg.
      rewrite (ld_log _ _ Hld2), (ld_log _ _ Hld1) in Hrg. unfold lastIndex in *. lia.
    + apply Hci2; [done|by rewrite (ld_term _ _ Hld1)|]. intros q Hq Hqp. rewrite Hm1.
      destruct (decide (q = p)) as [->|Hne]; [by rewrite lookup_insert_eq|]. rewrite lookup_insert_ne by done.
      apply Hall; [done|]. by apply not_elem_of_cons.
Qed.

(** ** Delivery *)

(** Delivering changes what has been applied and nothing else. *)
Record applies (r r' : Raft) : Prop := {
  ap_state : r_state r' = r_state r;
  ap_term : currentTerm r' = currentTerm r;
  ap_log : r_log r' = r_log r;
  ap_commit : commitIndex r' = commitIndex r
}.

Lemma apply_node c q r :
  cluster_ok ids c -> nodes c !! q = Some r ->
  exists evs c' r', run evs c = Some c' /\ nodes c' = <[q := r']> (nodes c) /\ applies r r' /\
    lastApplied r' = commitIndex r'.
Proof.
  remember (Z.to_nat (commitIndex r - lastApplied r)) as n eqn:Hn. revert c r Hn.
  induction n as [|n IH]; intros c r Hn Hc Hr; destruct (co_nodes _ _ Hc _ _ Hr) as [_ Hok];
    pose proof (nk_apply _ _ _ _ _ Hok) as Hap.
  { exists [], c, r. split_and!; [done|by rewrite insert_id|done|lia]. }
  destruct (applyNext r) as [[msg r1]|] eqn:Hx; unfold applyNext in Hx;
    (destruct (Z.leb_spec (commitIndex r) (lastApplied r)); [lia|]); [|done]. cbn zeta in Hx.
  assert (exists c1, exec (EApply q) c = Some c1 /\ nodes c1 = <[q := r1]> (nodes c)) as (c1 & He1 & Hn1).
  { cbn [exec]. rewrite Hr. cbn [mbind option_bind]. unfold applyNext.
    destruct (Z.leb_spec (commitIndex r) (lastApplied r)); [lia|]. cbn zeta. rewrite Hx. cbn [mbind option_bind].
    eexists. split; [done|done]. }
  assert (applies r r1 /\ lastApplied r1 = lastApplied r + 1) as [Ha1 Hl1] by by injection Hx as _ <-.
  assert (run [EApply q] c = Some c1) as Hrun1 by (cbn [run]; by rewrite He1).
  pose proof (run_cluster_ok _ _ _ Hc Hrun1) as Hc1. pose proof Ha1 as [As At Al Ac].
  destruct (IH c1 r1) as (evs & c' & r' & Hrun & Hn' & Ha & Hl); [lia|done|by rewrite Hn1, lookup_insert_eq|].
  exists ([EApply q] ++ evs), c', r'. split_and!; [by eapply run_app| | |done].
  - by rewrite Hn', Hn1, insert_insert_eq.
  - destruct Ha. split; congruence.
Qed.

Lemma apply_round (qs : list Z) c :
  cluster_ok ids c -> (forall q, q ∈ qs -> is_Some (nodes c !! q)) ->
  exists evs c', run evs c = Some c' /\
    forall q r, nodes c !! q = Some r -> exists r', nodes c' !! q = Some r' /\ applies r r' /\
      (q ∈ qs \/ lastApplied r = commitIndex r -> lastApplied r' = commitIndex r').
Proof.
  revert c. induction qs as [|p qs IH]; intros c Hc Hqs.
  { exists [], c. split; [done|]. intros q r Hr. exists r. split_and!; [done..|].
    by intros [?%not_elem_of_nil|?]. }
  destruct (Hqs p) as [rp Hrp]; [by left|].
  destruct (apply_node c p rp Hc Hrp) as (evs1 & c1 & r1 & Hrun1 & Hn1 & Ha1 & Hl1).
  destruct (IH c1) as (evs2 & c' & Hrun2 & Hall); [by eapply run_cluster_ok| |].
  { intros q Hq. rewrite Hn1. destruct (decide (q = p)) as [->|]; [by rewrite lookup_insert_eq|].
    rewrite lookup_insert_ne by done. apply Hqs. by right. }
  exists (evs1 ++ evs2), c'. split; [by eapply run_app|]. intros q r Hr.
  destruct (decide (q = p)) as [->|Hne].
  - simplify_eq. destruct (Hall p r1) as (r' & Hr' & Ha' & Hl'); [by rewrite Hn1, lookup_insert_eq|].
    exists r'. split_and!; [done| |intros _; apply Hl'; by right]. destruct Ha1, Ha'. split; congruence.
  - destruct (Hall q r) as (r' & Hr' & Ha' & Hl'); [by rewrite Hn1, lookup_insert_ne|].
    exists r'. split_and!; try done. intros [[->|Hq]%elem_of_cons|?]; [done|apply Hl'; by left|apply Hl'; by right].
Qed.
End Rounds.

Lemma delivered_lookup l k i e :
  l !! S i = Some e -> Z.of_nat (S i) <= k -> delivered l k !! i = Some (mkApply true (e_Command e) (Z.of_nat i + 1)).
Proof.
  intros He Hk. unfold delivered. rewrite list_lookup_imap.
  replace (tail (take (S (Z.to_nat k)) l) !! i) with (take (S (Z.to_nat k)) l !! S i) by (by destruct (take _ l)).
  by rewrite lookup_take_lt, He by lia.
Qed.

(** ** Elections *)

(** Members are never lost. *)
Lemma exec_keeps ev c c' id : exec ev c = Some c' -> is_Some (nodes c !! id) -> is_Some (nodes c' !! id).
Proof.
  assert (forall (N : gmap Z Raft) i r, is_Some (N !! id) -> is_Some (<[i := r]> N !! id)) as Hins.
  { intros N i r HN. destruct (decide (i = id)) as [->|]; [by rewrite lookup_insert_eq|by rewrite lookup_insert_ne]. }
  destruct ev; cbn [exec]; intros He Hid; repeat (progress simplify_option_eq || case_match);
    cbn [nodes]; by eauto.
Qed.

Lemma nodes_total ids evs c id : run evs (boot ids) = Some c -> id ∈ ids -> is_Some (nodes c !! id).
Proof.
  assert (forall evs c c', run evs c = Some c' -> is_Some (nodes c !! id) -> is_Some (nodes c' !! id)) as Hrun.
  { clear evs c. induction evs as [|ev evs IH]; intros c c' Hr Hn; cbn [run] in Hr; [by injection Hr as <-|].
    destruct (exec ev c) as [c1|] eqn:He; [|done]. cbn [mbind option_bind] in Hr. eapply IH; [done|]. by eapply exec_keeps. }
  intros Hr Hid. eapply Hrun; [done|]. cbn [boot nodes].
  apply elem_of_dom. rewrite dom_list_to_map. apply elem_of_list_to_set, list_elem_of_fmap.
  exists (id, New id (peers_of ids id) None None 0). split; [done|]. apply list_elem_of_fmap. by exists id.
Qed.

(** The vote request of a candidate with log [l]. *)
Definition vote_args (T id : Z) (l : list LogEntry) : RequestVoteArgs := mkRV T id (lastIndex l) (tlast l).

Lemma timeout_run c id r :
  nodes c !! id = Some r -> 0 <= currentTerm r -> currentTerm r + 1 < 2 ^ 64 ->
  exists c' r', run [ETimeout id 0] c = Some c' /\ nodes c' = <[id := r']> (nodes c) /\
    r_state r' = Candidate /\ currentTerm r' = currentTerm r + 1 /\ r_log r' = r_log r /\ r_id r' = r_id r /\
    r_peers r' = r_peers r /\ tallies c' !! (id, currentTerm r') = Some (1, r_peers r) /\
    (forall p, p ∈ r_peers r -> (p, vote_args (currentTerm r') (r_id r) (r_log r)) ∈ rv_sent c').
Proof.
  intros Hr H0 HT. cbn [run exec]. rewrite Hr. cbn [mbind option_bind].
  destruct (Z.ltb_spec (currentTerm r + 1) (2 ^ 64)); [|lia].
  unfold startElection. cbn zeta. cbn [lastLogTermIndex]. eexists _, _. split; [done|].
  cbn [nodes tallies rv_sent persist r_state currentTerm r_log r_id r_peers].
  rewrite !u64_small by (unfold is_u64; lia). split_and!; try done; [by rewrite lookup_insert_eq|].
  intros p Hp. apply elem_of_app. right. apply list_elem_of_fmap. by exists p.
Qed.

(** Timeouts take a member's term to any later one. *)
Lemma raise_term c id r T :
  nodes c !! id = Some r -> 0 <= currentTerm r < T -> T < 2 ^ 64 ->
  exists evs c' r', run evs c = Some c' /\ nodes c' = <[id := r']> (nodes c) /\
    r_state r' = Candidate /\ currentTerm r' = T /\ r_log r' = r_log r /\ r_id r' = r_id r /\ r_peers r' = r_peers r /\
    tallies c' !! (id, T) = Some (1, r_peers r) /\
    (forall p, p ∈ r_peers r -> (p, vote_args T (r_id r) (r_log r)) ∈ rv_sent c').
Proof.
  remember (Z.to_nat (T - currentTerm r - 1)) as n eqn:Hn. revert c r Hn.
  induction n as [|n IH]; intros c r Hn Hr HT Hlt;
    destruct (timeout_run c id r Hr ltac:(lia) ltac:(lia)) as (c1 & r1 & Hrun1 & Hn1 & Hs1 & Ht1 & Hl1 & Hi1 & Hp1 & Htl1 & Hsent1).
  - exists [ETimeout id 0], c1, r1. assert (currentTerm r1 = T) as <- by lia. by split_and!.
  - destruct (IH c1 r1) as (evs & c' & r' & Hrun & Hn' & Hs' & Ht' & Hl' & Hi' & Hp' & Htl' & Hsent');
      [lia|by rewrite Hn1, lookup_insert_eq|lia|done|].
    exists ([ETimeout id 0] ++ evs), c', r'. split; [by eapply run_app|].
    rewrite Hn', Hn1, insert_insert_eq. rewrite Hl1, Hi1, Hp1 in *. done.
Qed.

(** One member votes for the candidate. *)
Lemma vote_exchange c id p r rp T v waiting :
  nodes c !! id = Some r -> r_state r = Candidate -> currentTerm r = T -> r_id r = id ->
  tallies c !! (id, T) = Some (v, waiting) -> p ∈ waiting -> p <> id ->
  nodes c !! p = Some rp -> currentTerm rp < T -> up_to_date (r_log rp) (r_log r) ->
  (p, vote_args T id (r_log r)) ∈ rv_sent c ->
  exists evs c' rp', run evs c = Some c' /\
    nodes c' = <[id := if majority r <=? v + 1 then becomeLeader r else r]> (<[p := rp']> (nodes c)) /\
    r_log rp' = r_log rp /\ currentTerm rp' = T /\
    tallies c' !! (id, T) = Some (v + 1, filter (fun q => q <> p) waiting) /\ rv_sent c' = rv_sent c.
Proof.
  intros Hr Hs Ht Hid Htl Hw Hne Hrp HT Hup [k Hk]%list_elem_of_lookup.
  destruct (RequestVote 0 true (vote_args T id (r_log r)) rp) as [reply rp'] eqn:Hv.
  assert (reply = mkRVReply T true /\ r_log rp' = r_log rp /\ currentTerm rp' = T) as (-> & Hl' & Ht').
  { unfold RequestVote, vote_args in Hv. cbn [rv_Term CandidateID] in Hv.
    destruct (Z.ltb_spec (currentTerm rp) T); [|lia]. cbn [currentTerm becomeFollower votedFor] in Hv.
    rewrite Z.ltb_irrefl, Z.eqb_refl in Hv. cbn [negb andb] in Hv.
    fold (vote_args T id (r_log r)) in Hv.
    rewrite (proj2 (candidateUpToDate_spec (vote_args T id (r_log r)) (becomeFollower 0 T rp) (r_log r) eq_refl eq_refl)) in Hv by done.
    injection Hv as <- <-. done. }
  exists [ERequestVote k 0; EVoteReply (length (rv_replies c)) 0]. cbn [run exec].
  rewrite Hk. cbn [mbind option_bind]. rewrite Hrp. cbn [mbind option_bind]. rewrite Hv.
  cbn [mbind option_bind run exec rv_replies nodes tallies].
  rewrite lookup_app_r, Nat.sub_diag by lia. cbn [lookup list_lookup mbind option_bind vote_args CandidateID rv_Term].
  rewrite lookup_insert_ne, Hr by done. cbn [mbind option_bind]. rewrite Htl. cbn [mbind option_bind].
  rewrite decide_True by done. unfold voteReply. rewrite bool_decide_eq_true_2, Ht, Z.eqb_refl by done.
  cbn [negb orb rvr_Term VoteGranted]. rewrite Z.ltb_irrefl. cbn zeta.
  eexists _, rp'. split; [done|]. cbn [nodes tallies rv_sent]. split_and!; try done. by rewrite lookup_insert_eq.
Qed.

(** The members a candidate waits for make it the leader. *)
Lemma elect (ps : list Z) c id r T v :
  nodes c !! id = Some r -> r_state r = Candidate -> currentTerm r = T -> r_id r = id ->
  tallies c !! (id, T) = Some (v, ps) -> NoDup ps -> id ∉ ps -> v < majority r <= v + zlen ps ->
  (forall p, p ∈ ps -> (p, vote_args T id (r_log r)) ∈ rv_sent c /\
     exists rp, nodes c !! p = Some rp /\ currentTerm rp < T /\ up_to_date (r_log rp) (r_log r)) ->
  exists evs c' r', run evs c = Some c' /\ nodes c' !! id = Some r' /\ r_state r' = Leader /\ currentTerm r' = T /\
    r_log r' = r_log r /\
    forall q rq, q <> id -> nodes c !! q = Some rq -> exists rq', nodes c' !! q = Some rq' /\
      currentTerm rq' <= Z.max T (currentTerm rq).
Proof.
  revert c v. induction ps as [|p ps IH]; intros c v Hr Hs Ht Hid Htl Hnd Hnin Hmaj Hps.
  { unfold zlen in Hmaj. cbn in Hmaj. lia. }
  apply NoDup_cons in Hnd as [Hp Hnd]. apply not_elem_of_cons in Hnin as [Hpid Hnin].
  destruct (Hps p) as (Hsent & rp & Hrp & HT & Hup); [by left|].
  destruct (vote_exchange c id p r rp T v (p :: ps)) as (evs1 & c1 & rp1 & Hrun1 & Hn1 & Hl1 & Ht1 & Htl1 & Hsent1);
    try done; [by left|].
  assert (filter (fun q => q <> p) (p :: ps) = ps) as Hfil.
  { rewrite filter_cons_False by (intros H; by apply H). clear -Hp. induction ps as [|q ps IH]; [done|].
    apply not_elem_of_cons in Hp as [? ?]. rewrite filter_cons_True by done. f_equal. by apply IH. }
  rewrite Hfil in Htl1.
  assert (forall q rq, q <> id -> nodes c !! q = Some rq -> exists rq', nodes c1 !! q = Some rq' /\
    currentTerm rq' <= Z.max T (currentTerm rq)) as Hoth.
  { intros q rq Hq Hrq. rewrite Hn1, lookup_insert_ne by done. destruct (decide (q = p)) as [->|].
    - rewrite lookup_insert_eq. exists rp1. split; [done|lia].
    - rewrite lookup_insert_ne by done. exists rq. split; [done|lia]. }
  destruct (Z.leb_spec (majority r) (v + 1)) as [Hwin|Hmore].
  - exists evs1, c1, (becomeLeader r). unfold becomeLeader. rewrite decide_True by done.
    split_and!; try done. rewrite Hn1, lookup_insert_eq. unfold becomeLeader. by rewrite decide_True.
  - destruct (IH c1 (v + 1)) as (evs2 & c' & r' & Hrun2 & Hr' & Hs' & Ht' & Hl' & Hoth'); try done.
    + by rewrite Hn1, lookup_insert_eq.
    + unfold zlen in *. cbn in Hmaj. lia.
    + intros q Hq. destruct (Hps q) as (Hsq & rq & Hrq & HTq & Hupq); [by right|]. rewrite Hsent1. split; [done|].
      exists rq. split_and!; try done. rewrite Hn1, !lookup_insert_ne by (intros ->; done). done.
    + exists (evs1 ++ evs2), c', r'. split; [by eapply run_app|]. split_and!; try done.
      intros q rq Hq Hrq. destruct (Hoth q rq Hq Hrq) as (rq1 & Hrq1 & Hle1).
      destruct (Hoth' q rq1 Hq Hrq1) as (rq' & Hrq' & Hle'). exists rq'. split; [done|lia].
Qed.

(** Some log is at least as up to date as all. *)
Lemma best_log (ids : list Z) (f : Z -> list LogEntry) :
  ids <> [] -> exists id, id ∈ ids /\ forall q, q ∈ ids -> up_to_date (f q) (f id).
Proof.
  induction ids as [|a ids IH]; [done|intros _]. destruct ids as [|b ids].
  - exists a. split; [by left|]. intros q ->%list_elem_of_singleton. right. done.
  - destruct IH as (id & Hid & Hall); [done|].
    assert (up_to_date (f a) (f id) \/ up_to_date (f id) (f a)) as [Hup|Hup] by (unfold up_to_date; lia).
    + exists id. split; [by right|]. intros q [->|Hq]%elem_of_cons; [done|by apply Hall].
    + exists a. split; [by left|]. intros q [->|Hq]%elem_of_cons; [right; done|].
      specialize (Hall q Hq). unfold up_to_date in *. lia.
Qed.

Lemma start_run c id r command :
  nodes c !! id = Some r -> r_state r = Leader ->
  exists c' r', run [EStart id command] c = Some c' /\ nodes c' = <[id := r']> (nodes c) /\
    r_state r' = Leader /\ currentTerm r' = currentTerm r /\ r_log r' = r_log r ++ [mkEntry (currentTerm r) command].
Proof.
  intros Hr Hl. cbn [run exec]. rewrite Hr. cbn [mbind option_bind]. unfold Start. rewrite decide_True by done.
  cbn zeta. eexists _, _. split; [done|]. done.
Qed.

(** A term above all others. *)
Lemma term_above (ids : list Z) (f : Z -> Z) :
  (forall q, q ∈ ids -> f q + 1 < 2 ^ 64) -> exists T, T < 2 ^ 64 /\ forall q, q ∈ ids -> f q < T.
Proof.
  induction ids as [|a ids IH]; intros Hall; [exists 0; split; [lia|by intros q ?%not_elem_of_nil]|].
  destruct IH as (T & HT & Hlt); [intros q Hq; apply Hall; by right|]. specialize (Hall a ltac:(by left)).
  exists (Z.max T (f a + 1)). split; [lia|]. intros q [->|Hq]%elem_of_cons; [lia|]. specialize (Hlt q Hq). lia.
Qed.

Lemma elem_peers ids id p : p ∈ peers_of ids id <-> p <> id /\ p ∈ ids.
Proof. unfold peers_of. by rewrite list_elem_of_filter. Qed.

Section Progress.
Context (ids : list Z) (Hmem : members ids) (Hsize : (2 <= length ids)%nat).

(** From any state with all members there is a run that elects a leader in a
    new term. *)
Lemma can_elect c :
  cluster_ok ids c -> (forall q, q ∈ ids -> is_Some (nodes c !! q)) ->
  (forall q r, nodes c !! q = Some r -> currentTerm r + 1 < 2 ^ 64) ->
  exists evs c' id r, run evs c = Some c' /\ id ∈ ids /\ nodes c' !! id = Some r /\ r_state r = Leader /\
    (forall q r0, nodes c !! q = Some r0 -> currentTerm r0 < currentTerm r) /\
    (forall q, q ∈ ids -> exists rq, nodes c' !! q = Some rq /\ currentTerm rq <= currentTerm r).
Proof.
  intros Hc Htot Hterms. pose proof Hmem as [Hnd Hids].
  set (node q := default (New q [] None None 0) (nodes c !! q)).
  assert (forall q, q ∈ ids -> nodes c !! q = Some (node q)) as Hnode.
  { intros q Hq. unfold node. by destruct (Htot q Hq) as [r ->]. }
  destruct (best_log ids (fun q => r_log (node q))) as (id & Hid & Hbest); [by destruct ids; [cbn in Hsize; lia|]|].
  destruct (term_above ids (fun q => currentTerm (node q))) as (T & HT & Hbelow); [intros q Hq; by apply (Hterms q), Hnode|].
  destruct (co_nodes _ _ Hc _ _ (Hnode id Hid)) as [_ Hok].
  pose proof (d_term _ (nk_durable _ _ _ _ _ Hok)) as Hst.
  destruct (raise_term c id (node id) T) as (evs1 & c1 & r1 & Hrun1 & Hn1 & Hs1 & Ht1 & Hl1 & Hi1 & Hp1 & Htl1 & Hsent1);
    [by apply Hnode|specialize (Hbelow id Hid); lia|done|].
  rewrite (nk_id _ _ _ _ _ Hok) in *. rewrite (nk_peers _ _ _ _ _ Hok) in *.
  pose proof (length_peers ids Hnd id Hid) as Hlen.
  pose proof (elem_peers ids id) as Hpeers.
  destruct (elect (peers_of ids id) c1 id r1 T 1) as (evs2 & c2 & r2 & Hrun2 & Hr2 & Hs2 & Ht2 & Hl2 & Hoth); try done.
  - by rewrite Hn1, lookup_insert_eq.
  - by apply NoDup_filter.
  - intros [? _]%Hpeers. done.
  - unfold majority, clusterSize. rewrite Hp1. unfold zlen.
    pose proof (Z.div_mod (Z.of_nat (length (peers_of ids id)) + 1) 2 ltac:(lia)).
    pose proof (Z.mod_pos_bound (Z.of_nat (length (peers_of ids id)) + 1) 2 ltac:(lia)). lia.
  - intros p Hp. rewrite Hl1. split; [by apply Hsent1|]. apply Hpeers in Hp as [Hne Hp].
    exists (node p). rewrite Hn1, lookup_insert_ne by done. split_and!; [by apply Hnode|by apply Hbelow|by apply Hbest].
  - exists (evs1 ++ evs2), c2, id, r2. split; [by eapply run_app|]. rewrite Ht2. split_and!; try done.
    + intros q r0 Hq. destruct (co_nodes _ _ Hc _ _ Hq) as [Hqi _]. rewrite (Hnode q Hqi) in Hq. injection Hq as <-.
      by apply Hbelow.
    + intros q Hq. destruct (decide (q = id)) as [->|Hne]; [exists r2; split; [done|lia]|].
      destruct (Hoth q (node q)) as (rq & Hrq & Hle); [done|rewrite Hn1, lookup_insert_ne by done; by apply Hnode|].
      exists rq. split; [done|]. specialize (Hbelow q Hq). lia.
Qed.

(** A leader above all others' terms can have a command delivered everywhere. *)
Lemma can_deliver c id r command :
  cluster_ok ids c -> id ∈ ids -> nodes c !! id = Some r -> r_state r = Leader ->
  (forall q, q ∈ ids -> exists rq, nodes c !! q = Some rq /\ currentTerm rq <= currentTerm r) ->
  exists evs c' r', run evs c = Some c' /\ nodes c' !! id = Some r' /\ r_state r' = Leader /\
    currentTerm r' = currentTerm r /\ r_log r' = r_log r ++ [mkEntry (currentTerm r) command] /\
    forall q, q ∈ ids -> exists rq, nodes c' !! q = Some rq /\ lastIndex (r_log r') <= lastApplied rq /\
      agree (length (r_log r')) (r_log rq) (r_log r').
Proof.
  intros Hc Hid Hr Hl Hall. pose proof Hmem as [Hnd Hids].
  destruct (start_run c id r command Hr Hl) as (c3 & r3 & Hrun3 & Hn3 & Hs3 & Ht3 & Hl3).
  pose proof (run_cluster_ok ids Hmem _ _ _ Hc Hrun3) as Hc3.
  pose proof (elem_peers ids id) as Hpeers.
  assert (id ∉ peers_of ids id) as Hnin by (intros [? _]%Hpeers; done).
  assert (peers_of ids id <> []) as Hnil.
  { pose proof (length_peers ids Hnd id Hid) as Hlen. intros E. rewrite E in Hlen. cbn in Hlen. lia. }
  destruct (replicate_round ids Hmem (peers_of ids id) c3 id r3) as (evs4 & c4 & r4 & Hrun4 & Hr4 & Hld4 & _ & Hf4 & _ & _ & _ & Hci4);
    [done|by rewrite Hn3, lookup_insert_eq|done|by apply NoDup_filter|done| |].
  { intros p [Hne Hp]%Hpeers. destruct (Hall p Hp) as (rp & Hrp & HT). exists rp.
    rewrite Hn3, lookup_insert_ne by done. by rewrite Ht3. }
  specialize (Hci4 Hnil). rewrite Hl3 in Hci4.
  assert (lastIndex (r_log r ++ [mkEntry (currentTerm r) command]) = zlen (r_log r)) as Hlast
    by (unfold lastIndex, zlen; rewrite length_app; cbn; lia).
  assert (commitIndex r4 = zlen (r_log r)) as Hc4.
  { rewrite <- Hlast. apply Hci4; [|by intros q Hq Hnq].
    rewrite Hlast. unfold term_at, zlen. rewrite Nat2Z.id, lookup_app_r, Nat.sub_diag by lia. by rewrite Ht3. }
  pose proof (run_cluster_ok ids Hmem _ _ _ Hc3 Hrun4) as Hok4.
  destruct (replicate_round ids Hmem (peers_of ids id) c4 id r4)
    as (evs5 & c5 & r5 & Hrun5 & Hr5 & Hld5 & _ & Hf5 & _);
    [done|done|apply Hld4|by apply NoDup_filter|done| |].
  { intros p Hp. destruct (Hf4 p Hp) as (rp & Hrp & Hf). exists rp. split; [done|].
    rewrite (fl_term _ _ Hf), (ld_term _ _ Hld4). done. }
  pose proof (run_cluster_ok ids Hmem _ _ _ Hok4 Hrun5) as Hok5.
  assert (r_log r5 = r_log r ++ [mkEntry (currentTerm r) command]) as Hl5
    by by rewrite (ld_log _ _ Hld5), (ld_log _ _ Hld4).
  assert (forall q, q ∈ ids -> exists rq, nodes c5 !! q = Some rq /\ zlen (r_log r) <= commitIndex rq /\
    agree (length (r_log r5)) (r_log rq) (r_log r5)) as Hready.
  { intros q Hq. destruct (decide (q = id)) as [->|Hne].
    - exists r5. pose proof (ld_commit _ _ Hld5). split_and!; [done|lia|by apply agree_refl].
    - destruct (Hf5 q) as (rq & Hrq & [Ft Fl Fc]); [by apply Hpeers|].
      exists rq. rewrite (ld_log _ _ Hld5). split_and!; [done|lia|done]. }
  destruct (apply_round ids Hmem ids c5 Hok5) as (evs6 & c6 & Hrun6 & Happ).
  { intros q Hq. destruct (Hready q Hq) as (rq & -> & _). done. }
  destruct (Happ id r5 Hr5) as (r6 & Hr6 & [As At Al Ac] & _).
  exists ([EStart id command] ++ evs4 ++ evs5 ++ evs6), c6, r6.
  split; [do 3 (eapply run_app; [done|]); done|]. split; [done|].
  rewrite As, At, Al, Hl5, (ld_term _ _ Hld5), (ld_term _ _ Hld4). split_and!; [apply Hld5|done|done|]. intros q Hq.
  destruct (Hready q Hq) as (rq & Hrq & Hcq & HA). destruct (Happ q rq Hrq) as (rq' & Hrq' & [Qs Qt Ql Qc] & Hlast').
  exists rq'. rewrite Hlast. split_and!; [done|rewrite Hlast', Qc by (by left); done|]. by rewrite Ql, <- Hl5.
Qed.
End Progress.

(** ** Results *)

(** C8. A Raft cluster never gets stuck.  From every state a cluster of two or
    more members can reach, whatever was lost, repeated or delayed and whoever
    crashed, there is a continuation in which a leader is elected in a term
    newer than all terms so far, a command proposed to it becomes the last
    entry of its log, is replicated (past every refusal), committed, and
    delivered by every member at its index. *)
Theorem raft_can_deliver ids evs c command :
  members ids -> (2 <= length ids)%nat -> run evs (boot ids) = Some c ->
  (forall q r, nodes c !! q = Some r -> currentTerm r + 1 < 2 ^ 64) ->
  exists evs' c' leader r k, run evs' c = Some c' /\ nodes c' !! leader = Some r /\ r_state r = Leader /\
    last (r_log r) = Some (mkEntry (currentTerm r) command) /\ lastIndex (r_log r) = Z.of_nat k + 1 /\
    (forall q r0, nodes c !! q = Some r0 -> currentTerm r0 < currentTerm r) /\
    forall q, q ∈ ids -> exists ms, applied c' !! q = Some ms /\
      ms !! k = Some (mkApply true command (Z.of_nat k + 1)).
Proof.
  intros Hmem Hsize Hrun Hterms. pose proof (reach_ok ids Hmem _ _ Hrun) as Hc.
  destruct (can_elect ids Hmem Hsize c Hc) as (evs1 & c1 & id & r1 & Hrun1 & Hid & Hr1 & Hl1 & Hnew & Hall1);
    [intros q; by eapply nodes_total|done|].
  pose proof (run_cluster_ok ids Hmem _ _ _ Hc Hrun1) as Hc1.
  destruct (can_deliver ids Hmem Hsize c1 id r1 command Hc1 Hid Hr1 Hl1 Hall1)
    as (evs2 & c2 & r2 & Hrun2 & Hr2 & Hl2 & Ht2 & Hlog2 & Hall2).
  pose proof (run_cluster_ok ids Hmem _ _ _ Hc1 Hrun2) as Hc2.
  destruct (co_nodes _ _ Hc1 _ _ Hr1) as [_ Hok1].
  pose proof (log_ok_nonempty _ _ (nk_log _ _ _ _ _ Hok1)) as Hne.
  set (k := (length (r_log r1) - 1)%nat).
  assert (r_log r2 !! S k = Some (mkEntry (currentTerm r2) command) /\ length (r_log r2) = S (S k)) as [He Hlen].
  { rewrite Hlog2, length_app, Ht2. cbn. replace (S k) with (length (r_log r1)) by (unfold k; lia).
    rewrite lookup_app_r, Nat.sub_diag by lia. split; [done|lia]. }
  exists (evs1 ++ evs2), c2, id, r2, k. split; [by eapply run_app|]. split_and!; try done.
  - by rewrite last_lookup, Hlen.
  - unfold lastIndex, zlen. rewrite Hlen. lia.
  - by rewrite Ht2.
  - intros q Hq. destruct (Hall2 q Hq) as (rq & Hrq & Hap & HA). destruct (co_nodes _ _ Hc2 _ _ Hrq) as [_ Hokq].
    pose proof (nk_delivered _ _ _ _ _ Hokq) as Hd.
    rewrite <- (agree_lookup _ _ _ _ HA) in He by lia.
    pose proof (delivered_lookup (r_log rq) (lastApplied rq) k _ He) as Hk.
    rewrite <- Hd in Hk. specialize (Hk ltac:(unfold lastIndex, zlen in Hap; lia)).
    destruct (applied c2 !! q) as [ms|]; [by exists ms|done].
Qed.

Lemma raft_can_deliver_witness :
  exists evs c leader r, run evs ex_end = Some c /\ nodes c !! leader = Some r /\ r_state r = Leader.
Proof.
  destruct (raft_can_deliver ex_ids (ex_first ++ ex_second) ex_end [Byte.x09])
    as (evs & c & leader & r & k & Hrun & Hr & Hl & _).
  - apply ex_members.
  - cbn. lia.
  - vm_compute. reflexivity.
  - intros q r Hq. assert (bool_decide (map_Forall (fun _ r => currentTerm r + 1 < 2 ^ 64) (nodes ex_end)) = true) as H
      by (vm_compute; reflexivity).
    apply bool_decide_eq_true_1 in H. apply (H q r Hq).
  - exists evs, c, leader, r. split; [exact Hrun|]. split; [exact Hr|exact Hl].
Defined.

(** C21. Refusals lead back to the common part.  [AppendEntries] from a stale
    leader changes nothing and names no index.  From a current leader whose
    previous entry the node does not have, it refuses without touching log or
    commit index, adopts the leader and its term (stored before the reply if
    new), and names an index to go on from: one past the end of a log that is
    too short, otherwise the first index of the run of entries that share the
    term of the conflicting one, so that a whole term is skipped at once. *)
Theorem AppendEntries_rejects dl args r reply r' :
  AppendEntries dl true args r = (reply, r') -> r_log r !! 0%nat = Some (mkEntry 0 []) ->
  0 <= PrevLogIndex args -> (PrevLogIndex args = 0 -> PrevLogTerm args = 0) -> Success reply = false ->
  (ae_Term args < currentTerm r /\ r' = r /\ reply = mkAEReply (currentTerm r) false 0) \/
  (currentTerm r <= ae_Term args /\ aer_Term reply = ae_Term args /\
   r_log r' = r_log r /\ commitIndex r' = commitIndex r /\ currentTerm r' = ae_Term args /\
   r_state r' = Follower /\ leaderID r' = LeaderID args /\
   (currentTerm r < ae_Term args -> storage r' = Some (mkPersistent (ae_Term args) None_ (r_log r))) /\
   let ci := ConflictIndex reply in
   1 <= ci <= PrevLogIndex args /\
   ((lastIndex (r_log r) < PrevLogIndex args /\ ci = lastIndex (r_log r) + 1) \/
    (PrevLogIndex args <= lastIndex (r_log r) /\
     let t := term_at (r_log r) (PrevLogIndex args) in
     t <> PrevLogTerm args /\ (forall i, ci <= i <= PrevLogIndex args -> term_at (r_log r) i = t) /\
     (ci = 1 \/ term_at (r_log r) (ci - 1) <> t)))).
Proof.
  intros Hrun Hs0 Hp Hp0 Hfail. pose proof (lookup_lt_Some _ _ _ Hs0) as Hlen.
  destruct (Z.lt_ge_cases (ae_Term args) (currentTerm r)) as [Hst|HT].
  { left. unfold AppendEntries in Hrun. destruct (Z.ltb_spec (ae_Term args) (currentTerm r)); [|lia].
    by injection Hrun as <- <-. }
  right. destruct (refused_same dl args r HT) as (Rt & Rl & Rc & Rs & Ri).
  assert (currentTerm r < ae_Term args -> storage (refused dl args r) = Some (mkPersistent (ae_Term args) None_ (r_log r))) as Rsto.
  { intros Hlt. unfold refused, accepted. destruct (Z.ltb_spec (currentTerm r) (ae_Term args)); [done|lia]. }
  destruct (Z.lt_ge_cases (lastIndex (r_log r)) (PrevLogIndex args)) as [Hshort|Hlong].
  - rewrite AppendEntries_short_eq in Hrun by done.
    apply pair_equal_spec in Hrun as [<- <-]. cbn [aer_Term ConflictIndex].
    split_and!; try done; [unfold lastIndex, zlen in *; lia..|by left].
  - destruct (decide (term_at (r_log r) (PrevLogIndex args) = PrevLogTerm args)) as [Ht|Ht].
    { destruct (appendFrom (r_log r) (Z.to_nat (PrevLogIndex args + 1)) (Entries args)) as [l' b] eqn:Ha.
      rewrite (AppendEntries_accept_eq dl args r l' b) in Hrun by (done || lia). by injection Hrun as <- _. }
    rewrite AppendEntries_conflict_eq in Hrun by done.
    apply pair_equal_spec in Hrun as [<- <-]. cbn [aer_Term ConflictIndex].
    assert (PrevLogIndex args <> 0) as Hne.
    { intros E. apply Ht. rewrite (Hp0 E), E. unfold term_at. change (Z.to_nat 0) with 0%nat. by rewrite Hs0. }
    destruct (conflictStart_run (Z.to_nat (PrevLogIndex args)) (r_log r) (term_at (r_log r) (PrevLogIndex args))
      (PrevLogIndex args)) as (Hk & Hsame & Hstop); [lia|]. cbn zeta in *.
    split_and!; try done; [lia..|]. right. split_and!; try done. intros i Hi.
    destruct (decide (i = PrevLogIndex args)) as [->|]; [done|]. apply Hsame. lia.
Qed.

(** A follower with two entries of term 1 where the leader has one of term 2. *)
Definition ex_behind : Raft :=
  mkRaft 1 [0; 2] 1 None_ [mkEntry 0 []; mkEntry 1 [Byte.x01]; mkEntry 1 [Byte.x02]] Follower None_ 0 0 0 ∅ ∅ None.
Definition ex_probe : AppendEntriesArgs := mkAE 2 0 2 2 [] 0.

Lemma AppendEntries_rejects_witness :
  ConflictIndex (fst (AppendEntries 9 true ex_probe ex_behind)) = 1 /\
  r_log (snd (AppendEntries 9 true ex_probe ex_behind)) = r_log ex_behind.
Proof.
  split; [vm_compute; reflexivity|].
  destruct (AppendEntries_rejects 9 ex_probe ex_behind (fst (AppendEntries 9 true ex_probe ex_behind))
    (snd (AppendEntries 9 true ex_probe ex_behind))) as [(Hlt & _)|(_ & _ & Hl & _)].
  - vm_compute. reflexivity.
  - reflexivity.
  - vm_compute. discriminate.
  - vm_compute. discriminate.
  - vm_compute. reflexivity.
  - vm_compute in Hlt. discriminate Hlt.
  - exact Hl.
Defined.

(** Log repair ends.  Whatever a follower's log is, a leader whose term is not
    older brings it up to date by exchanges with it alone: afterwards the
    follower has the leader's whole log and knows what is committed, the
    leader has recorded that, and no other member has changed. *)
Theorem raft_log_repair ids evs c id p r rp :
  members ids -> run evs (boot ids) = Some c -> nodes c !! id = Some r -> nodes c !! p = Some rp -> p <> id ->
  r_state r = Leader -> currentTerm rp <= currentTerm r ->
  exists evs' c' r' rp', run evs' c = Some c' /\ nodes c' = <[id := r']> (<[p := rp']> (nodes c)) /\
    leads r r' /\ follows r rp' /\ matchIndex r' !! p = Some (lastIndex (r_log r)).
Proof.
  intros Hmem Hrun Hr Hrp Hne Hl HT. pose proof (reach_ok ids Hmem _ _ Hrun) as Hc.
  destruct (repair ids Hmem c id p r rp Hc Hr Hrp Hne Hl HT) as (evs' & c' & r' & rp' & H1 & H2 & _ & H3 & H4 & H5 & _).
  exists evs', c', r', rp'. split_and!; try done. by rewrite H5, lookup_insert_eq.
Qed.

Lemma raft_log_repair_witness :
  exists evs c r' rp', run evs ex_end = Some c /\ follows (ex_node ex_end 1) rp' /\
    nodes c = <[1 := r']> (<[2 := rp']> (nodes ex_end)).
Proof.
  destruct (raft_log_repair ex_ids (ex_first ++ ex_second) ex_end 1 2 (ex_node ex_end 1) (ex_node ex_end 2))
    as (evs & c & r' & rp' & Hrun & Hn & _ & Hf & _).
  - apply ex_members.
  - vm_compute. reflexivity.
  - vm_compute. reflexivity.
  - vm_compute. reflexivity.
  - discriminate.
  - vm_compute. reflexivity.
  - vm_compute. discriminate.
  - exists evs, c, r', rp'. split; [exact Hrun|]. split; [exact Hf|exact Hn].
Defined.
